(* ===== verification/_CoqProject ===== *)
-Q . S2P
Prelude.v
GoLang.v
GoFloat.v
FloatOrder.v
GoText.v
GoStrings.v
Rfc3339.v
Quantity.v
Kube.v
PolicyApi.v
WlrApi.v
Owners.v
Autoscaler.v
Shards.v
Client.v
Lru.v
ReadThrough.v
Governance.v
Resources.v
Signals.v
Coordination.v
WlrRead.v
WlrWrite.v
Inventory.v
Limits.v
Compute.v
Inject.v
Match.v
Patcher.v
Apply.v
Ledger.v
Publisher.v
OomTrace.v
Webhook.v
Stub.v
Assemble.v
Pass.v
Reconciler.v
History.v
OomCache.v
Watcher.v
PromInputs.v
Params.v
PromQL.v
Queries.v
Board.v
Overview.v
Charts.v
LiveInputs.v
Simulate.v
HistoryInputs.v
HttpLayer.v
Detail.v
Settings.v
Transport.v
CachedClient.v
Serve.v
Flags.v
PromClient.v
Start.v
Routes.v
AdmissionHttp.v
