(* ===== verification/Prelude.v ===== *)
(** * k8s-sustain: a verification library for the right-sizing operator

    k8s-sustain sizes the CPU and memory of Kubernetes workloads. A Policy says
    which pods it governs and how to size them; the controller computes a
    Recommendation per identity (a namespace, a kind and a name of an owner)
    from usage Prometheus records, stores it in a WorkloadRecommendation, and
    resizes or evicts running pods toward it; the webhook applies the stored
    object to pods being created; the OOM watcher keeps the kills that raise a
    memory request; the dashboard shows all of it and simulates changes. This
    library models those parts from the Go source, function by function, and
    proves what makes them correct.

    ** Conventions

    A definition has the name of the function, method or type it models; a
    part of a function that is a definition of its own is named after what it
    does. A record's field has the Go field's name, with a prefix where two
    records share one. Integers are [Z] with [wrap64] where the source can
    overflow; floats are IEEE 754 binary64 ([SpecFloat]); a Go [map] is a
    [gmap]; an error is a value of [error] and a call that can fail answers a
    [result]. A panic is [None] or a constructor of its own, and theorems show
    where none can occur. State that several calls share is threaded through;
    what runs concurrently is a step relation, and a theorem about it is of
    every interleaving. What is outside the repository is an argument: the API
    server's answers, the clock, Prometheus, [resource.Quantity] ([QuantityOps]
    with [QuantityLaws], and [nano_quantity] that satisfies them), selectors and
    the like of Kubernetes ([KubeOps], [KubeLaws]), float conversions Go leaves
    to the platform ([Platform]). Theorems with hypotheses are followed, in
    their file, by a witness: the theorem applied at a concrete input.

    ** The language: [Prelude], [GoLang], [GoFloat], [FloatOrder], [GoText],
       [GoStrings], [Rfc3339]

    Automation and lemmas on lists, maps and orders; [time], [math], [strconv]
    and [strings] as far as the program uses them; that scaling integers by
    percentages in binary64 is exact within its bounds; that an RFC 3339 instant
    reads back.

    ** Data: [Quantity], [Kube], [PolicyApi], [WlrApi]

    The API objects ([api/v1alpha1] and the parts of Kubernetes' the program
    reads), and the validation the CRD enforces.

    ** The recommender: [Resources], [Signals], [Coordination], [Limits],
       [Compute], [Assemble], [History], [OomTrace] ([internal/recommender])

    From assembled inputs to requests and limits: the base percentile, the OOM
    floor, headroom, bounds, autoscaler coordination, the limit strategies and
    the guard, in the order of their stages. [recommendation_admissible] (never a
    limit under its request), [request_within_bounds], [Compute_spec] (the whole
    answer said of the inputs alone: who is answered, at what, and why not),
    [oom_floor_kept], [published_floors] (the floors read back from the trace's
    text) and [computeRange_replays] (a history is [Compute] replayed) are its
    theorems.

    ** Prometheus: [Shards], [PromQL], [Client], [Queries], [PromInputs],
       [HistoryInputs], [LiveInputs], [Transport], [PromClient]
       ([internal/prometheus], [prom_inputs.go], [signal_oom.go])

    How candidates are packed into batched queries, what a query's text selects,
    the circuit breaker and the in-flight slots, what an answer means, how
    signals are read with retries down to one identity, how the kills of the
    watcher's cache are merged into what was read, and how a client with its
    transport and TLS settings is built. [shard_queries_exact] reads the text of a
    query back: no name can widen what it selects. [query_reports] shows a query a
    run of the client's steps; [BuildShards_partition], [one_probe_per_cooldown],
    [FetchInputs_settles], [FetchHistory_shaped] (each instant holds the points
    read nearest to it, and none indexes outside the span), [live_kills_counted],
    [transport_resolved] and [transport_sends] are the others.

    ** Ownership and governance: [Owners], [Autoscaler], [Governance],
       [Inventory] ([internal/workload], [internal/autoscaler],
       [internal/governance], [internal/inventory])

    From a pod to its identity; who governs it, where opt-ins and refusals come
    from; and the snapshot of every identity with its members.
    [Decide_governs] shows the walk, with its order of reads and its pre-gate,
    equal to declarative rules; [Take_members] specifies the snapshot.

    ** The stored recommendation: [WlrRead], [WlrWrite] ([internal/wlrcache])

    What an object means to its readers and when it is Fresh, Stale or
    servable; what each writer writes. [Record_served], [Expired_not_servable],
    [observed_round_trip].

    ** Applying: [Inject], [Match], [Patcher], [Apply] ([internal/workload])

    The writes a recommendation makes to containers, shared by the webhook and
    the controller; the plan of a running pod under the Policy's tolerance; and
    the calls that carry plans out. [Patcher] is over the class [PodClient], so
    the theorems hold of whatever the API server answers and however long it
    takes: [planFor_converges] (a plan carried out leaves nothing to do),
    [recycle_evicts_allowed], [recycle_paced] (one eviction at a time, until
    its replacement is Ready), [Apply_spares].

    ** The controller: [Ledger], [Publisher], [Pass], [Reconciler]
       ([internal/ledger], [internal/controller])

    The memory of each member's retries, the series exported, one pass of a
    Policy over its snapshot, and the reconciler that runs passes, writes the
    Ready condition and tears down a deleted Policy. A pass composes the
    inventory, the recommender, the writers, [Apply] and the ledger as the
    source does. [applies_what_is_stored], [backoff_doubles],
    [no_series_outlives], [controller_invariant] (the states of ledger and
    publisher, under any run of reconciles and kills),
    [deletion_releases_first], [Ready_reports].

    ** The webhook: [Webhook], [Stub], [CachedClient], [Serve], [AdmissionHttp]
       ([internal/webhook], [internal/k8s], [internal/httpx/server.go],
       [cmd/webhook])

    The decision of an admission and its patch, the detached goroutines that
    request a recommendation, the informers an admission reads, the process
    from its start to its exit, and a request from its bytes to its answer.
    [admission_patches], [cached_decision] (the owner caches lose nothing) and
    [admitted_settles], which joins the two sides: a pod the webhook sized is one
    the controller leaves alone. [stub_invariant] holds under every interleaving
    of the goroutines, and [webhook_stops] of those, the requests, a signal and
    the clock; [startup_settles] and [start_ready] are of the start,
    [admission_answered] of the exchange.

    ** OOM kills and caches: [OomCache], [Watcher], [Lru], [ReadThrough]
       ([internal/oomwatch], [internal/cache])

    [kill_recorded_once]; [Run_spec], what the sweeps leave; [lru_refines], that the linked list with addresses and
    a heap does what the list of its entries says; [single_flight] and
    [waiting_ends] of the read-through cache, over every interleaving.

    ** The dashboard: [Params], [Board], [Overview], [Charts], [Simulate],
       [Detail], [HttpLayer], [Routes] ([internal/dashboard],
       [internal/httpx])

    Reading requests; one board of health that the lists, the Overview and the
    detail page share ([overview_agrees], [list_stable], [detail_agrees],
    [summary_truest]); charts and Simulations ([charts_agree];
    [simulation_parity], that a Simulation is what the controller decides of an
    identity its watcher holds no live kill of;
    [violations_admission] and [override_admitted], that its settings are held
    to the CRD's rules); pages of a list ([pages_cover]); framing of responses
    ([gzip_framed], [cors_allowlisted]); routing and the links of the pages
    ([dispatch_exact], [links_read_back], [pages_served]), the kinds
    ([kinds_named]) and what telemetry observes ([requests_observed]). Some
    Examples record where the code departs from its comments: [page_panics],
    [range_guard_wraps], [early_range_ignored], [early_hints_mislabelled],
    [dotted_page_missing], [SpanOf_not_finest], [decimal_minimum_fraction].

    ** Configuration and start: [Settings], [Flags], [Start]
       ([internal/config], [cert.go], [cmd/controller], [cmd/dashboard])

    What the commands bind and load ([loads_what_is_bound], [bindings_distinct],
    [defaults_load], [config_complete]), the reload of the webhook's certificate
    ([certificate_last_good]), and what the controller and the dashboard are made
    of ([controller_wired], [dashboard_wired], [in_place_exact]).

    ** Fuel

    [waitLoop] of [Patcher] polls until its timeout. [poll_fuel] is the timeout
    over the poll interval, two more: the clock moves by the interval at each
    poll, so the deadline is met before the fuel is spent, which is proved there.
    [startupFuel] of [CachedClient] is one more than the waits of two seconds that
    can begin in the two minutes its kinds share, and [NewCached_returns] is
    proved of it. [readMatchers] of [PromQL] has the length of its text, and each matcher is
    at least a character of it; the digits of a number have its logarithm. Other
    recursion is structural, and the loops of goroutines are step relations,
    with termination by a measure where a caller waits on them.

    ** Not modelled

    The text of log lines and of error messages beyond what is tested of an
    error; JSON encoding and decoding, merge patches included ([applyPatch] is a
    parameter); the parsing of PEM and X.509; the embedded files and the bytes
    [net/http] serves of them; the declarations of commands, loggers, schemes and
    metrics ([cmd/controller/root.go], [internal/logging], the [metrics.go]
    files); the manager of controller-runtime and its event sources; the
    contracts of signals with the chart's recording rules, which only the checks
    of [hack] read; generated deep copies; those checks and the fixtures of the
    tests. Time zones, locales and non-ASCII text are outside the model where a
    file's header says so. *)

From stdpp Require Export base tactics option list gmap strings sorting.
From Stdlib Require Export ZArith Lia.

#[export] Set Warnings "-clear-no-such-hyp".

(** ** Automation *)

(** The lemmas that close the routine goals of the components. *)
Create HintDb sustain.

(** Splits the innermost [match] or [if] of the goal or of a hypothesis. *)
Ltac case_match_goal :=
  match goal with
  | |- context [ match ?x with _ => _ end ] =>
      lazymatch x with
      | context [ match _ with _ => _ end ] => fail
      | _ => destruct x eqn:?
      end
  end.

Ltac case_match_hyp :=
  match goal with
  | H : context [ match ?x with _ => _ end ] |- _ =>
      lazymatch x with
      | context [ match _ with _ => _ end ] => fail
      | _ => destruct x eqn:?
      end
  end.

Ltac split_cases := repeat first [ case_match_goal | case_match_hyp ]; simplify_eq/=.

(** Turns boolean tests into propositions. *)
Ltac bool_props :=
  repeat match goal with
  | H : (_ && _)%bool = true |- _ => apply andb_prop in H as [? ?]
  | H : (_ || _)%bool = false |- _ => apply orb_false_elim in H as [? ?]
  | H : negb _ = true |- _ => apply negb_true_iff in H
  | H : negb _ = false |- _ => apply negb_false_iff in H
  | H : bool_decide _ = true |- _ => apply bool_decide_eq_true in H
  | H : bool_decide _ = false |- _ => apply bool_decide_eq_false in H
  | H : Z.eqb _ _ = true |- _ => apply Z.eqb_eq in H
  | H : Z.eqb _ _ = false |- _ => apply Z.eqb_neq in H
  | H : Z.leb _ _ = true |- _ => apply Z.leb_le in H
  | H : Z.leb _ _ = false |- _ => apply Z.leb_gt in H
  | H : Z.ltb _ _ = true |- _ => apply Z.ltb_lt in H
  | H : Z.ltb _ _ = false |- _ => apply Z.ltb_ge in H
  end.

(** Decides a closed goal by running its decision procedure. *)
Ltac by_evaluation := apply (bool_decide_unpack _); vm_compute; exact I.

(** An equality of closed terms, by running both sides. *)
Ltac by_running := match goal with |- _ = ?y => vm_cast_no_check (eq_refl y) end.

(** ** Sorting

    [slices.SortFunc] and [slices.SortStableFunc] of Go: insertion sort by a
    three-way comparison, keeping the order of elements that compare equal. *)
Section Sorting.
Context {A : Type} (cmp : A → A → comparison).

Fixpoint insert_by (x : A) (l : list A) : list A :=
  match l with
  | [] => [x]
  | y :: l' => match cmp x y with Gt => y :: insert_by x l' | _ => x :: l end
  end.

Definition sort_by (l : list A) : list A := foldr insert_by [] l.

Lemma insert_by_perm x l : insert_by x l ≡ₚ x :: l.
Proof.
  induction l as [|y l IH]; simpl; [done|].
  destruct (cmp x y); try done. rewrite IH. apply Permutation_swap.
Qed.

Lemma sort_by_perm l : sort_by l ≡ₚ l.
Proof. induction l as [|x l IH]; simpl; [done|]. by rewrite insert_by_perm, IH. Qed.

Lemma elem_of_sort_by x l : x ∈ sort_by l ↔ x ∈ l.
Proof. by rewrite sort_by_perm. Qed.

Lemma length_sort_by l : length (sort_by l) = length l.
Proof. by rewrite sort_by_perm. Qed.

Lemma NoDup_sort_by l : NoDup l → NoDup (sort_by l).
Proof. by rewrite sort_by_perm. Qed.

(** A comparison sorts when it is antisymmetric and orders transitively;
    elements it calls equal need not be the same. *)
Definition cmp_le (x y : A) : Prop := cmp x y ≠ Gt.

Class PreCmp : Prop := {
  cmp_antisym : ∀ x y, cmp y x = CompOpp (cmp x y);
  cmp_le_trans : ∀ x y z, cmp_le x y → cmp_le y z → cmp_le x z;
}.

Lemma insert_by_sorted `{!PreCmp} x l :
  StronglySorted cmp_le l → StronglySorted cmp_le (insert_by x l).
Proof.
  induction 1 as [|y l Hl IH Hy]; simpl; [repeat constructor|].
  destruct (cmp x y) eqn:E; [| |constructor; [done|]].
  1,2: assert (cmp_le x y) by (unfold cmp_le; congruence).
  1,2: constructor; [by constructor|]; constructor; [done|].
  1,2: eapply Forall_impl; [exact Hy|]; eauto using cmp_le_trans.
  rewrite insert_by_perm. constructor; [|done].
  unfold cmp_le. by rewrite cmp_antisym, E.
Qed.

Lemma sort_by_sorted `{!PreCmp} l : StronglySorted cmp_le (sort_by l).
Proof. induction l; simpl; [constructor|]. by apply insert_by_sorted. Qed.
End Sorting.

(** [cmp.Or]: the first comparison that is not equal. *)
Definition cmp_or (c1 c2 : comparison) : comparison :=
  match c1 with Eq => c2 | _ => c1 end.

Section CmpInstances.
Context {A B : Type}.

Lemma cmp_on_pre (f : B → A) cmp :
  PreCmp cmp → PreCmp (λ x y, cmp (f x) (f y)).
Proof. intros H. split; intros; [apply H|]. unfold cmp_le in *. by eapply H. Qed.

(** The comparison with its arguments swapped: a descending sort. *)
Lemma cmp_desc_pre (cmp : A → A → comparison) :
  PreCmp cmp → PreCmp (λ x y, cmp y x).
Proof. intros H. split; intros; [apply H|]. unfold cmp_le in *. by eapply H. Qed.

Lemma pre_cmp_lt_le (cmp : A → A → comparison) `{!PreCmp cmp} x y z :
  cmp x y = Lt → cmp y z ≠ Gt → cmp x z = Lt.
Proof.
  intros H1 H2.
  destruct (cmp x z) eqn:E; [exfalso|done|exfalso].
  - assert (cmp y x ≠ Gt) as []; [|by rewrite (cmp_antisym cmp x y), H1].
    eapply (cmp_le_trans cmp _ z); [done|]. unfold cmp_le.
    by rewrite (cmp_antisym cmp x z), E.
  - eapply (cmp_le_trans cmp x y z); unfold cmp_le; congruence.
Qed.

Lemma pre_cmp_le_lt (cmp : A → A → comparison) `{!PreCmp cmp} x y z :
  cmp x y ≠ Gt → cmp y z = Lt → cmp x z = Lt.
Proof.
  intros H1 H2.
  destruct (cmp x z) eqn:E; [exfalso|done|exfalso].
  - assert (cmp z y ≠ Gt) as []; [|by rewrite (cmp_antisym cmp y z), H2].
    eapply (cmp_le_trans cmp _ x); [|done]. unfold cmp_le.
    by rewrite (cmp_antisym cmp x z), E.
  - eapply (cmp_le_trans cmp x y z); unfold cmp_le; congruence.
Qed.

Lemma cmp_or_pre (c1 c2 : A → A → comparison) :
  PreCmp c1 → PreCmp c2 → PreCmp (λ x y, cmp_or (c1 x y) (c2 x y)).
Proof.
  intros H1 H2. split; unfold cmp_or, cmp_le.
  - intros x y. rewrite (cmp_antisym c1 x y), (cmp_antisym c2 x y).
    by destruct (c1 x y).
  - intros x y z.
    destruct (c1 x y) eqn:E1, (c1 y z) eqn:E2; try done.
    + intros. assert (c1 x z = Eq) as ->; [|by eapply H2].
      destruct (c1 x z) eqn:E; [done|exfalso|exfalso].
      * assert (c1 z x ≠ Gt) as []; [|by rewrite (cmp_antisym c1 x z), E].
        apply (cmp_le_trans c1 z y x); unfold cmp_le.
        -- by rewrite (cmp_antisym c1 y z), E2.
        -- by rewrite (cmp_antisym c1 x y), E1.
      * apply (cmp_le_trans c1 x y z); unfold cmp_le; congruence.
    + by rewrite (pre_cmp_le_lt c1 x y z) by congruence.
    + by rewrite (pre_cmp_lt_le c1 x y z) by congruence.
    + by rewrite (pre_cmp_lt_le c1 x y z) by congruence.
Qed.
End CmpInstances.

#[export] Instance string_compare_pre : PreCmp String.compare.
Proof.
  assert (Hle : ∀ s t, String.compare s t ≠ Gt ↔ String.le s t).
  { intros s t. unfold String.le, String.leb. by destruct (String.compare s t). }
  split; [intros; apply String.compare_antisym|].
  intros x y z. unfold cmp_le. rewrite !Hle. apply transitivity.
Qed.

#[export] Instance Z_compare_pre : PreCmp Z.compare.
Proof. split; [intros; apply Z.compare_antisym|]. exact Z.le_trans. Qed.

(** ** Membership and partitions of lists *)

Lemma existsb_exists_elem {A} (f : A → bool) l :
  existsb f l = true ↔ ∃ x, x ∈ l ∧ f x = true.
Proof. rewrite existsb_exists. by setoid_rewrite list_elem_of_In. Qed.

Lemma forallb_forall_elem {A} (f : A → bool) l :
  forallb f l = true ↔ ∀ x, x ∈ l → f x = true.
Proof. rewrite forallb_forall. by setoid_rewrite list_elem_of_In. Qed.

Lemma elem_of_concat {A} (x : A) (ls : list (list A)) : x ∈ concat ls ↔ ∃ l, x ∈ l ∧ l ∈ ls.
Proof. rewrite list_elem_of_In, in_concat. setoid_rewrite list_elem_of_In. naive_solver. Qed.

(** [slices.Contains] *)
Definition contains {A} `{EqDecision A} (x : A) (l : list A) : bool := bool_decide (x ∈ l).

(** The entries of a list indexed from [i], as a Go [for i, x := range]. *)
Definition indexed_from {A} (i : nat) (l : list A) : list (nat * A) := imap (λ j x, (i + j, x)) l.

(** A sort is determined by its elements when the comparison tells them apart. *)
Lemma sort_by_unique {A} (cmp : A → A → comparison) `{!PreCmp cmp} l l' :
  l ≡ₚ l' → (∀ x y, x ∈ l → y ∈ l → cmp x y = Eq → x = y) →
  sort_by cmp l = sort_by cmp l'.
Proof.
  intros Hp Heq. apply (StronglySorted_unique_strong (cmp_le cmp)).
  - intros x y Hx Hy Hxy Hyx. apply elem_of_sort_by in Hx. apply elem_of_sort_by in Hy.
    rewrite <-Hp in Hy. apply Heq; [done|done|].
    unfold cmp_le in *. rewrite (cmp_antisym cmp x y) in Hyx. by destruct (cmp x y).
  - by apply sort_by_sorted.
  - by apply sort_by_sorted.
  - by rewrite !sort_by_perm.
Qed.

(** Splitting a list by a key over the keys that occur. *)
Lemma perm_filter_keys {A K} `{EqDecision K} (key : A → K) (keys : list K) (l : list A) :
  NoDup keys → (∀ x, x ∈ l → key x ∈ keys) →
  concat (map (λ k, filter (λ x, key x = k) l) keys) ≡ₚ l.
Proof.
  revert l. induction keys as [|k keys IH]; intros l Hnd Hin; simpl.
  - destruct l as [|x l]; [done|]. exfalso. eapply not_elem_of_nil, Hin. by left.
  - apply NoDup_cons in Hnd as [Hk Hnd].
    etrans; [|apply (filter_app_complement (λ x, key x = k))].
    apply Permutation_app_head.
    etrans; [|apply IH; [done|]].
    + apply reflexive_eq. f_equal. apply map_ext_in.
      intros k' Hk'%list_elem_of_In. rewrite list_filter_filter.
      apply list_filter_iff. intros x. split; [|tauto].
      intros Hx. split; [done|]. intros Hx'. congruence.
    + intros x [Hne Hx]%list_elem_of_filter. apply Hin in Hx as [?|?]%elem_of_cons; done.
Qed.

Lemma sort_by_map {A B} (f : B → A) (cmp : A → A → comparison) l :
  sort_by cmp (map f l) = map f (sort_by (λ x y, cmp (f x) (f y)) l).
Proof.
  assert (Hi : ∀ x l', insert_by cmp (f x) (map f l') = map f (insert_by (λ x y, cmp (f x) (f y)) x l')).
  { intros x l'. induction l' as [|y l' IH]; simpl; [done|].
    destruct (cmp (f x) (f y)); simpl; by rewrite ?IH. }
  induction l as [|x l IH]; simpl; [done|]. by rewrite IH, Hi.
Qed.

(** A list of runs of mapped elements is a list of mapped runs. *)
Lemma concat_eq_map {A B} (f : B → A) (l : list B) (ls : list (list A)) :
  concat ls = map f l → ∃ ls', ls = map (map f) ls' ∧ concat ls' = l.
Proof.
  revert l. induction ls as [|x ls IH]; intros l H; simpl in H.
  - destruct l; [by exists []|done].
  - symmetry in H. apply map_eq_app in H as (l1 & l2 & -> & <- & H2).
    destruct (IH l2 (eq_sym H2)) as (ls' & -> & <-). by exists (l1 :: ls').
Qed.

(** Sums over a list. *)
Definition sum_by {A} (f : A → Z) (l : list A) : Z := foldr (λ x a, (f x + a)%Z) 0%Z l.

Lemma sum_by_app {A} (f : A → Z) l l' : sum_by f (l ++ l') = (sum_by f l + sum_by f l')%Z.
Proof. induction l; simpl; lia. Qed.

#[export] Instance sum_by_perm {A} (f : A → Z) : Proper (Permutation ==> eq) (sum_by f).
Proof. intros l l'. induction 1; simpl; lia. Qed.

Lemma sum_by_nonneg {A} (f : A → Z) l : (∀ x, x ∈ l → 0 ≤ f x)%Z → (0 ≤ sum_by f l)%Z.
Proof.
  induction l as [|x l IH]; intros H; simpl; [done|].
  pose proof (H x ltac:(by left)). assert (0 ≤ sum_by f l)%Z; [|lia].
  apply IH. intros. apply H. by right.
Qed.

Lemma sum_by_submseteq {A} (f : A → Z) l l' :
  (∀ x, x ∈ l' → 0 ≤ f x)%Z → l ⊆+ l' → (sum_by f l ≤ sum_by f l')%Z.
Proof.
  intros H Hs. apply submseteq_Permutation in Hs as [k Hk]. rewrite Hk, sum_by_app.
  assert (0 ≤ sum_by f k)%Z; [|lia]. apply sum_by_nonneg. intros x Hx. apply H.
  rewrite Hk. apply elem_of_app. by right.
Qed.

Lemma foldl_pointwise {A B} (f g : A → B → A) l a : (∀ a b, f a b = g a b) → foldl f a l = foldl g a l.
Proof. intros Hfg. revert a. induction l as [|b l IH]; intros a; [done|]. cbn [foldl]. by rewrite Hfg. Qed.

(** Filling a map in a loop, keyed without repetition. *)
Lemma lookup_fold_insert {A V K} {KE : EqDecision K} {KC : Countable K} (k : A → K) (f : A → option V) l n v :
  NoDup (map k l) →
  foldl (λ (m : gmap K V) x, match f x with Some w => <[k x := w]> m | None => m end) ∅ l !! n
    = Some v ↔ ∃ x, x ∈ l ∧ k x = n ∧ f x = Some v.
Proof.
  induction l as [|x l IH] using rev_ind; intros Hnd.
  { simpl. rewrite lookup_empty. split; [done|]. by intros (x & ?%not_elem_of_nil & _). }
  rewrite map_app in Hnd. apply NoDup_app in Hnd as (Hnd & Hx & _).
  assert (Hne : ∀ y, y ∈ l → k y ≠ k x).
  { intros y Hy E. apply (Hx (k y)); [by apply list_elem_of_fmap_2|]. rewrite E. by left. }
  specialize (IH Hnd). rewrite foldl_app. cbn [foldl].
  transitivity ((∃ y, y ∈ l ∧ k y = n ∧ f y = Some v) ∨ (k x = n ∧ f x = Some v)).
  - rewrite <-IH. destruct (f x) as [w|] eqn:E; [|naive_solver].
    destruct (decide (k x = n)) as [Hn|Hn].
    + rewrite Hn, lookup_insert_eq. split; [naive_solver|]. intros [H|H]; [|naive_solver].
      apply IH in H as (y & Hy & Hk & _). subst n. by destruct (Hne y Hy).
    + rewrite lookup_insert_ne by done. naive_solver.
  - setoid_rewrite elem_of_app. setoid_rewrite list_elem_of_singleton. naive_solver.
Qed.

Lemma fold_insert_perm {A V K} {KE : EqDecision K} {KC : Countable K} (k : A → K) (f : A → V) l l' :
  NoDup (map k l) → l ≡ₚ l' →
  foldl (λ (m : gmap K V) x, <[k x := f x]> m) ∅ l = foldl (λ (m : gmap K V) x, <[k x := f x]> m) ∅ l'.
Proof.
  intros Hnd Hp. apply map_eq. intros n. apply option_eq. intros v.
  rewrite (lookup_fold_insert k (Some ∘ f) l n v) by done.
  rewrite (lookup_fold_insert k (Some ∘ f) l' n v) by (by rewrite <-Hp). by setoid_rewrite Hp.
Qed.

(** Filling a map with fresh keys adds exactly the new entries. *)
Lemma NoDup_map_inj {A B} (f : A → B) l x y :
  NoDup (map f l) → x ∈ l → y ∈ l → f x = f y → x = y.
Proof.
  induction l as [|z l IH]; [by intros _ ?%not_elem_of_nil|]. cbn [map].
  intros [Hz Hnd]%NoDup_cons [->|Hx]%elem_of_cons [->|Hy]%elem_of_cons Heq; [done| | |by apply IH].
  - destruct Hz. rewrite Heq. apply list_elem_of_fmap. eauto.
  - destruct Hz. rewrite <-Heq. apply list_elem_of_fmap. eauto.
Qed.

Lemma map_to_list_fold_insert {A V} (k : A → string) (v : A → V) l (m : gmap string V) :
  NoDup (map k l) → (∀ x, x ∈ l → m !! k x = None) →
  map_to_list (foldl (λ m x, <[k x := v x]> m) m l) ≡ₚ map (λ x, (k x, v x)) l ++ map_to_list m.
Proof.
  revert m. induction l as [|x l IH]; intros m Hnd Hm; [done|]. simpl in *.
  apply NoDup_cons in Hnd as [Hx Hnd].
  rewrite IH; [| done |].
  - rewrite map_to_list_insert by (apply Hm; by left). by rewrite <-Permutation_middle.
  - intros y Hy. rewrite lookup_insert_ne; [apply Hm; by right|].
    intros E. apply Hx. rewrite E. by apply list_elem_of_fmap_2.
Qed.

#[export] Instance List_filter_perm {A} (f : A → bool) : Proper (Permutation ==> Permutation) (List.filter f).
Proof. intros l l'. induction 1; simpl; split_cases; eauto using Permutation. Qed.

Lemma filter_all {A} (P : A → Prop) `{!∀ x, Decision (P x)} (l : list A) : (∀ x, x ∈ l → P x) → filter P l = l.
Proof.
  induction l as [|x l IH]; intros Hall; [done|]. rewrite filter_cons, decide_True by (apply Hall; by left).
  f_equal. apply IH. intros. apply Hall. by right.
Qed.

(** *** [List.filter] *)

Lemma elem_of_List_filter {A} (f : A → bool) l x : x ∈ List.filter f l ↔ f x = true ∧ x ∈ l.
Proof. rewrite !list_elem_of_In, filter_In. tauto. Qed.

Lemma NoDup_map_filter {A B} (g : A → B) (f : A → bool) l : NoDup (map g l) → NoDup (map g (List.filter f l)).
Proof.
  induction l as [|x l IH]; [done|]. cbn. intros [Hx Hnd]%NoDup_cons. destruct (f x); cbn; [|by apply IH].
  apply NoDup_cons. split; [|by apply IH]. intros (y & Hy & [_ Hin]%elem_of_List_filter)%list_elem_of_fmap.
  apply Hx. rewrite Hy. by apply list_elem_of_fmap_2.
Qed.

(** ** Sizes of maps *)

Lemma size_delete_le `{Countable K} {V} (k : K) (m : gmap K V) : size (delete k m) ≤ size m.
Proof. rewrite map_size_delete. destruct (m !! k); unfold id; lia. Qed.

Lemma size_delete_lt `{Countable K} {V} (k : K) (m : gmap K V) :
  is_Some (m !! k) → S (size (delete k m)) = size m.
Proof.
  intros Hk. rewrite map_size_delete_Some by done. assert (size m ≠ 0%nat); [|lia].
  intros H0%map_size_empty_inv. rewrite H0, lookup_empty in Hk. by destruct Hk.
Qed.

Lemma size_insert_old `{Countable K} {V} (k : K) (v : V) (m : gmap K V) :
  is_Some (m !! k) → size (<[k := v]> m) = size m.
Proof. intros [? Hk]. by rewrite map_size_insert, Hk. Qed.

Lemma size_insert_le `{Countable K} {V} (k : K) (v : V) (m : gmap K V) : size (<[k := v]> m) ≤ S (size m).
Proof. rewrite map_size_insert. destruct (m !! k); unfold id; lia. Qed.

(** ** Strings *)

Lemma length_append s t : String.length (s +:+ t) = (String.length s + String.length t)%nat.
Proof. induction s; simpl; [done|]. by rewrite IHs. Qed.

Lemma append_cancel_r (s1 s2 t : string) : (s1 +:+ t)%string = (s2 +:+ t)%string → s1 = s2.
Proof.
  revert s2. induction s1 as [|c s1 IH]; intros [|c' s2] E; [done| | |].
  - apply (f_equal String.length) in E. rewrite !length_append in E. cbn in E. lia.
  - apply (f_equal String.length) in E. rewrite !length_append in E. cbn in E. lia.
  - injection E as -> E. by rewrite (IH _ E).
Qed.
