(* ===== verification/GoLang.v ===== *)
(** * The parts of Go the program computes with

    Integers at their width, [time.Time] and [time.Duration], [float64] as IEEE
    754 binary64 ([SpecFloat] of the Standard Library, round to nearest even),
    the functions of [math] and the conversions the source uses. *)

From S2P Require Import Prelude.
From Stdlib Require Import SpecFloat.
Local Open Scope Z_scope.

(** ** Integers *)

Definition wrap (w z : Z) : Z := (z + 2 ^ (w - 1)) mod 2 ^ w - 2 ^ (w - 1).
Definition wrap64 : Z → Z := wrap 64.
Definition wrap32 : Z → Z := wrap 32.

Definition int64_min : Z := - 2 ^ 63.
Definition int64_max : Z := 2 ^ 63 - 1.
Definition int64_range (z : Z) : Prop := int64_min ≤ z ≤ int64_max.
Definition int32_range (z : Z) : Prop := - 2 ^ 31 ≤ z ≤ 2 ^ 31 - 1.

#[export] Instance int64_range_dec z : Decision (int64_range z).
Proof. unfold int64_range. apply _. Defined.

Lemma wrap64_id z : int64_range z → wrap64 z = z.
Proof.
  unfold int64_range, int64_min, int64_max, wrap64, wrap. intros.
  rewrite Z.mod_small; lia.
Qed.

Lemma wrap32_id z : int32_range z → wrap32 z = z.
Proof. unfold int32_range, wrap32, wrap. intros. rewrite Z.mod_small; lia. Qed.

Lemma wrap64_range z : int64_range (wrap64 z).
Proof.
  unfold int64_range, int64_min, int64_max, wrap64, wrap.
  pose proof (Z.mod_pos_bound (z + 2 ^ (64 - 1)) (2 ^ 64)). lia.
Qed.

Lemma wrap64_add_l a b : wrap64 (wrap64 a + b) = wrap64 (a + b).
Proof.
  unfold wrap64, wrap. f_equal.
  replace ((a + 2 ^ (64 - 1)) mod 2 ^ 64 - 2 ^ (64 - 1) + b + 2 ^ (64 - 1))
    with ((a + 2 ^ (64 - 1)) mod 2 ^ 64 + b) by lia.
  rewrite Z.add_mod_idemp_l by lia. f_equal. lia.
Qed.

Lemma wrap64_add_r a b : wrap64 (a + wrap64 b) = wrap64 (a + b).
Proof. by rewrite Z.add_comm, wrap64_add_l, Z.add_comm. Qed.

(** ** Instants and durations

    A [time.Duration] is an int64 of nanoseconds. A [time.Time] is the
    nanoseconds since the zero instant, which [IsZero] recognises; [Sub]
    saturates at the range of a Duration. *)

Abbreviation time := Z (only parsing).
Abbreviation duration := Z (only parsing).

Definition nanosecond : duration := 1.
Definition second : duration := 1000000000.
Definition minute : duration := 60 * second.
Definition hour : duration := 60 * minute.

Definition time_zero : time := 0.
Definition time_IsZero (t : time) : bool := t =? 0.
Definition time_Before (t u : time) : bool := t <? u.
Definition time_After (t u : time) : bool := u <? t.
Definition time_Add (t : time) (d : duration) : time := t + d.
Definition time_Sub (t u : time) : duration := Z.max int64_min (Z.min int64_max (t - u)).

Lemma time_Sub_exact t u : int64_range (t - u) → time_Sub t u = t - u.
Proof. unfold time_Sub, int64_range. lia. Qed.

Lemma time_Sub_range t u : int64_range (time_Sub t u).
Proof. unfold time_Sub, int64_range, int64_min, int64_max. lia. Qed.

(** ** Floating point *)

Abbreviation float64 := spec_float (only parsing).

Definition f_add : float64 → float64 → float64 := SFadd 53 1024.
Definition f_sub : float64 → float64 → float64 := SFsub 53 1024.
Definition f_mul : float64 → float64 → float64 := SFmul 53 1024.
Definition f_div : float64 → float64 → float64 := SFdiv 53 1024.
Definition f_ltb (x y : float64) : bool := SFltb x y.
Definition f_gtb (x y : float64) : bool := SFltb y x.
Definition f_zero : float64 := S754_zero false.

(** [float64(z)] of an integer. *)
Definition f_of_Z (z : Z) : float64 := binary_normalize 53 1024 z 0 false.

(** A decimal constant [n / d], rounded to nearest as the compiler rounds it;
    exact quotients and those of the source are. *)
Definition f_const (n d : Z) : float64 := f_div (f_of_Z n) (f_of_Z d).

Definition f_isNaN (x : float64) : bool := match x with S754_nan => true | _ => false end.

(** The builtins [max] and [min] of Go on floats. *)
Definition f_max (x y : float64) : float64 :=
  match x, y with
  | S754_nan, _ | _, S754_nan => S754_nan
  | S754_zero s, S754_zero t => S754_zero (s && t)
  | _, _ => if f_ltb x y then y else x
  end.

Definition f_min (x y : float64) : float64 :=
  match x, y with
  | S754_nan, _ | _, S754_nan => S754_nan
  | S754_zero s, S754_zero t => S754_zero (s || t)
  | _, _ => if f_ltb y x then y else x
  end.

(** The integers around the exact value [± m * 2 ^ e] of a finite float. *)
Definition sf_scaled (s : bool) (m : positive) (e : Z) : Z * Z :=
  let z := if s then Z.neg m else Z.pos m in
  if 0 <=? e then (z * 2 ^ e, 1) else (z, 2 ^ (- e)).

Definition f_floor (x : float64) : option Z :=
  match x with
  | S754_zero _ => Some 0
  | S754_finite s m e => let '(n, d) := sf_scaled s m e in Some (n / d)
  | _ => None
  end.

Definition f_ceilZ (x : float64) : option Z :=
  match x with
  | S754_zero _ => Some 0
  | S754_finite s m e => let '(n, d) := sf_scaled s m e in Some (- ((- n) / d))
  | _ => None
  end.

(** Towards zero, as a conversion to an integer type truncates. *)
Definition f_trunc (x : float64) : option Z :=
  match x with
  | S754_zero _ => Some 0
  | S754_finite s m e => let '(n, d) := sf_scaled s m e in Some (Z.quot n d)
  | _ => None
  end.

(** To nearest, halves away from zero. *)
Definition f_nearest (x : float64) : option Z :=
  match x with
  | S754_zero _ => Some 0
  | S754_finite s m e =>
      let '(n, d) := sf_scaled s m e in
      Some (Z.sgn n * ((2 * Z.abs n + d) / (2 * d)))
  | _ => None
  end.

Definition f_sign (x : float64) : bool :=
  match x with
  | S754_zero s | S754_infinity s | S754_finite s _ _ => s
  | S754_nan => false
  end.

(** An integer valued function of [math]: itself on zeros, infinities and NaN,
    the sign kept on a zero result. *)
Definition f_integral (round : float64 → option Z) (x : float64) : float64 :=
  match x, round x with
  | S754_finite s _ _, Some z => binary_normalize 53 1024 z 0 s
  | _, _ => x
  end.

Definition math_Ceil : float64 → float64 := f_integral f_ceilZ.
Definition math_Round : float64 → float64 := f_integral f_nearest.

(** [int64(x)] of a float the type cannot represent is implementation
    dependent: Go fixes no value. *)
Class Platform : Type := {
  unrepresentable_int64 : float64 → Z;
  unrepresentable_int32 : float64 → Z;
  unrepresentable_int64_range x : int64_range (unrepresentable_int64 x);
  unrepresentable_int32_range x : int32_range (unrepresentable_int32 x);
}.

Section Conversions.
Context `{Platform}.

Definition int64_of_float (x : float64) : Z :=
  match f_trunc x with
  | Some z => if decide (int64_range z) then z else unrepresentable_int64 x
  | None => unrepresentable_int64 x
  end.

Definition int32_of_float (x : float64) : Z :=
  match f_trunc x with
  | Some z => if (- 2 ^ 31 <=? z) && (z <=? 2 ^ 31 - 1) then z else unrepresentable_int32 x
  | None => unrepresentable_int32 x
  end.

Lemma int64_of_float_range x : int64_range (int64_of_float x).
Proof.
  unfold int64_of_float. pose proof (unrepresentable_int64_range x).
  destruct (f_trunc x); [|done]. by case_decide.
Qed.
End Conversions.

(** amd64, where the conversion yields the most negative integer. *)
Definition amd64 : Platform.
Proof.
  refine {| unrepresentable_int64 _ := int64_min; unrepresentable_int32 _ := - 2 ^ 31 |};
    intros; unfold int64_range, int32_range, int64_min, int64_max; lia.
Defined.

Example f_half_round : math_Round (f_const 5 2) = f_of_Z 3.
Proof. reflexivity. Qed.
Example f_ceil_1_2 :
  @int64_of_float amd64 (math_Ceil (f_mul (f_of_Z 100) (f_const 6 5))) = 120.
Proof. reflexivity. Qed.
Example f_ceil_1_1 :
  @int64_of_float amd64 (math_Ceil (f_mul (f_of_Z 100) (f_const 11 10))) = 111.
Proof. reflexivity. Qed.

(** ** Errors

    An [error] is a tree: a leaf made by [errors.New], a sentinel the program
    compares by identity, an API status with its HTTP code, a context deadline
    or cancellation, and the wrappers of [fmt.Errorf] and [errors.Join]. *)
#[warnings="-register-all"]
Inductive error :=
  | ErrorNew (msg : string)
  | Sentinel (name : string)
  | APIStatus (code : Z) (msg : string)
  | CtxErr
  | Errorf (msg : string) (wrapped : list error)
  | Join (errs : list error).

(** [errors.Is] for a sentinel. *)
Fixpoint errors_Is (e : error) (target : string) : bool :=
  match e with
  | Sentinel n => bool_decide (n = target)
  | Errorf _ es | Join es => existsb (λ e', errors_Is e' target) es
  | _ => false
  end.

(** [errors.Join(errs...)] of non-nil errors: nil for none. *)
Definition errors_Join (errs : list error) : option error :=
  match errs with [] => None | _ => Some (Join errs) end.

(** A call that may fail. *)
Definition result (A : Type) : Type := A + error.
Abbreviation Ok := inl.
Abbreviation Err := inr.

Definition rbind {A B} (r : result A) (f : A → result B) : result B :=
  match r with Ok a => f a | Err e => Err e end.

Declare Scope result_scope.
Delimit Scope result_scope with result.
Notation "x <-- e ;; k" := (rbind e (λ x, k))
  (at level 100, e at next level, right associativity) : result_scope.

(** ** Parsing integers: [strconv.ParseInt(s, 10, bits)] and [strconv.Atoi] *)

Definition digit (c : Ascii.ascii) : option Z :=
  let n := Z.of_N (Ascii.N_of_ascii c) in
  if (48 <=? n) && (n <=? 57) then Some (n - 48) else None.

Fixpoint parse_digits (acc : Z) (s : string) : option Z :=
  match s with
  | EmptyString => Some acc
  | String c s' => match digit c with Some d => parse_digits (10 * acc + d) s' | None => None end
  end.

Definition parse_unsigned (s : string) : option Z :=
  match s with EmptyString => None | _ => parse_digits 0 s end.

Definition ParseInt (s : string) (bits : Z) : option Z :=
  let signed (neg : bool) (s' : string) : option Z :=
    match parse_unsigned s' with
    | Some n =>
        let z := if neg then - n else n in
        if (- 2 ^ (bits - 1) <=? z) && (z <=? 2 ^ (bits - 1) - 1) then Some z else None
    | None => None
    end in
  match s with
  | String c s' =>
      (* '-' is 45 and '+' is 43 *)
      if (Ascii.N_of_ascii c =? 45)%N then signed true s'
      else if (Ascii.N_of_ascii c =? 43)%N then signed false s'
      else signed false s
  | EmptyString => None
  end.

Definition Atoi (s : string) : option Z := ParseInt s 64.

Example parse_80 : ParseInt "80" 32 = Some 80.
Proof. reflexivity. Qed.
Example parse_neg : ParseInt "-5" 32 = Some (-5).
Proof. reflexivity. Qed.
Example parse_overflow : ParseInt "2147483648" 32 = None.
Proof. reflexivity. Qed.

Lemma ParseInt_range s bits z :
  ParseInt s bits = Some z → - 2 ^ (bits - 1) ≤ z ≤ 2 ^ (bits - 1) - 1.
Proof.
  unfold ParseInt. intros H. destruct s as [|c s]; [done|].
  split_cases; bool_props; lia.
Qed.
