(* ===== verification/GoFloat.v ===== *)
(** * Exactness of binary64 arithmetic on integers

    What the recommender's scaling relies on: integers below 2^53 convert
    exactly, products of them stay exact, and the ceiling of a rounded quotient
    is the ceiling of the quotient while the dividend is below 2^52. *)

From S2P Require Import Prelude GoLang.
From Stdlib Require Import SpecFloat.
Local Open Scope Z_scope.

Abbreviation digits p := (Z.pos (digits2_pos p)).
Abbreviation fexp64 := (fexp 53 1024).
Abbreviation round_aux := (binary_round_aux 53 1024).

Lemma digits_log2 p : digits p = Z.log2 (Z.pos p) + 1.
Proof.
  induction p as [p IH|p IH|]; simpl digits2_pos; [| |done].
  - rewrite Pos2Z.inj_succ, IH, Pos2Z.inj_xI, Z.log2_succ_double by lia. lia.
  - rewrite Pos2Z.inj_succ, IH, Pos2Z.inj_xO, Z.log2_double by lia. lia.
Qed.

Lemma digits_bounds p : 2 ^ (digits p - 1) ≤ Z.pos p < 2 ^ digits p.
Proof.
  rewrite digits_log2. replace (Z.log2 (Z.pos p) + 1 - 1) with (Z.log2 (Z.pos p)) by lia.
  apply Z.log2_spec. lia.
Qed.

Lemma digits_le p k : 0 ≤ k → Z.pos p < 2 ^ k → digits p ≤ k.
Proof.
  intros. pose proof (digits_bounds p) as [Hlo _].
  destruct (decide (digits p ≤ k)); [done|exfalso].
  assert (2 ^ k ≤ 2 ^ (digits p - 1)) by (apply Z.pow_le_mono_r; lia). lia.
Qed.

Lemma digits_ge p k : 2 ^ k ≤ Z.pos p → k < digits p.
Proof.
  intros. pose proof (digits_bounds p) as [_ Hhi].
  destruct (decide (k < digits p)); [done|exfalso].
  assert (2 ^ digits p ≤ 2 ^ k) by (apply Z.pow_le_mono_r; lia). lia.
Qed.

Lemma iter_xO p d : Z.pos (Pos.iter xO p d) = Z.pos p * 2 ^ Z.pos d.
Proof.
  induction d as [|d IH] using Pos.peano_ind; [cbn; lia|].
  rewrite Pos.iter_succ, Pos2Z.inj_xO, IH, Pos2Z.inj_succ, Z.pow_succ_r by lia. lia.
Qed.

Lemma fexp64_eq e : fexp64 e = Z.max (e - 53) (-1074).
Proof. reflexivity. Qed.

(** ** Shifting a mantissa right *)

Lemma shr_1_m mrs : 0 ≤ shr_m mrs → shr_m (shr_1 mrs) = shr_m mrs / 2.
Proof.
  destruct mrs as [m r s]; simpl. destruct m as [|[p|p|]|]; intros; try lia; simpl.
  - done.
  - apply (Z.div_unique_pos _ _ _ 1); lia.
  - apply (Z.div_unique_pos _ _ _ 0); lia.
  - done.
Qed.

Lemma pow2_double n : 2 ^ Z.pos n~0 = 2 ^ Z.pos n * 2 ^ Z.pos n.
Proof. rewrite <-Z.pow_add_r by lia. f_equal. lia. Qed.

Lemma pow2_succ_double n : 2 ^ Z.pos n~1 = 2 * (2 ^ Z.pos n * 2 ^ Z.pos n).
Proof. rewrite <-Z.pow_add_r, <-Z.pow_succ_r by lia. f_equal. lia. Qed.

Lemma iter_shr_m n mrs :
  0 ≤ shr_m mrs → shr_m (iter_pos shr_1 n mrs) = shr_m mrs / 2 ^ Z.pos n.
Proof.
  assert (Hd : ∀ m k, 0 ≤ m → 0 < k → 0 ≤ m / k) by (intros; apply Z.div_pos; lia).
  revert mrs. induction n as [n IH|n IH|]; intros mrs H; cbn [iter_pos].
  - assert (0 < 2 ^ Z.pos n) by (apply Z.pow_pos_nonneg; lia).
    assert (H1 : 0 ≤ shr_m (shr_1 mrs)) by (rewrite shr_1_m by done; apply Hd; lia).
    rewrite IH by (rewrite IH by done; by apply Hd).
    rewrite IH, shr_1_m by done.
    rewrite Z.div_div by lia. rewrite Z.div_div by lia. f_equal.
    rewrite pow2_succ_double. lia.
  - assert (0 < 2 ^ Z.pos n) by (apply Z.pow_pos_nonneg; lia).
    rewrite IH by (rewrite IH by done; by apply Hd).
    rewrite IH, Z.div_div by lia. f_equal. by rewrite pow2_double.
  - by rewrite shr_1_m.
Qed.

Lemma shr_record_of_loc_m m l : shr_m (shr_record_of_loc m l) = m.
Proof. by destruct l as [|[]]. Qed.

(** The exponent [shr_fexp] ends at, and the mantissa it keeps there. *)
Lemma shr_fexp_spec p e l :
  let e' := Z.max e (fexp64 (digits p + e)) in
  let '(mrs, e'') := shr_fexp 53 1024 (Z.pos p) e l in
  e'' = e' ∧ shr_m mrs = Z.pos p / 2 ^ (e' - e) ∧
  (e' = e → loc_of_shr_record mrs = l).
Proof.
  unfold shr_fexp. cbn [Zdigits2]. set (f := fexp64 (digits p + e)). cbn zeta.
  unfold shr. destruct (f - e) eqn:E.
  - replace (Z.max e f) with e by lia. rewrite Z.sub_diag, Z.div_1_r.
    rewrite shr_record_of_loc_m. repeat split; try done. by destruct l as [|[]].
  - replace (Z.max e f) with f by lia.
    rewrite iter_shr_m, shr_record_of_loc_m by (rewrite shr_record_of_loc_m; lia).
    rewrite <-E. repeat split; lia.
  - replace (Z.max e f) with e by lia. rewrite Z.sub_diag, Z.div_1_r.
    rewrite shr_record_of_loc_m. repeat split; try done. by destruct l as [|[]].
Qed.

(** No bit is lost when the mantissa is a multiple of the shift. *)
Definition exact_record (m : Z) : shr_record :=
  {| shr_m := m; shr_r := false; shr_s := false |}.

Lemma shr_1_exact k : 0 ≤ k → shr_1 (exact_record (2 * k)) = exact_record k.
Proof. intros. by destruct k. Qed.

Lemma iter_shr_exact n k :
  0 ≤ k → iter_pos shr_1 n (exact_record (2 ^ Z.pos n * k)) = exact_record k.
Proof.
  revert k. induction n as [n IH|n IH|]; intros k Hk; cbn [iter_pos].
  - assert (0 < 2 ^ Z.pos n) by (apply Z.pow_pos_nonneg; lia).
    replace (2 ^ Z.pos n~1 * k) with (2 * (2 ^ Z.pos n * (2 ^ Z.pos n * k)))
      by (rewrite pow2_succ_double; lia).
    rewrite shr_1_exact by nia. by rewrite !IH by nia.
  - assert (0 < 2 ^ Z.pos n) by (apply Z.pow_pos_nonneg; lia).
    replace (2 ^ Z.pos n~0 * k) with (2 ^ Z.pos n * (2 ^ Z.pos n * k))
      by (rewrite pow2_double; lia).
    by rewrite !IH by nia.
  - by rewrite shr_1_exact.
Qed.

Lemma shr_fexp_exact p e k :
  let e' := Z.max e (fexp64 (digits p + e)) in
  0 ≤ k → Z.pos p = 2 ^ (e' - e) * k →
  shr_fexp 53 1024 (Z.pos p) e loc_Exact = (exact_record k, e').
Proof.
  unfold shr_fexp. cbn [Zdigits2]. set (f := fexp64 (digits p + e)). cbn zeta.
  intros Hk Hp. unfold shr, shr_record_of_loc. destruct (f - e) eqn:E.
  - replace (Z.max e f) with e in * by lia. rewrite Z.sub_diag, Z.mul_1_l in Hp.
    by rewrite Hp.
  - replace (Z.max e f) with f in * by lia. rewrite E in Hp. rewrite Hp.
    f_equal; [by apply iter_shr_exact|lia].
  - replace (Z.max e f) with e in * by lia. rewrite Z.sub_diag, Z.mul_1_l in Hp.
    by rewrite Hp.
Qed.

(** ** Rounding

    [rounds_to x s r e]: [x] is [± r * 2 ^ e] for a mantissa [r] of at most 53
    bits, or 2^53 itself. *)
Definition rounds_to (x : float64) (s : bool) (r e : Z) : Prop :=
  (r = 0 ∧ x = S754_zero s) ∨
  (∃ m e2, x = S754_finite s m e2 ∧ Z.pos m * 2 ^ (e2 - e) = r ∧
    (e2 = e ∨ (e2 = e + 1 ∧ r = 2 ^ 53))).

Lemma round_tail s r e :
  0 ≤ r ≤ 2 ^ 53 → -1074 ≤ e ≤ 0 →
  rounds_to
    (let '(mrs, e2) := shr_fexp 53 1024 r e loc_Exact in
     match shr_m mrs with
     | Z0 => S754_zero s
     | Z.pos m => if e2 <=? 1024 - 53 then S754_finite s m e2 else S754_infinity s
     | Z.neg _ => S754_nan
     end) s r e.
Proof.
  intros Hr He. destruct r as [|p|p]; [| |lia].
  - left. split; [done|]. unfold shr_fexp. cbn [Zdigits2].
    assert (fexp64 (0 + e) - e ≤ 0) by (rewrite fexp64_eq; lia).
    unfold shr. destruct (fexp64 (0 + e) - e) eqn:E; [done|lia|done].
  - right. destruct (decide (Z.pos p = 2 ^ 53)) as [Hp|Hp].
    + assert (Hd : digits p = 54) by (rewrite digits_log2, Hp; reflexivity).
      assert (He' : Z.max e (fexp64 (digits p + e)) = e + 1)
        by (rewrite Hd, fexp64_eq; lia).
      rewrite (shr_fexp_exact p e (2 ^ 52)).
      * rewrite He'. cbn [shr_m exact_record]. change (2 ^ 52) with (Z.pos 4503599627370496).
        destruct (Z.leb_spec (e + 1) (1024 - 53)); [|lia].
        exists 4503599627370496%positive, (e + 1). split; [done|]. split; [|by right].
        replace (e + 1 - e) with 1 by lia. rewrite Hp. reflexivity.
      * lia.
      * rewrite He'. replace (e + 1 - e) with 1 by lia. rewrite Hp. reflexivity.
    + assert (Hd : digits p ≤ 53) by (apply digits_le; lia).
      assert (He' : Z.max e (fexp64 (digits p + e)) = e) by (rewrite fexp64_eq; lia).
      rewrite (shr_fexp_exact p e (Z.pos p)).
      * rewrite He'. cbn [shr_m exact_record].
        destruct (Z.leb_spec e (1024 - 53)); [|lia].
        exists p, e. split; [done|]. split; [by rewrite Z.sub_diag, Z.mul_1_r|by left].
      * lia.
      * by rewrite He', Z.sub_diag, Z.mul_1_l.
Qed.

Lemma round_nearest_even_bounds m l :
  m ≤ round_nearest_even m l ≤ m + 1.
Proof. destruct l as [|[]]; simpl; try lia. destruct (Z.even m); lia. Qed.

Lemma div_pow2_lt p n : 0 ≤ n → digits p - n ≤ 53 → Z.pos p / 2 ^ n < 2 ^ 53.
Proof.
  intros. apply Z.div_lt_upper_bound; [lia|].
  rewrite <-Z.pow_add_r by lia. pose proof (digits_bounds p) as [_ ?].
  eapply Z.lt_le_trans; [done|]. apply Z.pow_le_mono_r; lia.
Qed.

(** Rounding keeps the bits above the final exponent and adds at most one. *)
Lemma round_aux_value s p e l :
  let e1 := Z.max e (fexp64 (digits p + e)) in
  e1 ≤ 0 →
  ∃ r, rounds_to (round_aux s (Z.pos p) e l) s r e1 ∧
       Z.pos p / 2 ^ (e1 - e) ≤ r ≤ Z.pos p / 2 ^ (e1 - e) + 1.
Proof.
  cbn zeta. intros He1. set (e1 := Z.max e (fexp64 (digits p + e))) in *.
  assert (Hn : 0 ≤ e1 - e) by lia.
  assert (Hf : fexp64 (digits p + e) ≤ e1) by lia. rewrite fexp64_eq in Hf.
  pose proof (div_pow2_lt p (e1 - e) Hn ltac:(lia)) as Hlt.
  assert (0 ≤ Z.pos p / 2 ^ (e1 - e)) by (apply Z.div_pos; lia).
  unfold binary_round_aux. pose proof (shr_fexp_spec p e l) as Hspec. cbn zeta in Hspec.
  destruct (shr_fexp 53 1024 (Z.pos p) e l) as [mrs e'].
  destruct Hspec as (-> & Hm & _). fold e1 in Hm |- *. rewrite Hm.
  pose proof (round_nearest_even_bounds (Z.pos p / 2 ^ (e1 - e)) (loc_of_shr_record mrs)).
  eexists. split; [apply round_tail; lia|done].
Qed.

(** An exact mantissa is kept. *)
Lemma round_aux_exact s p e k :
  let e1 := Z.max e (fexp64 (digits p + e)) in
  e1 ≤ 0 → 0 ≤ k → Z.pos p = 2 ^ (e1 - e) * k →
  rounds_to (round_aux s (Z.pos p) e loc_Exact) s k e1.
Proof.
  cbn zeta. intros He1 Hk Hp. set (e1 := Z.max e (fexp64 (digits p + e))) in *.
  assert (Hn : 0 ≤ e1 - e) by lia.
  assert (Hf : fexp64 (digits p + e) ≤ e1) by lia. rewrite fexp64_eq in Hf.
  pose proof (div_pow2_lt p (e1 - e) Hn ltac:(lia)) as Hlt.
  unfold binary_round_aux. rewrite (shr_fexp_exact p e k Hk Hp). fold e1.
  cbn [exact_record shr_m loc_of_shr_record round_nearest_even].
  apply round_tail; [|lia].
  rewrite Hp, Z.mul_comm, Z.div_mul in Hlt by (apply Z.pow_nonzero; lia). lia.
Qed.

(** ** Integers held exactly *)

(** [x] holds the positive integer [n] with no fractional exponent left. *)
Definition holds (x : float64) (n : Z) : Prop :=
  ∃ m e, x = S754_finite false m e ∧ -1074 ≤ e ≤ 0 ∧ Z.pos m = n * 2 ^ (- e) ∧
    Z.pos m < 2 ^ 53.

Lemma digits_shift m n k : 0 ≤ k → 0 < n → Z.pos m = n * 2 ^ k →
  digits m = Z.log2 n + 1 + k.
Proof. intros. rewrite digits_log2, H1, Z.log2_mul_pow2 by lia. lia. Qed.

Lemma rounds_to_holds x r e n :
  rounds_to x false r e → 0 < n → r = n * 2 ^ (- e) → r < 2 ^ 53 → -1074 ≤ e ≤ 0 →
  holds x n.
Proof.
  intros [[-> _]|(m & e2 & -> & Hm & He2)] Hn Hr Hlt He.
  - assert (0 < 2 ^ (- e)) by (apply Z.pow_pos_nonneg; lia). nia.
  - destruct He2 as [->|[_ ?]]; [|lia].
    exists m, e. rewrite Z.sub_diag, Z.mul_1_r in Hm. subst r. repeat split; lia.
Qed.

(** [round_aux] of an integer below 2^53, at any exponent that holds it. *)
Lemma round_aux_holds p e n :
  0 < n < 2 ^ 53 → e ≤ 0 → Z.pos p = n * 2 ^ (- e) →
  holds (round_aux false (Z.pos p) e loc_Exact) n.
Proof.
  intros Hn He Hp.
  assert (Hd : digits p = Z.log2 n + 1 + - e) by (apply digits_shift; lia).
  assert (Hl : Z.log2 n < 53) by (apply Z.log2_lt_pow2; lia).
  pose proof (Z.log2_nonneg n).
  pose proof (Z.log2_spec n ltac:(lia)) as [_ Hlog].
  set (e1 := Z.max e (fexp64 (digits p + e))).
  assert (He1 : e ≤ e1 ≤ 0 ∧ Z.log2 n - 52 ≤ e1) by (unfold e1; rewrite fexp64_eq; lia).
  pose proof (round_aux_exact false p e (n * 2 ^ (- e1))) as Hx. fold e1 in Hx.
  assert (0 < 2 ^ (- e1)) by (apply Z.pow_pos_nonneg; lia).
  eapply rounds_to_holds; [apply Hx| | | |]; try lia.
  - rewrite Hp. replace (- e) with ((e1 - e) + - e1) by lia.
    rewrite Z.pow_add_r by lia. lia.
  - apply Z.lt_le_trans with (2 ^ Z.succ (Z.log2 n) * 2 ^ (- e1)); [nia|].
    rewrite <-Z.pow_add_r by lia. apply Z.pow_le_mono_r; lia.
Qed.

Lemma f_of_Z_holds n : 0 < n < 2 ^ 53 → holds (f_of_Z n) n.
Proof.
  intros Hn. unfold f_of_Z, binary_normalize. destruct n as [|p|p]; try lia.
  unfold binary_round, shl_align.
  assert (Hd : digits p ≤ 53) by (apply digits_le; lia).
  assert (Hf : fexp64 (digits p + 0) = digits p - 53) by (rewrite fexp64_eq; lia).
  rewrite Hf. destruct (digits p - 53 - 0) eqn:E; [| lia |].
  - apply round_aux_holds; lia.
  - apply round_aux_holds; [lia|lia|].
    rewrite iter_xO. do 2 f_equal. lia.
Qed.

(** Products below 2^53 are exact. *)
Lemma f_mul_holds x y a b :
  holds x a → holds y b → 0 < a → 0 < b → a * b < 2 ^ 53 →
  holds (f_mul x y) (a * b).
Proof.
  intros (m & e & -> & He & Hm & _) (m' & e' & -> & He' & Hm' & _) Ha Hb Hab.
  unfold f_mul, SFmul. cbn [xorb].
  assert (Hp : Z.pos (m * m') = a * b * 2 ^ (- (e + e'))).
  { rewrite Pos2Z.inj_mul, Hm, Hm'. replace (- (e + e')) with (- e + - e') by lia.
    rewrite Z.pow_add_r by lia. ring. }
  apply round_aux_holds; nia.
Qed.

(** ** Quotients *)

Lemma div_ceil_above a b : 0 < b → a mod b ≠ 0 → - (- a / b) = a / b + 1.
Proof.
  intros Hb Hm. rewrite Z.div_opp_l_nz by lia. lia.
Qed.

(** The ceiling of a float [r * 2 ^ e] with [r] strictly inside or at the top
    of the unit above [n]. *)
Lemma rounds_to_ceil x r e n :
  rounds_to x false r e → e < 0 → 0 ≤ n →
  n * 2 ^ (- e) < r ≤ (n + 1) * 2 ^ (- e) → f_ceilZ x = Some (n + 1).
Proof.
  intros [[-> ->]|(m & e2 & -> & Hm & He2)] He Hn Hr.
  - assert (0 < 2 ^ (- e)) by (apply Z.pow_pos_nonneg; lia). nia.
  - unfold f_ceilZ, sf_scaled.
    assert (Hs : 0 < 2 ^ (- e2)) by (apply Z.pow_pos_nonneg; lia).
    assert (Hpow : 2 ^ (- e) = 2 ^ (e2 - e) * 2 ^ (- e2))
      by (rewrite <-Z.pow_add_r by lia; f_equal; lia).
    assert (0 < 2 ^ (e2 - e)) by (apply Z.pow_pos_nonneg; lia).
    assert (Hb : n * 2 ^ (- e2) < Z.pos m ≤ (n + 1) * 2 ^ (- e2)) by (rewrite Hpow in Hr; nia).
    destruct (Z.leb_spec 0 e2) as [|_]; cbn beta iota zeta; f_equal.
    + assert (e2 = 0) as -> by lia. change (2 ^ (- 0)) with 1 in Hb.
      rewrite Z.pow_0_r, Z.div_1_r. lia.
    + assert (- Z.pos m / 2 ^ (- e2) = - (n + 1)); [|lia].
      symmetry. apply (Z.div_unique_pos _ _ _ ((n + 1) * 2 ^ (- e2) - Z.pos m)); lia.
Qed.

(** A quotient that is not whole, at a grain finer than [1 / b], lies strictly
    between its neighbours. *)
Lemma quotient_inside a b g :
  0 ≤ a → 0 < b → a mod b ≠ 0 → b < g →
  a / b * g < a * g / b ∧ a * g / b + 1 ≤ (a / b + 1) * g.
Proof.
  intros Ha Hb Hnz Hg.
  pose proof (Z.div_mod a b ltac:(lia)) as Hdm.
  pose proof (Z.mod_pos_bound a b ltac:(lia)) as Hmb.
  set (q := a / b) in *. set (r := a mod b) in *.
  assert (Hag : a * g = (q * g) * b + r * g) by (rewrite Hdm at 1; ring).
  rewrite Hag, Z.div_add_l by lia.
  assert (1 ≤ r * g / b) by (apply Z.div_le_lower_bound; nia).
  assert (r * g / b < g) by (apply Z.div_lt_upper_bound; nia).
  lia.
Qed.

Section Quotient.
Variables a b : Z.
Hypothesis Ha : 0 < a < 2 ^ 52.
Hypothesis Hb : 0 < b < 2 ^ 53.

Let da := Z.log2 a + 1.
Let db := Z.log2 b + 1.
Let e' := da - db - 53.

Local Lemma quotient_digits :
  1 ≤ da ≤ 52 ∧ 1 ≤ db ≤ 53 ∧ 2 ^ (da - 1) ≤ a < 2 ^ da ∧ 2 ^ (db - 1) ≤ b < 2 ^ db.
Proof.
  unfold da, db. pose proof (Z.log2_spec a ltac:(lia)). pose proof (Z.log2_spec b ltac:(lia)).
  assert (Z.log2 a < 52) by (apply Z.log2_lt_pow2; lia).
  assert (Z.log2 b < 53) by (apply Z.log2_lt_pow2; lia).
  pose proof (Z.log2_nonneg a). pose proof (Z.log2_nonneg b).
  rewrite !Z.add_simpl_r, !Z.add_1_r. lia.
Qed.

(** The quotient the division rounds, and where it is inexact. *)
Local Lemma quotient_core m1 e1 m2 e2 :
  Z.pos m1 = a * 2 ^ (- e1) → Z.pos m2 = b * 2 ^ (- e2) → e1 ≤ 0 → e2 ≤ 0 →
  e' ≤ e1 - e2 →
  ∃ l, SFdiv_core_binary 53 1024 (Z.pos m1) e1 (Z.pos m2) e2 = (a * 2 ^ (- e') / b, e', l) ∧
       (a mod b = 0 → l = loc_Exact).
Proof.
  intros H1 H2 He1 He2 Hle. pose proof quotient_digits.
  unfold SFdiv_core_binary. cbn [Zdigits2].
  rewrite (digits_shift m1 a (- e1)), (digits_shift m2 b (- e2)) by lia.
  fold da db.
  replace (Z.min _ (e1 - e2)) with e' by (rewrite fexp64_eq; unfold e' in *; lia).
  set (s := e1 - e2 - e').
  assert (Hs : match s with Z.pos _ => Z.shiftl (Z.pos m1) s | 0 => Z.pos m1 | _ => 0 end
               = Z.pos m1 * 2 ^ s).
  { destruct s eqn:E; [lia| |unfold s in E; lia]. by rewrite Z.shiftl_mul_pow2 by lia. }
  rewrite Hs.
  assert (Hpos : 0 < 2 ^ (- e2)) by (apply Z.pow_pos_nonneg; lia).
  assert (Hnum : Z.pos m1 * 2 ^ s = a * 2 ^ (- e') * 2 ^ (- e2)).
  { rewrite H1, <-!Z.mul_assoc, <-!Z.pow_add_r by (unfold e', s in *; lia).
    do 2 f_equal. unfold s. lia. }
  pose proof (Z.div_eucl_eq (Z.pos m1 * 2 ^ s) (Z.pos m2) ltac:(lia)) as Heq.
  pose proof (Z_div_mod (Z.pos m1 * 2 ^ s) (Z.pos m2) ltac:(lia)) as Hmod.
  destruct (Z.div_eucl (Z.pos m1 * 2 ^ s) (Z.pos m2)) as [q r] eqn:E.
  assert (Hq : q = a * 2 ^ (- e') / b).
  { assert (q = Z.pos m1 * 2 ^ s / Z.pos m2) as -> by (unfold Z.div; by rewrite E).
    rewrite Hnum, H2. apply Z.div_mul_cancel_r; lia. }
  eexists. split; [by rewrite Hq|].
  intros Hz. assert (r = 0) as ->.
  { apply Z.mod_divide in Hz as [k Hk]; [|lia].
    assert (r = (Z.pos m1 * 2 ^ s) mod Z.pos m2) as -> by (unfold Z.modulo; by rewrite E).
    rewrite Hnum, H2, Hk. replace (k * b * 2 ^ (- e') * 2 ^ (- e2))
      with (k * 2 ^ (- e') * (b * 2 ^ (- e2))) by ring.
    apply Z.mod_mul. lia. }
  unfold new_location, new_location_even, new_location_odd. by destruct (Z.even _).
Qed.

(** Where the rounding of the quotient ends. *)
Local Lemma quotient_exponent p :
  Z.pos p = a * 2 ^ (- e') / b →
  e' ≤ Z.max e' (fexp64 (digits p + e')) ≤ da - db - 52.
Proof.
  intros Hp. pose proof quotient_digits as (? & ? & ? & ?).
  assert (digits p ≤ 54); [|rewrite fexp64_eq; unfold e' in *; lia].
  apply digits_le; [lia|]. rewrite Hp. apply Z.div_lt_upper_bound; [lia|].
  apply Z.lt_le_trans with (2 ^ da * 2 ^ (- e')).
  { assert (0 < 2 ^ (- e')) by (apply Z.pow_pos_nonneg; unfold e' in *; lia). nia. }
  apply Z.le_trans with (2 ^ (db - 1) * 2 ^ 54); [|nia].
  rewrite <-!Z.pow_add_r by (unfold e' in *; lia). apply Z.pow_le_mono_r; unfold e'; lia.
Qed.

Local Lemma quotient_pos : 0 < a * 2 ^ (- e') / b.
Proof.
  pose proof quotient_digits as (? & ? & ? & ?).
  apply Z.div_str_pos. split; [lia|].
  apply Z.le_trans with (2 ^ (da - 1) * 2 ^ (- e')).
  - rewrite <-Z.pow_add_r by (unfold e' in *; lia).
    apply Z.le_trans with (2 ^ db); [lia|]. apply Z.pow_le_mono_r; unfold e'; lia.
  - assert (0 < 2 ^ (- e')) by (apply Z.pow_pos_nonneg; unfold e' in *; lia). nia.
Qed.
(** The ceiling of a rounded quotient is the ceiling of the quotient. *)
Lemma f_div_ceil x y :
  holds x a → holds y b → f_ceilZ (f_div x y) = Some (- (- a / b)).
Proof.
  intros (m1 & e1 & -> & He1 & Hm1 & Hm1') (m2 & e2 & -> & He2 & Hm2 & _).
  pose proof quotient_digits as (Hda & Hdb & Hal & Hbl).
  assert (Hle : e' ≤ e1 - e2).
  { assert (digits m1 ≤ 53) by (apply digits_le; lia).
    rewrite (digits_shift m1 a (- e1)) in * by lia. unfold e', da in *. lia. }
  destruct (quotient_core m1 e1 m2 e2) as (l & Hcore & Hexact); try lia.
  unfold f_div, SFdiv. rewrite Hcore. cbn [xorb].
  pose proof quotient_pos as Hqpos.
  destruct (a * 2 ^ (- e') / b) as [|p|] eqn:Hp; try lia.
  pose proof (quotient_exponent p (eq_sym Hp)) as Hexp.
  set (e2' := Z.max e' (fexp64 (digits p + e'))) in *.
  assert (Hpow : 2 ^ (- e') = 2 ^ (e2' - e') * 2 ^ (- e2'))
    by (rewrite <-Z.pow_add_r by (unfold e' in *; lia); f_equal; lia).
  assert (Hs : b < 2 ^ (- e2')).
  { eapply Z.lt_le_trans; [apply Hbl|]. apply Z.pow_le_mono_r; lia. }
  assert (0 < 2 ^ (e2' - e')) by (apply Z.pow_pos_nonneg; lia).
  pose proof (Z.div_mod a b ltac:(lia)) as Hdm.
  pose proof (Z.mod_pos_bound a b ltac:(lia)) as Hmb.
  assert (0 ≤ a / b) by (apply Z.div_pos; lia).
  destruct (decide (a mod b = 0)) as [Hz|Hnz].
  - rewrite (Hexact Hz).
    assert (Hpe : Z.pos p = 2 ^ (e2' - e') * (a / b * 2 ^ (- e2'))).
    { rewrite <-Hp, Hdm, Hz, Z.add_0_r, Hpow at 1.
      replace (b * (a / b) * (2 ^ (e2' - e') * 2 ^ (- e2')))
        with (2 ^ (e2' - e') * (a / b * 2 ^ (- e2')) * b) by ring.
      apply Z.div_mul. lia. }
    assert (Hk : 0 ≤ a / b * 2 ^ (- e2')) by (apply Z.mul_nonneg_nonneg; lia).
    pose proof (round_aux_exact false p e' _ ltac:(fold e2'; lia) Hk Hpe) as Hr.
    fold e2' in Hr.
    assert (a / b ≠ 0) by (intros E0; rewrite E0, Hz in Hdm; lia).
    assert (Hopp : - a / b = - (a / b)) by (apply Z.div_opp_l_z; lia).
    replace (- (- a / b)) with (a / b - 1 + 1) by lia.
    apply (rounds_to_ceil _ _ _ _ Hr); [lia|lia|].
    rewrite Z.sub_add. split; [|lia]. rewrite Z.mul_sub_distr_r. lia.
  - rewrite (div_ceil_above a b) by lia.
    destruct (round_aux_value false p e' l) as (r & Hr & Hbnd); [fold e2'; lia|].
    fold e2' in Hr, Hbnd.
    assert (Hfl : Z.pos p / 2 ^ (e2' - e') = a * 2 ^ (- e2') / b).
    { rewrite <-Hp, Hpow, Z.div_div by lia.
      rewrite (Z.mul_comm (2 ^ (e2' - e'))), Z.mul_assoc.
      apply Z.div_mul_cancel_r; lia. }
    rewrite Hfl in Hbnd.
    pose proof (quotient_inside a b (2 ^ (- e2')) ltac:(lia) ltac:(lia) Hnz Hs) as [Hlow Hhigh].
    apply (rounds_to_ceil _ _ _ _ Hr); lia.
Qed.
End Quotient.

(** [int64(math.Ceil(x))] of a finite float whose ceiling is a small integer. *)
Lemma f_trunc_holds x n : holds x n → 0 < n → f_trunc x = Some n.
Proof.
  intros (m & e & -> & He & Hm & _) Hn. unfold f_trunc, sf_scaled.
  destruct (Z.leb_spec 0 e) as [|_]; cbn beta iota zeta; f_equal.
  - assert (e = 0) as -> by lia. change (2 ^ (- 0)) with 1 in Hm.
    rewrite Z.pow_0_r, Z.quot_1_r. lia.
  - rewrite Hm. apply Z.quot_mul. apply Z.pow_nonzero; lia.
Qed.

Lemma int64_ceil `{Platform} s m e n :
  f_ceilZ (S754_finite s m e) = Some n → 0 < n < 2 ^ 53 →
  int64_of_float (math_Ceil (S754_finite s m e)) = n.
Proof.
  intros Hc Hn. unfold math_Ceil, f_integral. rewrite Hc.
  assert (binary_normalize 53 1024 n 0 s = f_of_Z n) as ->
    by (destruct n; [lia|done|lia]).
  unfold int64_of_float.
  rewrite (f_trunc_holds _ n); [|by apply f_of_Z_holds|lia].
  rewrite decide_True; [done|]. unfold int64_range, int64_min, int64_max. lia.
Qed.

(** The recommender's way to scale an integer: multiply, divide, round up. *)
Theorem scale_up_exact `{Platform} v n d :
  0 < v → 0 < n → 0 < d < 2 ^ 53 → v * n < 2 ^ 52 →
  int64_of_float (math_Ceil (f_div (f_mul (f_of_Z v) (f_of_Z n)) (f_of_Z d)))
  = - (- (v * n) / d).
Proof.
  intros Hv Hn Hd Hvn.
  assert (Hm : holds (f_mul (f_of_Z v) (f_of_Z n)) (v * n))
    by (apply f_mul_holds; [apply f_of_Z_holds|apply f_of_Z_holds| | |]; nia).
  pose proof (f_div_ceil (v * n) d ltac:(nia) Hd _ _ Hm (f_of_Z_holds d Hd)) as Hc.
  assert (0 < - (- (v * n) / d) < 2 ^ 53).
  { pose proof (Z.div_mod (v * n) d ltac:(lia)).
    pose proof (Z.mod_pos_bound (v * n) d ltac:(lia)).
    assert (- (v * n) / d < 0) by (apply Z.div_lt_upper_bound; nia).
    assert (- (v * n) ≤ - (v * n) / d) by (apply Z.div_le_lower_bound; nia). lia. }
  destruct (f_div _ _) as [s|s| |s m e] eqn:E; try discriminate Hc.
  - injection Hc as Hc. lia.
  - by apply int64_ceil.
Qed.

(** ** Truncation is monotone

    [valid_binary] holds of every float64 of Go: mantissa and exponent are the
    canonical ones. *)
Definition valid_float (x : float64) : bool := valid_binary 53 1024 x.

Lemma valid_canonical s m e :
  valid_float (S754_finite s m e) = true →
  -1074 ≤ e ∧ digits m ≤ 53 ∧ (-1074 < e → digits m = 53).
Proof.
  unfold valid_float, valid_binary, bounded, canonical_mantissa.
  intros H. bool_props.
  match goal with H : fexp _ _ _ = _ |- _ => rename H into Hc end.
  change (fexp64 (digits m + e) = e) in Hc. rewrite fexp64_eq in Hc. lia.
Qed.

Lemma finite_le_scaled m e n f :
  valid_float (S754_finite false m e) = true → valid_float (S754_finite false n f) = true →
  f_ltb (S754_finite false n f) (S754_finite false m e) = false →
  Z.pos m * 2 ^ (e + 1074) ≤ Z.pos n * 2 ^ (f + 1074).
Proof.
  intros (He & Hm & _)%valid_canonical (Hf & Hn & Hn')%valid_canonical Hlt.
  pose proof (digits_bounds m) as Bm. pose proof (digits_bounds n) as Bn.
  unfold f_ltb, SFltb, SFcompare in Hlt.
  destruct (Z.compare_spec f e) as [->|?|Hef]; [|done|].
  - apply Z.mul_le_mono_nonneg_r; [apply Z.pow_nonneg; lia|].
    change (Pos.compare_cont Eq n m) with (Pos.compare n m) in Hlt.
    clear -Hlt. apply Pos2Z.pos_le_pos, Pos.le_nlt.
    unfold Pos.lt. by destruct (Pos.compare n m).
  - rewrite Hn' in Bn by lia.
    assert (Z.pos m < 2 ^ 53) by (eapply Z.lt_le_trans; [apply Bm|apply Z.pow_le_mono_r; lia]).
    replace (f + 1074) with (1 + (e + 1074) + (f - e - 1)) by lia.
    rewrite (Z.pow_add_r 2 (1 + (e + 1074))), (Z.pow_add_r 2 1) by lia.
    assert (1 ≤ 2 ^ (f - e - 1)) by (pose proof (Z.pow_pos_nonneg 2 (f - e - 1)); lia).
    assert (0 < 2 ^ (e + 1074)) by (apply Z.pow_pos_nonneg; lia).
    change (2 ^ 1) with 2. change (53 - 1) with 52 in Bn.
    assert (Z.pos m ≤ Z.pos n * 2) by lia.
    generalize dependent (2 ^ (f - e - 1)); intros q Hq.
    generalize dependent (2 ^ (e + 1074)); intros p Hp.
    etrans; [apply Z.mul_le_mono_nonneg_r; [lia|eassumption]|].
    replace (Z.pos n * (2 * p * q)) with (Z.pos n * 2 * p * q) by ring.
    assert (0 < Z.pos n * 2 * p) as Hc by lia. nia.
Qed.

(** The truncation of a positive float, scaled to the finest exponent. *)
Lemma f_trunc_scaled m e a :
  -1074 ≤ e → f_trunc (S754_finite false m e) = Some a →
  a = Z.pos m * 2 ^ (e + 1074) / 2 ^ 1074.
Proof.
  unfold f_trunc, sf_scaled. intros He. destruct (Z.leb_spec 0 e); intros [= <-].
  - rewrite Z.quot_1_r, Z.pow_add_r, Z.mul_assoc, Z.div_mul by lia. done.
  - rewrite Z.quot_div_nonneg by (try apply Z.pow_pos_nonneg; lia).
    replace 1074 with (e + 1074 + - e) at 2 by lia.
    rewrite (Z.pow_add_r 2 (e + 1074)), (Z.mul_comm _ (2 ^ (- e))) by lia.
    rewrite Z.div_mul_cancel_r; [done| |];
      assert (0 < 2 ^ (- e)) by (apply Z.pow_pos_nonneg; lia);
      assert (0 < 2 ^ (e + 1074)) by (apply Z.pow_pos_nonneg; lia); lia.
Qed.

Lemma f_trunc_positive x a :
  f_trunc x = Some a → 0 < a → ∃ m e, x = S754_finite false m e.
Proof.
  intros Ha H.
  destruct x as [[]|[]| |[] m e]; try discriminate Ha; [| | |by eauto]; exfalso.
  1,2: injection Ha; lia.
  unfold f_trunc, sf_scaled in Ha.
  destruct (Z.leb_spec 0 e); injection Ha as Ha.
  - rewrite Z.quot_1_r in Ha. assert (0 < 2 ^ e) by (apply Z.pow_pos_nonneg; lia). nia.
  - assert (0 < 2 ^ (- e)) by (apply Z.pow_pos_nonneg; lia).
    rewrite <-Pos2Z.opp_pos, Z.quot_opp_l in Ha by lia.
    pose proof (Z.quot_pos (Z.pos m) (2 ^ (- e))). lia.
Qed.

Lemma f_trunc_mono x y a b :
  valid_float x = true → valid_float y = true → f_ltb y x = false →
  f_trunc x = Some a → 0 < a → f_trunc y = Some b → a ≤ b.
Proof.
  intros Hx Hy Hlt Ha Hpos Hb.
  destruct (f_trunc_positive x a Ha Hpos) as (m & e & ->).
  destruct y as [s|s| |[] n f]; try done.
  pose proof (finite_le_scaled m e n f Hx Hy Hlt) as Hle.
  apply valid_canonical in Hx as [Hx _], Hy as [Hy _].
  rewrite (f_trunc_scaled m e a), (f_trunc_scaled n f b) by done.
  apply Z.div_le_mono; [|done]. apply Z.pow_pos_nonneg; lia.
Qed.
