(* ===== verification/FloatOrder.v ===== *)
(** * The order of floats

    [<] of Go on floats that are not NaN is a total preorder. *)

From S2P Require Import Prelude GoLang.
From Stdlib Require Import SpecFloat.
Local Open Scope Z_scope.

(** A float as sign, exponent and mantissa, each carrying the sign. *)
Definition f_key (x : float64) : Z * (Z * Z) :=
  match x with
  | S754_zero _ | S754_nan => (0, (0, 0))
  | S754_infinity s => (if s then -2 else 2, (0, 0))
  | S754_finite false m e => (1, (e, Z.pos m))
  | S754_finite true m e => (-1, (- e, Z.neg m))
  end.

Definition cmp_key (x y : Z * (Z * Z)) : comparison :=
  cmp_or (fst x ?= fst y) (cmp_or (fst (snd x) ?= fst (snd y)) (snd (snd x) ?= snd (snd y))).

Definition f_cmp (x y : float64) : comparison := cmp_key (f_key x) (f_key y).

#[export] Instance f_cmp_pre : PreCmp f_cmp.
Proof.
  apply (cmp_on_pre f_key). unfold cmp_key.
  apply cmp_or_pre; [exact (cmp_on_pre fst _ _)|].
  apply cmp_or_pre; [exact (cmp_on_pre (λ x, fst (snd x)) _ _)|].
  exact (cmp_on_pre (λ x, snd (snd x)) _ _).
Qed.

Lemma SFcompare_key x y :
  f_isNaN x = false → f_isNaN y = false → SFcompare x y = Some (f_cmp x y).
Proof.
  intros Hx Hy.
  destruct x as [[]|[]| |[] m e]; [..|done| |]; destruct y as [[]|[]| |[] n f]; try done; simpl.
  - unfold f_cmp, cmp_key, cmp_or; simpl. rewrite Z.compare_opp.
    rewrite (Z.compare_antisym e f). destruct (e ?= f); simpl; done.
  - unfold f_cmp, cmp_key, cmp_or; simpl. by destruct (e ?= f).
Qed.

Lemma f_ltb_key x y :
  f_isNaN x = false → f_isNaN y = false →
  f_ltb x y = match f_cmp x y with Lt => true | _ => false end.
Proof. intros. unfold f_ltb, SFltb. by rewrite SFcompare_key. Qed.

Lemma f_ltb_nan_l x y : f_isNaN x = true → f_ltb x y = false.
Proof. by destruct x. Qed.

Lemma f_ltb_nan_r x y : f_isNaN y = true → f_ltb x y = false.
Proof. destruct y, x as [| | |[]]; done. Qed.

Lemma f_ltb_irrefl x : f_ltb x x = false.
Proof.
  destruct (f_isNaN x) eqn:Hx; [by rewrite f_ltb_nan_l|].
  rewrite f_ltb_key by done. unfold f_cmp, cmp_key, cmp_or. by rewrite !Z.compare_refl.
Qed.

(** [x < z] when [x < y] and not [z < y], whatever the floats. *)
Lemma f_ltb_le_trans x y z :
  f_isNaN z = false → f_ltb x y = true → f_ltb z y = false → f_ltb x z = true.
Proof.
  intros Hz H1 H2.
  destruct (f_isNaN x) eqn:Hx; [by rewrite f_ltb_nan_l in H1|].
  destruct (f_isNaN y) eqn:Hy; [by rewrite f_ltb_nan_r in H1|].
  rewrite f_ltb_key in * by done.
  rewrite (pre_cmp_lt_le f_cmp x y z); [done|by destruct (f_cmp x y)|].
  rewrite (cmp_antisym f_cmp z y). by destruct (f_cmp z y).
Qed.

Lemma f_ltb_trans x y z : f_ltb x y = true → f_ltb y z = true → f_ltb x z = true.
Proof.
  intros H1 H2.
  destruct (f_isNaN y) eqn:Hy; [by rewrite f_ltb_nan_r in H1|].
  destruct (f_isNaN z) eqn:Hz; [by rewrite f_ltb_nan_r in H2|].
  eapply f_ltb_le_trans; [done|done|].
  rewrite f_ltb_key in * by done.
  rewrite (cmp_antisym f_cmp y z). by destruct (f_cmp y z).
Qed.

(** A running maximum only rises. *)
Lemma f_nlt_trans x y z :
  f_isNaN y = false → f_ltb x y = false → f_ltb y z = false → f_ltb x z = false.
Proof.
  intros Hy H1 H2. destruct (f_ltb x z) eqn:E; [|done].
  by rewrite (f_ltb_le_trans x z y) in H1.
Qed.

(** [x < z] when not [y < x] and [y < z]. *)
Lemma f_le_ltb_trans x y z :
  f_isNaN x = false → f_ltb y x = false → f_ltb y z = true → f_ltb x z = true.
Proof.
  intros Hx H1 H2.
  destruct (f_isNaN y) eqn:Hy; [by rewrite f_ltb_nan_l in H2|].
  destruct (f_isNaN z) eqn:Hz; [by rewrite f_ltb_nan_r in H2|].
  rewrite f_ltb_key in * by done.
  rewrite (pre_cmp_le_lt f_cmp x y z); [done| |by destruct (f_cmp y z)].
  rewrite (cmp_antisym f_cmp y x). by destruct (f_cmp y x).
Qed.
