(* ===== verification/GoText.v ===== *)
(** * Text the program renders

    [strconv.Itoa], [strconv.FormatFloat(f, 'g', 4, 64)], its format ['f'], [strconv.ParseFloat] and
    [Time.Format(time.RFC3339)] in UTC. *)

From Stdlib Require Import Ascii.
From S2P Require Import Prelude GoLang.
From Stdlib Require Import SpecFloat.
Local Open Scope Z_scope.

(** ** Decimal digits *)

Definition digit_char (d : Z) : Ascii.ascii := Ascii.ascii_of_N (Z.to_N (48 + d)).

(** The digits of [n >= 0], most significant first; [fuel] bounds their number. *)
Fixpoint digits_fuel (fuel : nat) (n : Z) (acc : list Z) : list Z :=
  match fuel with
  | O => acc
  | S fuel' => if n <? 10 then n :: acc else digits_fuel fuel' (n / 10) (n mod 10 :: acc)
  end.

Definition decimal_digits (n : Z) : list Z := digits_fuel (S (Z.to_nat (Z.log2 n))) n [].

Definition string_of_digits (l : list Z) : string :=
  foldr (λ d s, String (digit_char d) s) EmptyString l.

Definition Itoa (z : Z) : string :=
  if z <? 0 then "-" +:+ string_of_digits (decimal_digits (- z))
  else string_of_digits (decimal_digits z).

Fixpoint zeros (n : nat) : string :=
  match n with O => "" | S n' => "0" +:+ zeros n' end.

(** At least [w] digits, padded with zeros. *)
Definition pad (w : nat) (z : Z) : string :=
  let s := Itoa z in zeros (w - String.length s) +:+ s.

(** ** What the digits stand for *)

Definition digits_value (l : list Z) : Z := foldl (λ a d, 10 * a + d) 0 l.

Lemma digits_fuel_value fuel n acc :
  0 ≤ n < 2 ^ Z.of_nat fuel →
  digits_value (digits_fuel fuel n acc) = foldl (λ a d, 10 * a + d) n acc ∧
  (Forall (λ d, 0 ≤ d < 10) acc → Forall (λ d, 0 ≤ d < 10) (digits_fuel fuel n acc)).
Proof.
  revert n acc. induction fuel as [|fuel IH]; intros n acc Hn.
  { assert (n = 0) as -> by (change (2 ^ Z.of_nat 0) with 1 in Hn; lia). done. }
  cbn [digits_fuel]. destruct (Z.ltb_spec n 10).
  - split; [done|]. intros Hacc. constructor; [lia|done].
  - rewrite Nat2Z.inj_succ, Z.pow_succ_r in Hn by lia. pose proof (Z.div_mod n 10 ltac:(lia)).
    pose proof (Z.mod_pos_bound n 10 ltac:(lia)).
    destruct (IH (n / 10) (n mod 10 :: acc)) as [Hv Hd]; [lia|]. split.
    + rewrite Hv. cbn [foldl]. f_equal. lia.
    + intros Hacc. apply Hd. by constructor.
Qed.

Lemma decimal_digits_value n :
  0 ≤ n → digits_value (decimal_digits n) = n ∧ Forall (λ d, 0 ≤ d < 10) (decimal_digits n).
Proof.
  intros Hn. unfold decimal_digits. destruct (digits_fuel_value (S (Z.to_nat (Z.log2 n))) n []) as [Hv Hd].
  - split; [done|]. pose proof (Z.log2_nonneg n). rewrite Nat2Z.inj_succ, Z2Nat.id by done.
    destruct (Z.eq_dec n 0) as [->|]; [done|]. apply Z.log2_spec. lia.
  - split; [exact Hv|by apply Hd].
Qed.

Definition char_digit (c : Ascii.ascii) : Z := Z.of_N (Ascii.N_of_ascii c) - 48.

Fixpoint digits_of_string (s : string) : list Z :=
  match s with EmptyString => [] | String c s' => char_digit c :: digits_of_string s' end.

Lemma digits_of_string_of_digits l : Forall (λ d, 0 ≤ d < 10) l → digits_of_string (string_of_digits l) = l.
Proof.
  induction 1 as [|d l Hd _ IH]; [done|]. unfold string_of_digits. cbn [foldr digits_of_string]. f_equal; [|exact IH].
  unfold char_digit, digit_char. rewrite Ascii.N_ascii_embedding by lia. lia.
Qed.

(** A rendered number reads back as itself. *)
Lemma Itoa_value n : 0 ≤ n → digits_value (digits_of_string (Itoa n)) = n.
Proof.
  intros Hn. unfold Itoa. destruct (Z.ltb_spec n 0); [lia|]. destruct (decimal_digits_value n Hn) as [Hv Hd].
  by rewrite digits_of_string_of_digits.
Qed.

Lemma Itoa_inj m n : 0 ≤ m → 0 ≤ n → Itoa m = Itoa n → m = n.
Proof. intros Hm Hn E. rewrite <-(Itoa_value m), <-(Itoa_value n) by done. by rewrite E. Qed.

(** ** Floats, with four significant digits

    [n / d > 0] is [N * 10 ^ (dp - 4)] rounded half to even, with [N] of four
    digits: [scale_digits] finds [dp]. *)
Fixpoint scale_up (fuel : nat) (n d dp : Z) : Z :=
  match fuel with
  | O => dp
  | S fuel' => if n <? d * 10 ^ dp then dp else scale_up fuel' n d (dp + 1)
  end.

Fixpoint scale_down (fuel : nat) (n d dp : Z) : Z :=
  match fuel with
  | O => dp
  | S fuel' => if d <=? n * 10 ^ (1 - dp) then dp else scale_down fuel' n d (dp - 1)
  end.

Definition scale_digits (n d : Z) : Z :=
  if d <=? n then scale_up 400 n d 1 else scale_down 400 n d 0.

Definition round_half_even (n d : Z) : Z :=
  let q := n / d in
  match 2 * (n mod d) ?= d with
  | Lt => q
  | Gt => q + 1
  | Eq => if Z.even q then q else q + 1
  end.

Definition four_digits (n d : Z) : Z * Z :=
  let dp := scale_digits n d in
  let N := if dp <=? 4 then round_half_even (n * 10 ^ (4 - dp)) d
           else round_half_even n (d * 10 ^ (dp - 4)) in
  if N =? 10 ^ 4 then (10 ^ 3, dp + 1) else (N, dp).

Fixpoint drop_zeros (l : list Z) : list Z :=
  match l with 0 :: l' => drop_zeros l' | _ => l end.

Definition trim_zeros (l : list Z) : list Z := rev (drop_zeros (rev l)).

(** [%e] with the digits as they are, and [%f] with no digit lost. *)
Definition format_e (digs : list Z) (dp : Z) : string :=
  let exp := dp - 1 in
  string_of_digits (firstn 1 digs) +:+
  match skipn 1 digs with [] => "" | rest => "." +:+ string_of_digits rest end +:+
  "e" +:+ (if exp <? 0 then "-" else "+") +:+ pad 2 (Z.abs exp).

Definition format_f (digs : list Z) (dp : Z) : string :=
  let nd := Z.of_nat (length digs) in
  if 0 <? dp then
    let int := firstn (Z.to_nat dp) digs in
    let frac := skipn (Z.to_nat dp) digs in
    string_of_digits int +:+ zeros (Z.to_nat (dp - nd)) +:+
    match frac with [] => "" | _ => "." +:+ string_of_digits frac end
  else "0." +:+ zeros (Z.to_nat (- dp)) +:+ string_of_digits digs.

Definition format_positive (n d : Z) : string :=
  let '(N, dp) := four_digits n d in
  let digs := trim_zeros (decimal_digits N) in
  let nd := Z.of_nat (length digs) in
  let eprec := if (nd <? 4) && (dp <=? nd) then nd else 4 in
  if (dp - 1 <? -4) || (eprec <=? dp - 1) then format_e digs dp else format_f digs dp.

Definition FormatFloat_g4 (f : float64) : string :=
  match f with
  | S754_nan => "NaN"
  | S754_infinity s => if s then "-Inf" else "+Inf"
  | S754_zero s => if s then "-0" else "0"
  | S754_finite s m e =>
      let '(n, d) := sf_scaled false m e in
      (if s then "-" else "") +:+ format_positive n d
  end.

(** [strconv.FormatFloat(f, 'f', digits, 64)]: the digits of the exact value,
    rounded half to even. *)
Definition fixed_text (digits : nat) (c : Z) : string :=
  let u := 10 ^ Z.of_nat digits in
  Itoa (c / u) +:+ match digits with O => "" | _ => "." +:+ pad digits (c mod u) end.

Definition FormatFloat_f (digits : nat) (f : float64) : string :=
  match f with
  | S754_nan => "NaN"
  | S754_infinity s => if s then "-Inf" else "+Inf"
  | S754_zero s => (if s then "-" else "") +:+ fixed_text digits 0
  | S754_finite s m e =>
      let '(n, d) := sf_scaled false m e in
      (if s then "-" else "") +:+ fixed_text digits (round_half_even (n * 10 ^ Z.of_nat digits) d)
  end.

Example format_f2 : FormatFloat_f 2 (f_const 1 8) = "0.12".
Proof. reflexivity. Qed.
Example format_f1 : FormatFloat_f 1 (f_of_Z 0) = "0.0".
Proof. reflexivity. Qed.
Example format_f0 : FormatFloat_f 0 (f_const 5 2) = "2".
Proof. reflexivity. Qed.
Example format_1375 : FormatFloat_g4 (f_const 110 80) = "1.375".
Proof. reflexivity. Qed.
Example format_half : FormatFloat_g4 (f_const 1 2) = "0.5".
Proof. reflexivity. Qed.
Example format_one : FormatFloat_g4 (f_of_Z 1) = "1".
Proof. reflexivity. Qed.
Example format_third : FormatFloat_g4 (f_const 110 99) = "1.111".
Proof. reflexivity. Qed.
Example format_110 : FormatFloat_g4 (f_of_Z 110) = "110".
Proof. reflexivity. Qed.
Example format_big : FormatFloat_g4 (f_of_Z 123456) = "1.235e+05".
Proof. reflexivity. Qed.
Example format_small : FormatFloat_g4 (f_const 1 100000) = "1e-05".
Proof. reflexivity. Qed.

(** ** Parsing floats: [strconv.ParseFloat(s, 64)]

    A sign, digits with an optional fraction, an optional exponent; the
    hexadecimal, underscored and named forms Go also takes are refused. *)

Fixpoint scan_digits (cs : list Ascii.ascii) : list Z * list Ascii.ascii :=
  match cs with
  | [] => ([], [])
  | c :: cs' =>
      let d := char_digit c in
      if (0 <=? d) && (d <=? 9) then let '(ds, rest) := scan_digits cs' in (d :: ds, rest) else ([], cs)
  end.

Definition scan_sign (cs : list Ascii.ascii) : bool * list Ascii.ascii :=
  match cs with
  | c :: cs' => if Ascii.eqb c "-" then (true, cs') else if Ascii.eqb c "+" then (false, cs') else (false, cs)
  | [] => (false, [])
  end.

(** The exponent; Go keeps at most ten thousand of it. *)
Definition scan_exponent (cs : list Ascii.ascii) : option Z :=
  match cs with
  | [] => Some 0
  | c :: cs' =>
      if Ascii.eqb c "e" || Ascii.eqb c "E" then
        let '(neg, cs'') := scan_sign cs' in
        match scan_digits cs'' with
        | (_ :: _ as ds, []) => let e := Z.min 10000 (digits_value ds) in Some (if neg then - e else e)
        | _ => None
        end
      else None
  end.

(** [m * 10 ^ e], rounded once. *)
Definition decimal_float (neg : bool) (m e : Z) : float64 :=
  match m with
  | Z.pos p =>
      if 0 <=? e then binary_normalize 53 1024 ((if neg then -1 else 1) * (m * 10 ^ e)) 0 neg
      else
        match 10 ^ (- e) with
        | Z.pos d => SFdiv 53 1024 (S754_finite neg p 0) (S754_finite false d 0)
        | _ => S754_nan
        end
  | _ => S754_zero neg
  end.

Definition ParseFloat (s : string) : option float64 :=
  let '(neg, cs) := scan_sign (String.list_ascii_of_string s) in
  let '(int, cs) := scan_digits cs in
  let '(frac, cs) :=
    match cs with
    | c :: cs' => if Ascii.eqb c "." then scan_digits cs' else ([], cs)
    | [] => ([], [])
    end in
  match int ++ frac, scan_exponent cs with
  | [], _ | _, None => None
  | ds, Some e => Some (decimal_float neg (digits_value ds) (e - Z.of_nat (length frac)))
  end.

Example parse_float_1375 : ParseFloat "1.375" = Some (f_const 110 80).
Proof. reflexivity. Qed.
Example parse_float_exponent : ParseFloat "-1.5e+03" = Some (f_of_Z (-1500)).
Proof. reflexivity. Qed.
Example parse_float_tenth : ParseFloat "0.1" = Some (f_const 1 10).
Proof. reflexivity. Qed.
Example parse_float_bad : map ParseFloat [""; "."; "1x"; "1e"] = [None; None; None; None].
Proof. reflexivity. Qed.

(** ** Instants

    The proleptic Gregorian date of a day counted from 1 January of year 1,
    computed over eras of 400 years that begin in March. *)
Definition civil (day : Z) : Z * Z * Z :=
  let z := day + 306 in
  let era := z / 146097 in
  let doe := z mod 146097 in
  let yoe := (doe - doe / 1460 + doe / 36524 - doe / 146096) / 365 in
  let doy := doe - (365 * yoe + yoe / 4 - yoe / 100) in
  let mp := (5 * doy + 2) / 153 in
  let d := doy - (153 * mp + 2) / 5 + 1 in
  let m := if mp <? 10 then mp + 3 else mp - 9 in
  let y := yoe + era * 400 + (if m <=? 2 then 1 else 0) in
  (y, m, d).

Definition FormatRFC3339 (t : time) : string :=
  let s := t / second in
  let '(y, m, d) := civil (s / 86400) in
  let r := s mod 86400 in
  pad 4 y +:+ "-" +:+ pad 2 m +:+ "-" +:+ pad 2 d +:+ "T" +:+
  pad 2 (r / 3600) +:+ ":" +:+ pad 2 (r mod 3600 / 60) +:+ ":" +:+ pad 2 (r mod 60) +:+ "Z".

(** Seconds from the zero instant to the Unix epoch. *)
Definition unixToZero : Z := 62135596800.

Example rfc3339_epoch : FormatRFC3339 (unixToZero * second) = "1970-01-01T00:00:00Z".
Proof. reflexivity. Qed.
Example rfc3339_zero : FormatRFC3339 0 = "0001-01-01T00:00:00Z".
Proof. reflexivity. Qed.
Example rfc3339_leap : FormatRFC3339 ((unixToZero + 1709210096) * second) = "2024-02-29T12:34:56Z".
Proof. reflexivity. Qed.
