(* ===== verification/GoStrings.v ===== *)
(** * What the program uses of Go's package [strings]

    On ASCII: the letters of a name, of a header, of a media type. *)

From Stdlib Require Import Ascii.
From S2P Require Import Prelude.
Local Open Scope Z_scope.

(** [strings.ToLower] *)
Fixpoint ToLower (s : string) : string :=
  match s with
  | EmptyString => EmptyString
  | String c s' =>
      let n := N_of_ascii c in
      String (if (65 <=? n)%N && (n <=? 90)%N then ascii_of_N (n + 32) else c) (ToLower s')
  end.

(** [strings.Contains] *)
Fixpoint containsText (s needle : string) : bool :=
  String.prefix needle s || match s with EmptyString => false | String _ s' => containsText s' needle end.

Definition isSpace (c : ascii) : bool :=
  let n := N_of_ascii c in ((9 <=? n)%N && (n <=? 13)%N) || (n =? 32)%N.

Fixpoint dropSpaces (l : list ascii) : list ascii :=
  match l with c :: l' => if isSpace c then dropSpaces l' else l | [] => [] end.

(** [strings.TrimSpace] and [bytes.TrimSpace] *)
Definition TrimSpace (s : string) : string :=
  String.string_of_list_ascii (reverse (dropSpaces (reverse (dropSpaces (String.list_ascii_of_string s))))).

(** [strings.Cut] at a character: what is before its first occurrence and after,
    or the whole when there is none. *)
Fixpoint Cut (sep : ascii) (s : string) : string * option string :=
  match s with
  | EmptyString => (EmptyString, None)
  | String c s' =>
      if Ascii.eqb c sep then (EmptyString, Some s')
      else let '(before, after) := Cut sep s' in (String c before, after)
  end.

(** [strings.Split] at a character *)
Fixpoint Split (sep : ascii) (s : string) : list string :=
  match s with
  | EmptyString => [""]
  | String c s' =>
      if Ascii.eqb c sep then "" :: Split sep s'
      else match Split sep s' with p :: ps => String c p :: ps | [] => [String c ""] end
  end.

(** ** Facts *)

Lemma append_assoc (s t u : string) : (s +:+ t) +:+ u = s +:+ (t +:+ u).
Proof. induction s as [|c s IH]; [done|]. exact (f_equal (String c) IH). Qed.

Lemma append_nil_r (s : string) : s +:+ "" = s.
Proof. induction s as [|c s IH]; [done|]. exact (f_equal (String c) IH). Qed.

Lemma Split_nonempty sep s : Split sep s ≠ [].
Proof. destruct s as [|c s]; cbn; [done|]. destruct (Ascii.eqb c sep); [done|]. by destruct (Split sep s). Qed.

Lemma concat_cons sep p ps : ps ≠ [] → String.concat sep (p :: ps) = p +:+ sep +:+ String.concat sep ps.
Proof. by destruct ps. Qed.

Lemma concat_first sep c p ps : String.concat sep (String c p :: ps) = String c (String.concat sep (p :: ps)).
Proof. by destruct ps. Qed.

(** Joined again, what was split. *)
Lemma concat_Split sep s : String.concat (String sep "") (Split sep s) = s.
Proof.
  induction s as [|c s IH]; [done|]. cbn [Split]. pose proof (Split_nonempty sep s) as Hne.
  destruct (Ascii.eqb_spec c sep) as [->|Hc].
  - rewrite concat_cons by done. rewrite IH. done.
  - destruct (Split sep s) as [|p ps]; [done|]. by rewrite concat_first, IH.
Qed.

(** A text without the separator. *)
Definition whole (sep : ascii) (s : string) : Prop := Split sep s = [s].

Lemma Split_join sep p s : whole sep p → Split sep (p +:+ String sep "" +:+ s) = p :: Split sep s.
Proof.
  unfold whole. induction p as [|c p IH]; intros Hp.
  { change ("" +:+ String sep "" +:+ s) with (String sep s). cbn [Split]. by rewrite Ascii.eqb_refl. }
  change (String c p +:+ String sep "" +:+ s) with (String c (p +:+ String sep "" +:+ s)). cbn [Split] in Hp |- *.
  destruct (Ascii.eqb c sep) eqn:Ec; [by destruct (Split sep p)|].
  assert (Hp' : Split sep p = [p]).
  { destruct (Split sep p) as [|q qs] eqn:E; [by apply Split_nonempty in E|]. by injection Hp as -> ->. }
  by rewrite IH.
Qed.

(** A text is what comes before its first separator, the separator and the rest. *)
Lemma Cut_join sep s before after : Cut sep s = (before, Some after) → s = before +:+ String sep "" +:+ after.
Proof.
  revert before. induction s as [|c s IH]; intros before; cbn [Cut]; [done|].
  destruct (Ascii.eqb_spec c sep) as [->|]; [by intros [= <- <-]|].
  destruct (Cut sep s) as [b [a|]]; intros H; simplify_eq. rewrite (IH b eq_refl). done.
Qed.

Lemma Cut_whole sep p s : whole sep p → Cut sep (p +:+ String sep s) = (p, Some s).
Proof.
  unfold whole. induction p as [|c p IH]; intros Hp.
  { change ("" +:+ String sep s) with (String sep s). cbn [Cut]. by rewrite Ascii.eqb_refl. }
  change (String c p +:+ String sep s) with (String c (p +:+ String sep s)). cbn [Cut]. cbn [Split] in Hp.
  destruct (Ascii.eqb c sep); [by destruct (Split sep p)|]. rewrite IH; [done|].
  destruct (Split sep p) as [|q qs] eqn:E; [by apply Split_nonempty in E|]. by injection Hp as -> ->.
Qed.

Lemma whole_append sep p s : whole sep p → whole sep s → whole sep (p +:+ s).
Proof.
  unfold whole. induction p as [|c p IH]; intros Hp Hs; [done|]. change (String c p +:+ s) with (String c (p +:+ s)). cbn [Split] in Hp |- *.
  destruct (Ascii.eqb c sep); [by destruct (Split sep p)|]. rewrite IH; [done| |done].
  destruct (Split sep p) as [|q qs] eqn:E; [by apply Split_nonempty in E|]. by injection Hp as -> ->.
Qed.

Lemma Cut_before sep s : whole sep (Cut sep s).1.
Proof.
  unfold whole. induction s as [|c s IH]; cbn [Cut]; [done|]. destruct (Ascii.eqb c sep) eqn:Ec; [done|].
  destruct (Cut sep s) as [b a]. cbn [fst] in *. cbn [Split]. by rewrite Ec, IH.
Qed.

Lemma Cut_none sep s : (Cut sep s).2 = None ↔ whole sep s.
Proof.
  unfold whole. induction s as [|c s IH]; cbn [Cut Split]; [done|]. destruct (Ascii.eqb c sep).
  - cbn. split; [done|]. intros H. by injection H.
  - destruct (Cut sep s) as [b a]. cbn [snd] in *. rewrite IH. destruct (Split sep s) as [|p ps] eqn:E; [by apply Split_nonempty in E|].
    split; [by intros [= -> ->]|]. by intros [= -> ->].
Qed.
