(* ===== verification/Rfc3339.v ===== *)
(** * [time.Parse(time.RFC3339)]

    The strict form of the format, which is what the program writes and reads
    back: date and time, an optional fraction of a second, [Z] or an offset.
    The laxer spellings Go falls back on are refused here. What [GoText]
    renders reads back as the instant, to the second. *)

From Stdlib Require Import Ascii.
From S2P Require Import Prelude GoLang GoText.
Local Open Scope Z_scope.

(** ** The calendar *)

Definition leap (y : Z) : bool := (y mod 4 =? 0) && (negb (y mod 100 =? 0) || (y mod 400 =? 0)).

Definition daysIn (m y : Z) : Z :=
  if m =? 2 then (if leap y then 29 else 28)
  else if (m =? 4) || (m =? 6) || (m =? 9) || (m =? 11) then 30 else 31.

(** The day of a date, counted from 1 January of year 1. *)
Definition day_of (y m d : Z) : Z :=
  let y := if m <=? 2 then y - 1 else y in
  let era := y / 400 in
  let yoe := y mod 400 in
  let mp := if m <=? 2 then m + 9 else m - 3 in
  let doy := (153 * mp + 2) / 5 + d - 1 in
  era * 146097 + (365 * yoe + yoe / 4 - yoe / 100 + doy) - 306.

(** ** Parsing *)

Definition parseUint (cs : list Ascii.ascii) (lo hi : Z) : option Z :=
  if forallb (λ c, (0 <=? char_digit c) && (char_digit c <=? 9)) cs then
    let x := digits_value (map char_digit cs) in
    if (x <? lo) || (hi <? x) then None else Some x
  else None.

Definition is_digit (c : Ascii.ascii) : bool := (0 <=? char_digit c) && (char_digit c <=? 9).

(** The leading digits, and what follows. *)
Fixpoint span_digits (cs : list Ascii.ascii) : list Ascii.ascii * list Ascii.ascii :=
  match cs with
  | c :: cs' => if is_digit c then let '(ds, r) := span_digits cs' in (c :: ds, r) else ([], cs)
  | [] => ([], [])
  end.

(** Nanoseconds: the first nine digits. *)
Definition parseFraction (cs : list Ascii.ascii) : Z * list Ascii.ascii :=
  match cs with
  | "."%char :: cs' =>
      match span_digits cs' with
      | ([], _) => (0, cs)
      | (ds, r) =>
          let ds := take 9 ds in
          (digits_value (map char_digit ds) * 10 ^ (9 - Z.of_nat (length ds)), r)
      end
  | _ => (0, cs)
  end.

(** Seconds east of UTC. *)
Definition parseZone (cs : list Ascii.ascii) : option Z :=
  match cs with
  | ["Z"%char] => Some 0
  | [sgn; h1; h2; ":"%char; m1; m2] =>
      match parseUint [h1; h2] 0 23, parseUint [m1; m2] 0 59 with
      | Some h, Some m =>
          if Ascii.eqb sgn "+" then Some (h * 3600 + m * 60)
          else if Ascii.eqb sgn "-" then Some (- (h * 3600 + m * 60))
          else None
      | _, _ => None
      end
  | _ => None
  end.

Definition is_char (c c' : Ascii.ascii) : bool := Ascii.eqb c c'.

(** [None] is an error. *)
Definition ParseRFC3339 (s : string) : option time :=
  match String.list_ascii_of_string s with
  | y1 :: y2 :: y3 :: y4 :: s1 :: m1 :: m2 :: s2 :: d1 :: d2 :: s3 :: h1 :: h2 :: s4 :: n1 :: n2 :: s5 :: e1 :: e2 :: rest =>
      match parseUint [y1; y2; y3; y4] 0 9999, parseUint [m1; m2] 1 12 with
      | Some y, Some m =>
          match parseUint [d1; d2] 1 (daysIn m y), parseUint [h1; h2] 0 23, parseUint [n1; n2] 0 59,
                parseUint [e1; e2] 0 59 with
          | Some d, Some h, Some n, Some sec =>
              if is_char s1 "-" && is_char s2 "-" && is_char s3 "T" && is_char s4 ":" && is_char s5 ":" then
                let '(nsec, rest) := parseFraction rest in
                match parseZone rest with
                | Some offset => Some ((day_of y m d * 86400 + h * 3600 + n * 60 + sec - offset) * second + nsec)
                | None => None
                end
              else None
          | _, _, _, _ => None
          end
      | _, _ => None
      end
  | _ => None
  end.

Example parse_offset : ParseRFC3339 "2024-02-29T14:34:56.5+02:00" = Some ((unixToZero + 1709210096) * second + 500000000).
Proof. reflexivity. Qed.
Example parse_no_such_day : ParseRFC3339 "2023-02-29T12:34:56Z" = None.
Proof. reflexivity. Qed.
Example parse_empty : ParseRFC3339 "" = None.
Proof. reflexivity. Qed.

(** ** The calendar, there and back *)

(** The first day of a year of an era, whose years begin in March. *)
Definition year_start (y : Z) : Z := 365 * y + y / 4 - y / 100 + y / 400.

(** The year of an era a day of it falls in. *)
Definition era_year (doe : Z) : Z := (doe - doe / 1460 + doe / 36524 - doe / 146096) / 365.

Lemma era_year_mono a b : 0 ≤ a ≤ b → b < 146097 → era_year a ≤ era_year b.
Proof.
  intros Ha Hb. unfold era_year. apply Z.div_le_mono; [lia|].
  destruct (Z.eq_dec b 146096) as [->|].
  - destruct (Z.eq_dec a 146096) as [->|]; [lia|].
    change (146096 / 1460) with 100. change (146096 / 36524) with 4. change (146096 / 146096) with 1.
    rewrite (Z.div_small a 146096) by lia.
    assert (a / 36524 ≤ 3) by (apply Z.lt_succ_r, Z.div_lt_upper_bound; lia).
    assert (a - a / 1460 ≤ 146095 - 100).
    { pose proof (Z.div_mod a 1460 ltac:(lia)). pose proof (Z.mod_pos_bound a 1460 ltac:(lia)). lia. }
    lia.
  - rewrite !(Z.div_small _ 146096) by lia.
    assert (a / 36524 ≤ b / 36524) by (apply Z.div_le_mono; lia).
    pose proof (Z.div_mod a 1460 ltac:(lia)). pose proof (Z.mod_pos_bound a 1460 ltac:(lia)).
    pose proof (Z.div_mod b 1460 ltac:(lia)). pose proof (Z.mod_pos_bound b 1460 ltac:(lia)). nia.
Qed.

(** Both ends of every year of an era. *)
Lemma era_year_ends :
  forallb (λ n, let y := Z.of_nat n in
    (era_year (year_start y) =? y) && (era_year (year_start (y + 1) - 1) =? y) &&
    (year_start (y + 1) - year_start y =? (if leap (y + 1) then 366 else 365))) (seq 0 400) = true.
Proof. vm_compute. reflexivity. Qed.

Lemma era_year_spec doe :
  0 ≤ doe < 146097 →
  0 ≤ era_year doe < 400 ∧ year_start (era_year doe) ≤ doe < year_start (era_year doe + 1) ∧
  year_start (era_year doe + 1) - year_start (era_year doe) = (if leap (era_year doe + 1) then 366 else 365).
Proof.
  intros Hd. pose proof era_year_ends as He. rewrite forallb_forall in He.
  assert (Hy : 0 ≤ era_year doe < 400).
  { split.
    - change 0 with (era_year 0). apply era_year_mono; lia.
    - apply (Z.le_lt_trans _ 399); [|lia]. change 399 with (era_year 146096). apply era_year_mono; lia. }
  assert (Hends : ∀ y, 0 ≤ y < 400 → era_year (year_start y) = y ∧ era_year (year_start (y + 1) - 1) = y ∧
    year_start (y + 1) - year_start y = (if leap (y + 1) then 366 else 365)).
  { intros y Hy'. specialize (He (Z.to_nat y)). rewrite in_seq, Z2Nat.id in He by lia. specialize (He ltac:(lia)).
    cbn zeta in He. bool_props. lia. }
  set (y := era_year doe) in *. destruct (Hends y Hy) as (_ & _ & Hlen). split; [done|]. split; [|done].
  assert (Hbound : ∀ y, 0 ≤ y ≤ 400 → 0 ≤ year_start y ≤ 146097).
  { intros x Hx. unfold year_start. pose proof (Z.div_mod x 4 ltac:(lia)). pose proof (Z.mod_pos_bound x 4 ltac:(lia)).
    pose proof (Z.div_mod x 100 ltac:(lia)). pose proof (Z.mod_pos_bound x 100 ltac:(lia)).
    pose proof (Z.div_mod x 400 ltac:(lia)). pose proof (Z.mod_pos_bound x 400 ltac:(lia)). lia. }
  split.
  - destruct (Z.le_gt_cases (year_start y) doe) as [|Hlt]; [done|]. exfalso.
    destruct (Z.eq_dec y 0) as [E|Hn]; [rewrite E in Hlt; change (year_start 0) with 0 in Hlt; lia|].
    destruct (Hends (y - 1) ltac:(lia)) as (_ & Hend & _). replace (y - 1 + 1) with y in Hend by lia.
    pose proof (Hbound y ltac:(lia)).
    pose proof (era_year_mono doe (year_start y - 1) ltac:(lia) ltac:(lia)) as Hm. fold y in Hm. lia.
  - destruct (Z.lt_ge_cases doe (year_start (y + 1))) as [|Hge]; [done|]. exfalso.
    destruct (Z.eq_dec y 399) as [E|Hn]; [rewrite E in Hge; change (year_start (399 + 1)) with 146097 in Hge; lia|].
    destruct (Hends (y + 1) ltac:(lia)) as (Hst & _ & _). pose proof (Hbound (y + 1) ltac:(lia)).
    pose proof (era_year_mono (year_start (y + 1)) doe ltac:(lia) ltac:(lia)) as Hm. fold y in Hm. lia.
Qed.

Lemma leap_period y k : leap (y + k * 400) = leap y.
Proof.
  unfold leap. rewrite Z_mod_plus_full.
  replace (y + k * 400) with (y + (k * 100) * 4) at 1 by lia. rewrite Z_mod_plus_full.
  replace (y + k * 400) with (y + (k * 4) * 100) by lia. by rewrite Z_mod_plus_full.
Qed.

(** Runs the closed tests and divisions of a goal. *)
Ltac run_closed :=
  repeat match goal with
  | |- context [(153 * ?k + 2) / 5] =>
      let t := eval vm_compute in ((153 * k + 2) / 5) in change ((153 * k + 2) / 5) with t
  | |- context [?a <? ?b] => let t := eval vm_compute in (a <? b) in change (a <? b) with t
  | |- context [?a <=? ?b] => let t := eval vm_compute in (a <=? b) in change (a <=? b) with t
  | |- context [?a =? ?b] => let t := eval vm_compute in (a =? b) in change (a =? b) with t
  end; cbn [orb].

(** The day of a year that begins in March. *)
Lemma month_spec doy :
  0 ≤ doy ≤ 365 →
  let mp := (5 * doy + 2) / 153 in
  let d := doy - (153 * mp + 2) / 5 + 1 in
  let m := if mp <? 10 then mp + 3 else mp - 9 in
  0 ≤ mp ≤ 11 ∧ 1 ≤ m ≤ 12 ∧ 1 ≤ d ∧ (if m <=? 2 then m + 9 else m - 3) = mp ∧
  ∀ y, (m = 2 → d ≤ (if leap y then 29 else 28)) → d ≤ daysIn m y.
Proof.
  intros Hd. cbn zeta. set (mp := (5 * doy + 2) / 153).
  pose proof (Z.div_mod (5 * doy + 2) 153 ltac:(lia)) as E. pose proof (Z.mod_pos_bound (5 * doy + 2) 153 ltac:(lia)).
  fold mp in E. assert (Hmp : 0 ≤ mp ≤ 11) by lia. clearbody mp.
  assert (mp = 0 ∨ mp = 1 ∨ mp = 2 ∨ mp = 3 ∨ mp = 4 ∨ mp = 5 ∨ mp = 6 ∨ mp = 7 ∨ mp = 8 ∨ mp = 9 ∨ mp = 10 ∨ mp = 11)
    as Hcases by lia.
  repeat destruct Hcases as [Hcases|Hcases]; subst mp; unfold daysIn; run_closed; (split_and!; [lia..|]); intros y Hfeb; lia.
Qed.

Lemma civil_spec day :
  let '(y, m, d) := civil day in 1 ≤ m ≤ 12 ∧ 1 ≤ d ≤ daysIn m y ∧ day_of y m d = day.
Proof.
  unfold civil. set (z := day + 306). set (era := z / 146097). set (doe := z mod 146097).
  assert (Hz : z = era * 146097 + doe) by (unfold era, doe; pose proof (Z.div_mod z 146097 ltac:(lia)); lia).
  assert (Hdoe : 0 ≤ doe < 146097) by (apply Z.mod_pos_bound; lia).
  fold (era_year doe). destruct (era_year_spec doe Hdoe) as (Hy & Hst & Hlen).
  set (yoe := era_year doe) in *. clearbody yoe doe era.
  assert (Hys : year_start yoe = 365 * yoe + yoe / 4 - yoe / 100).
  { unfold year_start. rewrite (Z.div_small yoe 400) by lia. lia. }
  rewrite <-Hys. set (doy := doe - year_start yoe).
  assert (Hdoy : 0 ≤ doy ≤ 365 ∧ (doy = 365 → leap (yoe + 1) = true)) by (unfold doy; destruct (leap (yoe + 1)); lia).
  destruct Hdoy as [Hdoy Hleap]. pose proof (month_spec doy Hdoy) as Hm. cbn zeta in Hm.
  set (mp := (5 * doy + 2) / 153) in *. set (m := if mp <? 10 then mp + 3 else mp - 9) in *.
  destruct Hm as (Hmp & Hm & Hd & Hback & Hdays). set (d := doy - (153 * mp + 2) / 5 + 1) in *.
  split; [done|]. split.
  - split; [done|]. apply Hdays. intros E. assert (mp = 11) as Emp by (unfold m in E; destruct (Z.ltb_spec mp 10); lia).
    assert (Hd' : d = doy - 336) by (unfold d; rewrite Emp; change ((153 * 11 + 2) / 5) with 337; lia).
    rewrite E. cbn. replace (yoe + era * 400 + 1) with (yoe + 1 + era * 400) by lia. rewrite leap_period.
    destruct (leap (yoe + 1)); [lia|]. destruct (Z.eq_dec doy 365); [by specialize (Hleap ltac:(done))|lia].
  - unfold day_of. rewrite Hback.
    replace (if m <=? 2 then yoe + era * 400 + (if m <=? 2 then 1 else 0) - 1 else yoe + era * 400 + (if m <=? 2 then 1 else 0))
      with (yoe + era * 400) by (destruct (m <=? 2); lia).
    rewrite Z_mod_plus_full, Z.div_add by lia. rewrite (Z.mod_small yoe), (Z.div_small yoe) by lia.
    rewrite <-Hys. unfold d, doy, z in *. lia.
Qed.

(** The days of the years 1 to 9999. *)
Definition lastDay : Z := 3652059.

Lemma civil_year day : 0 ≤ day < lastDay → let '(y, _, _) := civil day in 0 ≤ y ≤ 9999.
Proof.
  intros Hday. pose proof (civil_spec day) as H. destruct (civil day) as [[y m] d]. destruct H as (Hm & Hd & E).
  assert (Hd31 : d ≤ 31).
  { destruct Hd as [_ Hd]. unfold daysIn in Hd. destruct (m =? 2); [destruct (leap y); lia|]. destruct (_ || _); lia. }
  unfold day_of, lastDay in *. set (y' := if m <=? 2 then y - 1 else y) in *.
  pose proof (Z.div_mod y' 400 ltac:(lia)) as E400. pose proof (Z.mod_pos_bound y' 400 ltac:(lia)) as H400.
  set (era := y' / 400) in *. set (yoe := y' mod 400) in *. clearbody era yoe.
  pose proof (Z.div_mod yoe 4 ltac:(lia)). pose proof (Z.mod_pos_bound yoe 4 ltac:(lia)).
  pose proof (Z.div_mod yoe 100 ltac:(lia)). pose proof (Z.mod_pos_bound yoe 100 ltac:(lia)).
  set (mp := if m <=? 2 then m + 9 else m - 3) in *.
  pose proof (Z.div_mod (153 * mp + 2) 5 ltac:(lia)). pose proof (Z.mod_pos_bound (153 * mp + 2) 5 ltac:(lia)).
  assert (Hy : y' = if m <=? 2 then y - 1 else y) by done. assert (Hmp : mp = if m <=? 2 then m + 9 else m - 3) by done.
  clearbody y' mp. destruct (Z.leb_spec m 2); lia.
Qed.

(** ** Digits, there and back *)

Abbreviation chars := String.list_ascii_of_string.

Lemma chars_append s t : chars (s +:+ t) = chars s ++ chars t.
Proof. induction s as [|c s IH]; [done|]. cbn. by rewrite <-IH. Qed.

Lemma chars_digits l : chars (string_of_digits l) = map digit_char l.
Proof. induction l as [|d l IH]; [done|]. cbn. by rewrite <-IH. Qed.

Lemma length_chars s : String.length s = length (chars s).
Proof. induction s as [|c s IH]; [done|]. cbn. by rewrite IH. Qed.

Lemma chars_zeros n : chars (zeros n) = map digit_char (repeat 0 n).
Proof. induction n as [|n IH]; [done|]. cbn. by rewrite <-IH. Qed.

Lemma digits_fuel_length fuel n acc w :
  0 ≤ n < 10 ^ Z.of_nat w → (0 < w)%nat → (length (digits_fuel fuel n acc) ≤ w + length acc)%nat.
Proof.
  revert n acc w. induction fuel as [|fuel IH]; intros n acc w Hn Hw; cbn [digits_fuel]; [lia|].
  destruct (Z.ltb_spec n 10); [cbn; lia|].
  destruct w as [|[|w]]; [lia|change (10 ^ Z.of_nat 1) with 10 in Hn; lia|].
  rewrite Nat2Z.inj_succ, Z.pow_succ_r in Hn by lia.
  pose proof (IH (n / 10) (n mod 10 :: acc) (S w)) as H'. cbn [length] in H'.
  etransitivity; [apply H'; [|lia]|lia]. split; [apply Z.div_pos; lia|apply Z.div_lt_upper_bound; lia].
Qed.

Lemma digits_value_zeros n l : digits_value (repeat 0 n ++ l) = digits_value l.
Proof. unfold digits_value. induction n as [|n IH]; [done|]. exact IH. Qed.

(** A padded number is its digits. *)
Lemma pad_chars w z :
  0 ≤ z < 10 ^ Z.of_nat w → (0 < w)%nat →
  ∃ l, chars (pad w z) = map digit_char l ∧ length l = w ∧ Forall (λ d, 0 ≤ d < 10) l ∧ digits_value l = z.
Proof.
  intros Hz Hw. unfold pad, Itoa. destruct (Z.ltb_spec z 0); [lia|].
  destruct (decimal_digits_value z ltac:(lia)) as [Hv Hd].
  pose proof (digits_fuel_length (S (Z.to_nat (Z.log2 z))) z [] w Hz Hw) as Hlen. fold (decimal_digits z) in Hlen.
  rewrite length_chars, chars_digits, length_map. set (ds := decimal_digits z) in *. cbn [length] in Hlen.
  exists (repeat 0 (w - length ds) ++ ds). split_and!.
  - by rewrite chars_append, chars_zeros, chars_digits, map_app.
  - rewrite length_app, repeat_length. lia.
  - apply Forall_app. split; [|done]. apply Forall_forall. intros d Hin%list_elem_of_In%repeat_spec. lia.
  - by rewrite digits_value_zeros.
Qed.

Lemma parseUint_digits l lo hi :
  Forall (λ d, 0 ≤ d < 10) l → lo ≤ digits_value l ≤ hi → parseUint (map digit_char l) lo hi = Some (digits_value l).
Proof.
  intros Hl Hv. unfold parseUint.
  assert (Hback : map char_digit (map digit_char l) = l).
  { clear Hv. induction Hl as [|d l Hd _ IH]; [done|]. cbn [map]. rewrite IH. f_equal.
    unfold char_digit, digit_char. rewrite N_ascii_embedding by lia. lia. }
  assert (Hall : forallb (λ c, (0 <=? char_digit c) && (char_digit c <=? 9)) (map digit_char l) = true).
  { clear Hv Hback. apply forallb_forall. intros c Hc%in_map_iff. destruct Hc as (d & <- & Hd%list_elem_of_In).
    rewrite Forall_forall in Hl. specialize (Hl _ Hd). cbn beta in Hl. unfold char_digit, digit_char.
    rewrite N_ascii_embedding by lia. apply andb_true_iff. rewrite !Z.leb_le. lia. }
  rewrite Hall, Hback. destruct (Z.ltb_spec (digits_value l) lo), (Z.ltb_spec hi (digits_value l)); by try lia.
Qed.

Lemma pad2 z : 0 ≤ z < 100 →
  ∃ a b, chars (pad 2 z) = [a; b] ∧ ∀ lo hi, lo ≤ z ≤ hi → parseUint [a; b] lo hi = Some z.
Proof.
  intros Hz. destruct (pad_chars 2 z) as (l & Hc & Hl & Hd & Hv); [done|lia|].
  destruct l as [|a [|b [|? ?]]]; try done. exists (digit_char a), (digit_char b). split; [done|].
  intros lo hi Hlh. rewrite <-Hv in *. by apply (parseUint_digits [a; b]).
Qed.

Lemma pad4 z : 0 ≤ z < 10000 →
  ∃ a b c d, chars (pad 4 z) = [a; b; c; d] ∧ ∀ lo hi, lo ≤ z ≤ hi → parseUint [a; b; c; d] lo hi = Some z.
Proof.
  intros Hz. destruct (pad_chars 4 z) as (l & Hc & Hl & Hd & Hv); [done|lia|].
  destruct l as [|a [|b [|c [|d [|? ?]]]]]; try done.
  exists (digit_char a), (digit_char b), (digit_char c), (digit_char d). split; [done|].
  intros lo hi Hlh. rewrite <-Hv in *. by apply (parseUint_digits [a; b; c; d]).
Qed.

(** An instant of the years 1 to 9999, rendered and read back, is the second it
    falls in. *)
Lemma parse_format t :
  0 ≤ t < lastDay * 86400 * second → ParseRFC3339 (FormatRFC3339 t) = Some (t / second * second).
Proof.
  intros Ht. unfold FormatRFC3339. set (s := t / second). assert (Hs : 0 ≤ s < lastDay * 86400).
  { unfold s. split; [apply Z.div_pos; unfold second; lia|]. apply Z.div_lt_upper_bound; [done|lia]. }
  pose proof (Z.div_mod s 86400 ltac:(lia)) as Es. pose proof (Z.mod_pos_bound s 86400 ltac:(lia)) as Hr.
  set (r := s mod 86400) in *. set (day := s / 86400) in *. assert (Hday : 0 ≤ day < lastDay) by lia.
  pose proof (civil_spec day) as Hc. pose proof (civil_year day Hday) as Hy.
  destruct (civil day) as [[y m] d]. destruct Hc as (Hm & Hd & Hback).
  assert (Hd31 : daysIn m y ≤ 31).
  { unfold daysIn. destruct (m =? 2); [by destruct (leap y)|]. by destruct (_ || _). }
  pose proof (Z.div_mod r 3600 ltac:(lia)) as Eh. pose proof (Z.mod_pos_bound r 3600 ltac:(lia)).
  pose proof (Z.div_mod (r mod 3600) 60 ltac:(lia)) as En. pose proof (Z.mod_pos_bound (r mod 3600) 60 ltac:(lia)).
  assert (Emod : r mod 60 = (r mod 3600) mod 60).
  { symmetry. apply (Zmod_unique r 60 (r / 3600 * 60 + r mod 3600 / 60)); lia. }
  destruct (pad4 y ltac:(lia)) as (y1 & y2 & y3 & y4 & Cy & Py).
  destruct (pad2 m ltac:(lia)) as (m1 & m2 & Cm & Pm). destruct (pad2 d ltac:(lia)) as (d1 & d2 & Cd & Pd).
  destruct (pad2 (r / 3600) ltac:(lia)) as (h1 & h2 & Ch & Ph).
  destruct (pad2 (r mod 3600 / 60) ltac:(lia)) as (n1 & n2 & Cn & Pn).
  destruct (pad2 (r mod 60) ltac:(lia)) as (e1 & e2 & Ce & Pe).
  unfold ParseRFC3339. rewrite !chars_append, Cy, Cm, Cd, Ch, Cn, Ce. cbn [chars app].
  rewrite (Py 0 9999), (Pm 1 12), (Pd 1 (daysIn m y)), (Ph 0 23), (Pn 0 59), (Pe 0 59) by lia. cbn [is_char].
  f_equal. rewrite Hback. lia.
Qed.
