(* ===== verification/Quantity.v ===== *)
(** * [resource.Quantity] of k8s.io/apimachinery, as an interface

    The program computes with quantities only through the operations of
    [QuantityOps]; their code is not part of the repository. [QuantityLaws]
    states what the package documents of them: a quantity is an exact decimal
    number, held here by [nano], in billionths, the finest fraction it keeps.
    [nano_quantity] is an implementation, used to evaluate the model. *)

From S2P Require Import Prelude GoLang.
Local Open Scope Z_scope.

Inductive Format := DecimalExponent | BinarySI | DecimalSI.

#[export] Instance Format_eq_dec : EqDecision Format.
Proof. solve_decision. Defined.

Class QuantityOps : Type := {
  Quantity : Type;
  (** [resource.NewQuantity], [NewMilliQuantity] and
      [NewScaledQuantity(v, resource.Nano)] *)
  NewQuantity : Z → Format → Quantity;
  NewMilliQuantity : Z → Format → Quantity;
  NewNanoQuantity : Z → Quantity;
  MustParse : string → Quantity;
  (** [Quantity{}] *)
  ZeroQuantity : Quantity;
  Value : Quantity → Z;
  MilliValue : Quantity → Z;
  Cmp : Quantity → Quantity → comparison;
  IsZero : Quantity → bool;
  QFormat : Quantity → Format;
  QString : Quantity → string;
}.

(** To an integer, away from zero. *)
Definition round_away (n d : Z) : Z := Z.sgn n * ((Z.abs n + d - 1) / d).

Lemma round_away_exact z d : 0 < d → round_away (z * d) d = z.
Proof.
  intros Hd. unfold round_away.
  assert ((Z.abs (z * d) + d - 1) / d = Z.abs z) as ->.
  { symmetry. apply (Z.div_unique_pos _ _ _ (d - 1)); [lia|].
    rewrite Z.abs_mul, (Z.abs_eq d) by lia. lia. }
  rewrite Z.sgn_mul, (Z.sgn_pos d), Z.mul_1_r by lia. destruct z; simpl; lia.
Qed.

Lemma round_away_holds z d : 0 ≤ z → 0 < d → z ≤ round_away z d * d.
Proof.
  intros Hz Hd. unfold round_away. rewrite Z.abs_eq by done.
  destruct (decide (z = 0)) as [->|]; [done|].
  rewrite Z.sgn_pos, Z.mul_1_l by lia.
  pose proof (Z.div_mod (z + d - 1) d ltac:(lia)).
  pose proof (Z.mod_pos_bound (z + d - 1) d ltac:(lia)). lia.
Qed.

Class QuantityLaws {QO : QuantityOps} : Type := {
  nano : Quantity → Z;
  Cmp_nano p q : Cmp p q = (nano p ?= nano q);
  IsZero_nano q : IsZero q = (nano q =? 0);
  nano_NewQuantity z f : int64_range z → nano (NewQuantity z f) = z * 10 ^ 9;
  nano_NewMilliQuantity z f : int64_range z → nano (NewMilliQuantity z f) = z * 10 ^ 6;
  nano_NewNanoQuantity z : int64_range z → nano (NewNanoQuantity z) = z;
  nano_ZeroQuantity : nano ZeroQuantity = 0;
  QFormat_NewQuantity z f : QFormat (NewQuantity z f) = f;
  QFormat_NewMilliQuantity z f : QFormat (NewMilliQuantity z f) = f;
  Value_nano q : int64_range (round_away (nano q) (10 ^ 9)) →
    Value q = round_away (nano q) (10 ^ 9);
  MilliValue_nano q : int64_range (round_away (nano q) (10 ^ 6)) →
    MilliValue q = round_away (nano q) (10 ^ 6);
  nano_MustParse_10m : nano (MustParse "10m") = 10 * 10 ^ 6;
  nano_MustParse_15Mi : nano (MustParse "15Mi") = 15 * 2 ^ 20 * 10 ^ 9;
}.

Section Compare.
Context {QO : QuantityOps} {QL : QuantityLaws}.
Implicit Types p q : Quantity.

Definition q_le p q : Prop := nano p ≤ nano q.

(** [q.Cmp(r) < 0] and [q.Cmp(r) > 0], as the source writes them. *)
Lemma Cmp_lt p q : Cmp p q = Lt ↔ nano p < nano q.
Proof. rewrite Cmp_nano. apply Z.compare_lt_iff. Qed.

Lemma Cmp_gt p q : Cmp p q = Gt ↔ nano q < nano p.
Proof. rewrite Cmp_nano. apply Z.compare_gt_iff. Qed.

Lemma Cmp_eq p q : Cmp p q = Eq ↔ nano p = nano q.
Proof. rewrite Cmp_nano. apply Z.compare_eq_iff. Qed.

Lemma Cmp_refl q : Cmp q q = Eq.
Proof. by apply Cmp_eq. Qed.

Lemma Cmp_flip p q : Cmp q p = CompOpp (Cmp p q).
Proof. rewrite !Cmp_nano. apply Z.compare_antisym. Qed.

Lemma Value_NewQuantity z f : int64_range z → Value (NewQuantity z f) = z.
Proof.
  intros Hz. rewrite Value_nano; rewrite nano_NewQuantity by done;
    by rewrite round_away_exact.
Qed.

Lemma MilliValue_NewMilliQuantity z f :
  int64_range z → MilliValue (NewMilliQuantity z f) = z.
Proof.
  intros Hz. rewrite MilliValue_nano; rewrite nano_NewMilliQuantity by done;
    by rewrite round_away_exact.
Qed.
End Compare.

(** Boolean forms of the comparisons of the source. *)
Definition is_lt (c : comparison) : bool := match c with Lt => true | _ => false end.
Definition is_gt (c : comparison) : bool := match c with Gt => true | _ => false end.
Definition is_eq (c : comparison) : bool := match c with Eq => true | _ => false end.

(** ** An implementation *)

Record nquantity := NQ { nq_nano : Z; nq_format : Format }.

Definition nano_parse (s : string) : nquantity :=
  if String.eqb s "10m" then NQ (10 * 10 ^ 6) DecimalSI
  else if String.eqb s "15Mi" then NQ (15 * 2 ^ 20 * 10 ^ 9) BinarySI
  else NQ 0 DecimalSI.

Definition nano_quantity : QuantityOps := {|
  Quantity := nquantity;
  NewQuantity z f := NQ (z * 10 ^ 9) f;
  NewMilliQuantity z f := NQ (z * 10 ^ 6) f;
  NewNanoQuantity z := NQ z DecimalSI;
  MustParse := nano_parse;
  ZeroQuantity := NQ 0 DecimalExponent;
  Value q := wrap64 (round_away (nq_nano q) (10 ^ 9));
  MilliValue q := wrap64 (round_away (nq_nano q) (10 ^ 6));
  Cmp p q := nq_nano p ?= nq_nano q;
  IsZero q := nq_nano q =? 0;
  QFormat := nq_format;
  QString _ := "";
|}.

Definition nano_quantity_laws : @QuantityLaws nano_quantity.
Proof. refine {| nano := (nq_nano : @Quantity nano_quantity → Z) |}; intros; try done; by apply wrap64_id. Defined.
