(* ===== verification/Kube.v ===== *)
(** * The Kubernetes API objects the program reads

    Records of the fields the program uses of [corev1], [metav1], [appsv1] and
    [batchv1] objects. What it calls of those packages is the interface
    [KubeOps]; [KubeLaws] is what they document. A [map] of Go is a [gmap]; a
    nil map and an empty one read the same and are not told apart. *)

From S2P Require Import Prelude GoLang Quantity.
Local Open Scope Z_scope.

Abbreviation strmap := (gmap string string).

(** [m[k]] of a map of strings: the zero value when absent. *)
Definition index (m : strmap) (k : string) : string := default "" (m !! k).

Definition ResourceCPU : string := "cpu".
Definition ResourceMemory : string := "memory".

Record OwnerReference := {
  ref_Kind : string;
  ref_Name : string;
  ref_UID : string;
  ref_Controller : option bool;
}.

(** [corev1.ResourceList] *)
Abbreviation ResourceList := (gmap string Quantity).

Section Objects.
Context {QO : QuantityOps}.

Record ResourceRequirements := {
  Requests : ResourceList;
  Limits : ResourceList;
}.

Record Container := {
  c_Name : string;
  c_Resources : ResourceRequirements;
  c_RestartPolicy : option string;
}.

Record ContainerStatus := {
  cs_Name : string;
  cs_WaitingReason : option string;
  cs_Resources : option ResourceRequirements;
}.

Record PodCondition := {
  cond_Type : string;
  cond_Status : string;
  cond_Reason : string;
}.

Record Pod := {
  pod_Name : string;
  pod_Namespace : string;
  pod_UID : string;
  pod_Labels : strmap;
  pod_Annotations : strmap;
  pod_OwnerReferences : list OwnerReference;
  pod_Deleting : bool;
  pod_Created : time;
  pod_Containers : list Container;
  pod_InitContainers : list Container;
  pod_Phase : string;
  pod_Conditions : list PodCondition;
  pod_ContainerStatuses : list ContainerStatus;
  pod_InitContainerStatuses : list ContainerStatus;
  pod_EphemeralContainerStatuses : list ContainerStatus;
}.

(** [list[name]] of a resource list: the zero Quantity when absent. *)
Definition rl_index (rl : ResourceList) (name : string) : Quantity :=
  default ZeroQuantity (rl !! name).

(** The container with other resources. *)
Definition with_resources (c : Container) (r : ResourceRequirements) : Container :=
  {| c_Name := c_Name c; c_Resources := r; c_RestartPolicy := c_RestartPolicy c |}.

(** The pod with other container specs. *)
Definition with_containers (p : Pod) (cs inits : list Container) : Pod :=
  {| pod_Name := pod_Name p; pod_Namespace := pod_Namespace p; pod_UID := pod_UID p;
     pod_Labels := pod_Labels p; pod_Annotations := pod_Annotations p;
     pod_OwnerReferences := pod_OwnerReferences p; pod_Deleting := pod_Deleting p;
     pod_Created := pod_Created p; pod_Containers := cs; pod_InitContainers := inits;
     pod_Phase := pod_Phase p; pod_Conditions := pod_Conditions p;
     pod_ContainerStatuses := pod_ContainerStatuses p;
     pod_InitContainerStatuses := pod_InitContainerStatuses p;
     pod_EphemeralContainerStatuses := pod_EphemeralContainerStatuses p |}.
End Objects.

Class KubeOps {QO : QuantityOps} : Type := {
  (** [ResourceList.Cpu()] and [ResourceList.Memory()] *)
  rl_Cpu : ResourceList → Quantity;
  rl_Memory : ResourceList → Quantity;
  (** [metav1.GetControllerOf] *)
  GetControllerOf : list OwnerReference → option OwnerReference;
  (** [validation.IsValidLabelValue]: what is wrong with the value *)
  IsValidLabelValue : string → list string;
  LabelSelector : Type;
  Selector : Type;
  LabelSelectorAsSelector : LabelSelector → result Selector;
  Matches : Selector → strmap → bool;
}.

Class KubeLaws {QO : QuantityOps} {QL : QuantityLaws} {KO : KubeOps} : Prop := {
  nano_rl_Cpu rl : nano (rl_Cpu rl) = nano (rl_index rl ResourceCPU);
  nano_rl_Memory rl : nano (rl_Memory rl) = nano (rl_index rl ResourceMemory);
  GetControllerOf_Some refs r :
    GetControllerOf refs = Some r → r ∈ refs ∧ ref_Controller r = Some true;
  GetControllerOf_None refs :
    GetControllerOf refs = None → ∀ r, r ∈ refs → ref_Controller r ≠ Some true;
}.

(** An implementation: selectors are label equality, valid label values the
    non-empty ones of at most 63 characters. *)
Definition is_controller (r : OwnerReference) : bool := bool_decide (ref_Controller r = Some true).

Definition simple_kube : @KubeOps nano_quantity := {|
  rl_Cpu rl := @rl_index nano_quantity rl ResourceCPU;
  rl_Memory rl := @rl_index nano_quantity rl ResourceMemory;
  GetControllerOf := List.find is_controller;
  IsValidLabelValue s := if (String.length s <=? 63)%nat then [] else ["too long"];
  LabelSelector := strmap;
  Selector := strmap;
  LabelSelectorAsSelector m := Ok m;
  Matches sel ls := bool_decide (map_Forall (λ k v, ls !! k = Some v) sel);
|}.

Definition simple_kube_laws : @KubeLaws nano_quantity nano_quantity_laws simple_kube.
Proof.
  split; try done; simpl.
  - intros refs r H. apply List.find_some in H as [H1 H2].
    split; [by apply list_elem_of_In|]. by apply bool_decide_eq_true in H2.
  - intros refs H r Hr%list_elem_of_In Hc.
    apply (List.find_none _ _ H) in Hr. unfold is_controller in Hr. by rewrite Hc in Hr.
Defined.
