(* ===== verification/PolicyApi.v ===== *)
(** * The Policy API ([api/v1alpha1/policy_types.go])

    The Policy a recommendation is computed and applied under, with the
    validation rules its CRD enforces at admission. *)

From S2P Require Import Prelude GoLang Quantity Kube.
Local Open Scope Z_scope.

Definition PolicyAnnotation : string := "k8s.sustain.io/policy".
Definition OwnerNameAnnotation : string := "k8s.sustain.io/owner-name".
Definition OptOutAnnotation : string := "k8s.sustain.io/opt-out".

Inductive UpdateMode := UpdateModeOnCreate | UpdateModeOngoing.

#[export] Instance UpdateMode_eq_dec : EqDecision UpdateMode.
Proof. solve_decision. Defined.

Record UpdateTypes := {
  ut_Deployment : option UpdateMode;
  ut_StatefulSet : option UpdateMode;
  ut_DaemonSet : option UpdateMode;
  ut_CronJob : option UpdateMode;
  ut_Job : option UpdateMode;
  ut_ArgoRollout : option UpdateMode;
  ut_Pod : option UpdateMode;
}.

Definition ModeForKind (t : UpdateTypes) (kind : string) : option UpdateMode :=
  if String.eqb kind "Deployment" then ut_Deployment t
  else if String.eqb kind "StatefulSet" then ut_StatefulSet t
  else if String.eqb kind "DaemonSet" then ut_DaemonSet t
  else if String.eqb kind "CronJob" then ut_CronJob t
  else if String.eqb kind "Job" then ut_Job t
  else if String.eqb kind "Rollout" then ut_ArgoRollout t
  else if String.eqb kind "Pod" then ut_Pod t
  else None.

Section Types.
Context {QO : QuantityOps}.

Record ResourceRequestsConfig := {
  Headroom : option Z;
  KeepRequest : bool;
  MaxAllowed : option Quantity;
  MinAllowed : option Quantity;
  Percentile : option Z;
}.

Record ResourceLimitsConfig := {
  EqualsToRequest : bool;
  KeepLimit : bool;
  KeepLimitRequestRatio : bool;
  NoLimit : bool;
  RequestsLimitsRatio : option float64;
}.

Record DownsizeThreshold := {
  Percent : option Z;
  MinDecrease : option Quantity;
}.

Record ResourceConfig := {
  Window : string;
  rc_Requests : ResourceRequestsConfig;
  rc_Limits : ResourceLimitsConfig;
  rc_DownsizeThreshold : option DownsizeThreshold;
}.

Record ResourcesConfigs := {
  CPU : ResourceConfig;
  Memory : ResourceConfig;
}.

Record EvictionPolicy := {
  IgnoreAutoscalerSafeToEvictAnnotations : bool;
}.

Record AutoscalerCoordination := {
  Enabled : bool;
  ReplicaBudgetAnchor : option float64;
}.

Record UpdateSpec := {
  Types : UpdateTypes;
  Eviction : EvictionPolicy;
}.

Record RightSizingSpec := {
  rs_Update : UpdateSpec;
  rs_ResourcesConfigs : ResourcesConfigs;
  rs_AutoscalerCoordination : AutoscalerCoordination;
  ExcludeInitContainers : bool;
  RecommendOnly : bool;
}.

(** The CRD's [XValidation] and range rules on requests. *)
Definition requests_admitted (c : ResourceRequestsConfig) : bool :=
  match MinAllowed c, MaxAllowed c with
  | Some mn, Some mx => negb (is_gt (Cmp mn mx))
  | _, _ => true
  end &&
  (negb (KeepRequest c) ||
    (bool_decide (Headroom c = None) && bool_decide (Percentile c = None) &&
     match MinAllowed c, MaxAllowed c with None, None => true | _, _ => false end)) &&
  match Headroom c with Some h => (0 <=? h) && (h <=? 100) | None => true end &&
  match Percentile c with Some p => (1 <=? p) && (p <=? 100) | None => true end.

(** The CRD's [XValidation] rule on limits: at most one strategy. *)
Definition limits_admitted (c : ResourceLimitsConfig) : bool :=
  let one (b : bool) : Z := if b then 1 else 0 in
  one (EqualsToRequest c) + one (KeepLimit c) + one (KeepLimitRequestRatio c) +
  one (NoLimit c) + one (match RequestsLimitsRatio c with Some _ => true | None => false end)
  <=? 1.

Context {KO : KubeOps}.

Record PolicySelector := {
  Namespaces : list string;
  sel_LabelSelector : option LabelSelector;
}.

Record Policy := {
  pol_Name : string;
  pol_UID : string;
  pol_ResourceVersion : string;
  pol_Selector : PolicySelector;
  pol_RightSizing : RightSizingSpec;
}.

Definition EffectiveRecommendOnly (p : Policy) (global : bool) : bool :=
  global || RecommendOnly (pol_RightSizing p).
End Types.

#[export] Hint Unfold requests_admitted limits_admitted : sustain.
