(* ===== verification/WlrApi.v ===== *)
(** * The WorkloadRecommendation API
    ([api/v1alpha1/workloadrecommendation_types.go]) *)

From S2P Require Import Prelude GoLang Quantity Kube.

Record WorkloadReference := {
  wr_Kind : string;
  wr_Namespace : string;
  wr_Name : string;
}.

Record WorkloadRecommendationSpec := {
  WorkloadRef : WorkloadReference;
  spec_Policy : string;
}.

(** The outcome an object records; [OutcomeUnset] is the empty string. *)
Inductive RecommendationOutcome :=
  | OutcomeUnset
  | OutcomeComputed
  | OutcomeNoData
  | OutcomeTooYoung
  | OutcomeFetchFailed
  | OutcomeConflicted.

#[export] Instance RecommendationOutcome_eq_dec : EqDecision RecommendationOutcome.
Proof. solve_decision. Defined.

#[export] Instance WorkloadReference_eq_dec : EqDecision WorkloadReference.
Proof. solve_decision. Defined.

Section Types.
Context {QO : QuantityOps}.

(** [workload.ContainerRecommendation] has the same fields. *)
Record ContainerRecommendation := {
  CPURequest : option Quantity;
  MemoryRequest : option Quantity;
  CPULimit : option Quantity;
  MemoryLimit : option Quantity;
  RemoveCPULimit : bool;
  RemoveMemoryLimit : bool;
}.

Record TraceStage := {
  Stage : string;
  ts_Value : option Quantity;
  Removed : bool;
  Facts : strmap;
}.

Record ResourceTrace := {
  rt_Request : list TraceStage;
  rt_Limit : list TraceStage;
}.

Record ContainerTrace := {
  ct_CPU : option ResourceTrace;
  ct_Memory : option ResourceTrace;
}.

Record ObservedContainerResources := {
  obs_Init : bool;
  obs_CPURequest : option Quantity;
  obs_MemoryRequest : option Quantity;
  obs_CPULimit : option Quantity;
  obs_MemoryLimit : option Quantity;
}.

Record WorkloadRecommendationStatus := {
  ObservedAt : time;
  wlr_Outcome : RecommendationOutcome;
  ComputedBy : string;
  wlr_Departed : bool;
  ServableUntil : time;
  wlr_Containers : gmap string ContainerRecommendation;
  wlr_Trace : gmap string ContainerTrace;
  ObservedResources : gmap string ObservedContainerResources;
}.

(** The labels, UID and resourceVersion are the object's metadata. *)
Record WorkloadRecommendation := {
  wlr_Namespace : string;
  wlr_Name : string;
  wlr_UID : string;
  wlr_ResourceVersion : string;
  wlr_Labels : strmap;
  wlr_Created : time;
  wlr_Spec : WorkloadRecommendationSpec;
  wlr_Status : WorkloadRecommendationStatus;
}.
(** [WorkloadRecommendationStatus{}] *)
Definition noStatus : WorkloadRecommendationStatus :=
  {| ObservedAt := time_zero; wlr_Outcome := OutcomeUnset; ComputedBy := ""; wlr_Departed := false;
     ServableUntil := time_zero; wlr_Containers := ∅; wlr_Trace := ∅; ObservedResources := ∅ |}.

(** The object with another status. *)
Definition with_status (w : WorkloadRecommendation) (st : WorkloadRecommendationStatus) :
    WorkloadRecommendation :=
  {| wlr_Namespace := wlr_Namespace w; wlr_Name := wlr_Name w; wlr_UID := wlr_UID w;
     wlr_ResourceVersion := wlr_ResourceVersion w; wlr_Labels := wlr_Labels w;
     wlr_Created := wlr_Created w; wlr_Spec := wlr_Spec w; wlr_Status := st |}.
End Types.
