(* ===== verification/Owners.v ===== *)
(** * Owners and identities of pods
    ([ownerref.go], [helpers.go], [kindobjects.go], [annotations.go] of
    [internal/workload])

    The controller chain from a pod to its workload, the owner-name override,
    and the reads of the API server they make, which are the operations of
    [ClusterReads]. *)

From S2P Require Import Prelude GoLang Quantity Kube PolicyApi.
Local Open Scope Z_scope.

(** [apierrors.IsNotFound]: the first API status of the tree is a 404. *)
Fixpoint error_status (e : error) : option Z :=
  match e with
  | APIStatus code _ => Some code
  | Errorf _ es | Join es =>
      (fix first l := match l with
                      | [] => None
                      | e' :: l' => match error_status e' with Some c => Some c | None => first l' end
                      end) es
  | _ => None
  end.

Definition IsNotFound (e : error) : bool := bool_decide (error_status e = Some 404).

Section Refs.
Implicit Types refs : list OwnerReference.

Definition IsOwnedBy refs (uid : string) : bool :=
  existsb (λ ref, bool_decide (ref_Controller ref = Some true) && String.eqb (ref_UID ref) uid) refs.

Definition IsOwnedByKind refs (kind : string) : bool :=
  existsb (λ ref, bool_decide (ref_Controller ref = Some true) && String.eqb (ref_Kind ref) kind) refs.
End Refs.

(** ** Jobs *)

Record Job := {
  job_Name : string;
  job_Namespace : string;
  job_UID : string;
  job_OwnerReferences : list OwnerReference;
  job_Conditions : list PodCondition;
}.

Record CronJob := { cj_Namespace : string; cj_UID : string }.

Definition JobFinished (job : Job) : bool :=
  existsb (λ c, String.eqb (cond_Status c) "True" &&
    (String.eqb (cond_Type c) "Complete" || String.eqb (cond_Type c) "Failed"))
    (job_Conditions job).

(** ** The table of kinds *)

Record GroupResource := { gr_Group : string; gr_Resource : string }.

Definition ownerKinds : gmap string GroupResource := list_to_map [
  ("Deployment", {| gr_Group := "apps"; gr_Resource := "deployments" |});
  ("StatefulSet", {| gr_Group := "apps"; gr_Resource := "statefulsets" |});
  ("DaemonSet", {| gr_Group := "apps"; gr_Resource := "daemonsets" |});
  ("ReplicaSet", {| gr_Group := "apps"; gr_Resource := "replicasets" |});
  ("CronJob", {| gr_Group := "batch"; gr_Resource := "cronjobs" |});
  ("Job", {| gr_Group := "batch"; gr_Resource := "jobs" |});
  ("Rollout", {| gr_Group := "argoproj.io"; gr_Resource := "rollouts" |})
].

Definition SupportedKinds : list string :=
  ["Deployment"; "StatefulSet"; "DaemonSet"; "Rollout"; "CronJob"; "Job"; "Pod"].

Definition GroupResourceForKind (kind : string) : GroupResource :=
  default {| gr_Group := ""; gr_Resource := "pods" |} (ownerKinds !! kind).

Definition OwnerChainKinds : list string :=
  sort_by String.compare (map_to_list ownerKinds).*1.

Section Cluster.
Context {QO : QuantityOps} {KO : KubeOps}.

(** What the API server, or the cache in front of it, answers. *)
Record ClusterReads := {
  get_replicaset : string → string → result (list OwnerReference);
  get_job : string → string → result (list OwnerReference);
  get_object_annotations : string → string → string → result strmap;
  get_namespace_annotations : string → result strmap;
  list_jobs : string → result (list Job);
  list_pods : string → strmap → result (list Pod);
}.

Implicit Types (c : ClusterReads) (refs : list OwnerReference).

(** The first controller reference of a kind of [kinds]. *)
Definition controllerOfKinds (kinds : list string) refs : option OwnerReference :=
  List.find (λ ref, bool_decide (ref_Controller ref = Some true) && contains (ref_Kind ref) kinds) refs.

Definition ResolveControllerOwner c (namespace : string) (ref : OwnerReference) :
    result (string * string) :=
  if String.eqb (ref_Kind ref) "ReplicaSet" then
    match get_replicaset c namespace (ref_Name ref) with
    | Err e => Err (Errorf "getting replicaset" [e])
    | Ok refs =>
        match controllerOfKinds ["Deployment"; "Rollout"] refs with
        | Some r => Ok (ref_Kind r, ref_Name r)
        | None => Ok ("ReplicaSet", ref_Name ref)
        end
    end
  else if String.eqb (ref_Kind ref) "Job" then
    match get_job c namespace (ref_Name ref) with
    | Err e => Err (Errorf "getting job" [e])
    | Ok refs =>
        match controllerOfKinds ["CronJob"] refs with
        | Some r => Ok ("CronJob", ref_Name r)
        | None => Ok ("Job", ref_Name ref)
        end
    end
  else Ok (ref_Kind ref, ref_Name ref).

Definition ResolvePodOwner c (pod : Pod) : result (string * string) :=
  match GetControllerOf (pod_OwnerReferences pod) with
  | None => Ok ("", "")
  | Some ref => ResolveControllerOwner c (pod_Namespace pod) ref
  end.

(** [rsOwned] is the pass's memo of ReplicaSets: it is threaded through. *)
Definition PodOwnedByWorkload c (pod : Pod) (uid : string) (rsOwned : gmap string bool) :
    result bool * gmap string bool :=
  match GetControllerOf (pod_OwnerReferences pod) with
  | None => (Ok false, rsOwned)
  | Some ref =>
      if String.eqb (ref_UID ref) uid then (Ok true, rsOwned)
      else if negb (String.eqb (ref_Kind ref) "ReplicaSet") then (Ok false, rsOwned)
      else
        match rsOwned !! ref_Name ref with
        | Some owned => (Ok owned, rsOwned)
        | None =>
            match get_replicaset c (pod_Namespace pod) (ref_Name ref) with
            | Err e =>
                if IsNotFound e then (Ok false, <[ref_Name ref := false]> rsOwned)
                else (Err (Errorf "getting replicaset" [e]), rsOwned)
            | Ok refs =>
                let owned := IsOwnedBy refs uid in
                (Ok owned, <[ref_Name ref := owned]> rsOwned)
            end
        end
  end.

Definition activeJobsOf c (cj : CronJob) : result (list Job) :=
  (jobs <-- list_jobs c (cj_Namespace cj) ;;
   Ok (List.filter (λ j, IsOwnedBy (job_OwnerReferences j) (cj_UID cj) && negb (JobFinished j)) jobs))%result.

Definition JobNameLabel : string := "batch.kubernetes.io/job-name".

Definition podsOfJob c (job : Job) : result (list Pod) :=
  (pods <-- list_pods c (job_Namespace job) {[JobNameLabel := job_Name job]} ;;
   Ok (List.filter (λ p, IsOwnedBy (pod_OwnerReferences p) (job_UID job)) pods))%result.

Definition ApplyOwnerNameOverride (kind name : string) (annotations : strmap) : string * string :=
  match annotations !! OwnerNameAnnotation with
  | None => (kind, name)
  | Some v =>
      if String.eqb v "" || bool_decide (IsValidLabelValue v ≠ []) then (kind, name)
      else if String.eqb kind "" then ("Pod", v)
      else (kind, v)
  end.

(** An unknown kind and a missing object both read as no annotations. *)
Definition OwnerAnnotations c (namespace kind name : string) : result strmap :=
  match ownerKinds !! kind with
  | None => Ok ∅
  | Some _ =>
      match get_object_annotations c kind namespace name with
      | Err e => if IsNotFound e then Ok ∅ else Err (Errorf "reading" [e])
      | Ok a => Ok a
      end
  end.

Definition NamespaceAnnotations c (name : string) : result strmap :=
  match get_namespace_annotations c name with
  | Err e => if IsNotFound e then Ok ∅ else Err (Errorf "reading namespace" [e])
  | Ok a => Ok a
  end.
End Cluster.

(** ** Facts *)
Section Facts.
Context {QO : QuantityOps} {KO : KubeOps}.
Implicit Types (c : ClusterReads) (pod : Pod).

(** Whether the ReplicaSet called [rs] is the workload's, read afresh. *)
Definition replicaset_owned c (namespace rs uid : string) : result bool :=
  match get_replicaset c namespace rs with
  | Err e => if IsNotFound e then Ok false else Err (Errorf "getting replicaset" [e])
  | Ok refs => Ok (IsOwnedBy refs uid)
  end.

(** Ownership of a pod without the memo. *)
Definition pod_owned c pod (uid : string) : result bool :=
  match GetControllerOf (pod_OwnerReferences pod) with
  | None => Ok false
  | Some ref =>
      if String.eqb (ref_UID ref) uid then Ok true
      else if negb (String.eqb (ref_Kind ref) "ReplicaSet") then Ok false
      else replicaset_owned c (pod_Namespace pod) (ref_Name ref) uid
  end.

(** The memo of a pass over one namespace holds only what the reads answer. *)
Definition memo_sound c (namespace uid : string) (m : gmap string bool) : Prop :=
  ∀ rs b, m !! rs = Some b → replicaset_owned c namespace rs uid = Ok b.

Lemma memo_sound_empty c namespace uid : memo_sound c namespace uid ∅.
Proof. by intros rs b ?%lookup_empty_Some. Qed.

Lemma PodOwnedByWorkload_step c pod uid m :
  memo_sound c (pod_Namespace pod) uid m →
  fst (PodOwnedByWorkload c pod uid m) = pod_owned c pod uid ∧
  memo_sound c (pod_Namespace pod) uid (snd (PodOwnedByWorkload c pod uid m)).
Proof.
  intros Hm. unfold PodOwnedByWorkload, pod_owned.
  destruct (GetControllerOf _) as [ref|]; [|done].
  destruct (String.eqb _ uid); [done|]. destruct (negb _); [done|].
  destruct (m !! ref_Name ref) as [b|] eqn:E; [by split; [rewrite (Hm _ _ E)|]|].
  assert (Hins : ∀ b, replicaset_owned c (pod_Namespace pod) (ref_Name ref) uid = Ok b →
    memo_sound c (pod_Namespace pod) uid (<[ref_Name ref := b]> m)).
  { intros b Hb rs b' [[<- <-]|[_ ?]]%lookup_insert_Some; [done|by apply Hm]. }
  unfold replicaset_owned in *. destruct (get_replicaset _ _ _) as [refs|e].
  - split; [done|by apply Hins].
  - destruct (IsNotFound e); [|done]. split; [done|by apply Hins].
Qed.

(** A pass over the pods of a workload. *)
Fixpoint owned_pass c uid (m : gmap string bool) (pods : list Pod) : list (result bool) :=
  match pods with
  | [] => []
  | p :: pods =>
      let '(r, m) := PodOwnedByWorkload c p uid m in r :: owned_pass c uid m pods
  end.

(** remembering ReplicaSets changes no answer: a pass over the pods of one
    namespace decides each as if it read its ReplicaSet itself. *)
Theorem owned_pass_memo c namespace uid pods :
  Forall (λ p, pod_Namespace p = namespace) pods →
  owned_pass c uid ∅ pods = map (λ p, pod_owned c p uid) pods.
Proof.
  intros Hns. pose proof (memo_sound_empty c namespace uid) as Hm. revert Hm.
  generalize (∅ : gmap string bool) as m.
  induction Hns as [|p pods Hp _ IH]; intros m Hm; [done|]. subst namespace. cbn [owned_pass map].
  destruct (PodOwnedByWorkload_step c p uid m Hm) as [<- Hm'].
  destruct (PodOwnedByWorkload c p uid m) as [r m']. cbn [fst snd] in *. by rewrite IH.
Qed.

(** The override names a pod's identity only through a valid label value, never
    turns a workload's kind, and applying it again changes nothing. *)
Lemma ApplyOwnerNameOverride_spec kind name a :
  let '(kind', name') := ApplyOwnerNameOverride kind name a in
  (kind', name') = (kind, name) ∨
  (a !! OwnerNameAnnotation = Some name' ∧ name' ≠ "" ∧ IsValidLabelValue name' = [] ∧
   kind' = if String.eqb kind "" then "Pod" else kind).
Proof.
  unfold ApplyOwnerNameOverride. destruct (a !! OwnerNameAnnotation) as [v|]; [|by left].
  destruct (String.eqb_spec v ""); [by left|].
  destruct (bool_decide_reflect (IsValidLabelValue v ≠ [])) as [?|Hv]; [by left|].
  destruct (String.eqb kind ""); right; split_and!; try done; by apply dec_stable.
Qed.

Lemma ApplyOwnerNameOverride_idemp kind name a :
  let '(kind', name') := ApplyOwnerNameOverride kind name a in
  ApplyOwnerNameOverride kind' name' a = (kind', name').
Proof.
  unfold ApplyOwnerNameOverride. destruct (a !! OwnerNameAnnotation) as [v|]; [|done].
  destruct (String.eqb v "" || _) eqn:E; [done|]. destruct (String.eqb kind "") eqn:Hk; [done|].
  by rewrite Hk.
Qed.
End Facts.
