(* ===== verification/Autoscaler.v ===== *)
(** * Autoscaler detection ([internal/autoscaler/autoscaler.go])

    HPAs and KEDA ScaledObjects are listed once per namespace, indexed by the
    workload they target, and read for every member of an identity. The listing
    of the API server is an argument: [cluster] is what the lists answer at the
    time of the call. *)

From S2P Require Import Prelude GoLang Quantity Kube.
Local Open Scope Z_scope.

Inductive Kind := KindNone | KindHPA | KindKEDA.

#[export] Instance Kind_eq_dec : EqDecision Kind.
Proof. solve_decision. Defined.

Definition Kind_string (k : Kind) : string :=
  match k with KindNone => "None" | KindHPA => "HPA" | KindKEDA => "KEDA" end.

Record Info := {
  i_Kind : Kind;
  i_Namespace : string;
  i_Name : string;
  MinReplicas : Z;
  MaxReplicas : Z;
  CurrentReplicas : Z;
  ConfiguredTargets : gmap string Z;
  HasUnknownTrigger : bool;
}.

(** [Info{Kind: KindNone}] *)
Definition noInfo : Info :=
  {| i_Kind := KindNone; i_Namespace := ""; i_Name := ""; MinReplicas := 0;
     MaxReplicas := 0; CurrentReplicas := 0; ConfiguredTargets := ∅;
     HasUnknownTrigger := false |}.

(** A workload's kind and name. *)
Abbreviation targetKey := (string * string)%type.

Record snapshot := {
  sn_hpa : gmap targetKey Info;
  sn_keda : gmap targetKey Info;
}.

(** [NamespacedSnapshot.byNS]: an entry per namespace read, its snapshot nil
    until a build succeeds. *)
Abbreviation NamespacedSnapshot := (gmap string (option snapshot)).

Record Group := {
  g_Info : Info;
  g_Members : gmap string Info;
  Disagreeing : list string;
}.

(** ** HorizontalPodAutoscalers: the fields of [autoscaling/v2] read *)

Record MetricSpec := {
  m_Type : string;
  (** the resource's name and its [target.averageUtilization] *)
  m_Resource : option (string * option Z);
}.

Record HPA := {
  hpa_Namespace : string;
  hpa_Name : string;
  hpa_TargetKind : string;
  hpa_TargetName : string;
  hpa_MinReplicas : option Z;
  hpa_MaxReplicas : Z;
  hpa_CurrentReplicas : Z;
  hpa_Metrics : list MetricSpec;
}.

(** One metric of the loop: the targets so far and whether one is unknown. *)
Definition hpaMetric (st : gmap string Z * bool) (m : MetricSpec) : gmap string Z * bool :=
  let '(out, unknown) := st in
  match m_Resource m with
  | Some (name, util) =>
      if String.eqb (m_Type m) "Resource" then
        match util with
        | None => (out, true)
        | Some u =>
            if String.eqb name "cpu" then (<[ResourceCPU := u]> out, unknown)
            else if String.eqb name "memory" then (<[ResourceMemory := u]> out, unknown)
            else (out, true)
        end
      else (out, true)
  | None => (out, true)
  end.

Definition extractHPATargets (metrics : list MetricSpec) : gmap string Z * bool :=
  foldl hpaMetric (∅, false) metrics.

Definition hpaInfo (h : HPA) : Info :=
  let '(targets, unknown) := extractHPATargets (hpa_Metrics h) in
  {| i_Kind := KindHPA; i_Namespace := hpa_Namespace h; i_Name := hpa_Name h;
     MinReplicas := default 1 (hpa_MinReplicas h); MaxReplicas := hpa_MaxReplicas h;
     CurrentReplicas := hpa_CurrentReplicas h; ConfiguredTargets := targets;
     HasUnknownTrigger := unknown |}.

(** ** ScaledObjects: unstructured objects

    A value of [any] as the JSON decoding leaves it. *)
#[warnings="-register-all"]
Inductive any :=
  | AString (s : string)
  | AInt64 (z : Z)
  | AFloat64 (f : float64)
  | AInt (z : Z)
  | AMap (m : list (string * any))
  | AList (l : list any)
  | AOther.

(** [m[k]] of a [map[string]any]; [AOther] stands for the nil interface. *)
Fixpoint afield (m : list (string * any)) (k : string) : any :=
  match m with
  | [] => AOther
  | (k', v) :: m' => if String.eqb k k' then v else afield m' k
  end.

Definition str (v : any) : string := match v with AString s => s | _ => "" end.

(** [v.(map[string]any)], nil when it is not one. *)
Definition amap (v : any) : option (list (string * any)) :=
  match v with AMap m => Some m | _ => None end.

Definition clampInt32 (v : Z) : Z :=
  if 2 ^ 31 - 1 <? v then 2 ^ 31 - 1 else if v <? - 2 ^ 31 then - 2 ^ 31 else v.

Section ScaledObjects.
Context `{Platform}.

Definition int32Or (v : any) (fallback : Z) : Z :=
  match v with
  | AInt64 t => clampInt32 t
  | AFloat64 t => clampInt32 (int64_of_float t)
  | AInt t => clampInt32 t
  | _ => fallback
  end.

(** One trigger of the loop. *)
Definition trigger (st : gmap string Z * bool) (t : any) : gmap string Z * bool :=
  let '(out, unknown) := st in
  match amap t with
  | None => (out, true)
  | Some m =>
      let val := str (afield (default [] (amap (afield m "metadata"))) "value") in
      let typ := str (afield m "type") in
      if String.eqb typ "cpu" then
        match ParseInt val 32 with
        | Some v => (<[ResourceCPU := v]> out, unknown)
        | None => (out, true)
        end
      else if String.eqb typ "memory" then
        match ParseInt val 32 with
        | Some v => (<[ResourceMemory := v]> out, unknown)
        | None => (out, true)
        end
      else (out, true)
  end.

Definition extractScaledObjectTriggers (raw : any) : gmap string Z * bool :=
  match raw with
  | AList triggers => foldl trigger (∅, false) triggers
  | _ => (∅, false)
  end.

Record ScaledObject := {
  so_Namespace : string;
  so_Name : string;
  so_Object : list (string * any);
}.

Definition scaledObjectInfo (so : ScaledObject) (spec : list (string * any)) : Info :=
  let status := default [] (amap (afield (so_Object so) "status")) in
  let '(targets, unknown) := extractScaledObjectTriggers (afield spec "triggers") in
  {| i_Kind := KindKEDA; i_Namespace := so_Namespace so; i_Name := so_Name so;
     MinReplicas := int32Or (afield spec "minReplicaCount") 1;
     MaxReplicas := int32Or (afield spec "maxReplicaCount") 0;
     CurrentReplicas := int32Or (afield status "currentReplicas") 0;
     ConfiguredTargets := targets; HasUnknownTrigger := unknown |}.

(** ** Indexing a namespace

    A list of the API server: its items, or why it failed. A kind the
    cluster does not serve is the error [meta.IsNoMatchError] or
    [runtime.IsNotRegisteredError] recognises. *)
Inductive listing (A : Type) :=
  | Listed (items : list A)
  | NoKindMatch
  | ListError (e : error).
#[global] Arguments Listed {A} _.
#[global] Arguments NoKindMatch {A}.
#[global] Arguments ListError {A} _.

Record cluster := {
  ListHPAs : string → listing HPA;
  ListScaledObjects : string → listing ScaledObject;
}.

Definition no_match_error : error := ErrorNew "no matches for kind".

(** The first object listed for a workload wins. *)
Definition indexHPA (out : gmap targetKey Info) (h : HPA) : gmap targetKey Info :=
  let key := (hpa_TargetKind h, hpa_TargetName h) in
  match out !! key with
  | Some _ => out
  | None => <[key := hpaInfo h]> out
  end.

Definition indexHPAs (c : cluster) (namespace : string) : result (gmap targetKey Info) :=
  match ListHPAs c namespace with
  | Listed items => Ok (foldl indexHPA ∅ items)
  | NoKindMatch => Err (Errorf "list HPAs" [no_match_error])
  | ListError e => Err (Errorf "list HPAs" [e])
  end.

Definition indexScaledObject (out : gmap targetKey Info) (so : ScaledObject) :
    gmap targetKey Info :=
  match amap (afield (so_Object so) "spec") with
  | None => out
  | Some spec =>
      match amap (afield spec "scaleTargetRef") with
      | None => out
      | Some ref =>
          let key := (str (afield ref "kind"), str (afield ref "name")) in
          match out !! key with
          | Some _ => out
          | None => <[key := scaledObjectInfo so spec]> out
          end
      end
  end.

Definition indexScaledObjects (c : cluster) (namespace : string) :
    result (gmap targetKey Info) :=
  match ListScaledObjects c namespace with
  | Listed items => Ok (foldl indexScaledObject ∅ items)
  | NoKindMatch => Ok ∅
  | ListError e => Err (Errorf "list ScaledObjects" [e])
  end.

Definition buildSnapshot (c : cluster) (namespace : string) : result snapshot :=
  match indexHPAs c namespace with
  | Err e => Err e
  | Ok hpa =>
      match indexScaledObjects c namespace with
      | Err e => Err e
      | Ok keda => Ok {| sn_hpa := hpa; sn_keda := keda |}
      end
  end.

Definition lookup_autoscaler (s : snapshot) (kind name : string) : Info :=
  match sn_keda s !! (kind, name) with
  | Some info => info
  | None =>
      match sn_hpa s !! (kind, name) with
      | Some info => info
      | None => noInfo
      end
  end.

(** ** The per-namespace cache

    The state is what [NamespacedSnapshot] holds under its locks. *)
Definition NewNamespacedSnapshot : NamespacedSnapshot := ∅.

Definition namespace_snapshot (m : NamespacedSnapshot) (c : cluster) (ns : string) :
    NamespacedSnapshot * result snapshot :=
  match m !! ns with
  | Some (Some snap) => (m, Ok snap)
  | _ =>
      match buildSnapshot c ns with
      | Ok snap => (<[ns := Some snap]> m, Ok snap)
      | Err e => (<[ns := None]> m, Err e)
      end
  end.

(** One member of the loop, in name order. *)
Definition addMember (snap : snapshot) (kind first : string) (g : Group) (name : string) : Group :=
  let info := lookup_autoscaler snap kind name in
  let members := <[name := info]> (g_Members g) in
  let firstKind := i_Kind (default noInfo (members !! first)) in
  {| g_Info := if decide (i_Kind (g_Info g) = KindNone) then info else g_Info g;
     g_Members := members;
     Disagreeing :=
       if decide (i_Kind info = firstKind) then Disagreeing g
       else Disagreeing g ++ [name +:+ "=" +:+ Kind_string (i_Kind info)] |}.

Definition noGroup : Group := {| g_Info := noInfo; g_Members := ∅; Disagreeing := [] |}.

(** [ForIdentity]: the Group, and the error when a read failed. *)
Definition ForIdentity (m : NamespacedSnapshot) (c : cluster)
    (namespace kind : string) (members : list string) :
    NamespacedSnapshot * (Group * option error) :=
  match members with
  | [] => (m, (noGroup, None))
  | _ =>
      match namespace_snapshot m c namespace with
      | (m', Err e) => (m', (noGroup, Some e))
      | (m', Ok snap) =>
          let names := sort_by String.compare members in
          (m', (foldl (addMember snap kind (hd "" names)) noGroup names, None))
      end
  end.
End ScaledObjects.

(** ** What a group reads *)
Section GroupFacts.
Variables (snap : snapshot) (kind : string).

Let info (n : string) : Info := lookup_autoscaler snap kind n.
Let shaped (n : string) : bool := bool_decide (i_Kind (info n) ≠ KindNone).
Let label (n : string) : string := n +:+ "=" +:+ Kind_string (i_Kind (info n)).

(** The state of the loop after the names read so far, the first of the
    identity being [first]. *)
Definition group_of (first : string) (names : list string) (g : Group) : Prop :=
  (match List.find shaped names with
   | Some n => g_Info g = info n
   | None => i_Kind (g_Info g) = KindNone
   end) ∧
  (∀ n, g_Members g !! n = if decide (n ∈ names) then Some (info n) else None) ∧
  Disagreeing g =
    map label (filter (λ n, i_Kind (info n) ≠ i_Kind (info first)) names).

Lemma group_of_nil first : group_of first [] noGroup.
Proof. repeat split. Qed.

Lemma find_snoc (l : list string) n :
  List.find shaped (l ++ [n]) =
  match List.find shaped l with Some x => Some x | None => if shaped n then Some n else None end.
Proof. induction l as [|x l IH]; simpl; [done|]. by destruct (shaped x). Qed.

Lemma group_of_step first names g n :
  group_of first names g → (names = [] → n = first) → first ∈ names ∨ n = first →
  group_of first (names ++ [n]) (addMember snap kind first g n).
Proof.
  intros (Hinfo & Hmem & Hdis) Hnil Hfirst.
  assert (Hf : default noInfo (<[n := info n]> (g_Members g) !! first) = info first).
  { rewrite lookup_insert. case_decide; [by subst|]. rewrite Hmem.
    rewrite decide_True; [done|]. destruct Hfirst; congruence. }
  unfold addMember. fold (info n). rewrite Hf. split; [|split]; simpl.
  - rewrite find_snoc. destruct (List.find shaped names) as [x|] eqn:E.
    + rewrite Hinfo. apply List.find_some in E as [_ Hx].
      unfold shaped in Hx. apply bool_decide_eq_true in Hx. by rewrite decide_False.
    + rewrite decide_True by done. unfold shaped. case_bool_decide; [done|].
      by destruct (i_Kind (info n)).
  - intros k. rewrite lookup_insert. case_decide as Hk.
    + subst. rewrite decide_True; [done|]. apply elem_of_app. right. by apply list_elem_of_singleton.
    + rewrite Hmem. apply decide_ext. rewrite elem_of_app, list_elem_of_singleton.
      naive_solver.
  - rewrite filter_app, map_app, <-Hdis, filter_cons, filter_nil.
    destruct (decide (i_Kind (info n) = i_Kind (info first))) as [He|Hne].
    + rewrite decide_False by (by intros []). simpl. by rewrite app_nil_r.
    + by rewrite decide_True.
Qed.

Lemma group_of_fold names rest first g :
  group_of first names g → (names = [] → hd first rest = first) →
  (names ≠ [] → first ∈ names) →
  group_of first (names ++ rest) (foldl (addMember snap kind first) g rest).
Proof.
  revert names g. induction rest as [|n rest IH]; intros names g Hg Hnil Hin; simpl.
  - by rewrite app_nil_r.
  - assert (Hfirst : first ∈ names ∨ n = first).
    { destruct names; [right; by apply Hnil|left; by apply Hin]. }
    assert (Happ : names ++ n :: rest = (names ++ [n]) ++ rest)
      by (by rewrite <-app_assoc).
    rewrite Happ. apply IH.
    + apply group_of_step; [done| |done]. intros ->. by apply Hnil.
    + by destruct names.
    + intros _. destruct Hfirst as [?|<-]; set_solver.
Qed.
End GroupFacts.

Section CacheFacts.
Context `{Platform}.
Implicit Types (m : NamespacedSnapshot) (c : cluster).

(** A run of reads, each of a namespace while the cluster answers [c]. *)
Fixpoint reads m (l : list (cluster * string)) :
    NamespacedSnapshot * list (string * result snapshot) :=
  match l with
  | [] => (m, [])
  | (c, ns) :: l' =>
      let '(m', r) := namespace_snapshot m c ns in
      let '(m'', rs) := reads m' l' in (m'', (ns, r) :: rs)
  end.

Lemma namespace_snapshot_other m c ns ns' :
  ns' ≠ ns → fst (namespace_snapshot m c ns) !! ns' = m !! ns'.
Proof.
  intros. unfold namespace_snapshot.
  destruct (m !! ns) as [[?|]|]; [done| |]; destruct (buildSnapshot c ns); simpl;
    by rewrite lookup_insert_ne.
Qed.

Lemma namespace_snapshot_hit m c ns s :
  m !! ns = Some (Some s) → namespace_snapshot m c ns = (m, Ok s).
Proof. intros E. unfold namespace_snapshot. by rewrite E. Qed.

Lemma namespace_snapshot_Ok m c ns m' s :
  namespace_snapshot m c ns = (m', Ok s) → m' !! ns = Some (Some s).
Proof.
  unfold namespace_snapshot. intros E. split_cases; try done; by rewrite lookup_insert_eq.
Qed.

Lemma reads_hit m l ns s r :
  m !! ns = Some (Some s) → (ns, r) ∈ snd (reads m l) → r = Ok s.
Proof.
  revert m. induction l as [|[c ns'] l IH]; intros m Hm; simpl; [by intros ?%elem_of_nil|].
  destruct (namespace_snapshot m c ns') as [m' r'] eqn:E.
  destruct (reads m' l) as [m'' rs] eqn:El. simpl.
  assert (Hm' : m' !! ns = Some (Some s)).
  { destruct (decide (ns = ns')) as [->|Hne].
    - rewrite (namespace_snapshot_hit _ _ _ _ Hm) in E. by simplify_eq.
    - pose proof (namespace_snapshot_other m c ns' ns Hne) as Ho. by rewrite E in Ho; simpl in Ho; rewrite Ho. }
  intros [Heq|Hin]%elem_of_cons.
  - simplify_eq. rewrite (namespace_snapshot_hit _ _ _ _ Hm) in E. by simplify_eq.
  - apply (IH m' Hm'). by rewrite El.
Qed.
End CacheFacts.

#[export] Hint Resolve namespace_snapshot_hit namespace_snapshot_Ok : sustain.

(** the shared Recommendation is shaped by the first member, in name order,
    that an autoscaler targets, and by none when none has; every member's own
    autoscaler is recorded; and the members reported as disagreeing are exactly
    those whose kind differs from the first member's. *)
Theorem ForIdentity_spec `{Platform} m c ns kind members m' g :
  ForIdentity m c ns kind members = (m', (g, None)) →
  members ≠ [] →
  ∃ snap, namespace_snapshot m c ns = (m', Ok snap) ∧
    let names := sort_by String.compare members in
    group_of snap kind (hd "" names) names g.
Proof.
  unfold ForIdentity. intros E Hne. destruct members as [|n0 rest] eqn:Em; [done|].
  rewrite <-Em in *. clear Hne. destruct (namespace_snapshot m c ns) as [m1 [snap|e]]; [|done].
  injection E as <- <-. exists snap. split; [done|].
  set (names := sort_by String.compare members).
  apply (group_of_fold snap kind [] names (hd "" names)); [apply group_of_nil| |done].
  intros _. destruct names as [|x l] eqn:En; [|done].
  assert (length names = 0%nat) as Hl by (by rewrite En).
  unfold names in Hl. rewrite length_sort_by, Em in Hl. done.
Qed.

(** a namespace is listed successfully at most once: once a read of it
    succeeded, every later read of the run answers that snapshot, whatever the
    cluster would answer by then, while a failed read is not remembered and the
    next one lists again. *)
Theorem namespace_listed_once `{Platform} m c ns l :
  (∀ s m1, namespace_snapshot m c ns = (m1, Ok s) →
     ∀ r, (ns, r) ∈ snd (reads m1 l) → r = Ok s) ∧
  (∀ e m1, namespace_snapshot m c ns = (m1, Err e) →
     ∀ c', snd (namespace_snapshot m1 c' ns) = buildSnapshot c' ns).
Proof.
  split.
  - intros s m1 E r Hin. eapply reads_hit; [by eapply namespace_snapshot_Ok|done].
  - intros e m1 E c'. unfold namespace_snapshot in *.
    destruct (m !! ns) as [[s|]|] eqn:Em; [done| |];
      destruct (buildSnapshot c ns); simplify_eq;
      rewrite lookup_insert_eq; by destruct (buildSnapshot c' ns).
Qed.

(** ** At a concrete input *)
Section Sample.
#[local] Existing Instance amd64.

Definition sample_hpa : HPA :=
  {| hpa_Namespace := "prod"; hpa_Name := "web"; hpa_TargetKind := "Deployment"; hpa_TargetName := "web";
     hpa_MinReplicas := None; hpa_MaxReplicas := 5; hpa_CurrentReplicas := 2;
     hpa_Metrics := [{| m_Type := "Resource"; m_Resource := Some ("cpu", Some 80) |}] |}.

Definition sample_cluster : cluster :=
  {| ListHPAs _ := Listed [sample_hpa]; ListScaledObjects _ := NoKindMatch |}.

(** Two members, one of them scaled. *)
Definition sample_group : NamespacedSnapshot * (Group * option error) :=
  ForIdentity NewNamespacedSnapshot sample_cluster "prod" "Deployment" ["web"; "canary"].

Lemma ForIdentity_spec_witness :
  ∃ snap, namespace_snapshot NewNamespacedSnapshot sample_cluster "prod" = (fst sample_group, Ok snap) ∧
    group_of snap "Deployment" "canary" ["canary"; "web"] (fst (snd sample_group)) ∧
    Disagreeing (fst (snd sample_group)) = ["web=HPA"].
Proof.
  destruct (ForIdentity_spec NewNamespacedSnapshot sample_cluster "prod" "Deployment" ["web"; "canary"]
    (fst sample_group) (fst (snd sample_group))) as (snap & H1 & H2); [by_running|done|].
  exists snap. split; [exact H1|]. split; [exact H2|]. by_running.
Defined.
End Sample.
