(* ===== verification/Shards.v ===== *)
(** * Identities and batched queries ([internal/prometheus])

    [identity.go]: the tuple that identifies a workload in every recording rule,
    and how a series is attributed to one. [shard.go]: how candidates are packed
    into the shards one query each reads. *)

From S2P Require Import Prelude GoLang Quantity Kube.
Local Open Scope Z_scope.

(** ** Identities *)

Record WorkloadIdentity := Identity {
  id_Namespace : string;
  id_OwnerKind : string;
  id_OwnerName : string;
}.

#[export] Instance WorkloadIdentity_eq_dec : EqDecision WorkloadIdentity.
Proof. solve_decision. Defined.

#[export] Instance WorkloadIdentity_countable : Countable WorkloadIdentity.
Proof.
  apply (inj_countable' (λ i, (id_Namespace i, id_OwnerKind i, id_OwnerName i))
    (λ '(a, b, c), Identity a b c)). by intros [].
Defined.

Definition CompareIdentity (a b : WorkloadIdentity) : comparison :=
  cmp_or (String.compare (id_Namespace a) (id_Namespace b))
    (cmp_or (String.compare (id_OwnerKind a) (id_OwnerKind b))
            (String.compare (id_OwnerName a) (id_OwnerName b))).

#[export] Instance CompareIdentity_pre : PreCmp CompareIdentity.
Proof.
  apply cmp_or_pre; [exact (cmp_on_pre id_Namespace _ _)|].
  apply cmp_or_pre; [exact (cmp_on_pre id_OwnerKind _ _)|exact (cmp_on_pre id_OwnerName _ _)].
Qed.

Lemma CompareIdentity_eq a b : CompareIdentity a b = Eq → a = b.
Proof.
  destruct a, b. unfold CompareIdentity, cmp_or; simpl. intros H. split_cases.
  repeat match goal with E : String.compare _ _ = Eq |- _ => apply String.compare_eq_iff in E end.
  by subst.
Qed.

Record TimeValue := { tv_Timestamp : time; tv_Value : float64 }.

Record ShardSample := {
  ss_Identity : WorkloadIdentity;
  ss_Container : string;
  ss_Metric : string;
  ss_Value : float64;
}.

Record ShardSeries := {
  sr_Identity : WorkloadIdentity;
  sr_Container : string;
  sr_Metric : string;
  sr_Points : list TimeValue;
}.

(** [attribute]: a series missing an identity label or its container is not
    attributed to any identity. *)
Definition attribute (m : strmap) : option (WorkloadIdentity * string) :=
  let id := Identity (index m "namespace") (index m "owner_kind") (index m "owner_name") in
  let container := index m "container" in
  if String.eqb (id_Namespace id) "" || String.eqb (id_OwnerKind id) "" ||
     String.eqb (id_OwnerName id) "" || String.eqb container "" then None
  else Some (id, container).

(** A vector of the Prometheus API: each sample's labels and value. *)
Definition shardSample (s : strmap * float64) : option ShardSample :=
  match attribute (fst s) with
  | None => None
  | Some (id, container) =>
      Some {| ss_Identity := id; ss_Container := container;
              ss_Metric := index (fst s) "__name__"; ss_Value := snd s |}
  end.

Definition shardSamples (vec : list (strmap * float64)) : list ShardSample :=
  omap shardSample vec.

(** A matrix of the Prometheus API: each series' labels and points. *)
Definition shardSeriesOf (s : strmap * list TimeValue) : option ShardSeries :=
  match attribute (fst s) with
  | None => None
  | Some (id, container) =>
      Some {| sr_Identity := id; sr_Container := container;
              sr_Metric := index (fst s) "__name__"; sr_Points := snd s |}
  end.

Definition shardSeries (matrix : list (strmap * list TimeValue)) : list ShardSeries :=
  omap shardSeriesOf matrix.

(** ** Shards *)

Record ShardCandidate := { sc_Identity : WorkloadIdentity; sc_Containers : Z }.

Record Shard := {
  sh_Namespace : string;
  sh_OwnerKind : string;
  sh_Names : list string;
}.

Definition Identities (s : Shard) : list WorkloadIdentity :=
  map (Identity (sh_Namespace s) (sh_OwnerKind s)) (sh_Names s).

Abbreviation shardGroupKey := (string * string)%type.

Definition maxShardMembers : Z := 1000.

Record member := { mb_name : string; mb_cost : Z }.

Definition compareKey (a b : shardGroupKey) : comparison :=
  cmp_or (String.compare a.1 b.1) (String.compare a.2 b.2).

(** The grouping loop: the keys in the order met, the members of each, the
    candidates dropped. *)
Record grouping := {
  groupOrder : list shardGroupKey;
  groups : gmap shardGroupKey (list member);
  dropped : list ShardCandidate;
}.

Definition malformed (i : WorkloadIdentity) : bool :=
  String.eqb (id_Namespace i) "" || String.eqb (id_OwnerKind i) "" ||
  String.eqb (id_OwnerName i) "".

Definition memberOf (samplesPerContainer : Z) (c : ShardCandidate) : member :=
  let containers := if sc_Containers c <=? 0 then 1 else sc_Containers c in
  {| mb_name := id_OwnerName (sc_Identity c);
     mb_cost := wrap64 (containers * samplesPerContainer) |}.

Definition group (samplesPerContainer : Z) (g : grouping) (c : ShardCandidate) : grouping :=
  if malformed (sc_Identity c) then
    {| groupOrder := groupOrder g; groups := groups g; dropped := dropped g ++ [c] |}
  else
    let key := (id_Namespace (sc_Identity c), id_OwnerKind (sc_Identity c)) in
    {| groupOrder := match groups g !! key with
                     | None => groupOrder g ++ [key]
                     | Some _ => groupOrder g
                     end;
       groups := <[key := default [] (groups g !! key) ++ [memberOf samplesPerContainer c]]>
                   (groups g);
       dropped := dropped g |}.

(** The packing loop of one group: the shards closed, the open shard's names
    and its cost. *)
Record packing := {
  pk_shards : list Shard;
  pk_names : list string;
  pk_total : Z;
}.

Definition flush (key : shardGroupKey) (p : packing) : packing :=
  match pk_names p with
  | [] => p
  | _ =>
      {| pk_shards := pk_shards p ++
           [{| sh_Namespace := key.1; sh_OwnerKind := key.2; sh_Names := pk_names p |}];
         pk_names := []; pk_total := 0 |}
  end.

Definition pack (maxSamples : Z) (key : shardGroupKey) (p : packing) (m : member) : packing :=
  let n := Z.of_nat (length (pk_names p)) in
  let p1 :=
    if (0 <? n) &&
       ((maxSamples <? wrap64 (pk_total p + mb_cost m)) || (maxShardMembers <=? n))
    then flush key p else p in
  {| pk_shards := pk_shards p1; pk_names := pk_names p1 ++ [mb_name m];
     pk_total := wrap64 (pk_total p1 + mb_cost m) |}.

Definition compareMember (a b : member) : comparison := String.compare (mb_name a) (mb_name b).

Definition packGroup (maxSamples : Z) (key : shardGroupKey) (members : list member) : list Shard :=
  pk_shards (flush key (foldl (pack maxSamples key)
    {| pk_shards := []; pk_names := []; pk_total := 0 |} (sort_by compareMember members))).

Definition BuildShards (cands : list ShardCandidate) (samplesPerContainer maxSamples : Z) :
    list Shard * list ShardCandidate :=
  let samplesPerContainer := if samplesPerContainer <=? 0 then 1 else samplesPerContainer in
  let g := foldl (group samplesPerContainer)
             {| groupOrder := []; groups := ∅; dropped := [] |} cands in
  (concat (map (λ key, packGroup maxSamples key (default [] (groups g !! key)))
               (sort_by compareKey (groupOrder g))),
   dropped g).

(** ** Windows

    [model.ParseDuration] is Prometheus's: [parse] answers a duration in
    nanoseconds, or nothing for a string it rejects. *)
Definition unparseableWindowMinutes : Z := 30 * 24 * 60.

(** [d.Minutes()] of a Duration. *)
Definition duration_Minutes (d : duration) : float64 :=
  f_add (f_of_Z (Z.quot d minute)) (f_div (f_of_Z (Z.rem d minute)) (f_of_Z minute)).

Definition WindowMinutes `{Platform} (parse : string → option duration) (window : string) : Z :=
  match parse window with
  | None => unparseableWindowMinutes
  | Some d =>
      let minutes := int64_of_float (duration_Minutes d) in
      if minutes <? 1 then 1 else minutes
  end.

(** ** The grouping loop *)

Definition valid (c : ShardCandidate) : bool := negb (malformed (sc_Identity c)).
Definition keyOf (c : ShardCandidate) : shardGroupKey :=
  (id_Namespace (sc_Identity c), id_OwnerKind (sc_Identity c)).

(** The members of [key] among the candidates, in their order. *)
Definition members_of (spc : Z) (l : list ShardCandidate) (key : shardGroupKey) : list member :=
  map (memberOf spc) (filter (λ c, keyOf c = key) (filter valid l)).

Record grouped (spc : Z) (l : list ShardCandidate) (g : grouping) : Prop := {
  gr_NoDup : NoDup (groupOrder g);
  gr_keys k : k ∈ groupOrder g ↔ k ∈ map keyOf (filter valid l);
  gr_None k : groups g !! k = None ↔ k ∉ groupOrder g;
  gr_members k : default [] (groups g !! k) = members_of spc l k;
  gr_dropped : dropped g = filter (λ c, ¬ valid c) l;
}.

Lemma grouped_step spc l g c : grouped spc l g → grouped spc (l ++ [c]) (group spc g c).
Proof.
  intros [Hnd Hk Hn Hm Hd]. unfold group.
  assert (Hval : Is_true (valid c) ↔ malformed (sc_Identity c) = false)
    by (unfold valid; destruct (malformed _); simpl; naive_solver).
  destruct (malformed (sc_Identity c)) eqn:E.
  - assert (Hf : filter valid (l ++ [c]) = filter valid l).
    { rewrite filter_app, filter_cons, filter_nil.
      rewrite decide_False by naive_solver. apply app_nil_r. }
    split; simpl; unfold members_of; rewrite ?Hf; try done.
    rewrite filter_app, Hd, filter_cons, filter_nil. rewrite decide_True; naive_solver.
  - assert (Hf : filter valid (l ++ [c]) = filter valid l ++ [c]).
    { rewrite filter_app, filter_cons, filter_nil. by rewrite decide_True by naive_solver. }
    fold (keyOf c). set (order := match groups g !! keyOf c with None => _ | Some _ => _ end).
    assert (Horder : ∀ k, k ∈ order ↔ k ∈ groupOrder g ∨ k = keyOf c).
    { intros k. unfold order. destruct (groups g !! keyOf c) eqn:Eg.
      - split; [by left|]. intros [?| ->]; [done|].
        destruct (decide (keyOf c ∈ groupOrder g)) as [|Hno]; [done|].
        apply Hn in Hno. congruence.
      - rewrite elem_of_app, list_elem_of_singleton. done. }
    split; simpl.
    + unfold order. destruct (groups g !! keyOf c) eqn:Eg; [done|].
      apply NoDup_app. split; [done|]. split; [|apply NoDup_singleton].
      intros k Hin ->%list_elem_of_singleton. by apply (proj1 (Hn _) Eg).
    + intros k. rewrite Horder, Hk, Hf, map_app, elem_of_app. simpl.
      by rewrite list_elem_of_singleton.
    + intros k. rewrite Horder, lookup_insert. case_decide as Hkc; [subst; naive_solver|].
      rewrite Hn. naive_solver.
    + intros k. unfold members_of. rewrite Hf, lookup_insert, filter_app, map_app.
      rewrite filter_cons, filter_nil. case_decide as Hkc.
      * subst. simpl. by rewrite Hm.
      * simpl. by rewrite app_nil_r, Hm.
    + rewrite filter_app, Hd, filter_cons, filter_nil.
      rewrite decide_False by naive_solver. by rewrite app_nil_r.
Qed.

Lemma grouped_fold spc l l' g :
  grouped spc l g → grouped spc (l ++ l') (foldl (group spc) g l').
Proof.
  revert l g. induction l' as [|c l' IH]; intros l g Hg; simpl; [by rewrite app_nil_r|].
  assert (l ++ c :: l' = (l ++ [c]) ++ l') as -> by (by rewrite <-app_assoc).
  by apply IH, grouped_step.
Qed.

Lemma grouped_all spc l :
  grouped spc l (foldl (group spc) {| groupOrder := []; groups := ∅; dropped := [] |} l).
Proof.
  apply (grouped_fold spc []). split; simpl; try done.
  - by apply NoDup_nil.
  - intros k. rewrite lookup_empty, elem_of_nil. tauto.
Qed.

(** ** The packing loop

    A shard is a non-empty run of at most [maxShardMembers] members whose cost,
    as the loop adds it, stays within the budget unless it is alone. *)
Abbreviation cost := (sum_by mb_cost).

Definition chunk_ok (maxSamples : Z) (ms : list member) : Prop :=
  ms ≠ [] ∧ Z.of_nat (length ms) ≤ maxShardMembers ∧
  (length ms = 1%nat ∨ wrap64 (cost ms) ≤ maxSamples).

Definition shardOf (key : shardGroupKey) (ms : list member) : Shard :=
  {| sh_Namespace := key.1; sh_OwnerKind := key.2; sh_Names := map mb_name ms |}.

Definition packed (maxSamples : Z) (key : shardGroupKey) (l : list member) (p : packing) : Prop :=
  ∃ chunks open,
    concat chunks ++ open = l ∧
    pk_shards p = map (shardOf key) chunks ∧ pk_names p = map mb_name open ∧
    pk_total p = wrap64 (cost open) ∧
    Forall (chunk_ok maxSamples) chunks ∧ (open ≠ [] → chunk_ok maxSamples open).

Lemma packed_flush maxSamples key l p :
  packed maxSamples key l p →
  packed maxSamples key l (flush key p) ∧ pk_names (flush key p) = [] ∧
  (pk_names p = [] → flush key p = p).
Proof.
  intros (chunks & open & Hl & Hs & Hn & Ht & Hc & Ho). unfold flush. rewrite Hn.
  destruct open as [|m open]; simpl.
  - split; [|done]. exists chunks, []. done.
  - split; [|done]. exists (chunks ++ [m :: open]), []. simpl. split_and!.
    + rewrite concat_app. simpl. by rewrite !app_nil_r.
    + by rewrite Hs, map_app.
    + done.
    + done.
    + apply Forall_app. split; [done|]. constructor; [by apply Ho|constructor].
    + done.
Qed.

Lemma packed_step maxSamples key l p m :
  packed maxSamples key l p → packed maxSamples key (l ++ [m]) (pack maxSamples key p m).
Proof.
  intros Hp. unfold pack. set (n := Z.of_nat (length (pk_names p))).
  destruct ((0 <? n) && _) eqn:E.
  - apply packed_flush in Hp as [(chunks & open & Hl & Hs & Hn & Ht & Hc & _) [He _]].
    rewrite He in Hn. destruct open; [|done]. rewrite app_nil_r in Hl.
    exists chunks, [m]. simpl. rewrite He, Ht. split_and!; try done.
    + by rewrite Hl.
    + rewrite wrap64_add_l. f_equal. simpl. lia.
    + intros _. split_and!; [done|done|by left].
  - destruct Hp as (chunks & open & Hl & Hs & Hn & Ht & Hc & Ho).
    exists chunks, (open ++ [m]). simpl. split_and!; [| | | | |intros _; split_and!].
    + by rewrite app_assoc, Hl.
    + done.
    + by rewrite Hn, map_app.
    + rewrite Ht, wrap64_add_l, sum_by_app. f_equal. simpl. lia.
    + done.
    + by destruct open.
    + rewrite length_app. unfold n in E. rewrite Hn, length_map in E.
      unfold maxShardMembers in *. destruct open; [done|]. simpl length in *.
      apply andb_false_iff in E as [E|E]; bool_props; lia.
    + rewrite length_app. unfold n in E. rewrite Hn, length_map, Ht, wrap64_add_l in E.
      destruct open as [|o open]; [by left|right].
      apply andb_false_iff in E as [E|E]; [bool_props; simpl in E; lia|].
      rewrite sum_by_app. replace (cost [m]) with (mb_cost m) by (simpl; lia).
      bool_props. lia.
Qed.

Lemma packed_fold maxSamples key l l' p :
  packed maxSamples key l p → packed maxSamples key (l ++ l') (foldl (pack maxSamples key) p l').
Proof.
  revert l p. induction l' as [|m l' IH]; intros l p Hp; simpl; [by rewrite app_nil_r|].
  assert (l ++ m :: l' = (l ++ [m]) ++ l') as -> by (by rewrite <-app_assoc).
  by apply IH, packed_step.
Qed.

(** The shards of a group: its members in name order, cut into chunks. *)
Lemma packGroup_chunks maxSamples key ms :
  ∃ chunks, packGroup maxSamples key ms = map (shardOf key) chunks ∧
    concat chunks = sort_by compareMember ms ∧ Forall (chunk_ok maxSamples) chunks.
Proof.
  unfold packGroup. set (p := foldl _ _ _).
  assert (Hp : packed maxSamples key (sort_by compareMember ms) p).
  { apply (packed_fold _ _ []). exists [], []. done. }
  apply packed_flush in Hp as [(chunks & open & Hl & Hs & Hn & _ & Hc & _) [He _]].
  rewrite He in Hn. destruct open; [|done]. rewrite app_nil_r in Hl. eauto.
Qed.

Lemma Identities_shardOf (key : shardGroupKey) ms :
  Identities (shardOf key ms) = map (λ m, Identity key.1 key.2 (mb_name m)) ms.
Proof. unfold Identities; simpl. by rewrite map_map. Qed.

Lemma concat_Identities (key : shardGroupKey) chunks :
  concat (map Identities (map (shardOf key) chunks)) =
  map (λ m, Identity key.1 key.2 (mb_name m)) (concat chunks).
Proof.
  rewrite map_map, concat_map. f_equal. apply map_ext. intros. apply Identities_shardOf.
Qed.

Lemma packGroup_Identities maxSamples spc key l :
  concat (map Identities (packGroup maxSamples key (members_of spc l key))) ≡ₚ
  map sc_Identity (filter (λ c, keyOf c = key) (filter valid l)).
Proof.
  destruct (packGroup_chunks maxSamples key (members_of spc l key)) as (chunks & -> & Hc & _).
  rewrite concat_Identities, Hc, sort_by_perm. unfold members_of. rewrite map_map.
  apply reflexive_eq, map_ext_in. intros c Hin%list_elem_of_In.
  apply list_elem_of_filter in Hin as [<- _]. unfold keyOf. simpl. by destruct (sc_Identity c).
Qed.

(** What [BuildShards] is made of: a packed group per key, in key order. *)
Lemma BuildShards_groups cands samplesPerContainer maxSamples :
  let spc := if samplesPerContainer <=? 0 then 1 else samplesPerContainer in
  ∃ keys,
    NoDup keys ∧ StronglySorted (cmp_le compareKey) keys ∧
    (∀ k, k ∈ keys ↔ k ∈ map keyOf (filter valid cands)) ∧
    BuildShards cands samplesPerContainer maxSamples =
      (concat (map (λ k, packGroup maxSamples k (members_of spc cands k)) keys),
       filter (λ c, ¬ valid c) cands).
Proof.
  cbn zeta. unfold BuildShards.
  set (spc := if samplesPerContainer <=? 0 then 1 else samplesPerContainer).
  pose proof (grouped_all spc cands) as [Hnd Hk _ Hm Hd].
  set (g := foldl _ _ _) in *. exists (sort_by compareKey (groupOrder g)). split_and!.
  - by apply NoDup_sort_by.
  - apply sort_by_sorted, cmp_or_pre; [exact (cmp_on_pre fst _ _)|exact (cmp_on_pre snd _ _)].
  - intros k. by rewrite elem_of_sort_by, Hk.
  - by rewrite Hd; setoid_rewrite Hm.
Qed.

Lemma BuildShards_perm cands samplesPerContainer maxSamples :
  let '(shards, drop) := BuildShards cands samplesPerContainer maxSamples in
  concat (map Identities shards) ≡ₚ map sc_Identity (filter valid cands) ∧
  drop = filter (λ c, ¬ valid c) cands.
Proof.
  destruct (BuildShards_groups cands samplesPerContainer maxSamples)
    as (keys & Hnd & _ & Hk & ->).
  split; [|done]. set (spc := if _ <=? _ then _ else _).
  etrans; [|apply Permutation_map, (perm_filter_keys keyOf keys); [done|]].
  - rewrite concat_map, !map_map. clear Hnd Hk.
    induction keys as [|k keys IH]; simpl; [done|].
    rewrite map_app, concat_app, IH. by rewrite packGroup_Identities.
  - intros c Hc. apply Hk. apply list_elem_of_In, in_map. by apply list_elem_of_In.
Qed.

(** C27: Every candidate with a namespace, a kind and a name is queried exactly
    once, in some shard, and the others are exactly the ones returned as
    dropped, in their order. *)
Theorem BuildShards_partition cands samplesPerContainer maxSamples :
  let '(shards, drop) := BuildShards cands samplesPerContainer maxSamples in
  concat (map Identities shards) ≡ₚ map sc_Identity (filter valid cands) ∧
  drop = filter (λ c, ¬ valid c) cands.
Proof. apply BuildShards_perm. Qed.

(** What a candidate costs a shard query, before any wrap-around. *)
Definition candCost (spc : Z) (c : ShardCandidate) : Z :=
  (if sc_Containers c <=? 0 then 1 else sc_Containers c) * spc.

Lemma candCost_pos spc c : 0 < spc → 0 < candCost spc c.
Proof. intros. unfold candCost. destruct (Z.leb_spec (sc_Containers c) 0); nia. Qed.

(** Costs that fit the machine together are added exactly. *)
Lemma cost_exact spc cs :
  0 < spc → sum_by (candCost spc) cs ≤ int64_max →
  cost (map (memberOf spc) cs) = sum_by (candCost spc) cs.
Proof.
  intros Hspc. induction cs as [|c cs IH]; simpl; [done|]. intros Hle.
  pose proof (candCost_pos spc c Hspc).
  assert (0 ≤ sum_by (candCost spc) cs)
    by (apply sum_by_nonneg; intros x _; pose proof (candCost_pos spc x Hspc); lia).
  rewrite IH by lia. f_equal. unfold candCost in *.
  rewrite wrap64_id; [done|]. unfold int64_range, int64_min. lia.
Qed.

(** A shard is never empty, never names more than 1000 workloads, and reads no
    more samples than the budget unless it holds a single workload, which is
    over budget on its own; so a query stays within [--query.max-samples]
    whenever its members allow it. *)
Theorem BuildShards_budget cands samplesPerContainer maxSamples s :
  let spc := if samplesPerContainer <=? 0 then 1 else samplesPerContainer in
  sum_by (candCost spc) (filter valid cands) ≤ int64_max →
  s ∈ fst (BuildShards cands samplesPerContainer maxSamples) →
  ∃ cs, cs ⊆+ filter valid cands ∧ Identities s = map sc_Identity cs ∧
    1 ≤ Z.of_nat (length cs) ≤ maxShardMembers ∧
    (length cs = 1%nat ∨ sum_by (candCost spc) cs ≤ maxSamples).
Proof.
  cbn zeta. destruct (BuildShards_groups cands samplesPerContainer maxSamples)
    as (keys & _ & _ & _ & ->). set (spc := if _ <=? _ then _ else _).
  assert (Hspc : 0 < spc) by (unfold spc; destruct (Z.leb_spec samplesPerContainer 0); lia).
  intros Htotal [k [Hs Hk]]%list_elem_of_In%in_concat. simpl in *.
  apply in_map_iff in Hs as (key & <- & _).
  destruct (packGroup_chunks maxSamples key (members_of spc cands key))
    as (chunks & Hp & Hc & Hok). rewrite Hp in Hk.
  unfold members_of in Hc. rewrite sort_by_map in Hc.
  apply concat_eq_map in Hc as (chunks' & -> & Hc).
  apply in_map_iff in Hk as (ms & <- & Hms). apply in_map_iff in Hms as (cs & <- & Hcs).
  rewrite Forall_map, Forall_forall in Hok.
  destruct (Hok cs) as (Hne & Hlen & Hb); [by apply list_elem_of_In|].
  assert (Hin : cs ⊆+ filter (λ c, keyOf c = key) (filter valid cands)).
  { apply in_split in Hcs as (l1 & l2 & ->). rewrite concat_app in Hc. simpl in Hc.
    erewrite <-(sort_by_perm _ (filter _ (filter _ _))), <-Hc.
    apply submseteq_inserts_l, submseteq_inserts_r. done. }
  exists cs. rewrite length_map in Hlen, Hb. split_and!.
  - etrans; [exact Hin|]. apply sublist_submseteq, sublist_filter.
  - rewrite Identities_shardOf, map_map. apply map_ext_in.
    intros c Hc'%list_elem_of_In.
    apply (elem_of_submseteq _ _ _ Hc') in Hin. apply list_elem_of_filter in Hin as [<- _].
    unfold keyOf. simpl. by destruct (sc_Identity c).
  - destruct cs; simpl in *; [done|lia].
  - done.
  - destruct Hb as [Hb|Hb]; [by left|right].
    assert (Hle : sum_by (candCost spc) cs ≤ int64_max).
    { etrans; [|exact Htotal]. apply sum_by_submseteq.
      - intros x _. pose proof (candCost_pos spc x Hspc). lia.
      - etrans; [exact Hin|]. apply sublist_submseteq, sublist_filter. }
    rewrite cost_exact, wrap64_id in Hb; try done.
    assert (0 ≤ sum_by (candCost spc) cs)
      by (apply sum_by_nonneg; intros x _; pose proof (candCost_pos spc x Hspc); lia).
    unfold int64_range, int64_min. lia.
Qed.

Lemma compareKey_eq a b : compareKey a b = Eq → a = b.
Proof.
  destruct a, b. unfold compareKey, cmp_or; simpl. intros H. split_cases.
  repeat match goal with E : String.compare _ _ = Eq |- _ => apply String.compare_eq_iff in E end.
  by subst.
Qed.

Lemma sorted_keys_unique keys keys' :
  NoDup keys → NoDup keys' → StronglySorted (cmp_le compareKey) keys →
  StronglySorted (cmp_le compareKey) keys' → (∀ k, k ∈ keys ↔ k ∈ keys') → keys = keys'.
Proof.
  intros Hn Hn' Hs Hs' Hk. eapply StronglySorted_unique_strong; [|exact Hs|exact Hs'|].
  - intros a b _ _ Ha Hb. apply compareKey_eq. unfold cmp_le in *.
    assert (PreCmp compareKey)
      by (apply cmp_or_pre; [exact (cmp_on_pre fst _ _)|exact (cmp_on_pre snd _ _)]).
    rewrite (cmp_antisym compareKey a b) in Hb. by destruct (compareKey a b).
  - by apply NoDup_Permutation.
Qed.

(** The shards do not depend on the order the identities were collected in:
    any two listings of the same distinct identities are queried alike. *)
Theorem BuildShards_deterministic cands cands' samplesPerContainer maxSamples :
  cands ≡ₚ cands' → NoDup (map sc_Identity (filter valid cands)) →
  fst (BuildShards cands samplesPerContainer maxSamples) =
  fst (BuildShards cands' samplesPerContainer maxSamples).
Proof.
  intros Hp Hnd.
  destruct (BuildShards_groups cands samplesPerContainer maxSamples)
    as (keys & Hn & Hs & Hk & ->).
  destruct (BuildShards_groups cands' samplesPerContainer maxSamples)
    as (keys' & Hn' & Hs' & Hk' & ->).
  assert (keys = keys') as <-.
  { apply sorted_keys_unique; try done. intros k. rewrite Hk, Hk'. by rewrite Hp. }
  simpl. f_equal. apply map_ext. intros k. unfold packGroup. do 3 f_equal.
  apply sort_by_unique; [exact (cmp_on_pre mb_name _ _)|unfold members_of; by rewrite Hp|].
  intros x y Hx Hy Hxy. unfold compareMember in Hxy. apply String.compare_eq_iff in Hxy.
  unfold members_of in Hx, Hy.
  apply list_elem_of_In, in_map_iff in Hx as (c & <- & Hc).
  apply list_elem_of_In, in_map_iff in Hy as (c' & <- & Hc').
  apply list_elem_of_In, list_elem_of_filter in Hc as [Hck Hc].
  apply list_elem_of_In, list_elem_of_filter in Hc' as [Hck' Hc'].
  assert (Hid : sc_Identity c = sc_Identity c').
  { unfold keyOf in *. simpl in Hxy. destruct (sc_Identity c), (sc_Identity c'); simpl in *.
    congruence. }
  f_equal. apply list_elem_of_lookup in Hc as [i Hi]. apply list_elem_of_lookup in Hc' as [j Hj].
  assert (i = j) as ->; [|congruence].
  eapply NoDup_lookup; [exact Hnd| |]; rewrite list_lookup_fmap, ?Hi, ?Hj; [done|].
  simpl. by rewrite Hid.
Qed.

(** ** At a concrete input *)

Definition sample_candidates : list ShardCandidate :=
  [ {| sc_Identity := Identity "prod" "Deployment" "web"; sc_Containers := 2 |};
    {| sc_Identity := Identity "prod" "Deployment" "api"; sc_Containers := 1 |};
    {| sc_Identity := Identity "" "Deployment" "lost"; sc_Containers := 1 |};
    {| sc_Identity := Identity "dev" "Job" "etl"; sc_Containers := 3 |} ].

Example sample_shards :
  fst (BuildShards sample_candidates 10080 25000) =
  [ {| sh_Namespace := "dev"; sh_OwnerKind := "Job"; sh_Names := ["etl"] |};
    {| sh_Namespace := "prod"; sh_OwnerKind := "Deployment"; sh_Names := ["api"] |};
    {| sh_Namespace := "prod"; sh_OwnerKind := "Deployment"; sh_Names := ["web"] |} ].
Proof. reflexivity. Qed.

Lemma BuildShards_budget_witness :
  let s := {| sh_Namespace := "dev"; sh_OwnerKind := "Job"; sh_Names := ["etl"] |} in
  ∃ cs, cs ⊆+ filter valid sample_candidates ∧ Identities s = map sc_Identity cs ∧
    1 ≤ Z.of_nat (length cs) ≤ maxShardMembers ∧
    (length cs = 1%nat ∨ sum_by (candCost 10080) cs ≤ 25000).
Proof.
  apply (BuildShards_budget sample_candidates 10080 25000).
  - vm_compute. discriminate.
  - rewrite sample_shards. by left.
Defined.

Lemma BuildShards_deterministic_witness :
  fst (BuildShards sample_candidates 10080 25000) =
  fst (BuildShards (rev sample_candidates) 10080 25000).
Proof.
  apply BuildShards_deterministic.
  - apply Permutation_rev.
  - apply (bool_decide_unpack _). vm_compute. exact I.
Defined.
