(* ===== verification/Client.v ===== *)
(** * The query path of the Prometheus client
    ([breaker.go] and [client.go] of [internal/prometheus])

    The circuit breaker, and a query's way through it: allowed, queued for an
    in-flight slot, run, and its outcome recorded. The breaker's lock makes
    each of its methods one step; queries running at once are interleavings of
    their steps. Clocks, deadlines and what Prometheus answers are arguments.
    The texts are in [PromQL] and the reading of answers in [Queries]. *)

From S2P Require Import Prelude GoLang.
Local Open Scope Z_scope.

(** ** The breaker *)

Record breaker := {
  maxFailures : Z;
  cooldown : duration;
  failures : Z;
  openUntil : time;
}.

Definition newBreaker (n : Z) (c : duration) : breaker :=
  {| maxFailures := n; cooldown := c; failures := 0; openUntil := time_zero |}.

Definition with_state (b : breaker) (n : Z) (t : time) : breaker :=
  {| maxFailures := maxFailures b; cooldown := cooldown b; failures := n; openUntil := t |}.

(** What [allow] answers. *)
Record allowance := { al_allowed : bool; al_probe : bool }.

(** [allow] reads the clock twice when it hands out the probe. *)
Definition allow (b : breaker) (now now' : time) : breaker * allowance :=
  if maxFailures b <=? 0 then (b, {| al_allowed := true; al_probe := false |})
  else if time_IsZero (openUntil b) then (b, {| al_allowed := true; al_probe := false |})
  else if time_Before now (openUntil b) then (b, {| al_allowed := false; al_probe := false |})
  else (with_state b (failures b) (time_Add now' (cooldown b)), {| al_allowed := true; al_probe := true |}).

Definition isOpen (b : breaker) (now : time) : bool :=
  if maxFailures b <=? 0 then false
  else negb (time_IsZero (openUntil b)) && time_Before now (openUntil b).

Definition success (b : breaker) : breaker :=
  if maxFailures b <=? 0 then b else with_state b 0 time_zero.

Definition failure (b : breaker) (now : time) : breaker :=
  if maxFailures b <=? 0 then b
  else
    let n := wrap64 (failures b + 1) in
    with_state b n (if maxFailures b <=? n then time_Add now (cooldown b) else openUntil b).

(** ** One query *)

(** Why a context ended. *)
Inductive cause := DeadlineExceeded | Canceled | OtherCause.

Definition recordQueryFailure (b : breaker) (now : time) (ctx : option cause) : breaker :=
  match ctx with
  | None => failure b now
  | Some DeadlineExceeded | Some Canceled => failure b now
  | Some OtherCause => b
  end.

(** Where a query stands: allowed and waiting for a slot, running, or done.
    [holds] says it has a slot to give back. *)
Inductive query :=
  | Queued (probe : bool)
  | Running
  | Rejected
  | Aborted
  | Answered
  | Failed.

Definition holds (q : query) : bool := match q with Running => true | _ => false end.

Record client := {
  cl_breaker : breaker;
  (** the size of [sem]; none when it is nil *)
  inflight : option nat;
  taken : nat;
  queries : gmap nat query;
}.

Definition at_query (c : client) (b : breaker) (n : nat) (id : nat) (q : query) : client :=
  {| cl_breaker := b; inflight := inflight c; taken := n; queries := <[id := q]> (queries c) |}.

(** [execInstant] and [execRange] up to [acquire]: the breaker's answer. *)
Definition start (c : client) (id : nat) (now now' : time) : client :=
  let '(b, a) := allow (cl_breaker c) now now' in
  at_query c b (taken c) id (if al_allowed a then Queued (al_probe a) else Rejected).

(** [acquire] once a slot is free: the breaker is looked at again, except by
    the holder of its probe; without a semaphore it is not. *)
Definition acquire (c : client) (id : nat) (probe : bool) (now : time) : client :=
  match inflight c with
  | None => at_query c (cl_breaker c) (taken c) id Running
  | Some _ =>
      if negb probe && isOpen (cl_breaker c) now
      then at_query c (cl_breaker c) (taken c) id Rejected
      else at_query c (cl_breaker c) (S (taken c)) id Running
  end.

Definition free (c : client) : bool :=
  match inflight c with None => true | Some n => (taken c <? n)%nat end.

(** The deferred release of the slot. *)
Definition released (c : client) : nat := match inflight c with None => taken c | Some _ => pred (taken c) end.

(** The end of a query: its outcome recorded, its slot given back. *)
Definition finish (c : client) (id : nat) (outcome : option (time * option cause)) : client :=
  match outcome with
  | None => at_query c (success (cl_breaker c)) (released c) id Answered
  | Some (now, ctx) => at_query c (recordQueryFailure (cl_breaker c) now ctx) (released c) id Failed
  end.

Inductive client_step : client → client → Prop :=
  | s_start c id now now' : queries c !! id = None → client_step c (start c id now now')
  | s_acquire c id probe now : queries c !! id = Some (Queued probe) → free c = true →
      client_step c (acquire c id probe now)
  | s_abort c id probe : queries c !! id = Some (Queued probe) → is_Some (inflight c) →
      client_step c (at_query c (cl_breaker c) (taken c) id Aborted)
  | s_finish c id outcome : queries c !! id = Some Running → client_step c (finish c id outcome).

Inductive runs (c0 : client) : client → Prop :=
  | runs_new : runs c0 c0
  | runs_step c c' : runs c0 c → client_step c c' → runs c0 c'.

Definition newClient (b : breaker) (n : option nat) : client :=
  {| cl_breaker := b; inflight := n; taken := 0; queries := ∅ |}.

(** ** Facts *)

(** *** Slots *)

Definition holders (c : client) : gmap nat query := filter (λ p, holds p.2 = true) (queries c).

Definition slots_ok (n : nat) (c : client) : Prop :=
  inflight c = Some n ∧ size (holders c) = taken c ∧ (taken c ≤ n)%nat.

Lemma holders_insert c b t id q :
  holders (at_query c b t id q) =
  if holds q then <[id := q]> (holders c) else delete id (holders c).
Proof.
  unfold holders, at_query. cbn [queries]. destruct (holds q) eqn:E.
  - by rewrite map_filter_insert_True.
  - rewrite map_filter_insert_False; [by rewrite map_filter_delete|]. cbn. by rewrite E.
Qed.

Lemma holders_lookup c id q : queries c !! id = Some q →
  holders c !! id = if holds q then Some q else None.
Proof.
  intros Hq. unfold holders. destruct (holds q) eqn:E.
  - by apply map_lookup_filter_Some_2.
  - apply map_lookup_filter_None_2. right. intros x Hx. cbn. rewrite Hq in Hx. injection Hx as <-. by rewrite E.
Qed.

Lemma idle_slots c b id q q' n :
  slots_ok n c → holders c !! id = None → holds q' = false → queries c !! id = q →
  slots_ok n (at_query c b (taken c) id q').
Proof.
  intros (Hi & Hs & Ht) Hn Hh _. split_and!; [done| |done]. rewrite holders_insert, Hh.
  by rewrite delete_id.
Qed.

(** never more queries run against Prometheus than its slots, and none is
    lost: the slots taken are those of the queries running, whatever the
    breaker, the deadlines and the answers do. *)
Theorem inflight_bound b n c :
  runs (newClient b (Some n)) c → slots_ok n c.
Proof.
  induction 1 as [|c c' _ IH Hstep].
  { split_and!; [done|by vm_compute|cbn; lia]. }
  destruct IH as (Hi & Hs & Ht). destruct Hstep as [c id now now' Hq|c id probe now Hq Hf|c id probe Hq _|c id outcome Hq].
  - unfold start. destruct (allow _ _ _) as [b' a]. eapply idle_slots; [done| | |done].
    + unfold holders. apply map_lookup_filter_None_2. by left.
    + by destruct (al_allowed a).
  - pose proof (holders_lookup _ _ _ Hq) as Hh. cbn in Hh. unfold acquire, free in *. rewrite Hi in *.
    apply Nat.ltb_lt in Hf. destruct (negb probe && _); [by eapply idle_slots|].
    split_and!; [done| |cbn; lia]. rewrite holders_insert. cbn [holds taken at_query].
    by rewrite map_size_insert, Hh, Hs.
  - by eapply idle_slots; [done|exact (holders_lookup _ _ _ Hq)|done|done].
  - pose proof (holders_lookup _ _ _ Hq) as Hh. cbn in Hh.
    pose proof (size_delete_lt id (holders c) ltac:(by rewrite Hh)) as Hd.
    unfold finish, released. rewrite Hi.
    destruct outcome as [[now ctx]|]; (split_and!; [done|rewrite holders_insert; cbn [holds taken at_query]; lia|cbn; lia]).
Qed.

(** *** The breaker's life *)

(** What its queries make of a breaker. *)
Inductive event := Asked (now now' : time) | Succeeded | FailedAt (now : time).

Definition happen (b : breaker) (e : event) : breaker :=
  match e with
  | Asked now now' => fst (allow b now now')
  | Succeeded => success b
  | FailedAt now => failure b now
  end.

Definition history (b : breaker) (l : list event) : breaker := foldl happen b l.

(** The failures since the last success. *)
Definition consecutive (l : list event) : Z :=
  foldl (λ n e, match e with Asked _ _ => n | Succeeded => 0 | FailedAt _ => n + 1 end) 0 l.

(** The clock never reads the zero instant, nor one that wraps. *)
Definition clock_positive (e : event) : Prop :=
  match e with Asked now now' => 0 < now ∧ 0 < now' | Succeeded => True | FailedAt now => 0 < now end.

Lemma history_fields b l : maxFailures (history b l) = maxFailures b ∧ cooldown (history b l) = cooldown b.
Proof.
  unfold history. revert b. induction l as [|e l IH]; intros b; cbn [foldl]; [done|].
  destruct (IH (happen b e)) as [-> ->].
  destruct e; cbn [happen]; unfold allow, success, failure; split_cases; done.
Qed.

Lemma consecutive_bounds l : 0 ≤ consecutive l ≤ Z.of_nat (length l).
Proof.
  unfold consecutive. induction l as [|e l IH] using rev_ind; [done|].
  rewrite foldl_app, length_app. cbn [foldl length]. destruct e; lia.
Qed.

(** the circuit is open exactly when the queries since the last success
    have failed as many times as the limit, however they interleaved with the
    queries shed meanwhile; a success closes it. *)
Theorem breaker_opens n c l :
  0 < n → 0 < c → Forall clock_positive l → Z.of_nat (length l) < 2 ^ 62 →
  let b := history (newBreaker n c) l in
  failures b = consecutive l ∧ (openUntil b = time_zero ↔ consecutive l < n) ∧ 0 ≤ openUntil b.
Proof.
  intros Hn Hc Hcl Hlen. cbn zeta. induction l as [|e l IH] using rev_ind.
  { unfold history, consecutive, time_zero. cbn [foldl newBreaker failures openUntil]. unfold time_zero. lia. }
  apply Forall_app in Hcl as [Hcl He]. apply Forall_cons in He as [He _].
  rewrite length_app in Hlen. cbn [length] in Hlen. destruct IH as (Hf & Ho & Hpos); [done|lia|].
  pose proof (consecutive_bounds l) as Hb.
  assert (Hcons : consecutive (l ++ [e]) =
    match e with Asked _ _ => consecutive l | Succeeded => 0 | FailedAt _ => consecutive l + 1 end)
    by (unfold consecutive; by rewrite foldl_app; destruct e).
  rewrite Hcons. unfold history. rewrite foldl_app. fold (history (newBreaker n c) l). cbn [foldl].
  destruct (history_fields (newBreaker n c) l) as [Hm Hcd]. cbn [maxFailures cooldown newBreaker] in Hm, Hcd.
  unfold time_zero, clock_positive, time_IsZero in *.
  destruct e as [now now'| |now]; cbn in He; cbn [happen]; unfold allow, success, failure, time_IsZero; rewrite Hm;
    rewrite (proj2 (Z.leb_gt n 0)) by lia.
  - destruct (Z.eqb_spec (openUntil (history (newBreaker n c) l)) 0); [done|].
    destruct (time_Before _ _); [done|]. cbn [fst failures openUntil with_state]. unfold time_Add. rewrite Hcd.
    split_and!; [done|lia|lia].
  - cbn [failures openUntil with_state]. unfold time_zero. split_and!; [done|lia|lia].
  - cbn [failures openUntil with_state]. unfold time_Add. rewrite Hcd, Hf.
    rewrite wrap64_id by (unfold int64_range, int64_min, int64_max; lia).
    split; [done|]. destruct (Z.leb_spec n (consecutive l + 1)); unfold time_Add; lia.
Qed.

(** C34: while Prometheus stays down one query at a time probes it: after the
    one handed the probe, and until one succeeds, every query asked for before
    a whole cooldown has passed is shed. *)
Theorem one_probe_per_cooldown b now now' b' l now2 now2' :
  0 < maxFailures b → 0 < now' → 0 < cooldown b →
  allow b now now' = (b', {| al_allowed := true; al_probe := true |}) →
  Succeeded ∉ l →
  Forall (λ e, match e with Asked _ t | FailedAt t => now' ≤ t | Succeeded => True end) l →
  now2 < now' + cooldown b →
  snd (allow (history b' l) now2 now2') = {| al_allowed := false; al_probe := false |}.
Proof.
  intros Hm Hp Hc Hal Hns Hcl Hn2.
  assert (Hb' : b' = with_state b (failures b) (now' + cooldown b)).
  { unfold allow in Hal. split_cases; done. }
  assert (Hopen : now' + cooldown b ≤ openUntil (history b' l)).
  { revert Hns Hcl. induction l as [|e l IH] using rev_ind; intros Hns Hcl.
    { subst. cbn. lia. }
    apply Forall_app in Hcl as [Hcl He]. apply Forall_cons in He as [He _].
    rewrite not_elem_of_app in Hns. destruct Hns as [Hns Hne]. specialize (IH Hns Hcl).
    unfold history. rewrite foldl_app. fold (history b' l). cbn [foldl].
    destruct (history_fields b' l) as [Hm' Hc']. subst b'. cbn [maxFailures cooldown with_state] in Hm', Hc'.
    destruct e as [t t'| |t]; cbn [happen]; [| set_solver |].
    - unfold allow. split_cases; cbn [fst openUntil with_state]; unfold time_Add; lia.
    - unfold failure. split_cases; cbn [openUntil with_state]; unfold time_Add; lia. }
  destruct (history_fields b' l) as [Hm' Hc']. subst b'. cbn [maxFailures cooldown with_state] in Hm', Hc'.
  unfold allow. rewrite Hm', (proj2 (Z.leb_gt _ 0)) by lia. unfold time_IsZero.
  rewrite (proj2 (Z.eqb_neq _ 0)) by lia. unfold time_Before. rewrite (proj2 (Z.ltb_lt now2 _)) by lia. done.
Qed.

Lemma start_probe c id now now' :
  0 < maxFailures (cl_breaker c) → openUntil (cl_breaker c) ≠ time_zero → openUntil (cl_breaker c) ≤ now →
  start c id now now' =
  at_query c (with_state (cl_breaker c) (failures (cl_breaker c)) (time_Add now' (cooldown (cl_breaker c))))
    (taken c) id (Queued true).
Proof.
  intros Hm Ho Hnow. unfold start, allow, time_IsZero.
  rewrite (proj2 (Z.leb_gt (maxFailures (cl_breaker c)) 0)) by lia. rewrite (proj2 (Z.eqb_neq _ _)) by done.
  unfold time_Before. by rewrite (proj2 (Z.ltb_ge now _)) by lia.
Qed.

Lemma success_closes b t t' :
  snd (allow (success b) t t') = {| al_allowed := true; al_probe := false |}.
Proof.
  unfold success, allow. destruct (maxFailures b <=? 0) eqn:E; [by rewrite E|].
  cbn [maxFailures with_state openUntil]. by rewrite E.
Qed.

(** an open circuit recovers: once the cooldown has passed, the next query
    is handed the probe, is not turned away by the deadline it just moved when
    it gets its slot, and closes the circuit when it succeeds. *)
Theorem probe_recovers c id now now' later :
  0 < maxFailures (cl_breaker c) → openUntil (cl_breaker c) ≠ time_zero → openUntil (cl_breaker c) ≤ now →
  queries c !! id = None → free c = true →
  let c1 := start c id now now' in
  let c2 := acquire c1 id true later in
  let c3 := finish c2 id None in
  queries c1 !! id = Some (Queued true) ∧ free c1 = true ∧ queries c2 !! id = Some Running ∧
  queries c3 !! id = Some Answered ∧ taken c3 = taken c ∧
  ∀ t t', snd (allow (cl_breaker c3) t t') = {| al_allowed := true; al_probe := false |}.
Proof.
  intros Hm Ho Hnow Hq Hf. cbn zeta. rewrite start_probe by done.
  unfold acquire, finish, released, free in *.
  destruct (inflight c) eqn:E; cbn [negb andb at_query queries taken inflight cl_breaker]; rewrite E;
    cbn [negb andb at_query queries taken inflight cl_breaker]; rewrite ?E, !lookup_insert_eq;
    split_and!; try done; intros; apply success_closes.
Qed.

(** ** At a concrete input *)

(** One slot, a breaker that opens at two failures. *)
Definition sample_client : client := newClient (newBreaker 2 (30 * second)) (Some 1%nat).

Lemma inflight_bound_witness : slots_ok 1 (acquire (start sample_client 0 1 1) 0 false 2).
Proof.
  apply (inflight_bound (newBreaker 2 (30 * second))).
  eapply runs_step; [eapply runs_step; [apply runs_new|apply s_start]|apply s_acquire]; by_running.
Defined.

Lemma breaker_opens_witness :
  openUntil (history (newBreaker 2 (30 * second)) [FailedAt 1; Succeeded; FailedAt 2]) = time_zero ∧
  openUntil (history (newBreaker 2 (30 * second)) [FailedAt 1; Asked 2 2; FailedAt 3]) ≠ time_zero.
Proof.
  split.
  - apply (breaker_opens 2 (30 * second) [FailedAt 1; Succeeded; FailedAt 2]); try done. repeat constructor.
  - assert (Hl : Forall clock_positive [FailedAt 1; Asked 2 2; FailedAt 3]) by (repeat constructor).
    destruct (breaker_opens 2 (30 * second) _ ltac:(done) ltac:(done) Hl ltac:(done)) as (_ & Ho & _).
    rewrite Ho. vm_compute. by intros H.
Defined.

(** Open since 3, it lets one probe through once its cooldown is over. *)
Lemma one_probe_per_cooldown_witness :
  let b := history (newBreaker 2 10) [FailedAt 1; FailedAt 3] in
  snd (allow (history (fst (allow b 13 14)) [Asked 15 15; FailedAt 16]) 20 20) =
  {| al_allowed := false; al_probe := false |}.
Proof.
  cbn zeta.
  apply (one_probe_per_cooldown (history (newBreaker 2 10) [FailedAt 1; FailedAt 3]) 13 14); try done.
  - by intros [?|[?|?%elem_of_nil]%elem_of_cons]%elem_of_cons.
  - repeat constructor; lia.
Defined.
