(* ===== verification/Lru.v ===== *)
(** * The least-recently-used cache ([internal/cache/lru.go])

    A linked list of entries, most recently used first, and a map from each key
    to its element. The list holds the elements' addresses and the heap what
    they hold; [lru_view] is the list of entries they amount to, and each
    operation is shown to do on it what [spec_set] and the like say. The lock
    makes each operation one step; the clock is an argument. *)

From S2P Require Import Prelude GoLang.
From stdpp Require Import sets.
Local Open Scope Z_scope.

Section LRU.
Context {K V : Type} {KE : EqDecision K} {KC : Countable K}.

Record entry := { en_key : K; en_value : V; en_storedAt : time }.

Record LRU := {
  l_maxEntries : Z;
  l_ttl : duration;
  order : list nat;
  heap : gmap nat entry;
  l_entries : gmap K nat;
  next : nat;
}.

(** [None] is the panic of a size under one. *)
Definition NewLRU (n : Z) (t : duration) : option LRU :=
  if n <? 1 then None
  else Some {| l_maxEntries := n; l_ttl := t; order := []; heap := ∅; l_entries := ∅; next := 0 |}.

Definition with_order (c : LRU) (o : list nat) : LRU :=
  {| l_maxEntries := l_maxEntries c; l_ttl := l_ttl c; order := o; heap := heap c; l_entries := l_entries c;
     next := next c |}.

(** [list.Remove] and [list.MoveToFront] *)
Definition list_remove (a : nat) (o : list nat) : list nat := filter (λ x, x ≠ a) o.
Definition MoveToFront (c : LRU) (a : nat) : LRU := with_order c (a :: list_remove a (order c)).

(** The element of a key: its address and what it holds. *)
Definition element (c : LRU) (key : K) : option (nat * entry) :=
  match l_entries c !! key with
  | Some a => match heap c !! a with Some e => Some (a, e) | None => None end
  | None => None
  end.

Definition LruGet (c : LRU) (now : time) (key : K) : LRU * option V :=
  match element c key with
  | None => (c, None)
  | Some (a, e) =>
      if l_ttl c <? time_Sub now (en_storedAt e) then (c, None) else (MoveToFront c a, Some (en_value e))
  end.

Definition LastGoodWithin (c : LRU) (now : time) (key : K) (maxAge : duration) : option V :=
  match element c key with
  | None => None
  | Some (_, e) => if maxAge <? time_Sub now (en_storedAt e) then None else Some (en_value e)
  end.

(** [Remove] of an element and its key. *)
Definition drop (c : LRU) (a : nat) (key : K) : LRU :=
  {| l_maxEntries := l_maxEntries c; l_ttl := l_ttl c; order := list_remove a (order c); heap := heap c;
     l_entries := delete key (l_entries c); next := next c |}.

Definition setLocked (c : LRU) (now : time) (key : K) (value : V) : LRU :=
  match element c key with
  | Some (a, e) =>
      MoveToFront {| l_maxEntries := l_maxEntries c; l_ttl := l_ttl c; order := order c;
        heap := <[a := {| en_key := en_key e; en_value := value; en_storedAt := now |}]> (heap c);
        l_entries := l_entries c; next := next c |} a
  | None =>
      let c := {| l_maxEntries := l_maxEntries c; l_ttl := l_ttl c; order := next c :: order c;
        heap := <[next c := {| en_key := key; en_value := value; en_storedAt := now |}]> (heap c);
        l_entries := <[key := next c]> (l_entries c); next := S (next c) |} in
      if l_maxEntries c <? Z.of_nat (length (order c)) then
        match last (order c) with
        | Some oldest => match heap c !! oldest with Some e => drop c oldest (en_key e) | None => c end
        | None => c
        end
      else c
  end.

Definition LruSet := setLocked.

Definition SetIfAbsent (c : LRU) (now : time) (key : K) (value : V) : LRU * bool :=
  match element c key with
  | Some (a, e) =>
      if time_Sub now (en_storedAt e) <=? l_ttl c then (MoveToFront c a, false)
      else (setLocked c now key value, true)
  | None => (setLocked c now key value, true)
  end.

Definition DeleteIf (c : LRU) (key : K) (match_ : V → bool) : LRU * bool :=
  match element c key with
  | Some (a, e) => if match_ (en_value e) then (drop c a key, true) else (c, false)
  | None => (c, false)
  end.

(** ** What it amounts to *)

Definition lru_view (c : LRU) : list entry := omap (λ a, heap c !! a) (order c).

Definition spec_find (key : K) (l : list entry) : option entry := List.find (λ e, bool_decide (en_key e = key)) l.

Definition spec_without (key : K) (l : list entry) : list entry := filter (λ e, en_key e ≠ key) l.

(** The entry at the front, the others in their order. *)
Definition spec_touch (key : K) (l : list entry) : list entry :=
  match spec_find key l with Some e => e :: spec_without key l | None => l end.

Definition spec_set (n : Z) (now : time) (key : K) (value : V) (l : list entry) : list entry :=
  take (Z.to_nat n) ({| en_key := key; en_value := value; en_storedAt := now |} :: spec_without key l).

(** Fresh as of [now]. *)
Definition fresh_within (d : duration) (now : time) (e : entry) : bool := negb (d <? time_Sub now (en_storedAt e)).

(** ** Facts *)

(** Every element has its key in the map and every key its element, no key has
    two, and the list is within its size. *)
Record lru_ok (c : LRU) : Prop := {
  ok_max : 1 ≤ l_maxEntries c;
  ok_order : NoDup (order c);
  ok_elem a : a ∈ order c → ∃ e, heap c !! a = Some e ∧ l_entries c !! en_key e = Some a;
  ok_key key a : l_entries c !! key = Some a → a ∈ order c ∧ ∃ e, heap c !! a = Some e ∧ en_key e = key;
  ok_next a e : heap c !! a = Some e → (a < next c)%nat;
  ok_size : Z.of_nat (length (order c)) ≤ l_maxEntries c;
}.

Lemma NewLRU_ok n t c : NewLRU n t = Some c → lru_ok c ∧ lru_view c = [].
Proof.
  unfold NewLRU. destruct (Z.ltb_spec n 1); [done|]. intros [= <-]. split; [|done].
  split; cbn; try done; try (intros; set_solver); [constructor|lia].
Qed.

Lemma element_Some c key a e :
  lru_ok c → element c key = Some (a, e) ↔ l_entries c !! key = Some a ∧ heap c !! a = Some e.
Proof. intros Hok. unfold element. destruct (l_entries c !! key) as [a'|]; [|naive_solver]. destruct (heap c !! a') eqn:E; naive_solver. Qed.

Lemma element_None c key : lru_ok c → element c key = None ↔ l_entries c !! key = None.
Proof.
  intros Hok. unfold element. destruct (l_entries c !! key) as [a|] eqn:E; [|done].
  destruct (ok_key _ Hok _ _ E) as (_ & e & -> & _). done.
Qed.

(** The view of a list of addresses. *)
Definition viewed (h : gmap nat entry) (o : list nat) : list entry := omap (λ a, h !! a) o.

Lemma viewed_insert h a e o : a ∉ o → viewed (<[a := e]> h) o = viewed h o.
Proof.
  unfold viewed. induction o as [|b o IH]; intros Ha; [done|]. apply not_elem_of_cons in Ha as [Hne Ha].
  cbn [omap list_omap]. rewrite lookup_insert_ne by done. by rewrite IH.
Qed.

Lemma view_filter c (P : nat → Prop) `{!∀ a, Decision (P a)} (Q : entry → Prop) `{!∀ e, Decision (Q e)} :
  (∀ a e, a ∈ order c → heap c !! a = Some e → P a ↔ Q e) →
  viewed (heap c) (filter P (order c)) = filter Q (viewed (heap c) (order c)).
Proof.
  unfold viewed. generalize (order c). intros o. induction o as [|a o IH]; intros HPQ; [done|].
  rewrite filter_cons. cbn [omap list_omap]. destruct (heap c !! a) as [e|] eqn:E.
  - rewrite filter_cons. rewrite <-IH by (intros; apply HPQ; [by right|done]).
    specialize (HPQ a e ltac:(by left) E). destruct (decide (P a)), (decide (Q e)); cbn; rewrite ?E; naive_solver.
  - rewrite <-IH by (intros; apply HPQ; [by right|done]). destruct (decide (P a)); cbn; by rewrite ?E.
Qed.

(** Two addresses of one key are one. *)
Lemma addr_of_key c a b e e' :
  lru_ok c → a ∈ order c → b ∈ order c → heap c !! a = Some e → heap c !! b = Some e' → en_key e = en_key e' → a = b.
Proof.
  intros Hok Ha Hb He He' Hk. destruct (ok_elem _ Hok _ Ha) as (x & Hx & Hxk), (ok_elem _ Hok _ Hb) as (y & Hy & Hyk).
  congruence.
Qed.

Lemma view_without c key a :
  lru_ok c → l_entries c !! key = Some a →
  viewed (heap c) (list_remove a (order c)) = spec_without key (lru_view c).
Proof.
  intros Hok Hk. unfold list_remove, spec_without. apply view_filter. intros b e Hb He.
  destruct (ok_key _ Hok _ _ Hk) as (Ha & ea & Hea & Hka). split; intros Hne Heq; apply Hne.
  - eapply addr_of_key; [done|exact Hb|exact Ha|exact He|exact Hea|congruence].
  - subst b. congruence.
Qed.

Lemma view_find c key :
  lru_ok c → spec_find key (lru_view c) = snd <$> element c key.
Proof.
  intros Hok. unfold spec_find.
  destruct (List.find _ _) as [e|] eqn:E; destruct (element c key) as [[a e']|] eqn:El; cbn; try done.
  - apply List.find_some in E as [Hin Hk%bool_decide_eq_true]. apply list_elem_of_In in Hin.
    unfold lru_view in Hin. apply list_elem_of_omap in Hin as (b & Hb & He).
    apply element_Some in El as [Hka Hea]; [|done]. destruct (ok_key _ Hok _ _ Hka) as (Ha & e2 & He2 & Hk2).
    assert (a = b) as -> by (eapply addr_of_key; [done|exact Ha|exact Hb|exact He2|exact He|congruence]). congruence.
  - apply List.find_some in E as [Hin Hk%bool_decide_eq_true]. apply list_elem_of_In in Hin.
    unfold lru_view in Hin. apply list_elem_of_omap in Hin as (b & Hb & He).
    apply element_None in El; [|done]. destruct (ok_elem _ Hok _ Hb) as (e2 & He2 & Hk2). congruence.
  - apply element_Some in El as [Hka Hea]; [|done]. destruct (ok_key _ Hok _ _ Hka) as (Ha & e2 & He2 & Hk2).
    assert (Hin : e' ∈ lru_view c) by (unfold lru_view; apply list_elem_of_omap; eauto).
    apply list_elem_of_In in Hin. pose proof (List.find_none _ _ E e' Hin) as Hn. cbn beta in Hn.
    rewrite bool_decide_eq_true_2 in Hn by congruence. done.
Qed.

Lemma move_ok c key a e :
  lru_ok c → element c key = Some (a, e) →
  lru_ok (MoveToFront c a) ∧ lru_view (MoveToFront c a) = spec_touch key (lru_view c).
Proof.
  intros Hok El. pose proof El as [Hk He]%element_Some; [|done]. destruct (ok_key _ Hok _ _ Hk) as (Ha & e' & He' & Hke).
  assert (e' = e) as -> by congruence.
  assert (Hmem : ∀ b, b ∈ a :: list_remove a (order c) ↔ b ∈ order c).
  { intros b. unfold list_remove. rewrite elem_of_cons, list_elem_of_filter. destruct (decide (b = a)); naive_solver. }
  assert (Hnd : NoDup (a :: list_remove a (order c))).
  { apply NoDup_cons. split; [unfold list_remove; rewrite list_elem_of_filter; naive_solver|].
    apply NoDup_filter, Hok. }
  split.
  - destruct Hok as [Hm Ho Hel Hky Hnx Hsz]. split; cbn [MoveToFront with_order order heap l_entries l_maxEntries next]; try done.
    + intros b Hb. by apply Hel, Hmem.
    + intros k b Hb. rewrite Hmem. by apply Hky.
    + pose proof (submseteq_length (a :: list_remove a (order c)) (order c)) as Hl.
      specialize (Hl ltac:(apply NoDup_submseteq; [done|intros b; by rewrite Hmem])). lia.
  - unfold lru_view, spec_touch. cbn [MoveToFront with_order order heap omap list_omap]. rewrite He.
    fold (lru_view c). rewrite view_find by done. rewrite El. cbn [fmap option_fmap option_map snd]. f_equal.
    by apply (view_without c key a).
Qed.

(** Get is what an assoc list kept in order of use does: a fresh value is
    answered and its entry moved to the front; an expired one, or none, is a
    miss that changes nothing. *)
Lemma LruGet_refines c now key :
  lru_ok c →
  let '(c', r) := LruGet c now key in
  lru_ok c' ∧
  match spec_find key (lru_view c) with
  | Some e => if fresh_within (l_ttl c) now e
              then r = Some (en_value e) ∧ lru_view c' = spec_touch key (lru_view c)
              else r = None ∧ c' = c
  | None => r = None ∧ c' = c
  end.
Proof.
  intros Hok. unfold LruGet. rewrite view_find by done. destruct (element c key) as [[a e]|] eqn:El; cbn.
  - unfold fresh_within. destruct (l_ttl c <? _); cbn; [done|]. destruct (move_ok _ _ _ _ Hok El). by split_and!.
  - done.
Qed.

Lemma LastGoodWithin_refines c now key d :
  lru_ok c →
  LastGoodWithin c now key d =
  spec_find key (lru_view c) ≫= λ e, if fresh_within d now e then Some (en_value e) else None.
Proof.
  intros Hok. unfold LastGoodWithin. rewrite view_find by done. unfold fresh_within.
  destruct (element c key) as [[a e]|]; cbn; [|done]. by destruct (d <? _).
Qed.

Lemma drop_ok c key a :
  lru_ok c → l_entries c !! key = Some a →
  lru_ok (drop c a key) ∧ lru_view (drop c a key) = spec_without key (lru_view c).
Proof.
  intros Hok Hk. split; [|by apply (view_without c key a)].
  destruct Hok as [Hm Ho Hel Hky Hnx Hsz]. split; cbn [drop order heap l_entries l_maxEntries next]; try done.
  - by apply NoDup_filter.
  - intros b [Hb1 Hb2]%list_elem_of_filter. destruct (Hel b Hb2) as (e & He & Hke). exists e. split; [done|].
    rewrite lookup_delete_ne; [done|]. intros ->. congruence.
  - intros k b. rewrite lookup_delete_Some. intros [Hne Hb]. destruct (Hky _ _ Hb) as (Hin & e & He & Hke).
    split; [|eauto]. apply list_elem_of_filter. split; [|done]. intros ->.
    destruct (Hky _ _ Hk) as (_ & e' & He' & Hke'). congruence.
  - pose proof (length_filter (λ x, x ≠ a) (order c)). unfold list_remove. lia.
Qed.

(** An element's value replaced in place. *)
Lemma overwrite_ok c key a e value now :
  lru_ok c → element c key = Some (a, e) →
  let c' := {| l_maxEntries := l_maxEntries c; l_ttl := l_ttl c; order := order c;
       heap := <[a := {| en_key := en_key e; en_value := value; en_storedAt := now |}]> (heap c);
       l_entries := l_entries c; next := next c |} in
  lru_ok c' ∧ element c' key = Some (a, {| en_key := en_key e; en_value := value; en_storedAt := now |}) ∧
  spec_without key (lru_view c') = spec_without key (lru_view c) ∧ en_key e = key.
Proof.
  intros Hok El. pose proof El as [Hk He]%element_Some; [|done]. destruct (ok_key _ Hok _ _ Hk) as (Ha & e' & He' & Hke).
  assert (e' = e) as -> by congruence. cbn zeta. set (e' := {| en_key := en_key e |}). set (c' := {| order := order c |}).
  assert (Hok' : lru_ok c').
  { destruct Hok as [Hm Ho Hel Hky Hnx Hsz]. split; try done.
    - intros b Hb. unfold c'. cbn [heap l_entries]. destruct (Hel b Hb) as (x & Hx & Hxk). rewrite lookup_insert.
      destruct (decide (a = b)) as [->|]; [|eauto]. exists e'. split; [done|]. cbn. congruence.
    - intros k b Hb. destruct (Hky _ _ Hb) as (Hin & x & Hx & Hxk). split; [done|]. unfold c'. cbn [heap].
      rewrite lookup_insert. destruct (decide (a = b)) as [->|]; [|eauto]. exists e'. split; [done|]. cbn. congruence.
    - intros b x. unfold c'. cbn [heap next]. rewrite lookup_insert. destruct (decide (a = b)) as [->|]; [|apply Hnx].
      intros _. by eapply Hnx. }
  split_and!; [done| | |done].
  - apply element_Some; [done|]. unfold c'. cbn [l_entries heap]. by rewrite lookup_insert_eq.
  - rewrite <-(view_without c' key a), <-(view_without c key a) by done. unfold c'. cbn [heap order].
    apply viewed_insert. by intros [? ?]%list_elem_of_filter.
Qed.

(** A new element at the front, when the key has none. *)
Lemma push_ok c key value now :
  lru_ok c → l_entries c !! key = None →
  let e := {| en_key := key; en_value := value; en_storedAt := now |} in
  let c' := {| l_maxEntries := Z.of_nat (length (next c :: order c)); l_ttl := l_ttl c; order := next c :: order c;
       heap := <[next c := e]> (heap c); l_entries := <[key := next c]> (l_entries c); next := S (next c) |} in
  lru_ok c' ∧ lru_view c' = e :: lru_view c ∧ spec_without key (lru_view c) = lru_view c.
Proof.
  intros Hok Hk. pose proof Hok as [Hm Ho Hel Hky Hnx Hsz].
  assert (Hnew : ∀ b, b ∈ order c → b ≠ next c).
  { intros b Hb ->. destruct (Hel _ Hb) as (x & Hx & _). apply Hnx in Hx. lia. }
  cbn zeta. split_and!.
  - split; cbn [order heap l_entries l_maxEntries next]; try done.
    + cbn [length]. lia.
    + apply NoDup_cons. split; [|done]. intros Hin. by apply (Hnew _ Hin).
    + intros b [->|Hb]%elem_of_cons.
      * rewrite lookup_insert_eq. eexists. split; [done|]. cbn. by rewrite lookup_insert_eq.
      * rewrite lookup_insert_ne by (apply not_eq_sym; auto). destruct (Hel _ Hb) as (x & Hx & Hxk). exists x. split; [done|].
        rewrite lookup_insert_ne; [done|]. intros ->. congruence.
    + intros k b. rewrite lookup_insert. case_decide as Hkk.
      * intros [= <-]. split; [by left|]. rewrite lookup_insert_eq. eexists. split; [done|]. done.
      * intros Hb. destruct (Hky _ _ Hb) as (Hin & x & Hx & Hxk). split; [by right|].
        rewrite lookup_insert_ne by (apply not_eq_sym; auto). eauto.
    + intros b x. rewrite lookup_insert. case_decide; [intros; lia|]. intros Hb%Hnx. lia.
  - unfold lru_view. cbn [order heap omap list_omap]. rewrite lookup_insert_eq. f_equal.
    apply viewed_insert. intros Hin. by apply (Hnew _ Hin).
  - unfold spec_without. apply filter_all. intros e He Heq.
    unfold lru_view in He. apply list_elem_of_omap in He as (b & Hb & He). destruct (Hel _ Hb) as (x & Hx & Hxk). congruence.
Qed.

Definition with_max (c : LRU) (n : Z) : LRU :=
  {| l_maxEntries := n; l_ttl := l_ttl c; order := order c; heap := heap c; l_entries := l_entries c; next := next c |}.

Lemma with_max_ok c n : lru_ok c → 1 ≤ n → Z.of_nat (length (order c)) ≤ n → lru_ok (with_max c n).
Proof. intros [Hm Ho Hel Hky Hnx Hsz] H1 Hn. by split. Qed.

Lemma length_view c : lru_ok c → length (lru_view c) = length (order c).
Proof.
  intros Hok. assert (Hel : ∀ a, a ∈ order c → is_Some (heap c !! a)).
  { intros a Ha. destruct (ok_elem _ Hok _ Ha) as (e & -> & _). eauto. }
  unfold lru_view. revert Hel. generalize (order c). intros o. induction o as [|a o IH]; intros Hel; [done|].
  cbn [omap list_omap]. destruct (Hel a ltac:(by left)) as [e ->]. cbn. f_equal. apply IH. intros. apply Hel. by right.
Qed.

(** Dropping the element at the back. *)
Lemma drop_last_ok c a :
  lru_ok c → last (order c) = Some a →
  ∃ e, heap c !! a = Some e ∧ lru_ok (drop c a (en_key e)) ∧
    lru_view (drop c a (en_key e)) = take (pred (length (lru_view c))) (lru_view c) ∧
    length (order (drop c a (en_key e))) = pred (length (order c)).
Proof.
  intros Hok Hl. apply last_Some in Hl as (o & Ho).
  destruct (ok_elem _ Hok a) as (e & He & Hk); [rewrite Ho, elem_of_app; right; by left|].
  exists e. split; [done|]. destruct (drop_ok c _ _ Hok Hk) as [Hok' Hv]. split; [done|].
  pose proof (ok_order _ Hok) as Hnd. rewrite Ho in Hnd. apply NoDup_app in Hnd as (Hnd & Hna & _).
  assert (Hr : order (drop c a (en_key e)) = o).
  { cbn [drop order]. unfold list_remove. rewrite Ho, filter_app, filter_all.
    - rewrite filter_cons, decide_False by (intros Hne; by apply Hne). by rewrite app_nil_r.
    - intros x Hx ->. apply (Hna _ Hx). by left. }
  rewrite Hr. split; [|rewrite Ho, length_app; cbn; lia].
  unfold lru_view. rewrite Hr. cbn [drop heap]. rewrite Ho, omap_app. cbn [omap list_omap]. rewrite He, length_app.
  cbn [length]. replace (pred (length (omap (λ a0, heap c !! a0) o) + 1)) with (length (omap (λ a0, heap c !! a0) o)) by lia.
  by rewrite take_app_length.
Qed.

Lemma setLocked_ok c now key value :
  lru_ok c →
  lru_ok (setLocked c now key value) ∧
  lru_view (setLocked c now key value) = spec_set (l_maxEntries c) now key value (lru_view c).
Proof.
  intros Hok. unfold setLocked, spec_set. pose proof (length_view _ Hok) as Hlv. pose proof (ok_size _ Hok) as Hsz.
  destruct (element c key) as [[a e]|] eqn:El.
  - destruct (overwrite_ok c key a e value now Hok El) as (Hok' & El' & Hw & Hk).
    destruct (move_ok _ _ _ _ Hok' El') as [Hok2 Hv]. split; [done|].
    pose proof (length_view _ Hok2) as Hl2. pose proof (ok_size _ Hok2) as Hs2. cbn [MoveToFront with_order l_maxEntries] in Hs2.
    rewrite Hv in *. unfold spec_touch in *. rewrite view_find, El' in * by done.
    cbn [fmap option_fmap option_map snd] in *. rewrite Hw, Hk in *. rewrite take_ge; [done|]. rewrite Hl2. lia.
  - apply element_None in El; [|done]. destruct (push_ok c key value now Hok El) as (Hok1 & Hv1 & Hw).
    cbn [l_maxEntries order]. rewrite Hw. pose proof (ok_max _ Hok) as Hm.
    destruct (Z.ltb_spec (l_maxEntries c) (Z.of_nat (length (next c :: order c)))) as [Hover|Hfits].
    + match type of Hok1 with lru_ok ?x => set (c1 := x) in * end.
      assert (Hlast : ∃ x, last (order c1) = Some x)
        by (destruct (last (order c1)) eqn:E; [eauto|by apply last_None in E]).
      destruct Hlast as [x Hx]. destruct (drop_last_ok c1 x Hok1 Hx) as (e & He & Hok2 & Hv2 & Hlen).
      change (order c1) with (next c :: order c) in Hx. change (heap c1) with
        (<[next c := {| en_key := key; en_value := value; en_storedAt := now |}]> (heap c)) in He.
      rewrite Hx. cbn [heap]. rewrite He. cbn [length order c1] in Hlen, Hover.
      split; [apply (with_max_ok _ (l_maxEntries c) Hok2); [lia|rewrite Hlen; cbn; lia]|].
      change (lru_view (drop c1 x (en_key e)) = take (Z.to_nat (l_maxEntries c))
        ({| en_key := key; en_value := value; en_storedAt := now |} :: lru_view c)).
      rewrite Hv2, Hv1. f_equal. cbn [length]. lia.
    + split; [apply (with_max_ok _ (l_maxEntries c) Hok1); [lia|done]|].
      rewrite take_ge; [exact Hv1|]. cbn [length] in *. lia.
Qed.

(** Set puts the value at the front, fresh from now, over any value the key
    had, and keeps as many entries as the cache holds: what it drops is the
    entry used the longest ago. *)
Lemma LruSet_refines c now key value :
  lru_ok c →
  lru_ok (LruSet c now key value) ∧
  lru_view (LruSet c now key value) = spec_set (l_maxEntries c) now key value (lru_view c).
Proof. apply setLocked_ok. Qed.

(** SetIfAbsent stores exactly when no fresh value is there, as Set does,
    and leaves the fresh one it finds, at the front. *)
Lemma SetIfAbsent_refines c now key value :
  lru_ok c →
  let '(c', stored) := SetIfAbsent c now key value in
  lru_ok c' ∧
  match spec_find key (lru_view c) with
  | Some e => stored = negb (fresh_within (l_ttl c) now e)
  | None => stored = true
  end ∧
  lru_view c' = (if stored then spec_set (l_maxEntries c) now key value (lru_view c)
                 else spec_touch key (lru_view c)).
Proof.
  intros Hok. unfold SetIfAbsent. rewrite view_find by done. destruct (setLocked_ok c now key value Hok) as [Hs1 Hs2].
  destruct (element c key) as [[a e]|] eqn:El; cbn; [|by split_and!].
  unfold fresh_within. rewrite negb_involutive, Z.leb_antisym.
  destruct (l_ttl c <? _); cbn; [by split_and!|]. destruct (move_ok _ _ _ _ Hok El). by split_and!.
Qed.

(** DeleteIf removes the key's entry exactly when its value, fresh or
    expired, matches, and nothing else. *)
Lemma DeleteIf_refines c key match_ :
  lru_ok c →
  let '(c', removed) := DeleteIf c key match_ in
  lru_ok c' ∧
  removed = (match spec_find key (lru_view c) with Some e => match_ (en_value e) | None => false end) ∧
  lru_view c' = (if removed then spec_without key (lru_view c) else lru_view c).
Proof.
  intros Hok. unfold DeleteIf. rewrite view_find by done. destruct (element c key) as [[a e]|] eqn:El; cbn; [|done].
  destruct (match_ (en_value e)); [|done]. apply element_Some in El as [Hk _]; [|done].
  destruct (drop_ok c key a Hok Hk). by split_and!.
Qed.

(** ** The cache as its list *)

Inductive lru_op :=
  | OpGet (now : time) (key : K)
  | OpLastGood (now : time) (key : K) (maxAge : duration)
  | OpSet (now : time) (key : K) (value : V)
  | OpSetIfAbsent (now : time) (key : K) (value : V)
  | OpDeleteIf (key : K) (match_ : V → bool).

Inductive lru_out := Value (v : option V) | Flag (b : bool) | Nothing.

Definition op_key (o : lru_op) : K :=
  match o with OpGet _ k | OpLastGood _ k _ | OpSet _ k _ | OpSetIfAbsent _ k _ | OpDeleteIf k _ => k end.

Definition lru_do (c : LRU) (o : lru_op) : LRU * lru_out :=
  match o with
  | OpGet now k => let '(c, v) := LruGet c now k in (c, Value v)
  | OpLastGood now k d => (c, Value (LastGoodWithin c now k d))
  | OpSet now k v => (LruSet c now k v, Nothing)
  | OpSetIfAbsent now k v => let '(c, b) := SetIfAbsent c now k v in (c, Flag b)
  | OpDeleteIf k m => let '(c, b) := DeleteIf c k m in (c, Flag b)
  end.

(** What each operation promises, on a list of entries in order of use. *)
Definition spec_do (n : Z) (t : duration) (l : list entry) (o : lru_op) : list entry * lru_out :=
  match o with
  | OpGet now k =>
      match spec_find k l with
      | Some e => if fresh_within t now e then (spec_touch k l, Value (Some (en_value e))) else (l, Value None)
      | None => (l, Value None)
      end
  | OpLastGood now k d =>
      (l, Value (spec_find k l ≫= λ e, if fresh_within d now e then Some (en_value e) else None))
  | OpSet now k v => (spec_set n now k v l, Nothing)
  | OpSetIfAbsent now k v =>
      match spec_find k l with
      | Some e => if fresh_within t now e then (spec_touch k l, Flag false) else (spec_set n now k v l, Flag true)
      | None => (spec_set n now k v l, Flag true)
      end
  | OpDeleteIf k m =>
      match spec_find k l with
      | Some e => if m (en_value e) then (spec_without k l, Flag true) else (l, Flag false)
      | None => (l, Flag false)
      end
  end.

Lemma lru_do_fields c o : l_maxEntries (fst (lru_do c o)) = l_maxEntries c ∧ l_ttl (fst (lru_do c o)) = l_ttl c.
Proof.
  destruct o; cbn; unfold LruGet, LruSet, SetIfAbsent, DeleteIf, setLocked; split_cases; done.
Qed.

Lemma lru_do_spec c o :
  lru_ok c →
  lru_ok (fst (lru_do c o)) ∧
  spec_do (l_maxEntries c) (l_ttl c) (lru_view c) o = (lru_view (fst (lru_do c o)), snd (lru_do c o)).
Proof.
  intros Hok. destruct o as [now k|now k d|now k v|now k v|k m]; cbn [lru_do spec_do].
  - pose proof (LruGet_refines c now k Hok) as H. destruct (LruGet c now k) as [c' r]. cbn [fst snd].
    destruct H as [? H]. split; [done|]. destruct (spec_find k (lru_view c)); [destruct (fresh_within _ _ _)|];
      destruct H as [H1 H2]; subst; try done. by rewrite H2.
  - cbn [fst snd]. split; [done|]. by rewrite LastGoodWithin_refines.
  - cbn [fst snd]. destruct (LruSet_refines c now k v Hok) as [? ->]. done.
  - pose proof (SetIfAbsent_refines c now k v Hok) as H. destruct (SetIfAbsent c now k v) as [c' b]. cbn [fst snd].
    destruct H as (? & Hb & H). split; [done|]. rewrite H. destruct (spec_find k (lru_view c)); subst; [|done].
    by destruct (fresh_within _ _ _).
  - pose proof (DeleteIf_refines c k m Hok) as H. destruct (DeleteIf c k m) as [c' b]. cbn [fst snd].
    destruct H as (? & Hb & H). split; [done|]. rewrite H. destruct (spec_find k (lru_view c)); subst; [|done].
    by destruct (m _).
Qed.

(** The operations one after the other, and what they answer. *)
Fixpoint lru_run (c : LRU) (ops : list lru_op) : LRU * list lru_out :=
  match ops with
  | [] => (c, [])
  | o :: ops => let '(c, r) := lru_do c o in let '(c, rs) := lru_run c ops in (c, r :: rs)
  end.

Fixpoint spec_run (n : Z) (t : duration) (l : list entry) (ops : list lru_op) : list entry * list lru_out :=
  match ops with
  | [] => (l, [])
  | o :: ops => let '(l, r) := spec_do n t l o in let '(l, rs) := spec_run n t l ops in (l, r :: rs)
  end.

Lemma lru_run_spec c ops :
  lru_ok c →
  lru_ok (fst (lru_run c ops)) ∧
  spec_run (l_maxEntries c) (l_ttl c) (lru_view c) ops = (lru_view (fst (lru_run c ops)), snd (lru_run c ops)).
Proof.
  revert c. induction ops as [|o ops IH]; intros c Hok; [done|]. cbn [lru_run spec_run].
  destruct (lru_do_spec c o Hok) as [Hok' ->]. destruct (lru_do_fields c o) as [<- <-].
  destruct (lru_do c o) as [c' r]. cbn [fst snd] in *. destruct (IH c' Hok') as [? ->].
  by destruct (lru_run c' ops).
Qed.

(** C38: the linked list, the map and the elements they share are one list of
    entries in order of use: from a new cache, any sequence of operations
    answers what it does on that list, fresh values hit and move to the front,
    a store drops the entry used the longest ago, and the pointers agree
    throughout, within the size the cache was made with. *)
Theorem lru_refines n t c ops :
  NewLRU n t = Some c →
  lru_ok (fst (lru_run c ops)) ∧
  spec_run n t [] ops = (lru_view (fst (lru_run c ops)), snd (lru_run c ops)).
Proof.
  intros Hnew. destruct (NewLRU_ok n t c Hnew) as [Hok Hv].
  assert (Hf : l_maxEntries c = n ∧ l_ttl c = t) by (unfold NewLRU in Hnew; by split_cases).
  destruct Hf as [Hn Ht]. pose proof (lru_run_spec c ops Hok) as H. by rewrite Hv, Hn, Ht in H.
Qed.

(** ** Recency *)

(** Ahead of the entry of [key] are only entries of the keys [used]. *)
Definition behind (used : gset K) (key : K) (e : entry) (l : list entry) : Prop :=
  ∃ pre post, l = pre ++ e :: post ∧ en_key e = key ∧ (key ∉ map en_key pre) ∧ NoDup (map en_key pre) ∧
    ∀ k, k ∈ map en_key pre → k ∈ used.

Lemma behind_find used key e l : behind used key e l → spec_find key l = Some e.
Proof.
  intros (pre & post & -> & Hk & Hn & _). unfold spec_find. induction pre as [|x pre IH]; cbn.
  - by rewrite bool_decide_eq_true_2.
  - apply not_elem_of_cons in Hn as [Hne Hn]. rewrite bool_decide_eq_false_2 by done. by apply IH.
Qed.

Lemma keys_without k l : map en_key (spec_without k l) = filter (λ x, x ≠ k) (map en_key l).
Proof.
  unfold spec_without. induction l as [|x l IH]; [done|]. cbn [map]. rewrite !filter_cons.
  destruct (decide (en_key x ≠ k)); cbn [map]; by rewrite IH.
Qed.

Lemma behind_without used key e l k : k ≠ key → behind used key e l → behind used key e (spec_without k l).
Proof.
  intros Hne (pre & post & -> & Hk & Hn & Hnd & Hu). exists (spec_without k pre), (spec_without k post).
  split_and!; [|done|..].
  - unfold spec_without. rewrite filter_app, filter_cons, decide_True by congruence. done.
  - rewrite keys_without, list_elem_of_filter. naive_solver.
  - rewrite keys_without. by apply NoDup_filter.
  - intros k'. rewrite keys_without, list_elem_of_filter. naive_solver.
Qed.

Lemma behind_more used used' key e l : used ⊆ used' → behind used key e l → behind used' key e l.
Proof. intros Hs (pre & post & ? & ? & ? & ? & Hu). exists pre, post. split_and!; try done. intros k Hk. by apply Hs, Hu. Qed.

Lemma behind_front used key e l x :
  en_key x ≠ key → behind used key e l → behind ({[en_key x]} ∪ used) key e (x :: spec_without (en_key x) l).
Proof.
  intros Hne Hb. destruct (behind_without _ _ _ _ (en_key x) Hne Hb) as (pre & post & Heq & Hk & Hn & Hnd & Hu).
  assert (Hx : en_key x ∉ map en_key pre).
  { intros Hin. assert (Hf : en_key x ∈ map en_key (spec_without (en_key x) l))
      by (rewrite Heq, map_app, elem_of_app; by left).
    rewrite keys_without, list_elem_of_filter in Hf. naive_solver. }
  exists (x :: pre), post. cbn [map app]. rewrite Heq. split_and!; [done..| | |].
  - apply not_elem_of_cons. split; [by apply not_eq_sym|done].
  - by apply NoDup_cons.
  - intros k [->|Hin]%elem_of_cons; [set_solver|]. apply elem_of_union_r, Hu, Hin.
Qed.

Lemma behind_take used key e l n :
  (size used < n)%nat → behind used key e l → behind used key e (take n l).
Proof.
  intros Hn (pre & post & -> & Hk & Hnk & Hnd & Hu). exists pre, (take (n - S (length pre)) post).
  assert (Hl : (length pre ≤ size used)%nat).
  { rewrite <-(length_map en_key pre), <-(size_list_to_set (C := gset K)) by done. apply subseteq_size.
    intros k. rewrite elem_of_list_to_set. apply Hu. }
  split_and!; try done. rewrite take_app, take_ge by lia. f_equal.
  destruct (n - length pre)%nat eqn:E; [lia|]. cbn [take]. do 2 f_equal. lia.
Qed.

Lemma behind_op used key e c o :
  lru_ok c → op_key o ≠ key → (size ({[op_key o]} ∪ used) < Z.to_nat (l_maxEntries c))%nat →
  behind used key e (lru_view c) →
  behind ({[op_key o]} ∪ used) key e (lru_view (fst (lru_do c o))).
Proof.
  intros Hok Hne Hsz Hb.
  assert (Hsame : behind ({[op_key o]} ∪ used) key e (lru_view c)) by (eapply behind_more; [|done]; set_solver).
  assert (Htouch : behind ({[op_key o]} ∪ used) key e (spec_touch (op_key o) (lru_view c))).
  { unfold spec_touch. destruct (spec_find _ _) as [x|] eqn:E; [|done].
    unfold spec_find in E. apply List.find_some in E as [_ Hx%bool_decide_eq_true]. rewrite <-Hx in *.
    by apply behind_front. }
  assert (Hset : ∀ now v, behind ({[op_key o]} ∪ used) key e (spec_set (l_maxEntries c) now (op_key o) v (lru_view c))).
  { intros now v. unfold spec_set. apply behind_take; [done|].
    by apply (behind_front used key e _ {| en_key := op_key o; en_value := v; en_storedAt := now |}). }
  assert (Hdel : behind ({[op_key o]} ∪ used) key e (spec_without (op_key o) (lru_view c)))
    by (eapply behind_more; [|by apply behind_without]; set_solver).
  destruct (lru_do_spec c o Hok) as [_ H].
  assert (Hfst : lru_view (fst (lru_do c o)) = fst (spec_do (l_maxEntries c) (l_ttl c) (lru_view c) o))
    by (by rewrite H). rewrite Hfst. clear H Hfst.
  destruct o as [now k|now k d|now k v|now k v|k m]; cbn [spec_do op_key] in *; [|done|apply Hset| |];
    (destruct (spec_find k (lru_view c)) as [x|]; [|done || apply Hset]).
  - by destruct (fresh_within _ _ x).
  - destruct (fresh_within _ _ x); [done|apply Hset].
  - by destruct (m _).
Qed.

(** an entry stays, as it was stored, through any uses of fewer other keys
    than the cache has room for besides it. *)
Theorem recent_kept c key e ops :
  lru_ok c → head (lru_view c) = Some e → en_key e = key →
  key ∉ map op_key ops →
  (size (list_to_set (map op_key ops) : gset K) < Z.to_nat (l_maxEntries c))%nat →
  spec_find key (lru_view (fst (lru_run c ops))) = Some e.
Proof.
  intros Hok Hhd Hk Hn Hsz.
  assert (Hb : behind ∅ key e (lru_view c)).
  { destruct (lru_view c) as [|x l]; [done|]. injection Hhd as ->. exists [], l. cbn.
    split_and!; [done|done|set_solver|constructor|set_solver]. }
  assert (Hgen : ∀ used c, lru_ok c → behind used key e (lru_view c) →
    (size (list_to_set (map op_key ops) ∪ used) < Z.to_nat (l_maxEntries c))%nat →
    ∃ used', behind used' key e (lru_view (fst (lru_run c ops)))).
  { clear Hok Hhd Hsz Hb c. induction ops as [|o ops IH]; intros used c Hok Hb Hsz; [eauto|].
    cbn [map] in Hn. apply not_elem_of_cons in Hn as [Hno Hn]. cbn [map list_to_set lru_run] in *.
    pose proof (behind_op used key e c o Hok (not_eq_sym Hno)) as Hb'.
    destruct (lru_do_spec c o Hok) as [Hok' _]. destruct (lru_do_fields c o) as [Hm _].
    destruct (lru_do c o) as [c' r]. cbn [fst] in *.
    destruct (IH Hn ({[op_key o]} ∪ used) c') as [used' H]; [done| | |].
    - apply Hb'; [|done]. eapply Nat.le_lt_trans; [|exact Hsz]. apply subseteq_size. set_solver.
    - rewrite Hm. eapply Nat.le_lt_trans; [|exact Hsz]. apply subseteq_size. set_solver.
    - exists used'. by destruct (lru_run c' ops). }
  destruct (Hgen ∅ c Hok Hb) as [used' Hb']; [by rewrite union_empty_r_L|]. by eapply behind_find.
Qed.
End LRU.

(** ** At a concrete input *)

(** A cache of two: the third key takes the place of the one least recently
    read. *)
Definition sample_lru : LRU (K := string) (V := Z) :=
  {| l_maxEntries := 2; l_ttl := 100; order := []; heap := ∅; l_entries := ∅; next := 0 |}.

Definition sample_ops : list (lru_op (K := string) (V := Z)) :=
  [OpSet 1 "a" 10; OpSet 2 "b" 20; OpGet 3 "a"; OpSet 4 "c" 30].

Lemma lru_refines_witness :
  lru_ok (fst (lru_run sample_lru sample_ops)) ∧
  map en_key (lru_view (fst (lru_run sample_lru sample_ops))) = ["c"; "a"].
Proof.
  destruct (lru_refines 2 100 sample_lru sample_ops eq_refl) as [Hok Hs]. split; [exact Hok|].
  apply (f_equal fst) in Hs. cbn [fst] in Hs. rewrite <-Hs. by_running.
Defined.
