(* ===== verification/ReadThrough.v ===== *)
(** * Reading through the cache ([internal/cache/readthrough.go])

    Callers and fetches as the goroutines they are: each lock, each send and
    each call of the fetch is a step, and every interleaving of them is a run.
    What a fetch answers is the relation [fetches]; a panic and a fetch past its
    deadline are among its errors. *)

From S2P Require Import Prelude GoLang Lru.
Local Open Scope Z_scope.

Section ReadThrough.
Context {K V : Type} {KE : EqDecision K} {KC : Countable K}.
Context (fetches : K → result V → Prop).

(** Where a fetch's goroutine stands in [lead]. *)
Inductive phase :=
  | Fetching
  | Fetched (r : result V)
  | Cached (r : result V)
  | Retired (r : result V)
  | Closed (r : result V).

Record flight := { fl_key : K; fl_phase : phase }.

(** What a caller of [Get] returns: a hit, its flight's result, or the end of
    its own context. *)
Inductive outcome := Hit (v : V) | FromFlight (f : nat) (r : result V) | GaveUp.

Inductive caller :=
  | Calling (key : K)
  | Missed (key : K)
  | Waiting (key : K) (f : nat)
  | Returned (key : K) (o : outcome).

Record readThrough := {
  rt_entries : LRU (K := K) (V := V);
  rt_flights : gmap K nat;
  rt_leads : gmap nat flight;
  rt_callers : gmap nat caller;
}.

Definition NewReadThrough (l : LRU) : readThrough :=
  {| rt_entries := l; rt_flights := ∅; rt_leads := ∅; rt_callers := ∅ |}.

Definition with_caller (s : readThrough) (i : nat) (c : caller) : readThrough :=
  {| rt_entries := rt_entries s; rt_flights := rt_flights s; rt_leads := rt_leads s;
     rt_callers := <[i := c]> (rt_callers s) |}.

Definition with_lru (s : readThrough) (l : LRU) : readThrough :=
  {| rt_entries := l; rt_flights := rt_flights s; rt_leads := rt_leads s; rt_callers := rt_callers s |}.

Definition with_phase (s : readThrough) (f : nat) (key : K) (p : phase) : readThrough :=
  {| rt_entries := rt_entries s; rt_flights := rt_flights s;
     rt_leads := <[f := {| fl_key := key; fl_phase := p |}]> (rt_leads s); rt_callers := rt_callers s |}.

(** The first half of [Get]: a hit returns. *)
Definition lookupStep (s : readThrough) (now : time) (i : nat) (key : K) : readThrough :=
  match LruGet (rt_entries s) now key with
  | (l, Some v) => with_caller (with_lru s l) i (Returned key (Hit v))
  | (l, None) => with_caller (with_lru s l) i (Missed key)
  end.

(** [join], under the lock; [f] is the new flight when none runs. *)
Definition join (s : readThrough) (f : nat) (i : nat) (key : K) : readThrough :=
  match rt_flights s !! key with
  | Some f => with_caller s i (Waiting key f)
  | None =>
      with_caller
        {| rt_entries := rt_entries s; rt_flights := <[key := f]> (rt_flights s);
           rt_leads := <[f := {| fl_key := key; fl_phase := Fetching |}]> (rt_leads s);
           rt_callers := rt_callers s |} i (Waiting key f)
  end.

(** The steps of [lead] after the fetch. *)
Definition cacheStep (s : readThrough) (now : time) (f : nat) (key : K) (r : result V) : readThrough :=
  let s := match r with Ok v => with_lru s (LruSet (rt_entries s) now key v) | Err _ => s end in
  with_phase s f key (Cached r).

Definition retire (s : readThrough) (f : nat) (key : K) (r : result V) : readThrough :=
  with_phase
    {| rt_entries := rt_entries s; rt_flights := delete key (rt_flights s); rt_leads := rt_leads s;
       rt_callers := rt_callers s |} f key (Retired r).

Inductive rt_step : readThrough → readThrough → Prop :=
  | rt_call s i key : rt_callers s !! i = None → rt_step s (with_caller s i (Calling key))
  | rt_lookup s now i key : rt_callers s !! i = Some (Calling key) → rt_step s (lookupStep s now i key)
  | rt_join s f i key : rt_callers s !! i = Some (Missed key) → rt_leads s !! f = None → rt_step s (join s f i key)
  | rt_receive s i key f r : rt_callers s !! i = Some (Waiting key f) →
      fl_phase <$> rt_leads s !! f = Some (Closed r) →
      rt_step s (with_caller s i (Returned key (FromFlight f r)))
  | rt_give_up s i key f : rt_callers s !! i = Some (Waiting key f) →
      rt_step s (with_caller s i (Returned key GaveUp))
  | rt_fetch s f key r : rt_leads s !! f = Some {| fl_key := key; fl_phase := Fetching |} → fetches key r →
      rt_step s (with_phase s f key (Fetched r))
  | rt_cache s now f key r : rt_leads s !! f = Some {| fl_key := key; fl_phase := Fetched r |} →
      rt_step s (cacheStep s now f key r)
  | rt_retire s f key r : rt_leads s !! f = Some {| fl_key := key; fl_phase := Cached r |} →
      rt_step s (retire s f key r)
  | rt_close s f key r : rt_leads s !! f = Some {| fl_key := key; fl_phase := Retired r |} →
      rt_step s (with_phase s f key (Closed r)).

Inductive rt_steps : readThrough → readThrough → Prop :=
  | rt_refl s : rt_steps s s
  | rt_trans s s' s'' : rt_steps s s' → rt_step s' s'' → rt_steps s s''.

(** ** Facts *)

(** A flight callers of its key still join. *)
Definition joinable (p : phase) : bool := match p with Fetching | Fetched _ | Cached _ => true | _ => false end.

Definition phase_result (p : phase) : option (result V) :=
  match p with Fetching => None | Fetched r | Cached r | Retired r | Closed r => Some r end.

(** A value a fetch of the key answered. *)
Definition fetched_value (key : K) (v : V) : Prop := fetches key (Ok v).

Record rt_ok (s : readThrough) : Prop := {
  rt_lru_ok : lru_ok (rt_entries s);
  (* the flights are those callers still join, one for each key *)
  rt_flight key f : rt_flights s !! key = Some f ↔
    ∃ p, rt_leads s !! f = Some {| fl_key := key; fl_phase := p |} ∧ joinable p = true;
  rt_values e : e ∈ lru_view (rt_entries s) → fetched_value (en_key e) (en_value e);
  rt_results f key p r : rt_leads s !! f = Some {| fl_key := key; fl_phase := p |} → phase_result p = Some r → fetches key r;
  rt_waits i key f : rt_callers s !! i = Some (Waiting key f) → ∃ p, rt_leads s !! f = Some {| fl_key := key; fl_phase := p |};
  rt_hits i key v : rt_callers s !! i = Some (Returned key (Hit v)) → fetched_value key v;
  rt_returns i key f r : rt_callers s !! i = Some (Returned key (FromFlight f r)) →
    rt_leads s !! f = Some {| fl_key := key; fl_phase := Closed r |};
}.

Lemma new_ok l n t : NewLRU n t = Some l → rt_ok (NewReadThrough l).
Proof.
  intros Hl. destruct (NewLRU_ok _ _ _ Hl) as [Hok Hv].
  split; cbn; try done; try (intros *; rewrite !lookup_empty; naive_solver).
  rewrite Hv. by intros ? ?%not_elem_of_nil.
Qed.

(** A caller moves: to a flight that exists, or back with what it was owed. *)
Lemma caller_ok s i c :
  rt_ok s →
  (∀ key f, c = Waiting key f → ∃ p, rt_leads s !! f = Some {| fl_key := key; fl_phase := p |}) →
  (∀ key v, c = Returned key (Hit v) → fetched_value key v) →
  (∀ key f r, c = Returned key (FromFlight f r) → rt_leads s !! f = Some {| fl_key := key; fl_phase := Closed r |}) →
  rt_ok (with_caller s i c).
Proof.
  intros [Hl Hf Hv Hr Hw Hh Ht] H1 H2 H3.
  split; cbn [with_caller rt_entries rt_flights rt_leads rt_callers]; try done.
  all: intros j; intros *; rewrite lookup_insert; case_decide; [intros [= ->]; eauto|eauto].
Qed.

Lemma lru_values s l :
  rt_ok s → lru_ok l → (∀ e, e ∈ lru_view l → fetched_value (en_key e) (en_value e)) → rt_ok (with_lru s l).
Proof. intros [Hl Hf Hv Hr Hw Hh Ht] H1 H2. by split. Qed.

Lemma phase_ok s f key p p' :
  rt_ok s → rt_leads s !! f = Some {| fl_key := key; fl_phase := p |} → joinable p = joinable p' →
  (∀ r, p ≠ Closed r) → (∀ r, phase_result p' = Some r → fetches key r) → rt_ok (with_phase s f key p').
Proof.
  intros [Hl Hf Hv Hr Hw Hh Ht] Hp Hj Hc Hres.
  split; cbn [with_phase rt_entries rt_flights rt_leads rt_callers]; try done.
  - intros k g. rewrite Hf, lookup_insert. destruct (decide (f = g)) as [<-|]; [|done]. split.
    + intros (q & Hq & Hqj). assert (key = k ∧ p = q) as [-> ->] by (split; congruence). exists p'. split; [done|congruence].
    + intros (q & [= -> <-] & Hqj). exists p. split; [done|congruence].
  - intros g k q r. rewrite lookup_insert. destruct (decide (f = g)) as [<-|]; [|apply Hr]. intros [= <- <-]. apply Hres.
  - intros j k g Hj'. destruct (Hw _ _ _ Hj') as [q Hq]. rewrite lookup_insert. destruct (decide (f = g)) as [<-|]; [|eauto].
    exists p'. congruence.
  - intros j k g r Hj'. specialize (Ht _ _ _ _ Hj'). rewrite lookup_insert. destruct (decide (f = g)) as [<-|]; [|done].
    exfalso. apply (Hc r). congruence.
Qed.

Lemma LruGet_values (l : LRU (K := K) (V := V)) now key l' r :
  lru_ok l → LruGet l now key = (l', r) →
  lru_ok l' ∧ (∀ e, e ∈ lru_view l' → e ∈ lru_view l) ∧
  ∀ v, r = Some v → ∃ e, e ∈ lru_view l ∧ en_key e = key ∧ en_value e = v.
Proof.
  intros Hok Hg. pose proof (LruGet_refines l now key Hok) as H. rewrite Hg in H. destruct H as [Hok' H].
  split; [done|]. destruct (spec_find key (lru_view l)) as [e|] eqn:E; [|by destruct H as [-> ->]].
  unfold spec_find in E. apply List.find_some in E as E'. destruct E' as [Hin%list_elem_of_In Hk%bool_decide_eq_true].
  destruct (fresh_within _ _ e); destruct H as [-> H]; [|by subst]. rewrite H. split.
  - intros x. unfold spec_touch, spec_find. rewrite E. intros [->|Hx]%elem_of_cons; [done|].
    by apply list_elem_of_filter in Hx as [_ Hx].
  - intros v [= <-]. eauto.
Qed.

Lemma lookup_ok s now i key :
  rt_ok s → rt_ok (lookupStep s now i key).
Proof.
  intros Hs. unfold lookupStep. destruct (LruGet (rt_entries s) now key) as [l r] eqn:E.
  destruct (LruGet_values _ _ _ _ _ (rt_lru_ok _ Hs) E) as (Hok & Hsub & Hval).
  assert (Hl : rt_ok (with_lru s l)) by (apply lru_values; [done..|intros e He; by apply (rt_values _ Hs), Hsub]).
  destruct r as [v|]; apply caller_ok; try done.
  intros k v' [= <- <-]. destruct (Hval v eq_refl) as (e & He & <- & <-). by apply (rt_values _ Hs).
Qed.

Lemma join_ok s f i key : rt_ok s → rt_leads s !! f = None → rt_ok (join s f i key).
Proof.
  intros Hs Hnew. unfold join. destruct (rt_flights s !! key) as [g|] eqn:E.
  - apply caller_ok; try done. intros k h [= <- <-]. apply (rt_flight _ Hs) in E as (p & Hp & _). eauto.
  - destruct Hs as [Hl Hf Hv Hr Hw Hh Ht]. apply caller_ok; try done.
    + split; cbn [rt_entries rt_flights rt_leads rt_callers]; try done.
      * intros k g. rewrite !lookup_insert. destruct (decide (key = k)) as [->|Hk], (decide (f = g)) as [->|Hg].
        -- split; [|done]. intros _. exists Fetching. done.
        -- split; [congruence|]. intros Hp. apply Hf in Hp. congruence.
        -- split; [|intros (p & [= ?] & _); congruence]. intros Hg. apply Hf in Hg as (p & Hp & _). congruence.
        -- apply Hf.
      * intros g k p r. rewrite lookup_insert. destruct (decide (f = g)); [intros [= <- <-]; done|apply Hr].
      * intros j k g Hj. destruct (Hw _ _ _ Hj) as [p Hp]. exists p. rewrite lookup_insert_ne; [done|congruence].
      * intros j k g r Hj. specialize (Ht _ _ _ _ Hj). rewrite lookup_insert_ne; [done|congruence].
    + intros k g [= <- <-]. cbn. rewrite lookup_insert_eq. eauto.
Qed.

Lemma cache_ok s now f key r :
  rt_ok s → rt_leads s !! f = Some {| fl_key := key; fl_phase := Fetched r |} → rt_ok (cacheStep s now f key r).
Proof.
  intros Hs Hf. pose proof (rt_results _ Hs _ _ _ r Hf eq_refl) as Hr. unfold cacheStep.
  assert (Hs' : rt_ok (match r with Ok v => with_lru s (LruSet (rt_entries s) now key v) | Err _ => s end)).
  { destruct r as [v|e]; [|done]. destruct (LruSet_refines _ now key v (rt_lru_ok _ Hs)) as [Hok Hv].
    apply lru_values; [done..|]. rewrite Hv. unfold spec_set. intros e He%elem_of_take.
    destruct He as (j & He & _). apply list_elem_of_lookup_2 in He. apply elem_of_cons in He as [->|He]; [done|].
    apply list_elem_of_filter in He as [_ He]. by apply (rt_values _ Hs). }
  eapply phase_ok; [done|by destruct r|done|done|]. by intros r' [= <-].
Qed.

Lemma retire_ok s f key r :
  rt_ok s → rt_leads s !! f = Some {| fl_key := key; fl_phase := Cached r |} → rt_ok (retire s f key r).
Proof.
  intros [Hl Hf Hv Hr Hw Hh Ht] Hp.
  split; cbn [retire with_phase rt_entries rt_flights rt_leads rt_callers]; try done.
  - intros k g. rewrite lookup_delete, lookup_insert. destruct (decide (key = k)) as [->|Hk], (decide (f = g)) as [->|Hg].
    + split; [done|]. by intros (p & [= <-] & ?).
    + split; [done|]. intros Hq. apply Hf in Hq. assert (rt_flights s !! k = Some f) by (apply Hf; eauto). congruence.
    + split; [|intros (p & [= ?] & ?); congruence]. intros (p & Hq & _)%Hf. congruence.
    + apply Hf.
  - intros g k p r'. rewrite lookup_insert. destruct (decide (f = g)) as [<-|]; [|apply Hr].
    intros [= <- <-] [= <-]. by eapply Hr.
  - intros j k g Hj. destruct (Hw _ _ _ Hj) as [p Hq]. rewrite lookup_insert. destruct (decide (f = g)) as [<-|]; [|eauto].
    exists (Retired r). congruence.
  - intros j k g r' Hj. specialize (Ht _ _ _ _ Hj). rewrite lookup_insert. destruct (decide (f = g)) as [<-|]; [congruence|done].
Qed.

Lemma step_ok s s' : rt_ok s → rt_step s s' → rt_ok s'.
Proof.
  intros Hs Hstep. destruct Hstep as [s i key _|s now i key _|s f i key _ Hf|s i key f r Hi Hf|s i key f Hi|
    s f key r Hf Hr|s now f key r Hf|s f key r Hf|s f key r Hf].
  - by apply caller_ok.
  - by apply lookup_ok.
  - by apply join_ok.
  - apply caller_ok; try done. intros k g r' [= <- <- <-]. destruct (rt_waits _ Hs _ _ _ Hi) as [p Hp].
    rewrite Hp in *. by injection Hf as ->.
  - by apply caller_ok.
  - eapply phase_ok; [done..|]. by intros r' [= <-].
  - by apply cache_ok.
  - by apply retire_ok.
  - eapply phase_ok; [done..|]. intros r' [= <-]. by eapply (rt_results _ Hs).
Qed.

Lemma steps_ok s s' : rt_ok s → rt_steps s s' → rt_ok s'.
Proof. intros Hs H. induction H as [|s s1 s2 _ IH Hst]; [done|]. eapply step_ok; [by apply IH|exact Hst]. Qed.

(** C33: one fetch of a key runs at a time: in any run, two flights of one key
    that callers could join are the same, and it is the one they find. *)
Theorem single_flight l n t s f g key p q :
  NewLRU n t = Some l → rt_steps (NewReadThrough l) s →
  rt_leads s !! f = Some {| fl_key := key; fl_phase := p |} → joinable p = true →
  rt_leads s !! g = Some {| fl_key := key; fl_phase := q |} → joinable q = true →
  f = g ∧ rt_flights s !! key = Some f.
Proof.
  intros Hl Hst Hf Hp Hg Hq. pose proof (steps_ok _ _ (new_ok _ _ _ Hl) Hst) as Hs.
  assert (rt_flights s !! key = Some f) by (apply (rt_flight _ Hs); eauto).
  assert (rt_flights s !! key = Some g) by (apply (rt_flight _ Hs); eauto). split; congruence.
Qed.

(** what a caller is given is what a fetch of its key answered: a hit is a
    value some fetch returned, never an error; a caller that waited has its
    flight's own result, the same for every caller that waited on it; and no
    error is ever cached. *)
Theorem callers_get_fetched l n t s :
  NewLRU n t = Some l → rt_steps (NewReadThrough l) s →
  (∀ e, e ∈ lru_view (rt_entries s) → fetches (en_key e) (Ok (en_value e))) ∧
  (∀ i key v, rt_callers s !! i = Some (Returned key (Hit v)) → fetches key (Ok v)) ∧
  (∀ i key f r, rt_callers s !! i = Some (Returned key (FromFlight f r)) → fetches key r) ∧
  (∀ i j key key' f r r', rt_callers s !! i = Some (Returned key (FromFlight f r)) →
     rt_callers s !! j = Some (Returned key' (FromFlight f r')) → key = key' ∧ r = r').
Proof.
  intros Hl Hst. pose proof (steps_ok _ _ (new_ok _ _ _ Hl) Hst) as Hs. split_and!.
  - apply (rt_values _ Hs).
  - apply (rt_hits _ Hs).
  - intros i key f r Hi. eapply (rt_results _ Hs); [by eapply (rt_returns _ Hs)|done].
  - intros i j key key' f r r' Hi Hj. apply (rt_returns _ Hs) in Hi, Hj. rewrite Hi in Hj. by injection Hj as -> ->.
Qed.

(** How far a flight is from its end. *)
Definition remaining (p : phase) : nat :=
  match p with Fetching => 4 | Fetched _ => 3 | Cached _ => 2 | Retired _ => 1 | Closed _ => 0 end.

Lemma rt_front s s' s'' : rt_step s s' → rt_steps s' s'' → rt_steps s s''.
Proof.
  intros H1 H2. induction H2 as [s'|s' s1 s2 _ IH Hst]; [eapply rt_trans; [apply rt_refl|done]|].
  eapply rt_trans; [by apply IH|done].
Qed.

Lemma flight_steps s f key p :
  rt_leads s !! f = Some {| fl_key := key; fl_phase := p |} → (∃ r, fetches key r) → remaining p ≠ 0%nat →
  ∃ s' p', rt_step s s' ∧ rt_leads s' !! f = Some {| fl_key := key; fl_phase := p' |} ∧
    rt_callers s' = rt_callers s ∧ S (remaining p') = remaining p.
Proof.
  intros Hf [r0 Hr0] Hne. destruct p as [|r|r|r|r]; [| | | |done].
  - eexists _, (Fetched r0). split; [by apply rt_fetch|]. cbn. by rewrite lookup_insert_eq.
  - eexists _, (Cached r). split; [by apply (rt_cache _ 0)|]. unfold cacheStep. cbn. rewrite lookup_insert_eq.
    by destruct r.
  - eexists _, (Retired r). split; [by apply rt_retire|]. cbn. by rewrite lookup_insert_eq.
  - eexists _, (Closed r). split; [by apply rt_close|]. cbn. by rewrite lookup_insert_eq.
Qed.

(** C39: no caller is left waiting: wherever a run stands, and whatever the
    others do or do not, the caller's flight alone can finish and give it its
    result, as long as a fetch of the key answers at all; and the caller may
    give up before it does. *)
Theorem waiting_ends l n t s i key f :
  NewLRU n t = Some l → rt_steps (NewReadThrough l) s → (∃ r, fetches key r) →
  rt_callers s !! i = Some (Waiting key f) →
  (∃ s' r, rt_steps s s' ∧ rt_callers s' !! i = Some (Returned key (FromFlight f r)) ∧
     ∀ j, j ≠ i → rt_callers s' !! j = rt_callers s !! j) ∧
  ∃ s', rt_step s s' ∧ rt_callers s' !! i = Some (Returned key GaveUp) ∧ rt_leads s' = rt_leads s.
Proof.
  intros Hl Hst Hr Hi. pose proof (steps_ok _ _ (new_ok _ _ _ Hl) Hst) as Hs.
  destruct (rt_waits _ Hs _ _ _ Hi) as [p Hp]. clear Hs Hst Hl. split.
  - remember (remaining p) as m eqn:Hm. revert s p Hi Hp Hm. induction m as [|m IH]; intros s p Hi Hp Hm.
    + destruct p as [| | | |r]; try done. exists (with_caller s i (Returned key (FromFlight f r))), r.
      split_and!; [|cbn; by rewrite lookup_insert_eq|intros j Hj; cbn; by rewrite lookup_insert_ne].
      eapply rt_trans; [apply rt_refl|]. eapply rt_receive; [done|]. by rewrite Hp.
    + destruct (flight_steps s f key p Hp Hr) as (s1 & p1 & Hs1 & Hp1 & Hc1 & Hm1); [lia|].
      destruct (IH s1 p1) as (s' & r & Hss & Hret & Hoth); [by rewrite Hc1|done|lia|].
      exists s', r. split_and!; [by eapply rt_front|done|]. intros j Hj. by rewrite Hoth, Hc1.
  - exists (with_caller s i (Returned key GaveUp)). split_and!; [by eapply rt_give_up|cbn; by rewrite lookup_insert_eq|done].
Qed.
End ReadThrough.

(** ** At a concrete input *)
Section Sample.

(** The length of a key; the empty one fails. *)
Definition sample_fetches (key : string) (r : result Z) : Prop :=
  r = if String.eqb key "" then Err (ErrorNew "no key") else Ok (Z.of_nat (String.length key)).

Abbreviation sample_lru := {| l_maxEntries := 2; l_ttl := 100; order := []; heap := ∅; l_entries := ∅; next := 0 |}.
Abbreviation state := (readThrough (K := string) (V := Z)).

(** Two callers of one key: the second joins the first one's flight. *)
Definition joined : state :=
  let s := with_caller (NewReadThrough sample_lru) 0 (Calling "web") in
  let s := lookupStep s 5 0 "web" in
  let s := join s 0 0 "web" in
  let s := with_caller s 1 (Calling "web") in
  let s := lookupStep s 6 1 "web" in
  join s 1 1 "web".

Lemma joined_run : rt_steps sample_fetches (NewReadThrough sample_lru) joined.
Proof.
  unfold joined. eapply rt_trans; [eapply rt_trans; [eapply rt_trans; [eapply rt_trans; [eapply rt_trans;
    [eapply rt_trans; [apply rt_refl|]|]|]|]|]|].
  - apply rt_call. by_running.
  - apply rt_lookup. by_running.
  - apply rt_join; by_running.
  - apply rt_call. by_running.
  - apply rt_lookup. by_running.
  - apply rt_join; by_running.
Qed.

Lemma single_flight_witness :
  rt_callers joined !! 0%nat = Some (Waiting "web" 0) ∧ rt_callers joined !! 1%nat = Some (Waiting "web" 0) ∧
  rt_flights joined !! "web" = Some 0%nat.
Proof.
  split; [by_running|]. split; [by_running|].
  destruct (single_flight sample_fetches sample_lru 2 100 joined 0 0 "web" Fetching Fetching) as [_ H];
    [by_running|exact joined_run|by_running..|exact H].
Defined.

Lemma waiting_ends_witness :
  ∃ s' r, rt_steps sample_fetches joined s' ∧ rt_callers s' !! 1%nat = Some (Returned "web" (FromFlight 0 r)).
Proof.
  destruct (waiting_ends sample_fetches sample_lru 2 100 joined 1 "web" 0) as [(s' & r & H1 & H2 & _) _].
  - by_running.
  - exact joined_run.
  - by exists (Ok 3).
  - by_running.
  - by exists s', r.
Defined.

Lemma callers_get_fetched_witness :
  (∀ i key v, rt_callers joined !! i = Some (Returned key (Hit v)) → sample_fetches key (Ok v)) ∧
  (∀ i key f r, rt_callers joined !! i = Some (Returned key (FromFlight f r)) → sample_fetches key r).
Proof.
  destruct (callers_get_fetched sample_fetches sample_lru 2 100 joined) as (_ & H2 & H3 & _);
    [by_running|exact joined_run|by split].
Defined.
End Sample.
