(* ===== verification/Governance.v ===== *)
(** * Who governs a pod ([internal/governance])

    [policies.go]: the Policies with their compiled selectors, and how one
    consents to a subject. [governance.go]: the walk from a pod template to its
    workload to its Namespace. The walk's state is threaded through; [w_reads]
    records the calls it makes of its [Reader]. *)

From S2P Require Import Prelude GoLang Quantity Kube PolicyApi Owners Shards.
Local Open Scope Z_scope.

Inductive Level := LevelNone | LevelPodTemplate | LevelWorkload | LevelNamespace.

(** [Refusal]; the empty string is [None]. *)
Inductive Refusal :=
  | NoOwner | NoPolicySelects | NotOptedIn | OptedOut | PolicyMissing | NamespaceExcluded
  | NamespaceNotSelected | SelectorInvalid | LabelsNotSelected | KindNotManaged.

#[export] Instance Level_eq_dec : EqDecision Level.
Proof. solve_decision. Defined.
#[export] Instance Refusal_eq_dec : EqDecision Refusal.
Proof. solve_decision. Defined.

(** The reads a walk makes of its [Reader]. *)
Inductive read := ReadPolicies | ReadPodOwner | ReadWorkload | ReadNamespace.

#[export] Instance read_eq_dec : EqDecision read.
Proof. solve_decision. Defined.

Section Governance.
Context {QO : QuantityOps} {KO : KubeOps}.

(** ** Policies *)

Record compiled := {
  c_policy : Policy;
  c_selector : option Selector;
  c_invalid : bool;
}.

Record Policies := {
  byName : gmap string compiled;
  excluded : list string;
}.

(** What [index] compiles of one Policy. *)
Definition compile (p : Policy) : compiled :=
  match sel_LabelSelector (pol_Selector p) with
  | None => {| c_policy := p; c_selector := None; c_invalid := false |}
  | Some ls =>
      match LabelSelectorAsSelector ls with
      | Ok sel => {| c_policy := p; c_selector := Some sel; c_invalid := false |}
      | Err _ => {| c_policy := p; c_selector := None; c_invalid := true |}
      end
  end.

(** Reused when its UID and its non-empty resourceVersion are unchanged. *)
Definition indexOne (prev : gmap string compiled) (m : gmap string compiled) (p : Policy) :
    gmap string compiled :=
  match prev !! pol_Name p with
  | Some c =>
      if negb (String.eqb (pol_ResourceVersion p) "") &&
         String.eqb (pol_UID (c_policy c)) (pol_UID p) &&
         String.eqb (pol_ResourceVersion (c_policy c)) (pol_ResourceVersion p)
      then <[pol_Name p := c]> m
      else <[pol_Name p := compile p]> m
  | None => <[pol_Name p := compile p]> m
  end.

Definition index_policies (items : list Policy) (excl : list string) (prev : gmap string compiled) :
    Policies :=
  {| byName := foldl (indexOne prev) ∅ items; excluded := excl |}.

Record PolicyLister := {
  pl_excluded : list string;
  pl_built : bool;
  pl_last : gmap string compiled;
}.

Definition ErrNoPolicyLister : error := Sentinel "ErrNoPolicyLister".

Definition NewPolicyLister (excludedNamespaces : list string) : PolicyLister :=
  {| pl_excluded := excludedNamespaces; pl_built := true; pl_last := ∅ |}.

(** [r] is what listing the Policies answers. *)
Definition List_policies (l : PolicyLister) (r : result (list Policy)) : result Policies * PolicyLister :=
  if negb (pl_built l) then (Err ErrNoPolicyLister, l)
  else
    match r with
    | Err e => (Err (Errorf "listing policies" [e]), l)
    | Ok items =>
        let ps := index_policies items (pl_excluded l) (pl_last l) in
        (Ok ps, {| pl_excluded := pl_excluded l; pl_built := pl_built l; pl_last := byName ps |})
    end.

Definition namespaceRefusal (ps : Policies) (c : compiled) (namespace : string) : option Refusal :=
  let allowed := Namespaces (pol_Selector (c_policy c)) in
  if contains namespace (excluded ps) then Some NamespaceExcluded
  else if bool_decide (allowed ≠ []) && negb (contains namespace allowed) then Some NamespaceNotSelected
  else None.

Definition labelRefusal (c : compiled) (podLabels : strmap) : option Refusal :=
  if c_invalid c then Some SelectorInvalid
  else match c_selector c with
       | Some sel => if negb (Matches sel podLabels) then Some LabelsNotSelected else None
       | None => None
       end.

(** A value or why not. *)
Definition consenting (A : Type) : Type := A + Refusal.

Definition namespaceConsent (ps : Policies) (name namespace : string) : consenting compiled :=
  match byName ps !! name with
  | None => inr PolicyMissing
  | Some c => match namespaceRefusal ps c namespace with Some r => inr r | None => inl c end
  end.

Definition consent (ps : Policies) (name namespace : string) (podLabels : strmap) : consenting Policy :=
  match namespaceConsent ps name namespace with
  | inr r => inr r
  | inl c => match labelRefusal c podLabels with Some r => inr r | None => inl (c_policy c) end
  end.

Definition departedConsent (ps : Policies) (name namespace : string) : consenting Policy :=
  match namespaceConsent ps name namespace with
  | inr r => inr r
  | inl c => if c_invalid c then inr SelectorInvalid else inl (c_policy c)
  end.

Definition gateRefusal (ps : Policies) (namespace : string) (podLabels : strmap) : option Refusal :=
  if contains namespace (excluded ps) then Some NamespaceExcluded
  else if existsb (λ p, bool_decide (namespaceRefusal ps p.2 namespace = None) &&
                        negb (bool_decide (labelRefusal p.2 podLabels = Some LabelsNotSelected)))
            (map_to_list (byName ps))
  then None
  else Some NoPolicySelects.

(** ** Subjects and decisions *)

Record workloadMeta := { wm_kind : string; wm_name : string; wm_annotations : strmap }.
Record departure := { dp_identity : WorkloadIdentity; dp_policy : string }.

(** What of a subject is set: exactly one of a pod, a workload, a departure. *)
Inductive subjectOf :=
  | OfPod (pod : Pod)
  | OfWorkload (w : workloadMeta)
  | OfDeparted (d : departure).

Record Subject := {
  su_namespace : string;
  su_labels : strmap;
  su_annotations : strmap;
  su_of : subjectOf;
}.

Definition SubjectPodTemplate (namespace kind name : string) (annotations tmplLabels tmplAnnotations : strmap) :
    Subject :=
  {| su_namespace := namespace; su_labels := tmplLabels; su_annotations := tmplAnnotations;
     su_of := OfWorkload {| wm_kind := kind; wm_name := name; wm_annotations := annotations |} |}.

Definition SubjectPod (pod : Pod) : Subject :=
  {| su_namespace := pod_Namespace pod; su_labels := pod_Labels pod;
     su_annotations := pod_Annotations pod; su_of := OfPod pod |}.

Definition SubjectDeparted (id : WorkloadIdentity) (policy : string) : Subject :=
  {| su_namespace := id_Namespace id; su_labels := ∅; su_annotations := ∅;
     su_of := OfDeparted {| dp_identity := id; dp_policy := policy |} |}.

Record Decision := {
  d_Identity : WorkloadIdentity;
  d_OptIn : string;
  d_Level : Level;
  d_Policy : option Policy;
  d_Mode : option UpdateMode;
  d_Refusal : option Refusal;
}.

Definition noIdentity : WorkloadIdentity := Identity "" "" "".

(** [Decision{}] *)
Definition noDecision : Decision :=
  {| d_Identity := noIdentity; d_OptIn := ""; d_Level := LevelNone; d_Policy := None;
     d_Mode := None; d_Refusal := None |}.

Definition Governed (d : Decision) : bool := match d_Policy d with Some _ => true | None => false end.
Definition PolicyName (d : Decision) : string :=
  match d_Policy d with Some p => pol_Name p | None => "" end.

Definition refused (d : Decision) (r : Refusal) : Decision :=
  {| d_Identity := d_Identity d; d_OptIn := d_OptIn d; d_Level := d_Level d;
     d_Policy := d_Policy d; d_Mode := d_Mode d; d_Refusal := Some r |}.

Definition with_identity (d : Decision) (id : WorkloadIdentity) : Decision :=
  {| d_Identity := id; d_OptIn := d_OptIn d; d_Level := d_Level d;
     d_Policy := d_Policy d; d_Mode := d_Mode d; d_Refusal := d_Refusal d |}.

Definition managedBy (d : Decision) (p : Policy) (kind : string) : Decision :=
  match ModeForKind (Types (rs_Update (pol_RightSizing p))) kind with
  | None => refused d KindNotManaged
  | Some mode =>
      {| d_Identity := d_Identity d; d_OptIn := d_OptIn d; d_Level := d_Level d;
         d_Policy := Some p; d_Mode := Some mode; d_Refusal := d_Refusal d |}
  end.

(** ** The walk *)

Record Reader := {
  rd_Policies : result Policies;
  rd_PodOwner : Pod → result (string * string);
  rd_WorkloadAnnotations : string → string → string → result strmap;
  rd_NamespaceAnnotations : string → result strmap;
}.

Record walk := {
  w_policies : option Policies;
  w_gated : bool;
  w_ownerKnown : bool;
  w_ownerKind : string;
  w_ownerName : string;
  w_reads : list read;
}.

Definition startWalk : walk :=
  {| w_policies := None; w_gated := false; w_ownerKnown := false; w_ownerKind := "";
     w_ownerName := ""; w_reads := [] |}.

Definition reading (w : walk) (e : read) : walk :=
  {| w_policies := w_policies w; w_gated := w_gated w; w_ownerKnown := w_ownerKnown w;
     w_ownerKind := w_ownerKind w; w_ownerName := w_ownerName w; w_reads := w_reads w ++ [e] |}.

Definition with_policies (w : walk) (ps : Policies) : walk :=
  {| w_policies := Some ps; w_gated := w_gated w; w_ownerKnown := w_ownerKnown w;
     w_ownerKind := w_ownerKind w; w_ownerName := w_ownerName w; w_reads := w_reads w |}.

Definition with_gated (w : walk) : walk :=
  {| w_policies := w_policies w; w_gated := true; w_ownerKnown := w_ownerKnown w;
     w_ownerKind := w_ownerKind w; w_ownerName := w_ownerName w; w_reads := w_reads w |}.

Definition with_owner (w : walk) (kind name : string) : walk :=
  {| w_policies := w_policies w; w_gated := w_gated w; w_ownerKnown := true;
     w_ownerKind := kind; w_ownerName := name; w_reads := w_reads w |}.

(** A step of the walk: an answer or an error, and the walk after it. *)
Definition step (A : Type) : Type := walk → result A * walk.

Definition ret {A} (a : A) : step A := λ w, (Ok a, w).
Definition bind {A B} (m : step A) (k : A → step B) : step B := λ w,
  match m w with (Ok a, w') => k a w' | (Err e, w') => (Err e, w') end.

Context (s : Subject) (r : Reader).

Definition identity (w : walk) : WorkloadIdentity :=
  let '(kind, name) := ApplyOwnerNameOverride (w_ownerKind w) (w_ownerName w) (su_annotations s) in
  Identity (su_namespace s) kind name.

Definition readPolicies : step Policies := λ w,
  match w_policies w with
  | Some ps => (Ok ps, w)
  | None =>
      match rd_Policies r with
      | Err e => (Err e, reading w ReadPolicies)
      | Ok ps => (Ok ps, with_policies (reading w ReadPolicies) ps)
      end
  end.

(** Called only for a pod: an owner is known of anything else. *)
Definition readOwner : step unit := λ w,
  if w_ownerKnown w then (Ok tt, w)
  else
    match su_of s with
    | OfPod pod =>
        match rd_PodOwner r pod with
        | Err e => (Err e, reading w ReadPodOwner)
        | Ok (kind, name) => (Ok tt, with_owner (reading w ReadPodOwner) kind name)
        end
    | _ => (Ok tt, w)
    end.

Definition gate : step (option Refusal) := λ w,
  if w_gated w then (Ok None, w)
  else
    bind readPolicies (λ ps w, (Ok (gateRefusal ps (su_namespace s) (su_labels s)), with_gated w)) w.

(** A level's annotations, or the refusal its gate gave. *)
Definition level_read : Type := step (strmap + Refusal).

Definition workloadAnnotations : level_read := λ w,
  match su_of s with
  | OfWorkload wm => (Ok (inl (wm_annotations wm)), w)
  | _ =>
      if w_ownerKnown w && String.eqb (w_ownerKind w) "" then (Ok (inl ∅), w)
      else
        bind gate (λ refusal,
          match refusal with
          | Some x => ret (inr x)
          | None =>
              bind readOwner (λ _ w,
                match rd_WorkloadAnnotations r (su_namespace s) (w_ownerKind w) (w_ownerName w) with
                | Ok ann => (Ok (inl ann), reading w ReadWorkload)
                | Err e => (Err e, reading w ReadWorkload)
                end)
          end) w
  end.

Definition namespaceAnnotations : level_read :=
  bind gate (λ refusal,
    match refusal with
    | Some x => ret (inr x)
    | None => λ w,
        match rd_NamespaceAnnotations r (su_namespace s) with
        | Ok ann => (Ok (inl ann), reading w ReadNamespace)
        | Err e => (Err e, reading w ReadNamespace)
        end
    end).

(** What one level's annotations decide: an opt out, a Policy, or nothing. *)
Definition level_decision (ann : strmap) : option (string + Refusal) :=
  if String.eqb (index ann OptOutAnnotation) "true" then Some (inr OptedOut)
  else
    let name := index ann PolicyAnnotation in
    if negb (String.eqb name "") then Some (inl name) else None.

Fixpoint optInFrom (levels : list (Level * level_read)) : step ((string * Level) + Refusal) :=
  match levels with
  | [] => ret (inr NotOptedIn)
  | (level, read_level) :: levels' =>
      bind read_level (λ a,
        match a with
        | inr refusal => ret (inr refusal)
        | inl ann =>
            match level_decision ann with
            | Some (inr refusal) => ret (inr refusal)
            | Some (inl name) => ret (inl (name, level))
            | None => optInFrom levels'
            end
        end)
  end.

Definition optIn : step ((string * Level) + Refusal) :=
  optInFrom [(LevelPodTemplate, ret (inl (su_annotations s)));
             (LevelWorkload, workloadAnnotations);
             (LevelNamespace, namespaceAnnotations)].

Definition decide_walk : step Decision :=
  bind optIn (λ o,
    match o with
    | inr refusal => ret (refused noDecision refusal)
    | inl (name, level) =>
        let d := {| d_Identity := noIdentity; d_OptIn := name; d_Level := level;
                    d_Policy := None; d_Mode := None; d_Refusal := None |} in
        bind readPolicies (λ ps,
          match consent ps name (su_namespace s) (su_labels s) with
          | inr refusal => ret (refused d refusal)
          | inl p => bind readOwner (λ _ w, (Ok (managedBy d p (id_OwnerKind (identity w))), w))
          end)
    end).

Definition departedDecision (dp : departure) : step Decision :=
  let d := with_identity noDecision (dp_identity dp) in
  bind readPolicies (λ ps,
    match departedConsent ps (dp_policy dp) (su_namespace s) with
    | inr refusal => ret (refused d refusal)
    | inl p => ret (managedBy d p (id_OwnerKind (dp_identity dp)))
    end).

(** The decision, with the walk that made it. *)
Definition DecideWalk : result Decision * walk :=
  let finish (w : walk) : result Decision * walk :=
    match decide_walk w with
    | (Err e, w) => (Err e, w)
    | (Ok d, w) => (Ok (if w_ownerKnown w then with_identity d (identity w) else d), w)
    end in
  match su_of s with
  | OfDeparted dp => departedDecision dp startWalk
  | OfWorkload wm => finish (with_owner startWalk (wm_kind wm) (wm_name wm))
  | OfPod pod =>
      match GetControllerOf (pod_OwnerReferences pod) with
      | None =>
          let w := with_owner startWalk "" "" in
          if String.eqb (id_OwnerKind (identity w)) "" then (Ok (refused noDecision NoOwner), w)
          else finish w
      | Some _ => finish startWalk
      end
  end.

Definition Decide : result Decision := fst DecideWalk.
End Governance.

(** ** Consent *)
Section Consent.
Context {QO : QuantityOps} {KO : KubeOps}.
Implicit Types (ps : Policies) (c : compiled).

(** What it takes for a Policy to consent to a namespace. *)
Lemma namespaceConsent_inl ps name namespace c :
  namespaceConsent ps name namespace = inl c ↔
  byName ps !! name = Some c ∧ (namespace ∉ excluded ps) ∧
  (Namespaces (pol_Selector (c_policy c)) = [] ∨ namespace ∈ Namespaces (pol_Selector (c_policy c))).
Proof.
  unfold namespaceConsent, namespaceRefusal, contains.
  destruct (byName ps !! name) as [c'|]; [|by split; [|intros (? & _)]].
  destruct (bool_decide_reflect (namespace ∈ excluded ps));
    [by split; [|intros (_ & ? & _)]|].
  destruct (bool_decide_reflect (Namespaces (pol_Selector (c_policy c')) ≠ [])) as [Hne|He%dec_stable];
    destruct (bool_decide_reflect (namespace ∈ Namespaces (pol_Selector (c_policy c')))); cbn [negb andb].
  1,3,4: split; [intros [= <-]|intros ([= <-] & _)]; auto.
  split; [done|]. by intros ([= <-] & _ & [?|?]).
Qed.

(** The pre-gate is sound: it refuses only what every Policy refuses. *)
Lemma gate_sound ps namespace labels name refusal :
  gateRefusal ps namespace labels = Some refusal →
  ∃ refusal', consent ps name namespace labels = inr refusal'.
Proof.
  intros Hg. unfold consent.
  destruct (namespaceConsent ps name namespace) as [c|x] eqn:Hc; [|eauto].
  pose proof Hc as Hc'. apply namespaceConsent_inl in Hc' as (Hn & Hex & _).
  destruct (labelRefusal c labels) as [x|] eqn:Hl; [eauto|]. exfalso.
  unfold gateRefusal, contains in Hg. rewrite bool_decide_false in Hg by done.
  assert (namespaceRefusal ps c namespace = None) as Hnr.
  { unfold namespaceConsent in Hc. rewrite Hn in Hc. by destruct (namespaceRefusal _ _ _). }
  destruct (existsb _ _) eqn:E; [done|].
  apply not_true_iff_false in E. apply E. apply existsb_exists_elem.
  exists (name, c). split; [by apply elem_of_map_to_list|]. cbn [snd].
  by rewrite Hnr, Hl.
Qed.

(** A Policy that would refuse for its selector alone is past the gate: the
    walk reads on, to refuse it for that. *)
Lemma gate_passes_invalid ps name namespace labels c :
  namespaceConsent ps name namespace = inl c → c_invalid c = true →
  gateRefusal ps namespace labels = None.
Proof.
  intros Hc Hi. pose proof Hc as Hc'. apply namespaceConsent_inl in Hc' as (Hn & Hex & _).
  unfold gateRefusal, contains. rewrite bool_decide_false by done.
  assert (namespaceRefusal ps c namespace = None) as Hnr.
  { unfold namespaceConsent in Hc. rewrite Hn in Hc. by destruct (namespaceRefusal _ _ _). }
  assert (Hl : labelRefusal c labels = Some SelectorInvalid) by (unfold labelRefusal; by rewrite Hi).
  destruct (existsb _ _) eqn:E; [done|]. apply not_true_iff_false in E. destruct E.
  apply existsb_exists_elem. exists (name, c). split; [by apply elem_of_map_to_list|].
  cbn [snd]. by rewrite Hnr, Hl.
Qed.

(** ** Reusing compiled selectors *)

(** What a version of a Policy stands for: two Policies of one UID and one
    non-empty resourceVersion are the same. *)
Definition versions_agree (prev : gmap string compiled) (items : list Policy) : Prop :=
  ∀ n c p, prev !! n = Some c → p ∈ items →
    c = compile (c_policy c) ∧
    (pol_UID (c_policy c) = pol_UID p → pol_ResourceVersion (c_policy c) = pol_ResourceVersion p →
     pol_ResourceVersion p ≠ "" → c_policy c = p).

Lemma index_reuse prev items excl :
  versions_agree prev items → index_policies items excl prev = index_policies items excl ∅.
Proof.
  intros Hv. unfold index_policies. f_equal.
  assert (H : ∀ m, foldl (indexOne prev) m items = foldl (indexOne ∅) m items); [|apply H].
  assert (Hv' : ∀ p, p ∈ items → ∀ n c, prev !! n = Some c → c = compile (c_policy c) ∧
    (pol_UID (c_policy c) = pol_UID p → pol_ResourceVersion (c_policy c) = pol_ResourceVersion p →
     pol_ResourceVersion p ≠ "" → c_policy c = p)) by exact (λ p Hp n c Hn, Hv n c p Hn Hp). clear Hv.
  induction items as [|p items IH]; intros m; [done|]. cbn [foldl].
  rewrite IH by (intros p' Hp'; apply Hv'; by right). f_equal.
  unfold indexOne. rewrite lookup_empty.
  destruct (prev !! pol_Name p) as [c|] eqn:E; [|done].
  destruct (_ && _) eqn:Hb; [|done]. bool_props.
  destruct (Hv' p ltac:(by left) _ _ E) as [Hc Hp].
  rewrite Hc, Hp; [done|by apply String.eqb_eq|by apply String.eqb_eq|by apply String.eqb_neq].
Qed.
End Consent.

(** ** The walk *)
Section Walk.
Context {QO : QuantityOps} {KO : KubeOps} (s : Subject) (r : Reader).
Implicit Types (w : walk).

(** *** What governs a subject *)

(** The real owner: the workload itself, the pod's resolved controller, or none
    for a pod without one. *)
Definition owner_is (kind name : string) : Prop :=
  match su_of s with
  | OfWorkload wm => kind = wm_kind wm ∧ name = wm_name wm
  | OfPod pod =>
      match GetControllerOf (pod_OwnerReferences pod) with
      | None => kind = "" ∧ name = ""
      | Some _ => rd_PodOwner r pod = Ok (kind, name)
      end
  | OfDeparted _ => False
  end.

(** The annotations of the workload level; a pod of its own has none. *)
Definition workload_level (ann : strmap) : Prop :=
  match su_of s with
  | OfWorkload wm => ann = wm_annotations wm
  | OfPod pod =>
      match GetControllerOf (pod_OwnerReferences pod) with
      | None => ann = ∅
      | Some _ => ∃ kind name, rd_PodOwner r pod = Ok (kind, name) ∧
          rd_WorkloadAnnotations r (su_namespace s) kind name = Ok ann
      end
  | OfDeparted _ => False
  end.

(** The Policy named by the most specific level that decides. *)
Definition opted_name (name : string) : Prop :=
  level_decision (su_annotations s) = Some (inl name) ∨
  level_decision (su_annotations s) = None ∧ ∃ ann, workload_level ann ∧
    (level_decision ann = Some (inl name) ∨
     level_decision ann = None ∧ ∃ an, rd_NamespaceAnnotations r (su_namespace s) = Ok an ∧
       level_decision an = Some (inl name)).

(** The Policy governs the subject in the mode: it exists, consents to its
    namespace and labels, and manages the kind of its identity. *)
Definition governs (p : Policy) (m : UpdateMode) : Prop :=
  match su_of s with
  | OfDeparted dp =>
      ∃ ps, rd_Policies r = Ok ps ∧ departedConsent ps (dp_policy dp) (su_namespace s) = inl p ∧
        ModeForKind (Types (rs_Update (pol_RightSizing p))) (id_OwnerKind (dp_identity dp)) = Some m
  | _ =>
      ∃ name ps kind oname, opted_name name ∧ rd_Policies r = Ok ps ∧
        consent ps name (su_namespace s) (su_labels s) = inl p ∧ owner_is kind oname ∧
        ModeForKind (Types (rs_Update (pol_RightSizing p)))
          (fst (ApplyOwnerNameOverride kind oname (su_annotations s))) = Some m
  end.

Lemma owner_is_unique k1 n1 k2 n2 : owner_is k1 n1 → owner_is k2 n2 → k1 = k2 ∧ n1 = n2.
Proof.
  unfold owner_is. destruct (su_of s) as [pod|wm|dp]; [|by intros [-> ->] [-> ->]|done].
  destruct (GetControllerOf _); [|by intros [-> ->] [-> ->]].
  intros H1 H2. rewrite H1 in H2. by injection H2.
Qed.

Lemma workload_level_unique a1 a2 : workload_level a1 → workload_level a2 → a1 = a2.
Proof.
  unfold workload_level. destruct (su_of s) as [pod|wm|dp]; [|by intros -> ->|done].
  destruct (GetControllerOf _); [|by intros -> ->].
  intros (k1 & n1 & H1 & A1) (k2 & n2 & H2 & A2).
  rewrite H1 in H2. injection H2 as <- <-. rewrite A1 in A2. by injection A2.
Qed.

Lemma opted_name_unique n1 n2 : opted_name n1 → opted_name n2 → n1 = n2.
Proof.
  intros [H1|(E1 & a1 & A1 & H1)] [H2|(E2 & a2 & A2 & H2)]; try congruence.
  rewrite (workload_level_unique _ _ A2 A1) in H2.
  destruct H1 as [H1|(E3 & an1 & N1 & H1)], H2 as [H2|(E4 & an2 & N2 & H2)]; congruence.
Qed.

(** *** Rules for steps *)

(** The errors the reads of a subject give. *)
Definition read_failed (e : error) : Prop :=
  rd_Policies r = Err e ∨ (∃ pod, su_of s = OfPod pod ∧ rd_PodOwner r pod = Err e) ∨
  (∃ kind name, rd_WorkloadAnnotations r (su_namespace s) kind name = Err e) ∨
  rd_NamespaceAnnotations r (su_namespace s) = Err e.

(** The walk holds what the reads answered, having made each once at most and
    none but those of [made]. *)
Record walk_ok (made : list read) w : Prop := {
  ok_policies ps : w_policies w = Some ps → rd_Policies r = Ok ps;
  ok_unread : w_policies w = None → ReadPolicies ∉ w_reads w;
  ok_owner : w_ownerKnown w = true → owner_is (w_ownerKind w) (w_ownerName w);
  ok_unowned : w_ownerKnown w = false →
    (∃ pod c, su_of s = OfPod pod ∧ GetControllerOf (pod_OwnerReferences pod) = Some c) ∧
    ReadPodOwner ∉ w_reads w;
  ok_resolved pod c : su_of s = OfPod pod → GetControllerOf (pod_OwnerReferences pod) = Some c →
    w_ownerKnown w = true → ReadPodOwner ∈ w_reads w;
  ok_once : NoDup (w_reads w);
  ok_made x : x ∈ w_reads w → x ∈ made;
}.

(** From a walk within [made], [m] ends in [Q] or fails as a read did. *)
Definition runs {A} (made : list read) (m : step A) (Q : A → walk → Prop) : Prop :=
  ∀ w, walk_ok made w →
    match m w with
    | (Ok a, w') => Q a w'
    | (Err e, w') => read_failed e ∧ NoDup (w_reads w')
    end.

Lemma runs_bind {A B} made made' (m : step A) (k : A → step B) R Q :
  runs made m (λ a w, walk_ok made' w ∧ R a) → (∀ a, R a → runs made' (k a) Q) →
  runs made (bind m k) Q.
Proof.
  intros Hm Hk w Hw. specialize (Hm w Hw). unfold bind.
  destruct (m w) as [[a|e] w']; [|done]. destruct Hm as [Hw' Ha]. by apply (Hk a Ha).
Qed.

Lemma runs_ret {A} made (a : A) (Q : A → walk → Prop) :
  (∀ w, walk_ok made w → Q a w) → runs made (ret a) Q.
Proof. intros H w Hw. by apply H. Qed.

Lemma walk_ok_weaken made made' w : walk_ok made w → made ⊆ made' → walk_ok made' w.
Proof. intros [] Hsub. split; try done. intros x Hx. by apply Hsub, ok_made0. Qed.

Lemma NoDup_reading w x : NoDup (w_reads w) → x ∉ w_reads w → NoDup (w_reads (reading w x)).
Proof.
  intros Hn Hx. cbn. apply NoDup_app. split_and!; [done| |apply NoDup_singleton].
  by intros y Hy ->%list_elem_of_singleton.
Qed.

Lemma readPolicies_runs made :
  ReadPolicies ∈ made →
  runs made (readPolicies r) (λ ps w, walk_ok made w ∧ rd_Policies r = Ok ps).
Proof.
  intros Hin w [Hp Hf Ho Hu Hc Hn Hm]. unfold readPolicies.
  destruct (w_policies w) as [ps|] eqn:E.
  { split; [by split; rewrite ?E|by apply Hp]. }
  assert (Hn' : NoDup (w_reads (reading w ReadPolicies))) by (apply NoDup_reading; [done|by apply Hf]).
  destruct (rd_Policies r) as [ps|e] eqn:Ep; [|by split; [left|]].
  split; [|done]. split; cbn; try done.
  - by intros ? [= <-].
  - intros H. destruct (Hu H) as [? Hro]. split; [done|].
    by intros [?| ?%list_elem_of_singleton]%elem_of_app.
  - intros pod c Hs Hctl Hk. apply elem_of_app. left. by apply (Hc pod c).
  - intros x [?| ->%list_elem_of_singleton]%elem_of_app; [by apply Hm|done].
Qed.

(** Once known, the owner stays the subject's. *)
Lemma readOwner_runs made :
  ReadPodOwner ∈ made →
  runs made (readOwner s r) (λ _ w, walk_ok made w ∧ w_ownerKnown w = true).
Proof.
  intros Hin w [Hp Hf Ho Hu Hc Hn Hm]. unfold readOwner.
  destruct (w_ownerKnown w) eqn:E.
  { split; [|done]. split; rewrite ?E; done. }
  destruct (Hu eq_refl) as ((pod & c & Hs & Hctl) & Hrd). rewrite Hs.
  pose proof (NoDup_reading _ _ Hn Hrd) as Hn'.
  destruct (rd_PodOwner r pod) as [[kind name]|e] eqn:Eo; [|by split; [right; left; eauto|]].
  split; [|done]. split; cbn; try done.
  - intros H. intros [?| ?%list_elem_of_singleton]%elem_of_app; [by apply (Hf H)|done].
  - intros _. unfold owner_is. by rewrite Hs, Hctl.
  - intros ? ? _ _ _. apply elem_of_app. right. by left.
  - intros x [?| ->%list_elem_of_singleton]%elem_of_app; [by apply Hm|done].
Qed.

(** What the gate answers: nothing, or a refusal that settles the subject. *)
Definition gate_answer (o : option Refusal) : Prop :=
  match o with
  | Some x => ∃ ps, rd_Policies r = Ok ps ∧ gateRefusal ps (su_namespace s) (su_labels s) = Some x
  | None => True
  end.

Lemma gate_runs made :
  ReadPolicies ∈ made →
  runs made (gate s r) (λ o w, walk_ok made w ∧ gate_answer o).
Proof.
  intros Hin w Hw. unfold gate. destruct (w_gated w); [by split|]. revert w Hw.
  apply (runs_bind made made _ _ (λ ps, rd_Policies r = Ok ps)); [by apply readPolicies_runs|].
  intros ps Hps w []. split; [by split|].
  destruct (gateRefusal _ _ _) eqn:E; [|done]. by exists ps.
Qed.

(** A read of its own: what [ok] makes of it, made once. *)
Lemma walk_ok_reading made w x :
  x ∉ made → x ≠ ReadPolicies → x ≠ ReadPodOwner →
  walk_ok made w → walk_ok (made ++ [x]) (reading w x).
Proof.
  intros Hx H1 H2 [Hp Hf Ho Hu Hc Hn Hm]. split; cbn; try done.
  - intros H [?| E%list_elem_of_singleton]%elem_of_app; [by apply (Hf H)|done].
  - intros H. destruct (Hu H) as [? Hro]. split; [done|].
    by intros [?| ?%list_elem_of_singleton]%elem_of_app.
  - intros pod c Hs Hctl Hk. apply elem_of_app. left. by apply (Hc pod c).
  - apply (NoDup_reading w x); [done|]. intros Hin. by apply Hx, Hm.
  - intros y [?| ->%list_elem_of_singleton]%elem_of_app; apply elem_of_app; [left; by apply Hm|right].
    by left.
Qed.

(** The reads of the workload level of a pod. *)
Definition upto_owner : list read := [ReadPolicies; ReadPodOwner].
Definition upto_workload : list read := [ReadPolicies; ReadPodOwner; ReadWorkload].
Definition all_reads : list read := [ReadPolicies; ReadPodOwner; ReadWorkload; ReadNamespace].

Lemma pod_level_runs pod c :
  su_of s = OfPod pod → GetControllerOf (pod_OwnerReferences pod) = Some c →
  runs upto_owner
    (bind (gate s r) (λ refusal,
       match refusal with
       | Some x => ret (inr x)
       | None =>
           bind (readOwner s r) (λ _ w,
             match rd_WorkloadAnnotations r (su_namespace s) (w_ownerKind w) (w_ownerName w) with
             | Ok ann => (Ok (inl ann), reading w ReadWorkload)
             | Err e => (Err e, reading w ReadWorkload)
             end)
       end))
    (λ a w, walk_ok upto_workload w ∧
       match a with inl ann => workload_level ann | inr x => gate_answer (Some x) end).
Proof.
  intros Es Hctl. eapply runs_bind; [apply gate_runs; by left|].
  intros [x|] Hx.
  { apply runs_ret. intros w Hw. split; [|done]. apply (walk_ok_weaken _ _ _ Hw). set_solver. }
  intros w Hw. unfold bind.
  pose proof (readOwner_runs upto_owner ltac:(by right; left) w Hw) as Ho.
  destruct (readOwner s r w) as [[[]|e] w']; [|done]. destruct Ho as [Hw' Hk].
  assert (Hn : ReadWorkload ∉ upto_owner) by set_solver.
  pose proof (walk_ok_reading _ _ _ Hn ltac:(done) ltac:(done) Hw') as Hok.
  pose proof (ok_owner _ _ Hw' Hk) as Hown. unfold owner_is in Hown. rewrite Es, Hctl in Hown.
  destruct (rd_WorkloadAnnotations _ _ _ _) as [ann|e] eqn:E.
  - split; [done|]. unfold workload_level. rewrite Es, Hctl. eauto.
  - split; [right; right; left; eauto|]. by apply ok_once in Hok.
Qed.

Lemma workloadAnnotations_runs :
  (∀ dp, su_of s ≠ OfDeparted dp) →
  runs [] (workloadAnnotations s r)
    (λ a w, walk_ok upto_workload w ∧
       match a with inl ann => workload_level ann | inr x => gate_answer (Some x) end).
Proof.
  intros Hdep w Hw.
  assert (Hweak : walk_ok upto_workload w) by (apply (walk_ok_weaken _ _ _ Hw); set_solver).
  unfold workloadAnnotations.
  destruct (su_of s) as [pod|wm|dp] eqn:Es;
    [|split; [done|]; unfold workload_level; by rewrite Es|by destruct (Hdep dp)].
  pose proof (ok_owner _ _ Hw) as Ho. unfold owner_is in Ho. rewrite Es in Ho.
  destruct (GetControllerOf (pod_OwnerReferences pod)) as [c|] eqn:Ec.
  - destruct (w_ownerKnown w) eqn:Ek.
    { by destruct (not_elem_of_nil ReadPodOwner (ok_made _ _ Hw _ (ok_resolved _ _ Hw _ _ Es Ec Ek))). }
    apply (pod_level_runs pod c Es Ec w). apply (walk_ok_weaken _ _ _ Hw). set_solver.
  - destruct (w_ownerKnown w) eqn:Ek.
    + destruct (Ho eq_refl) as [-> _]. cbn. split; [done|]. unfold workload_level. by rewrite Es, Ec.
    + destruct (ok_unowned _ _ Hw Ek) as ((pod' & c & Hp & Hc) & _).
      rewrite Es in Hp. injection Hp as <-. by rewrite Ec in Hc.
Qed.

Lemma namespaceAnnotations_runs :
  runs upto_workload (namespaceAnnotations s r)
    (λ a w, walk_ok all_reads w ∧
       match a with
       | inl ann => rd_NamespaceAnnotations r (su_namespace s) = Ok ann
       | inr x => gate_answer (Some x)
       end).
Proof.
  eapply runs_bind; [apply gate_runs; by left|].
  intros [x|] Hx.
  { apply runs_ret. intros w Hw. split; [|done]. apply (walk_ok_weaken _ _ _ Hw). set_solver. }
  intros w Hw.
  assert (Hn : ReadNamespace ∉ upto_workload) by set_solver.
  pose proof (walk_ok_reading _ _ _ Hn ltac:(done) ltac:(done) Hw) as Hok.
  destruct (rd_NamespaceAnnotations _ _) as [ann|e] eqn:E; [done|].
  split; [by do 3 right|]. by apply ok_once in Hok.
Qed.

(** What the levels settle: the Policy opted into, or a refusal no Policy's
    consent could overturn. *)
Definition opt_in_answer (o : (string * Level) + Refusal) : Prop :=
  match o with
  | inl (name, _) => opted_name name
  | inr x => (∀ name, ¬ opted_name name) ∨ gate_answer (Some x)
  end.

Lemma optIn_runs :
  (∀ dp, su_of s ≠ OfDeparted dp) →
  runs [] (optIn s r) (λ o w, walk_ok all_reads w ∧ opt_in_answer o).
Proof.
  intros Hdep. unfold optIn. cbn [optInFrom]. unfold ret at 1, bind at 1.
  assert (Hs1 : [] ⊆ all_reads) by set_solver.
  assert (Hs2 : upto_workload ⊆ all_reads) by set_solver.
  destruct (level_decision (su_annotations s)) as [[name|x]|] eqn:E1.
  { intros w Hw. split; [by apply (walk_ok_weaken _ _ _ Hw)|by left]. }
  { intros w Hw. split; [by apply (walk_ok_weaken _ _ _ Hw)|left].
    intros n [H|(H & _)]; by rewrite E1 in H. }
  apply (runs_bind [] upto_workload _ _ _ _ (workloadAnnotations_runs Hdep)).
  intros [ann|x] Hann; [|intros w Hw; split; [by apply (walk_ok_weaken _ _ _ Hw)|by right]].
  destruct (level_decision ann) as [[name|x]|] eqn:E2.
  { intros w Hw. split; [by apply (walk_ok_weaken _ _ _ Hw)|right; eauto]. }
  { intros w Hw. split; [by apply (walk_ok_weaken _ _ _ Hw)|left].
    intros n [H|(_ & a & Ha & H)]; [by rewrite E1 in H|].
    rewrite (workload_level_unique _ _ Ha Hann), E2 in H. by destruct H as [?|(? & _)]. }
  apply (runs_bind upto_workload all_reads _ _ _ _ namespaceAnnotations_runs).
  intros [an|x] Han; [|intros w Hw; split; [done|by right]].
  assert (Hno : ∀ n, opted_name n → level_decision an = Some (inl n)).
  { intros n [H|(_ & a & Ha & H)]; [by rewrite E1 in H|].
    rewrite (workload_level_unique _ _ Ha Hann), E2 in H.
    destruct H as [?|(_ & an' & Han' & H)]; [done|]. rewrite Han in Han'. by injection Han' as <-. }
  destruct (level_decision an) as [[name|x]|] eqn:E3; intros w Hw; (split; [done|]).
  - right. split; [done|]. exists ann. split; [done|]. right. eauto.
  - left. by intros n H%Hno.
  - left. by intros n H%Hno.
Qed.

(** The decision agrees with what governs the subject. *)
Definition decision_agrees (d : Decision) : Prop :=
  (∀ p m, d_Policy d = Some p ∧ d_Mode d = Some m ↔ governs p m) ∧
  (d_Refusal d = None ↔ is_Some (d_Policy d)).

Lemma ungoverned d x :
  d_Policy d = None → (∀ p m, ¬ governs p m) → decision_agrees (refused d x).
Proof.
  intros Hp Hg. split; cbn; rewrite Hp.
  - intros p m. split; [by intros [? _]|]. intros H. by destruct (Hg p m).
  - split; [done|by intros [? ?]].
Qed.

Lemma managedBy_agrees d p kind :
  d_Policy d = None → d_Mode d = None → d_Refusal d = None →
  (∀ p' m, governs p' m ↔ p' = p ∧
     ModeForKind (Types (rs_Update (pol_RightSizing p))) kind = Some m) →
  decision_agrees (managedBy d p kind).
Proof.
  intros Hp Hm Hr Hg. unfold managedBy. destruct (ModeForKind _ kind) as [mode|].
  - split; cbn; [|by rewrite Hr]. intros p' m. rewrite Hg. naive_solver.
  - apply ungoverned; [done|]. intros p' m [_ ?]%Hg. done.
Qed.

Lemma decide_walk_runs :
  (∀ dp, su_of s ≠ OfDeparted dp) →
  runs [] (decide_walk s r) (λ d w, walk_ok all_reads w ∧ decision_agrees d).
Proof.
  intros Hdep. unfold decide_walk.
  assert (Hgov : ∀ p m, governs p m → ∃ name ps kind oname, opted_name name ∧ rd_Policies r = Ok ps ∧
      consent ps name (su_namespace s) (su_labels s) = inl p ∧ owner_is kind oname ∧
      ModeForKind (Types (rs_Update (pol_RightSizing p)))
        (fst (ApplyOwnerNameOverride kind oname (su_annotations s))) = Some m).
  { intros p m. unfold governs. destruct (su_of s) as [| |dp] eqn:E; [done|done|by destruct (Hdep dp)]. }
  apply (runs_bind [] all_reads _ _ _ _ (optIn_runs Hdep)).
  intros [[name level]|x] Hopt.
  2: { apply runs_ret. intros w Hw. split; [done|]. apply ungoverned; [done|].
       intros p m (name & ps & k & n & Hn & Hps & Hc & _)%Hgov.
       destruct Hopt as [Hno|(ps' & Hps' & Hg)]; [by apply (Hno name)|].
       rewrite Hps in Hps'. injection Hps' as <-.
       destruct (gate_sound _ _ _ name _ Hg) as [? Hc']. by rewrite Hc in Hc'. }
  eapply runs_bind; [apply readPolicies_runs; by left|]. intros ps Hps.
  destruct (consent ps name (su_namespace s) (su_labels s)) as [p|x] eqn:Hcon.
  2: { apply runs_ret. intros w Hw. split; [done|]. apply ungoverned; [done|].
       intros p m (name' & ps' & k & n & Hn & Hps' & Hc & _)%Hgov.
       rewrite (opted_name_unique name' name) in Hc by done.
       rewrite Hps in Hps'. injection Hps' as <-. by rewrite Hcon in Hc. }
  intros w Hw. unfold bind.
  pose proof (readOwner_runs all_reads ltac:(by right; left) w Hw) as Ho.
  destruct (readOwner s r w) as [[[]|e] w']; [|done]. destruct Ho as [Hw' Hk].
  split; [done|]. apply managedBy_agrees; [done..|].
  pose proof (ok_owner _ _ Hw' Hk) as Hown. unfold identity.
  intros p' m. split.
  - intros (name' & ps' & k & n & Hn & Hps' & Hc & Hown' & Hmode)%Hgov.
    rewrite (opted_name_unique name' name) in Hc by done.
    rewrite Hps in Hps'. injection Hps' as <-. rewrite Hcon in Hc. injection Hc as <-.
    split; [done|]. destruct (owner_is_unique _ _ _ _ Hown Hown') as [-> ->].
    by destruct (ApplyOwnerNameOverride k n (su_annotations s)).
  - intros [-> Hm]. unfold governs. destruct (su_of s) as [| |dp] eqn:E; [| |by destruct (Hdep dp)].
    all: exists name, ps, (w_ownerKind w'), (w_ownerName w'); split_and!; try done;
      by destruct (ApplyOwnerNameOverride (w_ownerKind w') (w_ownerName w') (su_annotations s)).
Qed.

Lemma departed_runs dp :
  su_of s = OfDeparted dp →
  match departedDecision s r dp startWalk with
  | (Ok d, w) => decision_agrees d ∧ NoDup (w_reads w)
  | (Err e, w) => read_failed e ∧ NoDup (w_reads w)
  end.
Proof.
  intros Es. unfold departedDecision, bind, readPolicies. cbn [w_policies startWalk].
  destruct (rd_Policies r) as [ps|e] eqn:Ep; [|split; [by left|apply NoDup_singleton]].
  assert (Hg : ∀ p m, governs p m ↔ departedConsent ps (dp_policy dp) (su_namespace s) = inl p ∧
    ModeForKind (Types (rs_Update (pol_RightSizing p))) (id_OwnerKind (dp_identity dp)) = Some m).
  { intros p m. unfold governs. rewrite Es, Ep. split.
    - intros (ps' & [= <-] & ? & ?). done.
    - intros [? ?]. by exists ps. }
  destruct (departedConsent _ _ _) as [p|x]; cbn; (split; [|apply NoDup_singleton]).
  - apply managedBy_agrees; [done..|]. intros p' m. rewrite Hg. naive_solver.
  - apply ungoverned; [done|]. by intros p m [? _]%Hg.
Qed.

Lemma with_identity_agrees d id : decision_agrees d → decision_agrees (with_identity d id).
Proof. done. Qed.

(** A walk that starts knowing the owner of a subject that has one to know. *)
Lemma start_owned kind name :
  owner_is kind name → (∀ pod c, su_of s = OfPod pod → GetControllerOf (pod_OwnerReferences pod) ≠ Some c) →
  walk_ok [] (with_owner startWalk kind name).
Proof.
  intros Ho Hc. split; cbn; try done; [by intros _ ?%not_elem_of_nil| |apply NoDup_nil_2].
  intros pod c Hs Hctl. by destruct (Hc pod c Hs).
Qed.

Lemma start_controlled pod c :
  su_of s = OfPod pod → GetControllerOf (pod_OwnerReferences pod) = Some c → walk_ok [] startWalk.
Proof.
  intros Hs Hc. split; cbn; try done; [by intros _ ?%not_elem_of_nil| |apply NoDup_nil_2].
  intros _. split; [eauto|]. apply not_elem_of_nil.
Qed.

Lemma DecideWalk_runs :
  match DecideWalk s r with
  | (Ok d, w) => decision_agrees d ∧ NoDup (w_reads w)
  | (Err e, w) => read_failed e ∧ NoDup (w_reads w)
  end.
Proof.
  set (finish := λ w, match decide_walk s r w with
    | (Err e, w) => (Err e, w)
    | (Ok d, w) => (Ok (if w_ownerKnown w then with_identity d (identity s w) else d), w)
    end : result Decision * walk).
  assert (Hfin : ∀ w, (∀ dp, su_of s ≠ OfDeparted dp) → walk_ok [] w →
    match finish w with
    | (Ok d, w) => decision_agrees d ∧ NoDup (w_reads w)
    | (Err e, w) => read_failed e ∧ NoDup (w_reads w)
    end).
  { intros w Hdep Hw. unfold finish. pose proof (decide_walk_runs Hdep w Hw) as H.
    destruct (decide_walk s r w) as [[d|e] w']; [|done]. destruct H as [Hw' Hd].
    split; [by destruct (w_ownerKnown w')|by apply ok_once in Hw']. }
  unfold DecideWalk. fold finish. destruct (su_of s) as [pod|wm|dp] eqn:Es.
  - destruct (GetControllerOf (pod_OwnerReferences pod)) as [c|] eqn:Ec.
    { apply Hfin; [by intros dp|]. by eapply start_controlled. }
    assert (Hw : walk_ok [] (with_owner startWalk "" "")).
    { apply start_owned; [unfold owner_is; by rewrite Es, Ec|]. intros pod' c [= <-]%(eq_trans (eq_sym Es)).
      by rewrite Ec. }
    destruct (String.eqb_spec (id_OwnerKind (identity s (with_owner startWalk "" ""))) "") as [Hk|Hk];
      [|by apply Hfin; [intros dp|]].
    split; [|apply NoDup_nil_2]. apply ungoverned; [done|].
    intros p m. unfold governs. rewrite Es. intros (name & ps & k & n & _ & _ & _ & Hown & Hm).
    unfold owner_is in Hown. rewrite Es, Ec in Hown. destruct Hown as [-> ->].
    unfold identity in Hk. cbn in Hk.
    destruct (ApplyOwnerNameOverride "" "" (su_annotations s)) as [k' n']. cbn in Hk, Hm. by subst k'.
  - apply Hfin; [by intros dp|]. apply start_owned; [unfold owner_is; by rewrite Es|].
    intros pod c ?. congruence.
  - by apply departed_runs.
Qed.

(** C19: whatever the order of its reads and the gate that saves them, the walk
    decides as the rules do: the Policy that governs a subject is the one its
    most specific deciding level names, when it exists, consents to the
    namespace and the labels and manages the identity's kind. *)
Theorem Decide_governs d p m :
  Decide s r = Ok d →
  d_Policy d = Some p ∧ d_Mode d = Some m ↔ governs p m.
Proof.
  unfold Decide. pose proof DecideWalk_runs as H.
  destruct (DecideWalk s r) as [[d'|e] w]; [|done]. intros [= ->]. apply H.
Qed.

(** a decision reads each thing at most once, and an error it returns is the
    one a read gave, unchanged. *)
Theorem Decide_reads :
  NoDup (w_reads (snd (DecideWalk s r))) ∧
  ∀ e, Decide s r = Err e → read_failed e.
Proof.
  unfold Decide. pose proof DecideWalk_runs as H.
  destruct (DecideWalk s r) as [[d|e] w]; (split; [by apply H|]); [done|].
  intros e' [= <-]. by apply H.
Qed.

(** No Policy governs a pod of a namespace the operator excludes. *)
Lemma excluded_ungoverned ps p m :
  rd_Policies r = Ok ps → su_namespace s ∈ excluded ps → ¬ governs p m.
Proof.
  intros Hps Hex Hg.
  assert (∃ name c, namespaceConsent ps name (su_namespace s) = inl c) as (name & c & Hc).
  { unfold governs in Hg. destruct (su_of s).
    1,2: destruct Hg as (name & ps' & _ & _ & _ & Hps' & Hc & _); exists name;
      rewrite Hps in Hps'; injection Hps' as <-; unfold consent in Hc;
      destruct (namespaceConsent _ _ _); [eauto|done].
    destruct Hg as (ps' & Hps' & Hc & _). rewrite Hps in Hps'. injection Hps' as <-.
    exists (dp_policy d). unfold departedConsent in Hc. destruct (namespaceConsent _ _ _); [eauto|done]. }
  by apply namespaceConsent_inl in Hc as (_ & ? & _).
Qed.
End Walk.

(** ** What a decision reads of the annotations *)
Section Extensional.
Context {QO : QuantityOps} {KO : KubeOps} (s : Subject) (r r' : Reader).

(** Two annotation maps of one level: the same to a decision. *)
Definition same_annotations (a a' : result strmap) : Prop :=
  match a, a' with
  | Ok a, Ok a' => level_decision a = level_decision a'
  | Err e, Err e' => e = e'
  | _, _ => False
  end.

Definition same_answer (x y : result (strmap + Refusal) * walk) : Prop :=
  snd x = snd y ∧
  match fst x, fst y with
  | Ok (inl a), Ok (inl a') => level_decision a = level_decision a'
  | Ok (inr u), Ok (inr v) => u = v
  | Err e, Err e' => e = e'
  | _, _ => False
  end.

Definition same_level (m m' : level_read) : Prop := ∀ w, same_answer (m w) (m' w).

Hypothesis Hpolicies : rd_Policies r = rd_Policies r'.
Hypothesis Howner : ∀ pod, su_of s = OfPod pod → rd_PodOwner r pod = rd_PodOwner r' pod.
Hypothesis Hworkload : ∀ kind name,
  same_annotations (rd_WorkloadAnnotations r (su_namespace s) kind name) (rd_WorkloadAnnotations r' (su_namespace s) kind name).
Hypothesis Hnamespace : same_annotations (rd_NamespaceAnnotations r (su_namespace s)) (rd_NamespaceAnnotations r' (su_namespace s)).

Lemma readPolicies_same w : readPolicies r w = readPolicies r' w.
Proof. unfold readPolicies. by rewrite Hpolicies. Qed.

Lemma readOwner_same w : readOwner s r w = readOwner s r' w.
Proof. unfold readOwner. destruct (su_of s) eqn:E; [by rewrite (Howner _ eq_refl)|done..]. Qed.

Lemma gate_same w : gate s r w = gate s r' w.
Proof. unfold gate, bind. by rewrite readPolicies_same. Qed.

Lemma namespace_same : same_level (namespaceAnnotations s r) (namespaceAnnotations s r').
Proof.
  intros w. unfold namespaceAnnotations, bind. rewrite gate_same. destruct (gate s r' w) as [[[x|]|e] w']; [done| |done].
  unfold same_annotations, same_answer in *.
  by destruct (rd_NamespaceAnnotations r _), (rd_NamespaceAnnotations r' _).
Qed.

Lemma workload_same : same_level (workloadAnnotations s r) (workloadAnnotations s r').
Proof.
  intros w. unfold workloadAnnotations. 
  assert (Hpod : same_answer
    (bind (gate s r) (λ refusal, match refusal with
       | Some x => ret (inr x)
       | None => bind (readOwner s r) (λ _ w,
           match rd_WorkloadAnnotations r (su_namespace s) (w_ownerKind w) (w_ownerName w) with
           | Ok ann => (Ok (inl ann), reading w ReadWorkload) | Err e => (Err e, reading w ReadWorkload) end) end) w)
    (bind (gate s r') (λ refusal, match refusal with
       | Some x => ret (inr x)
       | None => bind (readOwner s r') (λ _ w,
           match rd_WorkloadAnnotations r' (su_namespace s) (w_ownerKind w) (w_ownerName w) with
           | Ok ann => (Ok (inl ann), reading w ReadWorkload) | Err e => (Err e, reading w ReadWorkload) end) end) w)).
  { unfold bind. rewrite gate_same. destruct (gate s r' w) as [[[x|]|e] w']; [done| |done].
    rewrite readOwner_same. destruct (readOwner s r' w') as [[[]|e] w'']; [|done].
    pose proof (Hworkload (w_ownerKind w'') (w_ownerName w'')) as H. unfold same_annotations, same_answer in *.
    by destruct (rd_WorkloadAnnotations r _ _ _), (rd_WorkloadAnnotations r' _ _ _). }
  destruct (su_of s); [destruct (w_ownerKnown w && _)| |destruct (w_ownerKnown w && _)]; done.
Qed.

Lemma optInFrom_same levels levels' :
  Forall2 (λ l l', fst l = fst l' ∧ same_level (snd l) (snd l')) levels levels' →
  ∀ w, optInFrom levels w = optInFrom levels' w.
Proof.
  induction 1 as [|[lv m] [lv' m'] levels levels' [E Hm] _ IH]; intros w; [done|]. cbn [fst snd] in *. subst lv'.
  cbn [optInFrom]. unfold bind. destruct (Hm w) as [Hw Ha].
  destruct (m w) as [[[a|x]|e] w1], (m' w) as [[[a'|x']|e'] w2]; cbn [fst snd] in *; subst; try done.
  rewrite Ha. by destruct (level_decision a') as [[?|?]|].
Qed.

(** A decision depends on the annotations only through what each level
    decides. *)
Lemma Decide_same : Decide s r = Decide s r'.
Proof.
  assert (Hwalk : ∀ w, decide_walk s r w = decide_walk s r' w).
  { intros w. unfold decide_walk, bind.
    assert (optIn s r w = optIn s r' w) as ->.
    { apply optInFrom_same. apply Forall2_cons_2; [split; [done|intros w'; cbn; by split]|].
      apply Forall2_cons_2; [split; [done|apply workload_same]|].
      apply Forall2_cons_2; [split; [done|apply namespace_same]|apply Forall2_nil_2]. }
    destruct (optIn s r' w) as [[[[name level]|x]|e] w']; [|done|done].
    rewrite readPolicies_same. destruct (readPolicies r' w') as [[ps|e] w'']; [|done].
    destruct (consent _ _ _ _) as [p|x]; [|done]. by rewrite readOwner_same. }
  unfold Decide, DecideWalk. destruct (su_of s) as [pod|wm|dp].
  - destruct (GetControllerOf _); [by rewrite Hwalk|]. destruct (String.eqb _ _); [done|by rewrite Hwalk].
  - by rewrite Hwalk.
  - unfold departedDecision, bind. by rewrite readPolicies_same.
Qed.
End Extensional.

(** ** At a concrete input *)
Section Sample.
#[local] Existing Instance nano_quantity.
#[local] Existing Instance simple_kube.

Definition sample_types : UpdateTypes :=
  {| ut_Deployment := Some UpdateModeOngoing; ut_StatefulSet := None; ut_DaemonSet := None; ut_CronJob := None;
     ut_Job := None; ut_ArgoRollout := None; ut_Pod := None |}.

Definition sample_resource_config : ResourceConfig :=
  {| Window := "";
     rc_Requests := {| Headroom := None; KeepRequest := false; MaxAllowed := None; MinAllowed := None; Percentile := None |};
     rc_Limits := {| EqualsToRequest := false; KeepLimit := true; KeepLimitRequestRatio := false; NoLimit := false;
                     RequestsLimitsRatio := None |};
     rc_DownsizeThreshold := None |}.

Definition sample_policy : Policy :=
  {| pol_Name := "frugal"; pol_UID := "p1"; pol_ResourceVersion := "7";
     pol_Selector := {| Namespaces := ["prod"]; sel_LabelSelector := None |};
     pol_RightSizing :=
       {| rs_Update := {| Types := sample_types; Eviction := {| IgnoreAutoscalerSafeToEvictAnnotations := false |} |};
          rs_ResourcesConfigs := {| CPU := sample_resource_config; Memory := sample_resource_config |};
          rs_AutoscalerCoordination := {| Enabled := false; ReplicaBudgetAnchor := None |};
          ExcludeInitContainers := false; RecommendOnly := false |} |}.

(** A Deployment named by its namespace's annotation alone. *)
Definition sample_subject : Subject := SubjectPodTemplate "prod" "Deployment" "web" ∅ ∅ ∅.

Definition sample_reader : Reader :=
  {| rd_Policies := fst (List_policies (NewPolicyLister ["kube-system"]) (Ok [sample_policy]));
     rd_PodOwner _ := Ok ("", ""); rd_WorkloadAnnotations _ _ _ := Ok ∅;
     rd_NamespaceAnnotations ns := Ok {[PolicyAnnotation := "frugal"]} |}.

Definition sample_decided : Decision :=
  match Decide sample_subject sample_reader with Ok d => d | Err _ => noDecision end.

Lemma Decide_governs_witness :
  governs sample_subject sample_reader sample_policy UpdateModeOngoing ∧
  w_reads (snd (DecideWalk sample_subject sample_reader)) = [ReadPolicies; ReadNamespace].
Proof.
  split; [|vm_compute; reflexivity].
  refine (proj1 (Decide_governs sample_subject sample_reader sample_decided _ _ _) _); [|split].
  all: by_running.
Defined.

(** A pod of its own, under the owner name its annotation gives, a Policy that
    manages such pods, and a cluster with nothing to read. *)
Definition sample_bare_pod (cs : list Container) : Pod :=
  {| pod_Name := "web-0"; pod_Namespace := "prod"; pod_UID := "u"; pod_Labels := ∅;
     pod_Annotations := {[ OwnerNameAnnotation := "web"; PolicyAnnotation := "frugal" ]};
     pod_OwnerReferences := []; pod_Deleting := false; pod_Created := 0;
     pod_Containers := cs; pod_InitContainers := [];
     pod_Phase := "Pending"; pod_Conditions := []; pod_ContainerStatuses := [];
     pod_InitContainerStatuses := []; pod_EphemeralContainerStatuses := [] |}.

Definition pods_types : UpdateTypes :=
  {| ut_Deployment := None; ut_StatefulSet := None; ut_DaemonSet := None; ut_CronJob := None;
     ut_Job := None; ut_ArgoRollout := None; ut_Pod := Some UpdateModeOnCreate |}.

Definition pods_policy : Policy :=
  {| pol_Name := "frugal"; pol_UID := "p1"; pol_ResourceVersion := "7";
     pol_Selector := {| Namespaces := ["prod"]; sel_LabelSelector := None |};
     pol_RightSizing :=
       {| rs_Update := {| Types := pods_types; Eviction := {| IgnoreAutoscalerSafeToEvictAnnotations := false |} |};
          rs_ResourcesConfigs := {| CPU := sample_resource_config; Memory := sample_resource_config |};
          rs_AutoscalerCoordination := {| Enabled := false; ReplicaBudgetAnchor := None |};
          ExcludeInitContainers := false; RecommendOnly := false |} |}.

Definition pods_policies : result Policies := fst (List_policies (NewPolicyLister ["kube-system"]) (Ok [pods_policy])).

Definition empty_cluster : ClusterReads :=
  {| get_replicaset _ _ := Ok []; get_job _ _ := Ok []; get_object_annotations _ _ _ := Ok ∅;
     get_namespace_annotations _ := Ok ∅; list_jobs _ := Ok []; list_pods _ _ := Ok [] |}.
End Sample.
