(* ===== verification/Resources.v ===== *)
(** * The two resources a Recommendation sizes
    ([internal/recommender/recommender.go]) *)

From S2P Require Import Prelude GoLang GoFloat GoText Quantity Kube PolicyApi.
Local Open Scope Z_scope.

Definition defaultPercentile : Z := 95.
Definition defaultWindow : string := "168h".
Definition mebibyte : Z := 2 ^ 20.
Definition minCPUMillicores : Z := 1.
Definition minMemoryMiB : Z := 1.

Definition PercentileQuantile (p : option Z) : float64 :=
  match p with
  | None => f_div (f_of_Z defaultPercentile) (f_of_Z 100)
  | Some p => f_div (f_of_Z p) (f_of_Z 100)
  end.

Definition ResourceWindow (w : string) : string :=
  if String.eqb w "" then defaultWindow else w.

Inductive resourceKind := cpuResource | memoryResource.

#[export] Instance resourceKind_eq_dec : EqDecision resourceKind.
Proof. solve_decision. Defined.

Definition resourceKinds : list resourceKind := [cpuResource; memoryResource].

(** The resource's name, the key it has in a resource list. *)
Definition resource_name (r : resourceKind) : string :=
  match r with cpuResource => ResourceCPU | memoryResource => ResourceMemory end.

Definition formatFactor (f : float64) : string := FormatFloat_g4 f.

Section Operations.
Context {PL : Platform} {QO : QuantityOps}.

Definition MinCPURequest : Quantity := NewMilliQuantity minCPUMillicores DecimalSI.
Definition MinMemoryRequest : Quantity := NewQuantity (wrap64 (minMemoryMiB * mebibyte)) BinarySI.

Definition config (r : resourceKind) (cfg : ResourcesConfigs) : ResourceConfig :=
  match r with cpuResource => CPU cfg | memoryResource => Memory cfg end.

Definition value (r : resourceKind) (q : Quantity) : float64 :=
  match r with
  | cpuResource => f_div (f_of_Z (MilliValue q)) (f_of_Z 1000)
  | memoryResource => f_of_Z (Value q)
  end.

Definition quantity (r : resourceKind) (v : float64) : Quantity :=
  match r with
  | cpuResource => NewNanoQuantity (int64_of_float (math_Round (f_mul v (f_of_Z 1000000000))))
  | memoryResource => NewQuantity (int64_of_float v) BinarySI
  end.

Definition withHeadroom (r : resourceKind) (v : float64) (headroom : option Z) : Quantity :=
  match r with
  | cpuResource =>
      let milliCores := f_mul v (f_of_Z 1000) in
      let milliCores :=
        match headroom with
        | Some h =>
            if 0 <? h
            then f_mul milliCores (f_add (f_of_Z 1) (f_div (f_of_Z h) (f_of_Z 100)))
            else milliCores
        | None => milliCores
        end in
      let m := Z.max (int64_of_float (math_Ceil milliCores)) minCPUMillicores in
      NewMilliQuantity m DecimalSI
  | memoryResource =>
      let b := int64_of_float v in
      let b :=
        match headroom with
        | Some h => if 0 <? h then Z.quot (wrap64 (b * wrap32 (100 + h))) 100 else b
        | None => b
        end in
      let mib := Z.max (Z.quot (wrap64 (b + (mebibyte - 1))) mebibyte) minMemoryMiB in
      NewQuantity (wrap64 (mib * mebibyte)) BinarySI
  end.

(** [of]: the resource's value in a list, absent and zero alike read as none. *)
Definition quantityOf (r : resourceKind) (rl : ResourceList) : option Quantity :=
  match rl !! resource_name r with
  | None => None
  | Some q => if IsZero q then None else Some q
  end.

(** [max] wins a conflict. *)
Definition clamp (q : Quantity) (minQ maxQ : option Quantity) : Quantity :=
  let q := match minQ with Some m => if is_lt (Cmp q m) then m else q | None => q end in
  match maxQ with Some m => if is_gt (Cmp q m) then m else q | None => q end.
End Operations.

(** ** Facts *)
Section Facts.
Context {PL : Platform} {QO : QuantityOps} {QL : QuantityLaws}.

(** The clamp as arithmetic on the numbers. *)
Lemma nano_clamp q minQ maxQ :
  nano (clamp q minQ maxQ) =
  let lo := match minQ with Some m => Z.max (nano q) (nano m) | None => nano q end in
  match maxQ with Some m => Z.min lo (nano m) | None => lo end.
Proof.
  unfold clamp. cbn zeta.
  assert (Hlt : ∀ a b, is_lt (Cmp a b) = (nano a <? nano b))
    by (intros; rewrite Cmp_nano; unfold is_lt, Z.ltb; by destruct (_ ?= _)).
  assert (Hgt : ∀ a b, is_gt (Cmp a b) = (nano b <? nano a)).
  { intros a b. rewrite Cmp_nano, Z.compare_antisym. unfold is_gt, Z.ltb.
    by destruct (nano b ?= nano a). }
  destruct minQ as [mn|], maxQ as [mx|]; rewrite ?Hlt, ?Hgt;
    repeat (case_match; bool_props); lia.
Qed.

Lemma clamp_le_max q minQ m : nano (clamp q minQ (Some m)) ≤ nano m.
Proof. rewrite nano_clamp. cbn zeta. lia. Qed.

Lemma clamp_ge_min q m maxQ :
  match maxQ with Some x => nano m ≤ nano x | None => True end →
  nano m ≤ nano (clamp q (Some m) maxQ).
Proof. rewrite nano_clamp. cbn zeta. destruct maxQ; lia. Qed.

(** The clamp answers its input or one of the bounds. *)
Lemma clamp_cases q minQ maxQ :
  clamp q minQ maxQ = q ∨ minQ = Some (clamp q minQ maxQ) ∨ maxQ = Some (clamp q minQ maxQ).
Proof. unfold clamp. destruct minQ, maxQ; repeat case_match; auto. Qed.

(** Clamping twice is clamping once. *)
Lemma clamp_idemp q minQ maxQ :
  nano (clamp (clamp q minQ maxQ) minQ maxQ) = nano (clamp q minQ maxQ).
Proof. rewrite !nano_clamp. cbn zeta. destruct minQ, maxQ; lia. Qed.

(** Memory with headroom, in bytes, when nothing overflows: whole mebibytes, at
    least one, holding the value and its headroom. *)
Lemma withHeadroom_memory_bytes v h b :
  int64_of_float v = b → 0 ≤ b < 2 ^ 53 → 0 ≤ default 0 h ≤ 100 →
  ∃ mib, nano (withHeadroom memoryResource v h) = mib * mebibyte * 10 ^ 9 ∧
    1 ≤ mib ∧ b * (100 + default 0 h) / 100 ≤ mib * mebibyte <
      Z.max (b * (100 + default 0 h) / 100) 1 + mebibyte.
Proof.
  intros Hb Hrange Hh. unfold withHeadroom. rewrite Hb.
  set (b' := match h with Some h0 => _ | None => _ end).
  assert (Hb' : b' = b * (100 + default 0 h) / 100 ∧ 0 ≤ b' < 2 ^ 55).
  { assert (H100 : ∀ k, 0 ≤ k ≤ 100 → 0 ≤ b * (100 + k) / 100 < 2 ^ 55).
    { intros k Hk. split; [apply Z.div_pos; nia|]. apply Z.div_lt_upper_bound; nia. }
    unfold b'. destruct h as [h|]; simpl in *; [|rewrite Z.div_mul by lia; lia].
    destruct (Z.ltb_spec 0 h).
    - rewrite wrap32_id by (unfold int32_range; lia).
      rewrite wrap64_id by (unfold int64_range, int64_min, int64_max; nia).
      rewrite Z.quot_div_nonneg by nia. split; [done|apply H100; lia].
    - assert (h = 0) as -> by lia. rewrite Z.add_0_r, Z.div_mul by lia. lia. }
  clearbody b'. destruct Hb' as [<- Hb'].
  rewrite (wrap64_id (b' + (mebibyte - 1)))
    by (unfold int64_range, int64_min, int64_max, mebibyte; lia).
  rewrite Z.quot_div_nonneg by (unfold mebibyte; lia).
  set (k := (b' + (mebibyte - 1)) / mebibyte).
  assert (Hk : b' ≤ k * mebibyte < b' + mebibyte).
  { unfold k, mebibyte. pose proof (Z.div_mod (b' + (2 ^ 20 - 1)) (2 ^ 20) ltac:(lia)).
    pose proof (Z.mod_pos_bound (b' + (2 ^ 20 - 1)) (2 ^ 20) ltac:(lia)). lia. }
  exists (Z.max k minMemoryMiB). unfold minMemoryMiB, mebibyte in *.
  rewrite wrap64_id by (unfold int64_range, int64_min, int64_max; lia).
  rewrite nano_NewQuantity by (unfold int64_range, int64_min, int64_max; lia).
  split_and!; lia.
Qed.

(** CPU is a whole number of millicores, at least one. *)
Lemma withHeadroom_cpu v h :
  ∃ m, nano (withHeadroom cpuResource v h) = m * 10 ^ 6 ∧ 1 ≤ m ≤ int64_max.
Proof.
  unfold withHeadroom. set (x := int64_of_float _).
  assert (Hx : int64_range x) by apply int64_of_float_range.
  unfold int64_range, minCPUMillicores in *.
  exists (Z.max x 1). rewrite nano_NewMilliQuantity.
  - split; [done|]. unfold int64_max in *. lia.
  - unfold int64_range, int64_min, int64_max in *. lia.
Qed.
End Facts.
