(* ===== verification/Signals.v ===== *)
(** * The signals of a recommendation
    ([signal.go], [inputs.go], [signal_usage.go], [signal_oom.go] of
    [internal/recommender])

    A signal is the interface [signal] of Go: a record of what it reads, how
    samples become its values, where its stage runs and what it contributes.
    The text of its queries is in [PromQL]. *)

From S2P Require Import Prelude GoLang GoText Quantity Kube PolicyApi WlrApi Shards Resources.
Local Open Scope Z_scope.

Definition MetricWorkloadOOM24h : string := "k8s_sustain:workload_oom_24h".
Definition MetricContainerOOMKills : string := "k8s_sustain:container_oom_kills".
Definition MetricContainerPeakMemory24hBytes : string :=
  "k8s_sustain:container_peak_memory_24h:bytes".
Definition MetricContainerOOMLimit24hBytes : string :=
  "k8s_sustain:container_oom_limit_24h:bytes".
Definition MetricWorkloadMaxPodCPUCores : string := "k8s_sustain:workload_max_pod_cpu:cores".
Definition MetricWorkloadMaxPodMemoryBytes : string :=
  "k8s_sustain:workload_max_pod_memory:bytes".

Definition oomRules : list string :=
  [MetricWorkloadOOM24h; MetricContainerPeakMemory24hBytes; MetricContainerOOMLimit24hBytes].

(** 1.20 *)
Definition oomBumpFactor : float64 := f_const 6 5.
Definition LiveOOMWindow : duration := 30 * minute.

(** ** Values *)

Record OOM := {
  Kills : float64;
  PeakBytes : float64;
  HasPeak : bool;
  LimitBytes : float64;
  LiveAt : time;
  KillsInStep : float64;
}.

(** [OOM{}] *)
Definition noOOM : OOM :=
  {| Kills := f_zero; PeakBytes := f_zero; HasPeak := false; LimitBytes := f_zero;
     LiveAt := time_zero; KillsInStep := f_zero |}.

Definition recent (o : OOM) : bool := f_gtb (Kills o) f_zero || negb (time_IsZero (LiveAt o)).

Definition anchorPeak : string := "peak".
Definition anchorKilledAtLimit : string := "killedAtLimit".

Definition floor (o : OOM) : float64 * string :=
  let bumped := f_mul (LimitBytes o) oomBumpFactor in
  if f_gtb (LimitBytes o) f_zero && f_gtb bumped (PeakBytes o) then (bumped, anchorKilledAtLimit)
  else if HasPeak o then (PeakBytes o, anchorPeak)
  else (f_zero, "").

(** A signal's values for one identity. *)
Inductive signalValues :=
  | usageValues (v : gmap string float64)
  | oomValues (v : gmap string OOM).

(** [observed]: the containers the values give something to recommend from. *)
Definition observed (v : signalValues) : list string :=
  match v with
  | usageValues m => (map_to_list m).*1
  | oomValues m => (filter (λ p, recent p.2) (map_to_list m)).*1
  end.

Definition excusesAge (v : signalValues) : bool :=
  match v with
  | usageValues _ => false
  | oomValues m => existsb (λ p, recent p.2) (map_to_list m)
  end.

(** [WorkloadInputs.values], by signal name. *)
Abbreviation WorkloadInputs := (gmap string signalValues).

(** [valuesOf]: the zero value of another type. *)
Definition usageOfInputs (w : WorkloadInputs) (name : string) : gmap string float64 :=
  match w !! name with Some (usageValues m) => m | _ => ∅ end.

Definition oomOfInputs (w : WorkloadInputs) (name : string) : gmap string OOM :=
  match w !! name with Some (oomValues m) => m | _ => ∅ end.

(** ** Roles and slots *)

Inductive role := base | adjuster | limitAdjuster.

#[export] Instance role_eq_dec : EqDecision role.
Proof. solve_decision. Defined.

Record slot := { sl_role : role; sl_resource : resourceKind }.

#[export] Instance slot_eq_dec : EqDecision slot.
Proof. solve_decision. Defined.

Record contribution := { ct_value : float64; anchors : bool }.

(** What this package reads of Prometheus's own library. *)
Class PromOps : Type := { ParseDuration : string → option duration }.

Section Signals.
Context {PL : Platform} {QO : QuantityOps} {PO : PromOps}.

Record stageContext := {
  sc_inputs : WorkloadInputs;
  sc_config : ResourceConfig;
  sc_container : Container;
  sc_now : time;
  sc_request : option Quantity;
}.

Record signal := {
  sig_name : string;
  required : bool;
  samplesPerContainer : ResourcesConfigs → Z;
  collect : list ShardSample → signalValues;
  sig_slot : slot;
  contribute : stageContext → option contribution;
  sig_stage : stageContext → float64 → bool → TraceStage;
}.

(** ** Usage percentiles *)

Definition usage_window (r : resourceKind) (cfg : ResourcesConfigs) : string :=
  ResourceWindow (Window (config r cfg)).

(** [usage.collect]: the last sample of each container. *)
Definition usage_collect (samples : list ShardSample) : signalValues :=
  usageValues (foldl (λ m s, <[ss_Container s := ss_Value s]> m) ∅ samples).

Definition usage_contribute (r : resourceKind) (sc : stageContext) : option contribution :=
  match usageOfInputs (sc_inputs sc) (resource_name r) !! c_Name (sc_container sc) with
  | Some v => Some {| ct_value := v; anchors := true |}
  | None => None
  end.

Definition stagePercentile : string := "percentile".

Definition usage_stage (r : resourceKind) (_ : stageContext) (v : float64) (_ : bool) :
    TraceStage :=
  {| Stage := stagePercentile; ts_Value := Some (quantity r v); Removed := false; Facts := ∅ |}.

(** [usage]: one resource's usage percentile. *)
Definition usage (r : resourceKind) : signal := {|
  sig_name := resource_name r;
  required := true;
  samplesPerContainer cfg := WindowMinutes ParseDuration (usage_window r cfg);
  collect := usage_collect;
  sig_slot := {| sl_role := base; sl_resource := r |};
  contribute := usage_contribute r;
  sig_stage := usage_stage r;
|}.

Definition cpuUsage : signal := usage cpuResource.
Definition memoryUsage : signal := usage memoryResource.

(** ** The OOM floor *)

(** One sample of [oomFloor.collect]; a sample of another metric is skipped. *)
Definition oom_sample (ooms : gmap string OOM) (s : ShardSample) : gmap string OOM :=
  let o := default noOOM (ooms !! ss_Container s) in
  let set (o' : OOM) := <[ss_Container s := o']> ooms in
  if String.eqb (ss_Metric s) MetricWorkloadOOM24h then
    set {| Kills := f_add (Kills o) (ss_Value s); PeakBytes := PeakBytes o;
           HasPeak := HasPeak o; LimitBytes := LimitBytes o; LiveAt := LiveAt o;
           KillsInStep := KillsInStep o |}
  else if String.eqb (ss_Metric s) MetricContainerOOMKills then
    set {| Kills := Kills o; PeakBytes := PeakBytes o; HasPeak := HasPeak o;
           LimitBytes := LimitBytes o; LiveAt := LiveAt o;
           KillsInStep := f_add (KillsInStep o) (ss_Value s) |}
  else if String.eqb (ss_Metric s) MetricContainerPeakMemory24hBytes then
    let raise := negb (HasPeak o) || f_gtb (ss_Value s) (PeakBytes o) in
    set {| Kills := Kills o;
           PeakBytes := if raise then ss_Value s else PeakBytes o;
           HasPeak := if raise then true else HasPeak o;
           LimitBytes := LimitBytes o; LiveAt := LiveAt o; KillsInStep := KillsInStep o |}
  else if String.eqb (ss_Metric s) MetricContainerOOMLimit24hBytes then
    set {| Kills := Kills o; PeakBytes := PeakBytes o; HasPeak := HasPeak o;
           LimitBytes := f_max (LimitBytes o) (ss_Value s); LiveAt := LiveAt o;
           KillsInStep := KillsInStep o |}
  else ooms.

Definition oom_collect (samples : list ShardSample) : signalValues :=
  oomValues (foldl oom_sample ∅ samples).

Definition oomName : string := "oom".

(** The container's kills; the zero OOM when it has none. *)
Definition oomOf (sc : stageContext) : OOM :=
  default noOOM (oomOfInputs (sc_inputs sc) oomName !! c_Name (sc_container sc)).

Definition oom_contribute (sc : stageContext) : option contribution :=
  let o := oomOf sc in
  if negb (recent o) then None
  else
    let '(fl, anchor) := floor o in
    Some {| ct_value := fl; anchors := negb (String.eqb anchor "") |}.

Definition stageOOMFloor : string := "oomFloor".
Definition factDetermined : string := "determined".
Definition factAnchor : string := "anchor".
Definition factKilledAtLimit : string := "killedAtLimit".
Definition factLiveKillAt : string := "liveKillAt".

Definition FormatBool (b : bool) : string := if b then "true" else "false".

Definition oom_stage (sc : stageContext) (v : float64) (determined : bool) : TraceStage :=
  let o := oomOf sc in
  let facts := {[factDetermined := FormatBool determined]} : strmap in
  let anchor := snd (floor o) in
  let facts := if String.eqb anchor "" then facts else <[factAnchor := anchor]> facts in
  let facts :=
    if f_gtb (LimitBytes o) f_zero
    then <[factKilledAtLimit := QString (quantity memoryResource (LimitBytes o))]> facts
    else facts in
  let facts :=
    if time_IsZero (LiveAt o) then facts
    else <[factLiveKillAt := FormatRFC3339 (LiveAt o)]> facts in
  {| Stage := stageOOMFloor; ts_Value := Some (quantity memoryResource v); Removed := false;
     Facts := facts |}.

Definition oomFloor : signal := {|
  sig_name := oomName;
  required := false;
  samplesPerContainer _ := Z.of_nat (length oomRules);
  collect := oom_collect;
  sig_slot := {| sl_role := adjuster; sl_resource := memoryResource |};
  contribute := oom_contribute;
  sig_stage := oom_stage;
|}.

(** Every signal, in the order their stages run within a role. *)
Definition signals : list signal := [cpuUsage; memoryUsage; oomFloor].

Definition inSlot (sl : slot) : list signal := filter (λ s, sig_slot s = sl) signals.

(** ** Inputs *)

Definition set_values (w : WorkloadInputs) (s : signal) (v : signalValues) : WorkloadInputs :=
  <[sig_name s := v]> w.

Definition emptyInputs : WorkloadInputs :=
  foldl (λ w s, set_values w s (collect s [])) ∅ signals.

Abbreviation InputsOption := (WorkloadInputs → WorkloadInputs).

Definition setting (s : signal) (v : signalValues) : InputsOption := λ w, set_values w s v.
Definition WithCPUUsage (cores : gmap string float64) : InputsOption :=
  setting cpuUsage (usageValues cores).
Definition WithMemoryUsage (bytes : gmap string float64) : InputsOption :=
  setting memoryUsage (usageValues bytes).
Definition WithOOMKills (kills : gmap string OOM) : InputsOption :=
  setting oomFloor (oomValues kills).

Definition NewInputs (opts : list InputsOption) : WorkloadInputs :=
  foldl (λ w o, o w) emptyInputs opts.

Definition Resolved (w : WorkloadInputs) : bool :=
  bool_decide (usageOfInputs w (sig_name cpuUsage) ≠ ∅) ||
  bool_decide (usageOfInputs w (sig_name memoryUsage) ≠ ∅).

(** The usage percentile observed for a container, none when none was. *)
Definition inputs_usage (w : WorkloadInputs) (container : string) (r : resourceKind) :
    option float64 :=
  usageOfInputs w (resource_name r) !! container.

Definition Usage (w : WorkloadInputs) (container : string) (r : resourceKind) : float64 :=
  default f_zero (inputs_usage w container r).

(** A container known by its name alone. *)
Definition namedContainer (n : string) : Container :=
  {| c_Name := n; c_Resources := {| Requests := ∅; Limits := ∅ |}; c_RestartPolicy := None |}.

(** Sorted, each container once. *)
Definition observedContainers (w : WorkloadInputs) : list Container :=
  map namedContainer
    (sort_by String.compare
       (remove_dups (concat (map (λ p, observed p.2) (map_to_list w))))).

(** ** The kills the OOM Pod watcher saw *)

Record OOMRecord := {
  or_Container : string;
  or_PolicyName : string;
  or_ObservedAt : time;
  or_TerminatedAt : time;
  or_RestartCount : Z;
  or_PodName : string;
  or_PodUID : string;
  or_OOMLimitBytes : Z;
}.

(** What one live record makes of the container's kills as of [at_]. *)
Definition mergeLive (at_ : time) (mo : option OOM) (rec : OOMRecord) : option OOM :=
  if LiveOOMWindow <? time_Sub at_ (or_ObservedAt rec) then mo
  else
    let killedAt :=
      if time_IsZero (or_TerminatedAt rec) then or_ObservedAt rec else or_TerminatedAt rec in
    if time_After killedAt at_ then mo
    else
      let o := default noOOM mo in
      Some {| Kills := Kills o; PeakBytes := PeakBytes o; HasPeak := HasPeak o;
              LimitBytes := f_max (LimitBytes o) (f_of_Z (or_OOMLimitBytes rec));
              LiveAt := killedAt; KillsInStep := KillsInStep o |}.

Definition mergeLiveAt (at_ : time) (mo : option OOM) (ml : option (option OOMRecord)) :
    option OOM :=
  match ml with
  | Some (Some rec) => mergeLive at_ mo rec
  | _ => mo
  end.

(** [live] holds pointers: [None] is a nil one. *)
Definition withLiveOOMs (w : WorkloadInputs) (live : gmap string (option OOMRecord))
    (at_ : time) : WorkloadInputs :=
  if decide (live = ∅) then w
  else
    set_values w oomFloor
      (oomValues (merge (mergeLiveAt at_) (oomOfInputs w (sig_name oomFloor)) live)).
End Signals.

(** ** Facts *)
Section Facts.
Context {PL : Platform} {QO : QuantityOps} {PO : PromOps}.

(** Which signals run where. *)
Lemma inSlot_base r : inSlot {| sl_role := base; sl_resource := r |} = [usage r].
Proof. by destruct r. Qed.

Lemma inSlot_adjuster r :
  inSlot {| sl_role := adjuster; sl_resource := r |} =
  match r with cpuResource => [] | memoryResource => [oomFloor] end.
Proof. by destruct r. Qed.
End Facts.
