(* ===== verification/Coordination.v ===== *)
(** * Autoscaler coordination ([internal/recommender/coordination.go])

    The overhead and the replica correction that shape a clamped request for
    the autoscaler targeting the workload. *)

From S2P Require Import Prelude GoLang GoFloat Quantity Kube PolicyApi WlrApi Autoscaler Resources.
Local Open Scope Z_scope.

Definition overheadSafetyMarginPct : Z := 110.
Definition overheadTargetMin : Z := 1.
Definition overheadTargetMax : Z := 99.

(** 0.5 and 2.0 *)
Definition replicaFactorMin : float64 := f_const 1 2.
Definition replicaFactorMax : float64 := f_of_Z 2.

Section Coordination.
Context {PL : Platform} {QO : QuantityOps}.

(** The scaled quantity and the factor applied. *)
Definition applyOverhead (qty : Quantity) (targetPct : Z) : Quantity * float64 :=
  if targetPct <=? 0 then (qty, f_of_Z 1)
  else
    let targetPct := Z.min (Z.max targetPct overheadTargetMin) overheadTargetMax in
    let factor := f_div (f_of_Z overheadSafetyMarginPct) (f_of_Z targetPct) in
    if decide (QFormat qty = BinarySI) then
      let raw := f_div (f_mul (f_of_Z (Value qty)) (f_of_Z overheadSafetyMarginPct))
                   (f_of_Z targetPct) in
      (NewQuantity (int64_of_float (math_Ceil raw)) (QFormat qty), factor)
    else
      let raw := f_div (f_mul (f_of_Z (MilliValue qty)) (f_of_Z overheadSafetyMarginPct))
                   (f_of_Z targetPct) in
      (NewMilliQuantity (int64_of_float (math_Ceil raw)) (QFormat qty), factor).

Definition applyReplicaCorrection (qty : Quantity) (anchor : float64)
    (current minR maxR : Z) : Quantity * float64 :=
  if (maxR <=? minR) || (current <=? 0) then (qty, f_of_Z 1)
  else
    let a := f_min (f_max anchor f_zero) (f_of_Z 1) in
    let target := int32_of_float (math_Round
      (f_add (f_of_Z minR) (f_mul a (f_of_Z (wrap32 (maxR - minR)))))) in
    let target := Z.min (Z.max target minR) maxR in
    if target <=? 0 then (qty, f_of_Z 1)
    else
      let factor := f_min (f_max (f_div (f_of_Z current) (f_of_Z target)) replicaFactorMin)
                      replicaFactorMax in
      let scaled := f_mul (f_of_Z (MilliValue qty)) factor in
      (NewMilliQuantity (int64_of_float (math_Ceil scaled)) (QFormat qty), factor).

Definition stageCoordination : string := "coordination".
Definition factOverheadFactor : string := "overheadFactor".
Definition factReplicaFactor : string := "replicaFactor".
Definition factScaled : string := "scaled".

Record coordinated := {
  co_overhead : float64;
  co_replica : option float64;
  co_scaled : Quantity;
  co_value : Quantity;
}.

Definition quantityStage (name : string) (q : Quantity) : TraceStage :=
  {| Stage := name; ts_Value := Some q; Removed := false; Facts := ∅ |}.

Definition coordinated_stage (c : coordinated) : TraceStage :=
  let facts := {[factOverheadFactor := formatFactor (co_overhead c)]} : strmap in
  let facts := match co_replica c with
               | Some r => <[factReplicaFactor := formatFactor r]> facts
               | None => facts
               end in
  let facts := if is_eq (Cmp (co_scaled c) (co_value c)) then facts
               else <[factScaled := QString (co_scaled c)]> facts in
  {| Stage := stageCoordination; ts_Value := Some (co_value c); Removed := false; Facts := facts |}.

Definition coordinate (clamped : Quantity) (res : resourceKind)
    (cfg : AutoscalerCoordination) (info : Info) (req : ResourceRequestsConfig) :
    option coordinated :=
  if negb (Enabled cfg) || bool_decide (i_Kind info = KindNone) then None
  else
    let '(scaled, overhead) :=
      applyOverhead clamped (default 0 (ConfiguredTargets info !! resource_name res)) in
    let '(scaled, replica) :=
      match res, ReplicaBudgetAnchor cfg with
      | cpuResource, Some anchor =>
          let '(scaled', r) := applyReplicaCorrection scaled anchor
            (CurrentReplicas info) (MinReplicas info) (MaxReplicas info) in
          (scaled', Some r)
      | _, _ => (scaled, None)
      end in
    Some {| co_overhead := overhead; co_replica := replica; co_scaled := scaled;
            co_value := clamp scaled (MinAllowed req) (MaxAllowed req) |}.
End Coordination.

(** ** Facts *)
Section Facts.
Context {PL : Platform} {QO : QuantityOps} {QL : QuantityLaws}.

Definition ceil_div (n d : Z) : Z := - (- n / d).

Lemma ceil_div_ge v n d : 0 ≤ v → 0 < d ≤ n → v ≤ ceil_div (v * n) d.
Proof.
  intros. unfold ceil_div.
  assert (- (v * n) / d ≤ - v); [|lia].
  apply Z.div_le_upper_bound; nia.
Qed.

(** A quantity in whole units of its format: bytes for binary quantities,
    thousandths for the others. *)
Definition units (q : Quantity) : Z :=
  if decide (QFormat q = BinarySI) then Value q else MilliValue q.

Definition unit_nano (q : Quantity) : Z :=
  if decide (QFormat q = BinarySI) then 10 ^ 9 else 10 ^ 6.

(** The multiplication before the division makes the overhead exact: what the
    request becomes is [v * 110 / target] rounded up to the next unit, never a
    unit more. *)
Lemma applyOverhead_units qty t :
  0 < t → 0 < units qty → units qty * 110 < 2 ^ 52 →
  nano (fst (applyOverhead qty t)) =
    ceil_div (units qty * 110) (Z.min t 99) * unit_nano qty.
Proof.
  intros Ht Hu Hlt. unfold applyOverhead, units, unit_nano in *.
  destruct (Z.leb_spec t 0); [lia|].
  unfold overheadTargetMin, overheadTargetMax, overheadSafetyMarginPct.
  replace (Z.min (Z.max t 1) 99) with (Z.min t 99) by lia.
  assert (Hc : ∀ v, 0 < v → v * 110 < 2 ^ 52 →
    int64_range (ceil_div (v * 110) (Z.min t 99))).
  { intros v Hv Hv'. unfold ceil_div, int64_range, int64_min, int64_max.
    assert (- (v * 110) / Z.min t 99 ≤ 0) by (apply Z.div_le_upper_bound; nia).
    assert (- (v * 110) ≤ - (v * 110) / Z.min t 99) by (apply Z.div_le_lower_bound; nia).
    lia. }
  case_decide; cbn [fst].
  - rewrite scale_up_exact by lia. rewrite nano_NewQuantity by (by apply Hc). done.
  - rewrite scale_up_exact by lia. rewrite nano_NewMilliQuantity by (by apply Hc). done.
Qed.

(** Rounding to whole units is upwards, so the units hold the quantity. *)
Lemma units_hold qty :
  0 ≤ nano qty → int64_range (round_away (nano qty) (10 ^ 9)) →
  int64_range (round_away (nano qty) (10 ^ 6)) →
  nano qty ≤ units qty * unit_nano qty.
Proof.
  intros H0 H9 H6. unfold units, unit_nano. case_decide.
  - rewrite Value_nano by done. by apply round_away_holds.
  - rewrite MilliValue_nano by done. by apply round_away_holds.
Qed.

Lemma applyOverhead_ge qty t :
  0 < units qty → units qty * 110 < 2 ^ 52 →
  nano qty ≤ units qty * unit_nano qty →
  nano qty ≤ nano (fst (applyOverhead qty t)).
Proof.
  intros Hu Hlt Hn. destruct (decide (t ≤ 0)) as [Ht|Ht].
  - unfold applyOverhead. destruct (Z.leb_spec t 0); [done|lia].
  - rewrite applyOverhead_units by lia. etrans; [exact Hn|].
    apply Z.mul_le_mono_nonneg_r; [unfold unit_nano; case_decide; lia|].
    apply ceil_div_ge; lia.
Qed.

(** A quantity whose overhead the arithmetic scales exactly: above zero and, with
    its margin, below 2^52 of its units, some 40 TB of memory of a binary
    quantity, 40 GB of a decimal one. *)
Definition scalable (q : Quantity) : Prop :=
  0 < nano q ∧ nano q * 110 ≤ (2 ^ 52 - 110) * unit_nano q.

Lemma unit_nano_cases q : unit_nano q = 10 ^ 9 ∨ unit_nano q = 10 ^ 6.
Proof. unfold unit_nano. case_decide; auto. Qed.

(** The overhead never lowers what it can scale. *)
Lemma applyOverhead_scalable q t : scalable q → nano q ≤ nano (fst (applyOverhead q t)).
Proof.
  intros [H0 Hlt].
  assert (Hr : ∀ d, d = 10 ^ 9 ∨ d = 10 ^ 6 → 0 < round_away (nano q) d ∧
    round_away (nano q) d * d < nano q + d ∧ int64_range (round_away (nano q) d)).
  { intros d Hd. unfold round_away. rewrite Z.sgn_pos, Z.abs_eq, Z.mul_1_l by lia.
    pose proof (Z.div_mod (nano q + d - 1) d ltac:(lia)).
    pose proof (Z.mod_pos_bound (nano q + d - 1) d ltac:(lia)).
    assert (nano q * 110 ≤ (2 ^ 52 - 110) * 10 ^ 9) by (destruct (unit_nano_cases q); nia).
    unfold int64_range, int64_min, int64_max. destruct Hd as [-> | ->]; lia. }
  assert (Hh : nano q ≤ units q * unit_nano q)
    by (apply units_hold; [lia|apply Hr; by left|apply Hr; by right]).
  assert (units q = round_away (nano q) (unit_nano q)) as Hu.
  { unfold units, unit_nano. case_decide; [apply Value_nano|apply MilliValue_nano]; apply Hr; auto. }
  destruct (Hr _ (unit_nano_cases q)) as (H1 & H2 & _). rewrite <-Hu in H1, H2.
  apply applyOverhead_ge; [done| |done]. destruct (unit_nano_cases q); nia.
Qed.

(** Coordination reads only the bounds of the request's configuration. *)
Lemma coordinate_config clamped res cfg info req req' :
  MinAllowed req = MinAllowed req' → MaxAllowed req = MaxAllowed req' →
  coordinate clamped res cfg info req = coordinate clamped res cfg info req'.
Proof. intros E1 E2. unfold coordinate. by rewrite E1, E2. Qed.

(** Where no replica correction applies, to memory and to CPU without an
    anchor, coordination is the exact overhead for the autoscaler's target,
    then the clamp. *)
Lemma coordinate_overhead clamped res cfg info req :
  Enabled cfg = true → i_Kind info ≠ KindNone →
  res = memoryResource ∨ ReplicaBudgetAnchor cfg = None →
  ∃ c, coordinate clamped res cfg info req = Some c ∧
    co_replica c = None ∧
    co_scaled c =
      fst (applyOverhead clamped (default 0 (ConfiguredTargets info !! resource_name res))) ∧
    co_value c = clamp (co_scaled c) (MinAllowed req) (MaxAllowed req).
Proof.
  intros He Hk Hr. unfold coordinate. rewrite He, bool_decide_false by done. cbn [negb orb].
  destruct (applyOverhead _ _) as [scaled ov].
  destruct res, (ReplicaBudgetAnchor cfg); destruct Hr; try done; eauto.
Qed.
End Facts.

(** ** At a concrete input *)
Section Sample.
#[local] Existing Instance amd64.
#[local] Existing Instance nano_quantity.
#[local] Existing Instance nano_quantity_laws.

Definition sample_autoscaler : Info :=
  {| i_Kind := KindHPA; i_Namespace := "prod"; i_Name := "web"; HasUnknownTrigger := false;
     ConfiguredTargets := {[ ResourceMemory := 70 ]}; CurrentReplicas := 2;
     MinReplicas := 1; MaxReplicas := 5 |}.

(** A memory request raised to a minimum of 512M, a decimal quantity, is scaled
    in thousandths of a byte: it comes out with a fraction of one. *)
Example decimal_minimum_fraction :
  let clamped := NQ (512 * 10 ^ 6 * 10 ^ 9) DecimalSI in
  option_map (λ c, nano (co_value c)) (coordinate clamped memoryResource
    {| Enabled := true; ReplicaBudgetAnchor := None |} sample_autoscaler
    {| Headroom := None; KeepRequest := false; MaxAllowed := None; MinAllowed := Some clamped; Percentile := None |}) =
  Some (804571428572 * 10 ^ 6).
Proof. cbv zeta. by_running. Qed.
End Sample.
