(* ===== verification/WlrRead.v ===== *)
(** * What a stored recommendation means
    ([wlrcache.go] and [read.go] of [internal/wlrcache])

    Names, lifetimes and the servable-until stamp, the observed-resources
    snapshot, and the verdict on an object for a pod being admitted. *)

From S2P Require Import Prelude GoLang Quantity Kube WlrApi Shards Resources.
Local Open Scope Z_scope.

Definition maxNameLength : nat := 253.

(** [crypto/sha256] and [encoding/hex]: the digest of a string in hex. *)
Class Hashing : Type := { sha256_hex : string → string }.

(** [strings.ToLower] of an ASCII string. *)
Definition lower_ascii (c : Ascii.ascii) : Ascii.ascii :=
  let n := Ascii.N_of_ascii c in
  if ((65 <=? n) && (n <=? 90))%N then Ascii.ascii_of_N (n + 32) else c.

Fixpoint ToLower (s : string) : string :=
  match s with
  | EmptyString => EmptyString
  | String c s' => String (lower_ascii c) (ToLower s')
  end.

Definition Name {HA : Hashing} (kind name : string) : string :=
  let n := (ToLower kind +:+ "-" +:+ name)%string in
  if (String.length n <=? maxNameLength)%nat then n
  else
    let hash := String.substring 0 10 (sha256_hex n) in
    (String.substring 0 (maxNameLength - String.length hash - 1) n +:+ "-" +:+ hash)%string.

Definition RefOf (id : WorkloadIdentity) : WorkloadReference :=
  {| wr_Kind := id_OwnerKind id; wr_Namespace := id_Namespace id; wr_Name := id_OwnerName id |}.

Definition identityOf (ref : WorkloadReference) : WorkloadIdentity :=
  Identity (wr_Namespace ref) (wr_Kind ref) (wr_Name ref).

Definition keyOf {HA : Hashing} (ref : WorkloadReference) : string * string :=
  (wr_Namespace ref, Name (wr_Kind ref) (wr_Name ref)).

(** ** Lifetimes *)

Definition RefreshInterval : duration := 10 * minute.
Definition MinStalenessBudget : duration := 30 * minute.
Definition DefaultRetention : duration := 168 * hour.

Record Lifetimes := { ReconcileInterval : duration; Retention : duration }.

Definition StalenessBudget (l : Lifetimes) : duration :=
  Z.max MinStalenessBudget (wrap64 (3 * ReconcileInterval l)).

(** [Rfc3339Copy]: to the second the API stores. *)
Definition to_second (t : time) : time := t / second * second.

Definition lastComputed (created observedAt : time) : time :=
  if time_After created observedAt then created else observedAt.

Section Read.
Context {QO : QuantityOps}.
Implicit Types (st : WorkloadRecommendationStatus) (known : WorkloadRecommendation).

(** Served for the retention window rather than the staleness budget. *)
Definition retained st : bool := wlr_Departed st || bool_decide (wlr_Outcome st = OutcomeConflicted).

Definition servableUntil (l : Lifetimes) (created : time) st : time :=
  if decide (wlr_Containers st = ∅) then time_zero
  else
    let last := lastComputed created (ObservedAt st) in
    let window := if retained st then Retention l else StalenessBudget l in
    to_second (time_Add (to_second last) window).

Definition stamp (l : Lifetimes) known st (computed : bool) : time :=
  if time_IsZero (ServableUntil (wlr_Status known)) && negb computed then time_zero
  else servableUntil l (wlr_Created known) st.

(** ** The snapshot of declared resources *)

Definition quantityFrom (rl : ResourceList) (name : string) : option Quantity := rl !! name.

Definition observe (init : bool) (c : Container) : ObservedContainerResources :=
  let r := c_Resources c in
  {| obs_Init := init;
     obs_CPURequest := quantityFrom (Requests r) ResourceCPU;
     obs_MemoryRequest := quantityFrom (Requests r) ResourceMemory;
     obs_CPULimit := quantityFrom (Limits r) ResourceCPU;
     obs_MemoryLimit := quantityFrom (Limits r) ResourceMemory |}.

Definition addObserved (init : bool) (out : gmap string ObservedContainerResources) (cs : list Container) :
    gmap string ObservedContainerResources :=
  foldl (λ m c, <[c_Name c := observe init c]> m) out cs.

Definition BuildObservedResources (containers initContainers : list Container) :
    gmap string ObservedContainerResources :=
  addObserved true (addObserved false ∅ containers) initContainers.

Definition setQuantity (rl : ResourceList) (name : string) (q : option Quantity) : ResourceList :=
  match q with Some q => <[name := q]> rl | None => rl end.

Definition unobserve (name : string) (o : ObservedContainerResources) : Container :=
  {| c_Name := name;
     c_Resources :=
       {| Requests := setQuantity (setQuantity ∅ ResourceCPU (obs_CPURequest o))
                        ResourceMemory (obs_MemoryRequest o);
          Limits := setQuantity (setQuantity ∅ ResourceCPU (obs_CPULimit o))
                      ResourceMemory (obs_MemoryLimit o) |};
     c_RestartPolicy := None |}.

(** The containers, then the init containers, each sorted by name. *)
Definition ContainersFromObserved (obs : gmap string ObservedContainerResources) :
    list Container * list Container :=
  let pick (init : bool) :=
    sort_by (λ a b, String.compare (c_Name a) (c_Name b))
      (map (λ p, unobserve p.1 p.2)
         (List.filter (λ p, Bool.eqb (obs_Init p.2) init) (map_to_list obs))) in
  (pick false, pick true).

Definition quantityEqual (a b : option Quantity) : bool :=
  let zero (q : option Quantity) := match q with None => true | Some q => IsZero q end in
  if zero a || zero b then Bool.eqb (zero a) (zero b)
  else match a, b with Some a, Some b => is_eq (Cmp a b) | _, _ => false end.

Definition observedSame (av bv : ObservedContainerResources) : bool :=
  Bool.eqb (obs_Init av) (obs_Init bv) &&
  quantityEqual (obs_CPURequest av) (obs_CPURequest bv) &&
  quantityEqual (obs_MemoryRequest av) (obs_MemoryRequest bv) &&
  quantityEqual (obs_CPULimit av) (obs_CPULimit bv) &&
  quantityEqual (obs_MemoryLimit av) (obs_MemoryLimit bv).

(** Two maps of one size, every entry of the first the same in the second. *)
Definition map_same {A} (same : A → A → bool) (a b : gmap string A) : bool :=
  bool_decide (size a = size b) &&
  forallb (λ p, match b !! p.1 with Some bv => same p.2 bv | None => false end) (map_to_list a).

Definition observedEqual (a b : gmap string ObservedContainerResources) : bool :=
  map_same observedSame a b.

Definition recommendationSame (av bv : ContainerRecommendation) : bool :=
  quantityEqual (CPURequest av) (CPURequest bv) &&
  quantityEqual (MemoryRequest av) (MemoryRequest bv) &&
  quantityEqual (CPULimit av) (CPULimit bv) &&
  quantityEqual (MemoryLimit av) (MemoryLimit bv) &&
  Bool.eqb (RemoveCPULimit av) (RemoveCPULimit bv) &&
  Bool.eqb (RemoveMemoryLimit av) (RemoveMemoryLimit bv).

Definition statusEquivalent (a b : WorkloadRecommendationStatus) : bool :=
  bool_decide (wlr_Outcome a = wlr_Outcome b) && String.eqb (ComputedBy a) (ComputedBy b) &&
  Bool.eqb (wlr_Departed a) (wlr_Departed b) &&
  map_same recommendationSame (wlr_Containers a) (wlr_Containers b) &&
  observedEqual (ObservedResources a) (ObservedResources b).

(** ** Verdicts *)

Inductive Verdict := Absent | Undecided | VNoData | Withheld | Stale | Fresh | Retained.

Definition Injects (v : Verdict) : bool := match v with Fresh | Retained => true | _ => false end.

Definition Verdict_string (v : Verdict) : string :=
  match v with
  | Absent => "absent" | Undecided => "undecided" | VNoData => "nodata" | Withheld => "withheld"
  | Stale => "stale" | Fresh => "fresh" | Retained => "retained"
  end.

Record Reading := { rdg_Verdict : Verdict; rdg_Recs : gmap string ContainerRecommendation }.

Definition verdict (v : Verdict) : Reading := {| rdg_Verdict := v; rdg_Recs := ∅ |}.

(** [ContainerRecommendation] of the API and of [workload] have the same fields. *)
Definition recsFromStatus st : gmap string ContainerRecommendation := wlr_Containers st.

Definition Read (known : option WorkloadRecommendation) (policy : string) (now : time) : Reading :=
  match known with
  | None => verdict Absent
  | Some known =>
      let st := wlr_Status known in
      if negb (String.eqb (spec_Policy (wlr_Spec known)) policy) then verdict Withheld
      else if decide (wlr_Containers st = ∅) then
        if bool_decide (wlr_Outcome st = OutcomeUnset) then verdict Undecided else verdict VNoData
      else if negb (String.eqb (ComputedBy st) policy) then verdict Withheld
      else if negb (time_Before now (ServableUntil st)) then verdict Stale
      else if retained st then {| rdg_Verdict := Retained; rdg_Recs := recsFromStatus st |}
      else {| rdg_Verdict := Fresh; rdg_Recs := recsFromStatus st |}
  end.

Definition Held (known : option WorkloadRecommendation) (policy : string) :
    option (gmap string ContainerRecommendation) :=
  match known with
  | None => None
  | Some known =>
      let st := wlr_Status known in
      if negb (String.eqb (ComputedBy st) policy) || bool_decide (wlr_Containers st = ∅) then None
      else Some (recsFromStatus st)
  end.
End Read.

(** ** Facts *)

Lemma to_second_le t : to_second t ≤ t < to_second t + second.
Proof.
  unfold to_second, second. pose proof (Z.div_mod t 1000000000 ltac:(lia)).
  pose proof (Z.mod_pos_bound t 1000000000 ltac:(lia)). lia.
Qed.

Lemma to_second_idemp t : to_second (to_second t) = to_second t.
Proof. unfold to_second. by rewrite Z.div_mul by done. Qed.

Lemma to_second_mono t u : t ≤ u → to_second t ≤ to_second u.
Proof. intros. unfold to_second, second. apply Z.mul_le_mono_nonneg_r; [lia|]. by apply Z.div_le_mono. Qed.

Lemma lastComputed_max created observedAt : lastComputed created observedAt = Z.max created observedAt.
Proof. unfold lastComputed, time_After. destruct (Z.ltb_spec observedAt created); lia. Qed.

Lemma StalenessBudget_ge l :
  0 ≤ ReconcileInterval l < 2 ^ 60 →
  MinStalenessBudget ≤ StalenessBudget l ∧ 3 * ReconcileInterval l ≤ StalenessBudget l.
Proof.
  intros. unfold StalenessBudget.
  rewrite wrap64_id by (unfold int64_range, int64_min, int64_max; lia). lia.
Qed.

Section Facts.
Context {QO : QuantityOps}.
Implicit Types (st : WorkloadRecommendationStatus) (known : WorkloadRecommendation).

(** The stamp's window past the last computation, to the second. *)
Definition window (l : Lifetimes) st : duration :=
  if retained st then Retention l else StalenessBudget l.

Lemma servableUntil_bounds l created st :
  wlr_Containers st ≠ ∅ →
  Z.max created (ObservedAt st) + window l st - 2 * second <
    servableUntil l created st ≤ Z.max created (ObservedAt st) + window l st.
Proof.
  intros Hc. unfold servableUntil. rewrite decide_False by done. fold (window l st).
  rewrite lastComputed_max. set (t := Z.max _ _). unfold time_Add.
  pose proof (to_second_le t). pose proof (to_second_le (to_second t + window l st)). lia.
Qed.

Lemma length_substring s n m : (String.length (String.substring n m s) ≤ m)%nat.
Proof.
  revert n m. induction s as [|c s IH]; intros [|n] [|m]; simpl; try lia.
  - specialize (IH 0%nat m). lia.
  - apply IH.
  - apply IH.
Qed.

(** An object's name is within the limit of the API, whatever the digest. *)
Lemma Name_length `{Hashing} kind name : (String.length (Name kind name) ≤ maxNameLength)%nat.
Proof.
  unfold Name. destruct (Nat.leb_spec (String.length (ToLower kind +:+ "-" +:+ name)) maxNameLength); [done|].
  set (n := (ToLower kind +:+ "-" +:+ name)%string).
  pose proof (length_substring (sha256_hex n) 0 10) as Hh.
  set (hash := String.substring 0 10 (sha256_hex n)) in *.
  pose proof (length_substring n 0 (maxNameLength - String.length hash - 1)).
  rewrite !length_append. simpl String.length. unfold maxNameLength in *. lia.
Qed.

Lemma Read_injects_iff (known : option WorkloadRecommendation) policy now recs :
  (Injects (rdg_Verdict (Read known policy now)) = true ∧ rdg_Recs (Read known policy now) = recs) ↔
  ∃ w, known = Some w ∧ spec_Policy (wlr_Spec w) = policy ∧ ComputedBy (wlr_Status w) = policy ∧
    wlr_Containers (wlr_Status w) ≠ ∅ ∧ now < ServableUntil (wlr_Status w) ∧
    recs = wlr_Containers (wlr_Status w).
Proof.
  unfold Read. destruct known as [w|]; [|split; [by intros [? _]|by intros (? & ? & _)]].
  destruct (String.eqb_spec (spec_Policy (wlr_Spec w)) policy) as [E1|E1]; cbn [negb];
    [|split; [by intros [? _]|by intros (? & [= <-] & ? & _)]].
  case_decide as E2.
  { split; [case_bool_decide; by intros [? _]|by intros (? & [= <-] & _ & _ & ? & _)]. }
  destruct (String.eqb_spec (ComputedBy (wlr_Status w)) policy) as [E3|E3]; cbn [negb];
    [|split; [by intros [? _]|by intros (? & [= <-] & _ & ? & _)]].
  unfold time_Before. destruct (Z.ltb_spec now (ServableUntil (wlr_Status w))) as [E4|E4]; cbn [negb].
  2: split; [by intros [? _]|intros (? & [= <-] & _ & _ & _ & ? & _); lia].
  unfold recsFromStatus.
  destruct (retained (wlr_Status w)); cbn; (split; [intros [_ <-]|intros (? & [= <-] & _ & _ & _ & _ & ->)]); eauto 8.
Qed.

(** a pod is injected a recommendation only of its own Policy, which
    computed it, and only before the stamp; then it gets exactly what is
    stored. *)
Theorem Read_injects (known : option WorkloadRecommendation) policy now recs :
  (Injects (rdg_Verdict (Read known policy now)) = true ∧ rdg_Recs (Read known policy now) = recs) ↔
  ∃ w, known = Some w ∧ spec_Policy (wlr_Spec w) = policy ∧ ComputedBy (wlr_Status w) = policy ∧
    wlr_Containers (wlr_Status w) ≠ ∅ ∧ now < ServableUntil (wlr_Status w) ∧
    recs = wlr_Containers (wlr_Status w).
Proof. apply Read_injects_iff. Qed.

(** What a snapshot keeps of a container: its name and its CPU and memory. *)
Definition observed_part (c : Container) : Container := unobserve (c_Name c) (observe false c).

Definition byContainerName (a b : Container) : comparison := String.compare (c_Name a) (c_Name b).

(** a snapshot gives back what it was built from: each list, sorted by name,
    with the CPU and memory each container declares. *)
Theorem observed_round_trip (cs inits : list Container) :
  NoDup (map c_Name (cs ++ inits)) →
  ContainersFromObserved (BuildObservedResources cs inits) =
    (sort_by byContainerName (map observed_part cs), sort_by byContainerName (map observed_part inits)).
Proof.
  intros Hnd. pose proof Hnd as Hnd'. rewrite map_app in Hnd'.
  apply NoDup_app in Hnd' as (Hnd1 & Hdis & Hnd2).
  assert (Hl : map_to_list (BuildObservedResources cs inits) ≡ₚ
    map (λ c, (c_Name c, observe true c)) inits ++ map (λ c, (c_Name c, observe false c)) cs).
  { unfold BuildObservedResources, addObserved.
    rewrite map_to_list_fold_insert; [| done |].
    - apply Permutation_app_head. rewrite map_to_list_fold_insert by done.
      by rewrite map_to_list_empty, app_nil_r.
    - intros c Hc. apply not_elem_of_dom. intros Hin.
      apply elem_of_dom in Hin as [o Ho]. apply elem_of_map_to_list in Ho.
      rewrite map_to_list_fold_insert in Ho by done.
      rewrite map_to_list_empty, app_nil_r in Ho. apply list_elem_of_fmap in Ho as (c' & [= E _] & Hc').
      apply (Hdis (c_Name c)); [rewrite E|]; by apply list_elem_of_fmap_2. }
  assert (Hpick : ∀ b l, NoDup (map c_Name l) →
    map (λ p, unobserve p.1 p.2) (List.filter (λ p, Bool.eqb (obs_Init p.2) b)
      (map_to_list (BuildObservedResources cs inits))) ≡ₚ map observed_part l →
    sort_by (λ a b, String.compare (c_Name a) (c_Name b))
      (map (λ p, unobserve p.1 p.2) (List.filter (λ p, Bool.eqb (obs_Init p.2) b)
        (map_to_list (BuildObservedResources cs inits)))) = sort_by byContainerName (map observed_part l)).
  { intros b l Hl' Hp. pose proof (cmp_on_pre c_Name _ string_compare_pre).
    apply (sort_by_unique byContainerName); [done|].
    intros x y Hx Hy E. rewrite Hp in Hx, Hy.
    apply list_elem_of_fmap in Hx as (c & -> & Hc), Hy as (c' & -> & Hc').
    unfold byContainerName in E. apply String.compare_eq_iff in E. cbn in E.
    f_equal. apply list_elem_of_lookup in Hc as [i Hi], Hc' as [j Hj].
    assert (i = j) as ->; [|congruence].
    eapply (NoDup_lookup (map c_Name l)); [done| |]; rewrite list_lookup_fmap.
    - by rewrite Hi.
    - by rewrite Hj, E. }
  assert (Hf : ∀ b b' l, List.filter (λ p, Bool.eqb (obs_Init p.2) b) (map (λ c, (c_Name c, observe b' c)) l) =
    if Bool.eqb b' b then map (λ c, (c_Name c, observe b' c)) l else []).
  { intros b b' l. induction l as [|c l IH]; cbn; [by destruct (Bool.eqb b' b)|].
    rewrite IH. by destruct (Bool.eqb b' b). }
  assert (Hm : ∀ b l, map (λ p, unobserve p.1 p.2) (map (λ c, (c_Name c, observe b c)) l) = map observed_part l).
  { intros b l. rewrite map_map. by apply map_ext. }
  unfold ContainersFromObserved. f_equal; apply Hpick; try done; rewrite Hl, List.filter_app, !Hf; cbn.
  - by rewrite Hm.
  - by rewrite app_nil_r, Hm.
Qed.
End Facts.

Section Equality.
Context {QO : QuantityOps} {QL : QuantityLaws}.

(** The number an optional quantity stands for: an unset one is zero. *)
Definition nano_or_zero (q : option Quantity) : Z := match q with Some q => nano q | None => 0 end.

Lemma quantityEqual_nano a b : quantityEqual a b = true ↔ nano_or_zero a = nano_or_zero b.
Proof.
  unfold quantityEqual, nano_or_zero. destruct a as [a|], b as [b|]; rewrite ?IsZero_nano; try done.
  - destruct (Z.eqb_spec (nano a) 0), (Z.eqb_spec (nano b) 0); cbn; try (split; [done|lia]); [lia|].
    rewrite Cmp_nano. destruct (Z.compare_spec (nano a) (nano b)); cbn; split; try done; lia.
  - rewrite orb_true_r. destruct (Z.eqb_spec (nano a) 0); cbn; split; try done; lia.
  - cbn. destruct (Z.eqb_spec (nano b) 0); cbn; split; try done; lia.
Qed.

#[export] Instance quantityEqual_equivalence : Equivalence (λ a b, quantityEqual a b = true).
Proof.
  split; [intros a|intros a b|intros a b c]; rewrite !quantityEqual_nano; congruence.
Qed.
End Equality.

(** ** At a concrete input *)
Section Sample.
#[local] Existing Instance nano_quantity.

Definition sample_observed (name : string) (m : Z) : Container :=
  {| c_Name := name;
     c_Resources := {| Requests := {[ ResourceCPU := NQ (m * 10 ^ 6) DecimalSI ]}; Limits := ∅ |};
     c_RestartPolicy := Some "Always" |}.

Lemma observed_round_trip_witness :
  ContainersFromObserved (BuildObservedResources [sample_observed "web" 500; sample_observed "app" 100]
    [sample_observed "init" 50]) =
  ([observed_part (sample_observed "app" 100); observed_part (sample_observed "web" 500)],
   [observed_part (sample_observed "init" 50)]).
Proof. rewrite observed_round_trip; [reflexivity|by_evaluation]. Defined.
End Sample.
