(* ===== verification/WlrWrite.v ===== *)
(** * The writers of a recommendation
    ([write.go] and [delete.go] of [internal/wlrcache])

    Each writer makes at most one call of each kind, so the API server is the
    answers it gives ([WlrClient]); the writes a writer issues are returned
    beside its result, in order. *)

From S2P Require Import Prelude GoLang Quantity Kube WlrApi Shards Owners WlrRead.
Local Open Scope Z_scope.

Definition WLRPolicyLabel : string := "k8s.sustain.io/policy".
Definition WLRStubLabel : string := "k8s.sustain.io/stub".

Definition errNotEnsured : error := Sentinel "errNotEnsured".

(** [apierrors.IsAlreadyExists] and [IsConflict]: both are a 409 of the API,
    told apart by their reason. *)
Definition reasonAlreadyExists : string := "AlreadyExists".
Definition reasonConflict : string := "Conflict".

Definition has_reason (reason : string) (e : error) : bool :=
  match e with APIStatus 409 m => String.eqb m reason | _ => false end.

Definition IsAlreadyExists : error → bool := has_reason reasonAlreadyExists.
Definition IsConflict : error → bool := has_reason reasonConflict.

Section Write.
Context {QO : QuantityOps} {HA : Hashing}.
Implicit Types (known patched obj : WorkloadRecommendation)
  (observed : gmap string ObservedContainerResources).

(** A patch names the object it is computed against and what it becomes. *)
Inductive write :=
  | WCreate (obj : WorkloadRecommendation)
  | WPatch (known patched : WorkloadRecommendation)
  | WStatusPatch (known patched : WorkloadRecommendation)
  | WDelete (uid resourceVersion : string).

(** What the API server answers: for a create or a patch, the stored object. *)
Record WlrClient := {
  cl_Get : string * string → result WorkloadRecommendation;
  cl_Create : WorkloadRecommendation → result WorkloadRecommendation;
  cl_Patch : WorkloadRecommendation → WorkloadRecommendation → result WorkloadRecommendation;
  cl_StatusPatch : WorkloadRecommendation → WorkloadRecommendation → result WorkloadRecommendation;
  cl_List : option string → result (list WorkloadRecommendation);
  cl_Delete : WorkloadRecommendation → option error;
  cl_ListPolicies : result (list string);
}.

Implicit Types c : WlrClient.

Definition with_observed (st : WorkloadRecommendationStatus) observed : WorkloadRecommendationStatus :=
  {| ObservedAt := ObservedAt st; wlr_Outcome := wlr_Outcome st; ComputedBy := ComputedBy st;
     wlr_Departed := wlr_Departed st; ServableUntil := ServableUntil st;
     wlr_Containers := wlr_Containers st; wlr_Trace := wlr_Trace st; ObservedResources := observed |}.

Definition with_departed (st : WorkloadRecommendationStatus) (b : bool) : WorkloadRecommendationStatus :=
  {| ObservedAt := ObservedAt st; wlr_Outcome := wlr_Outcome st; ComputedBy := ComputedBy st;
     wlr_Departed := b; ServableUntil := ServableUntil st;
     wlr_Containers := wlr_Containers st; wlr_Trace := wlr_Trace st;
     ObservedResources := ObservedResources st |}.

Definition with_servable (st : WorkloadRecommendationStatus) (t : time) : WorkloadRecommendationStatus :=
  {| ObservedAt := ObservedAt st; wlr_Outcome := wlr_Outcome st; ComputedBy := ComputedBy st;
     wlr_Departed := wlr_Departed st; ServableUntil := t;
     wlr_Containers := wlr_Containers st; wlr_Trace := wlr_Trace st;
     ObservedResources := ObservedResources st |}.

(** ** Request *)

Definition ShouldRequest (mknown : option WorkloadRecommendation) (policy : string) observed : bool :=
  match mknown with
  | None => true
  | Some known =>
      let st := wlr_Status known in
      if negb (String.eqb (spec_Policy (wlr_Spec known)) policy) || bool_decide (observed = ∅) then false
      else if negb (wlr_Departed st) && bool_decide (ObservedResources st ≠ ∅) then false
      else existsb (λ p, match ObservedResources st !! p.1 with Some _ => false | None => true end)
             (map_to_list observed)
  end.

Definition writeSnapshot c known observed : option error * list write :=
  let patched := with_status known (with_observed (wlr_Status known) observed) in
  (match cl_StatusPatch c known patched with
   | Err e => Some (Errorf "writing WorkloadRecommendation observed resources" [e])
   | Ok _ => None
   end, [WStatusPatch known patched]).

Definition newObject (ref : WorkloadReference) (policy : string) : WorkloadRecommendation :=
  {| wlr_Namespace := fst (keyOf ref); wlr_Name := snd (keyOf ref); wlr_UID := "";
     wlr_ResourceVersion := ""; wlr_Labels := {[WLRPolicyLabel := policy]}; wlr_Created := time_zero;
     wlr_Spec := {| WorkloadRef := ref; spec_Policy := policy |}; wlr_Status := noStatus |}.

Definition with_labels obj (ls : strmap) : WorkloadRecommendation :=
  {| wlr_Namespace := wlr_Namespace obj; wlr_Name := wlr_Name obj; wlr_UID := wlr_UID obj;
     wlr_ResourceVersion := wlr_ResourceVersion obj; wlr_Labels := ls; wlr_Created := wlr_Created obj;
     wlr_Spec := wlr_Spec obj; wlr_Status := wlr_Status obj |}.

(** [maps.Copy] twice: what the object already holds wins. *)
Definition merged known observed : gmap string ObservedContainerResources :=
  ObservedResources (wlr_Status known) ∪ observed.

Definition Request c (mknown : option WorkloadRecommendation) (ref : WorkloadReference)
    (policy : string) observed : option error * list write :=
  match mknown with
  | Some known =>
      if negb (ShouldRequest (Some known) policy observed) then (None, [])
      else writeSnapshot c known (merged known observed)
  | None =>
      let obj := newObject ref policy in
      let obj := with_labels obj (<[WLRStubLabel := "true"]> (wlr_Labels obj)) in
      match cl_Create c obj with
      | Err e =>
          (if IsAlreadyExists e then None
           else Some (Errorf "creating WorkloadRecommendation stub" [e]), [WCreate obj])
      | Ok stored =>
          if bool_decide (observed = ∅) then (None, [WCreate obj])
          else
            let '(e, ws) := writeSnapshot c stored observed in (e, WCreate obj :: ws)
      end
  end.

(** ** Ensure *)

Definition claim c known (ref : WorkloadReference) (policy : string) :
    result WorkloadRecommendation * list write :=
  let patched :=
    {| wlr_Namespace := wlr_Namespace known; wlr_Name := wlr_Name known; wlr_UID := wlr_UID known;
       wlr_ResourceVersion := wlr_ResourceVersion known;
       wlr_Labels := <[WLRPolicyLabel := policy]> (wlr_Labels known); wlr_Created := wlr_Created known;
       wlr_Spec := {| WorkloadRef := ref; spec_Policy := policy |}; wlr_Status := wlr_Status known |} in
  (match cl_Patch c known patched with
   | Err e => Err (Errorf "claiming WorkloadRecommendation" [e])
   | Ok stored => Ok stored
   end, [WPatch known patched]).

(** The object a blind claim patches: nothing but its name. *)
Definition named (ref : WorkloadReference) : WorkloadRecommendation :=
  {| wlr_Namespace := fst (keyOf ref); wlr_Name := snd (keyOf ref); wlr_UID := "";
     wlr_ResourceVersion := ""; wlr_Labels := ∅; wlr_Created := time_zero;
     wlr_Spec := {| WorkloadRef := {| wr_Kind := ""; wr_Namespace := ""; wr_Name := "" |};
                    spec_Policy := "" |};
     wlr_Status := noStatus |}.

Definition create c (ref : WorkloadReference) (policy : string) :
    result WorkloadRecommendation * list write :=
  let obj := newObject ref policy in
  match cl_Create c obj with
  | Ok stored => (Ok stored, [WCreate obj])
  | Err e =>
      if IsAlreadyExists e then
        let '(r, ws) := claim c (named ref) ref policy in (r, WCreate obj :: ws)
      else (Err (Errorf "creating WorkloadRecommendation" [e]), [WCreate obj])
  end.

(** The object Ensure starts from: read, created, or claimed for the Policy. *)
Definition obtain c (ref : WorkloadReference) (policy : string) :
    result WorkloadRecommendation * list write :=
  match cl_Get c (keyOf ref) with
  | Err e =>
      if IsNotFound e then create c ref policy
      else (Err (Errorf "reading WorkloadRecommendation" [e]), [])
  | Ok known =>
      if bool_decide (WorkloadRef (wlr_Spec known) ≠ ref) ||
         negb (String.eqb (spec_Policy (wlr_Spec known)) policy) ||
         negb (String.eqb (index (wlr_Labels known) WLRPolicyLabel) policy)
      then claim c known ref policy
      else (Ok known, [])
  end.

(** [observed] is [None] for the nil snapshot, which leaves the stored one. *)
Definition Ensure c (ref : WorkloadReference) (policy : string)
    (observed : option (gmap string ObservedContainerResources)) (l : Lifetimes) :
    result WorkloadRecommendation * list write :=
  match obtain c ref policy with
  | (Err e, ws) => (Err e, ws)
  | (Ok known, ws) =>
      let st := wlr_Status known in
      if negb (wlr_Departed st) &&
         match observed with None => true | Some o => observedEqual (ObservedResources st) o end
      then (Ok known, ws)
      else
        let st' := with_departed st false in
        let st' := match observed with Some o => with_observed st' o | None => st' end in
        let st' := with_servable st' (stamp l known st' false) in
        let patched := with_status known st' in
        (match cl_StatusPatch c known patched with
         | Err e => Err (Errorf "patching WorkloadRecommendation status" [e])
         | Ok stored => Ok stored
         end, ws ++ [WStatusPatch known patched])
  end.

(** ** Record *)

Record decision := {
  dec_Outcome : RecommendationOutcome;
  dec_Recs : gmap string ContainerRecommendation;
  dec_Traces : gmap string ContainerTrace;
  dec_Departed : bool;
}.

(** The status a decision leaves the object with. *)
Definition desiredStatus known (d : decision) (now : time) (l : Lifetimes) :
    WorkloadRecommendationStatus :=
  let st := wlr_Status known in
  let computed := bool_decide (dec_Outcome d = OutcomeComputed) in
  let desired :=
    {| ObservedAt := ObservedAt st; wlr_Outcome := dec_Outcome d;
       ComputedBy := if computed then spec_Policy (wlr_Spec known) else ComputedBy st;
       wlr_Departed := dec_Departed d; ServableUntil := ServableUntil st;
       wlr_Containers := if computed then dec_Recs d else wlr_Containers st;
       wlr_Trace := if computed then dec_Traces d else wlr_Trace st;
       ObservedResources := ObservedResources st |} in
  let observedAt :=
    if computed && (negb (statusEquivalent st desired) ||
                    (RefreshInterval <=? time_Sub now (ObservedAt st)))
    then now else ObservedAt st in
  let desired :=
    {| ObservedAt := observedAt; wlr_Outcome := wlr_Outcome desired; ComputedBy := ComputedBy desired;
       wlr_Departed := wlr_Departed desired; ServableUntil := ServableUntil desired;
       wlr_Containers := wlr_Containers desired; wlr_Trace := wlr_Trace desired;
       ObservedResources := ObservedResources desired |} in
  with_servable desired (stamp l known desired computed).

(** Nothing to write. *)
Definition unchanged (st desired : WorkloadRecommendationStatus) : bool :=
  statusEquivalent st desired && (ObservedAt desired =? ObservedAt st) &&
  (ServableUntil desired =? ServableUntil st).

(** [Record] of Go; a keyword here. *)
Definition RecordDecision c (mknown : option WorkloadRecommendation) (d : decision) (now : time)
    (l : Lifetimes) : option error * list write :=
  match mknown with
  | None => (Some errNotEnsured, [])
  | Some known =>
      let desired := desiredStatus known d now l in
      if unchanged (wlr_Status known) desired then (None, [])
      else
        let patched := with_status known desired in
        (match cl_StatusPatch c known patched with
         | Err e => Some (Errorf "recording into WorkloadRecommendation" [e])
         | Ok _ => None
         end, [WStatusPatch known patched])
  end.

(** ** Deletes *)

Inductive Standing := SUngoverned | SGoverned | SDeparted | SConflicted.

Definition sweepGrace : duration := 10 * minute.

Definition Expired known (policy : string) (s : Standing) (at_ : time) (l : Lifetimes) : bool :=
  if negb (String.eqb (spec_Policy (wlr_Spec known)) policy) then false
  else if time_Sub at_ (wlr_Created known) <? sweepGrace then false
  else
    match s with
    | SUngoverned => true
    | SDeparted | SConflicted =>
        Retention l <? time_Sub at_ (lastComputed (wlr_Created known) (ObservedAt (wlr_Status known)))
    | SGoverned => false
    end.

Inductive onConflict := judgeNextTime | failRelease.

(** One listed object: the count, the first failure and the deletes so far. *)
Definition deleteOne c (conflict : onConflict) (expired : WorkloadRecommendation → bool)
    (acc : Z * option error * list write) known : Z * option error * list write :=
  let '(deleted, failed, ws) := acc in
  if negb (expired known) then acc
  else
    let ws := ws ++ [WDelete (wlr_UID known) (wlr_ResourceVersion known)] in
    match cl_Delete c known with
    | None => (deleted + 1, failed, ws)
    | Some e =>
        if IsNotFound e then (deleted + 1, failed, ws)
        else
          match conflict with
          | judgeNextTime =>
              if IsConflict e then (deleted, failed, ws)
              else (deleted, match failed with Some f => Some f
                             | None => Some (Errorf "deleting WorkloadRecommendation" [e]) end, ws)
          | failRelease =>
              (deleted, match failed with Some f => Some f
                        | None => Some (Errorf "deleting WorkloadRecommendation" [e]) end, ws)
          end
    end.

Definition deleteWhere c (conflict : onConflict) (label : option string)
    (expired : WorkloadRecommendation → bool) : Z * option error * list write :=
  match cl_List c label with
  | Err e => (0, Some (Errorf "listing WorkloadRecommendations" [e]), [])
  | Ok items => foldl (deleteOne c conflict expired) (0, None, []) items
  end.

Definition Sweep c (policy : string) (standing : WorkloadIdentity → Standing) (at_ : time)
    (l : Lifetimes) : Z * option error * list write :=
  deleteWhere c judgeNextTime (Some policy)
    (λ known, Expired known policy (standing (identityOf (WorkloadRef (wlr_Spec known)))) at_ l).

Definition Release c (policy : string) : Z * option error * list write :=
  deleteWhere c failRelease (Some policy) (λ known, String.eqb (spec_Policy (wlr_Spec known)) policy).

Definition Reap c : Z * option error * list write :=
  match cl_ListPolicies c with
  | Err e => (0, Some (Errorf "listing Policies" [e]), [])
  | Ok policies =>
      deleteWhere c judgeNextTime None
        (λ known, negb (String.eqb (spec_Policy (wlr_Spec known)) "") &&
                  negb (contains (spec_Policy (wlr_Spec known)) policies))
  end.
End Write.

(** ** Facts *)
Section Facts.
Context {QO : QuantityOps} {QL : QuantityLaws} {HA : Hashing}.
Implicit Types (known : WorkloadRecommendation) (st : WorkloadRecommendationStatus) (c : WlrClient)
  (l : Lifetimes) (d : decision).

Lemma quantityEqual_refl q : quantityEqual q q = true.
Proof. by apply quantityEqual_nano. Qed.

Lemma map_same_refl {A} (same : A → A → bool) m : (∀ x, same x x = true) → map_same same m m = true.
Proof.
  intros Hr. unfold map_same. rewrite bool_decide_true by done. cbn [andb].
  apply forallb_forall_elem. intros [k x] Hk%elem_of_map_to_list. cbn. by rewrite Hk.
Qed.

Lemma statusEquivalent_containers a b :
  statusEquivalent a b = true → (wlr_Containers a = ∅ ↔ wlr_Containers b = ∅).
Proof.
  unfold statusEquivalent, map_same. intros H. bool_props.
  rewrite <-!(map_size_empty_iff (M := gmap string)). lia.
Qed.

Lemma observedSame_refl o : observedSame o o = true.
Proof. unfold observedSame. by rewrite !quantityEqual_refl, eqb_reflx. Qed.

Lemma recommendationSame_refl o : recommendationSame o o = true.
Proof. unfold recommendationSame. by rewrite !quantityEqual_refl, !eqb_reflx. Qed.

(** Equivalence looks at no time and no trace. *)
Lemma statusEquivalent_same a b :
  wlr_Outcome a = wlr_Outcome b → ComputedBy a = ComputedBy b → wlr_Departed a = wlr_Departed b →
  wlr_Containers a = wlr_Containers b → ObservedResources a = ObservedResources b →
  statusEquivalent a b = true.
Proof.
  intros E1 E2 E3 E4 E5. unfold statusEquivalent, observedEqual. rewrite E1, E2, E3, E4, E5.
  rewrite bool_decide_true, String.eqb_refl, eqb_reflx by done. cbn [andb].
  rewrite !map_same_refl; [done|apply observedSame_refl|apply recommendationSame_refl].
Qed.

(** ** Record *)

(** The status the object is left with: the one written, or the stored one when
    nothing is. *)
Definition statusAfter known d (now : time) l : WorkloadRecommendationStatus :=
  let desired := desiredStatus known d now l in
  if unchanged (wlr_Status known) desired then wlr_Status known else desired.

(** A decision that computed nothing leaves the Recommendation, how it was
    derived, when and by whom. *)
Lemma desiredStatus_keeps known d now l :
  dec_Outcome d ≠ OutcomeComputed →
  let st := wlr_Status known in
  let st' := desiredStatus known d now l in
  wlr_Containers st' = wlr_Containers st ∧ wlr_Trace st' = wlr_Trace st ∧
  ComputedBy st' = ComputedBy st ∧ ObservedAt st' = ObservedAt st.
Proof. intros H. unfold desiredStatus. cbn. by rewrite bool_decide_false. Qed.

(** Stamped by the formula, or not at all. *)
Definition well_stamped l known st : Prop :=
  ServableUntil st = time_zero ∨ ServableUntil st = servableUntil l (wlr_Created known) st.

Lemma desiredStatus_stamped known d now l :
  well_stamped l known (desiredStatus known d now l).
Proof.
  unfold well_stamped, desiredStatus, stamp. cbn.
  destruct (time_IsZero (ServableUntil (wlr_Status known)) && _); [by left|by right].
Qed.

(** A well-stamped Recommendation is served for its window past its last
    computation and no longer: a controller that stops computing stops
    injection. *)
Lemma Read_until l known policy t :
  well_stamped l known (wlr_Status known) → 0 ≤ t →
  Injects (rdg_Verdict (Read (Some known) policy t)) = true →
  t < Z.max (wlr_Created known) (ObservedAt (wlr_Status known)) + window l (wlr_Status known).
Proof.
  intros Hst Ht Hi.
  destruct (proj1 (Read_injects_iff (Some known) policy t _) (conj Hi eq_refl))
    as (w & [= <-] & _ & _ & Hc & Hlt & _).
  destruct Hst as [E|E]; rewrite E in Hlt; [unfold time_zero in Hlt; lia|].
  pose proof (servableUntil_bounds l (wlr_Created known) (wlr_Status known) Hc). lia.
Qed.

Lemma desiredStatus_computed known d now l :
  dec_Outcome d = OutcomeComputed →
  let st' := desiredStatus known d now l in
  wlr_Outcome st' = OutcomeComputed ∧ ComputedBy st' = spec_Policy (wlr_Spec known) ∧
  wlr_Departed st' = dec_Departed d ∧ wlr_Containers st' = dec_Recs d ∧
  ServableUntil st' = servableUntil l (wlr_Created known) st' ∧
  (ObservedAt st' = now ∨
   ObservedAt st' = ObservedAt (wlr_Status known) ∧
     time_Sub now (ObservedAt (wlr_Status known)) < RefreshInterval).
Proof.
  intros H. unfold desiredStatus, stamp. cbn. rewrite bool_decide_true by done. rewrite andb_false_r.
  cbn. split_and!; try done.
  destruct (negb (statusEquivalent _ _)); cbn; [by left|].
  destruct (Z.leb_spec RefreshInterval (time_Sub now (ObservedAt (wlr_Status known)))); [by left|by right].
Qed.

Lemma unchanged_fields st st' :
  unchanged st st' = true →
  statusEquivalent st st' = true ∧ ObservedAt st' = ObservedAt st ∧ ServableUntil st' = ServableUntil st.
Proof. unfold unchanged. intros H. bool_props. done. Qed.

Lemma statusEquivalent_fields st st' :
  statusEquivalent st st' = true →
  wlr_Outcome st = wlr_Outcome st' ∧ ComputedBy st = ComputedBy st' ∧ wlr_Departed st = wlr_Departed st' ∧
  map_same recommendationSame (wlr_Containers st) (wlr_Containers st') = true.
Proof.
  unfold statusEquivalent. intros H. bool_props. split_and!; try done.
  - by apply String.eqb_eq.
  - by apply eqb_prop.
Qed.

Lemma servable_after_computed known d now l :
  dec_Outcome d = OutcomeComputed → dec_Recs d ≠ ∅ → dec_Departed d = false →
  int64_range (now - ObservedAt (wlr_Status known)) →
  now + StalenessBudget l - RefreshInterval - 2 * second < ServableUntil (desiredStatus known d now l).
Proof.
  intros Hc Hr Hd Hrange.
  destruct (desiredStatus_computed known d now l Hc) as (Ho & _ & Hdep & Hcs & -> & Hobs).
  generalize dependent (desiredStatus known d now l). intros st' Ho Hdep Hcs Hobs.
  pose proof (servableUntil_bounds l (wlr_Created known) st') as [Hb _]; [by rewrite Hcs|].
  unfold window, retained in Hb. rewrite Hdep, Hd, Ho, bool_decide_false in Hb by done. cbn [orb] in Hb.
  destruct Hobs as [E|[E Hlt]]; rewrite E in Hb; [unfold RefreshInterval, minute, second in *; lia|].
  rewrite time_Sub_exact in Hlt by done. lia.
Qed.

(** Recorded, a computation is what the object holds, whether or not it cost a
    write. *)
Lemma statusAfter_computed known d now l :
  dec_Outcome d = OutcomeComputed →
  let st := statusAfter known d now l in
  wlr_Outcome st = OutcomeComputed ∧ ComputedBy st = spec_Policy (wlr_Spec known) ∧
  wlr_Departed st = dec_Departed d ∧ ServableUntil st = ServableUntil (desiredStatus known d now l) ∧
  map_same recommendationSame (wlr_Containers st) (dec_Recs d) = true ∧
  (wlr_Containers st = ∅ ↔ dec_Recs d = ∅).
Proof.
  intros Hc. destruct (desiredStatus_computed known d now l Hc) as (Ho & Hby & Hdep & Hcs & _ & _).
  unfold statusAfter. cbn zeta. generalize dependent (desiredStatus known d now l). intros st' Ho Hby Hdep Hcs.
  destruct (unchanged (wlr_Status known) st') eqn:E.
  - apply unchanged_fields in E as (Heq & _ & Hsu).
    destruct (statusEquivalent_fields _ _ Heq) as (E1 & E2 & E3 & E4).
    rewrite (statusEquivalent_containers _ _ Heq), Hcs in *. split_and!; congruence || done.
  - rewrite Hcs. split_and!; try done. apply map_same_refl, recommendationSame_refl.
Qed.

(** What a live computation holds is Fresh until the object says. *)
Lemma Read_fresh known st t :
  wlr_Outcome st = OutcomeComputed → ComputedBy st = spec_Policy (wlr_Spec known) → wlr_Departed st = false →
  wlr_Containers st ≠ ∅ → t < ServableUntil st →
  Read (Some (with_status known st)) (spec_Policy (wlr_Spec known)) t =
    {| rdg_Verdict := Fresh; rdg_Recs := wlr_Containers st |}.
Proof.
  intros H1 H2 H3 H4 H5. unfold Read, retained. cbn [wlr_Spec wlr_Status with_status].
  rewrite String.eqb_refl, decide_False, H2, String.eqb_refl, H3, H1 by done. cbn.
  unfold time_Before. by rewrite (proj2 (Z.ltb_lt _ _)) by lia.
Qed.


Lemma servableUntil_ext l created a b :
  wlr_Containers a = wlr_Containers b → ObservedAt a = ObservedAt b → wlr_Departed a = wlr_Departed b →
  wlr_Outcome a = wlr_Outcome b → servableUntil l created a = servableUntil l created b.
Proof. intros E1 E2 E3 E4. unfold servableUntil, retained. by rewrite E1, E2, E3, E4. Qed.

(** The fields of the status a decision leaves, its times apart. *)
Lemma desiredStatus_fields known d now l :
  let computed := bool_decide (dec_Outcome d = OutcomeComputed) in
  let st := wlr_Status known in
  let st' := desiredStatus known d now l in
  wlr_Outcome st' = dec_Outcome d ∧ wlr_Departed st' = dec_Departed d ∧
  ComputedBy st' = (if computed then spec_Policy (wlr_Spec known) else ComputedBy st) ∧
  wlr_Containers st' = (if computed then dec_Recs d else wlr_Containers st) ∧
  ObservedResources st' = ObservedResources st ∧
  ObservedAt st' = (if computed && (negb (statusEquivalent st st') ||
                                    (RefreshInterval <=? time_Sub now (ObservedAt st)))
                    then now else ObservedAt st) ∧
  ServableUntil st' = stamp l known st' computed.
Proof. done. Qed.

Lemma desiredStatus_again known d now l :
  let st := desiredStatus known d now l in
  let st' := desiredStatus (with_status known st) d now l in
  statusEquivalent st st' = true ∧ ObservedAt st' = ObservedAt st.
Proof.
  cbn zeta.
  destruct (desiredStatus_fields known d now l) as (F1 & F2 & F3 & F4 & F5 & F6 & _).
  set (st := desiredStatus known d now l) in *.
  destruct (desiredStatus_fields (with_status known st) d now l) as (G1 & G2 & G3 & G4 & G5 & G6 & _).
  set (st' := desiredStatus (with_status known st) d now l) in *.
  cbn [wlr_Status wlr_Spec with_status] in G3, G4, G5, G6.
  generalize dependent (bool_decide (dec_Outcome d = OutcomeComputed)). intros computed F3 F4 F6 G3 G4 G6.
  assert (Heq : statusEquivalent st st' = true).
  { apply statusEquivalent_same; [congruence| |congruence| |congruence].
    - rewrite G3, F3. by destruct computed.
    - rewrite G4, F4. by destruct computed. }
  split; [done|]. rewrite G6, Heq. cbn [negb orb].
  destruct computed; [|done]. cbn [andb] in *.
  destruct (Z.leb_spec RefreshInterval (time_Sub now (ObservedAt st))) as [Hle|]; [|done].
  rewrite F6 in Hle |- *. destruct (negb (statusEquivalent _ st) || _) eqn:E; [done|].
  apply orb_false_iff in E as [_ E]. apply Z.leb_gt in E. lia.
Qed.

(** recording the same decision again at the same instant writes nothing. *)
Theorem Record_idempotent c known d now l :
  RecordDecision c (Some (with_status known (desiredStatus known d now l))) d now l = (None, []).
Proof.
  unfold RecordDecision. cbn [wlr_Status with_status].
  destruct (desiredStatus_again known d now l) as [Heq Hobs].
  destruct (statusEquivalent_fields _ _ Heq) as (E1 & _ & E3 & _).
  destruct (desiredStatus_fields known d now l) as (_ & _ & _ & F4 & _ & _ & F7).
  set (st := desiredStatus known d now l) in *.
  destruct (desiredStatus_fields (with_status known st) d now l) as (_ & _ & _ & G4 & _ & _ & G7).
  set (st' := desiredStatus (with_status known st) d now l) in *.
  cbn [wlr_Status with_status] in G4.
  generalize dependent (bool_decide (dec_Outcome d = OutcomeComputed)). intros computed F4 F7 G4 G7.
  assert (Hcs : wlr_Containers st' = wlr_Containers st) by (rewrite G4, F4; by destruct computed).
  assert (Hext : servableUntil l (wlr_Created known) st' = servableUntil l (wlr_Created known) st)
    by (by apply servableUntil_ext).
  assert (Hsu : ServableUntil st' = ServableUntil st).
  { rewrite G7. unfold stamp in *. cbn [wlr_Status wlr_Created with_status]. rewrite Hext.
    destruct (time_IsZero (ServableUntil (wlr_Status known)) && negb computed) eqn:E.
    - apply andb_true_iff in E as [_ E]. rewrite F7, E. done.
    - destruct (time_IsZero (ServableUntil st) && negb computed) eqn:E'; [|done].
      apply andb_true_iff in E' as [E' _]. unfold time_IsZero in E'. apply Z.eqb_eq in E'.
      unfold time_zero. congruence. }
  unfold unchanged. by rewrite Heq, Hobs, Hsu, !Z.eqb_refl.
Qed.

(** ** Ensure and Request *)

(** A write that leaves the Recommendation, the outcome and who computed it as
    they are in the object it is computed against. *)
Definition keeps_recommendation (w : write) : Prop :=
  match w with
  | WCreate obj => wlr_Status obj = noStatus
  | WPatch known patched => wlr_Status patched = wlr_Status known
  | WStatusPatch known patched =>
      wlr_Spec patched = wlr_Spec known ∧
      wlr_Containers (wlr_Status patched) = wlr_Containers (wlr_Status known) ∧
      wlr_Trace (wlr_Status patched) = wlr_Trace (wlr_Status known) ∧
      wlr_Outcome (wlr_Status patched) = wlr_Outcome (wlr_Status known) ∧
      ComputedBy (wlr_Status patched) = ComputedBy (wlr_Status known) ∧
      ObservedAt (wlr_Status patched) = ObservedAt (wlr_Status known)
  | WDelete _ _ => False
  end.

Lemma obtain_writes c ref policy : Forall keeps_recommendation (snd (obtain c ref policy)).
Proof.
  unfold obtain, create, claim. repeat case_match; simplify_eq/=; repeat constructor.
Qed.

(** claiming an identity never touches its Recommendation: whatever the
    server answers, no write of Ensure changes the numbers, their trace, their
    date, the outcome or the Policy they are served to. *)
Theorem Ensure_keeps c ref policy observed l :
  Forall keeps_recommendation (snd (Ensure c ref policy observed l)).
Proof.
  unfold Ensure. pose proof (obtain_writes c ref policy) as H.
  destruct (obtain c ref policy) as [[known|e] ws]; [|done]. cbn [snd] in H.
  destruct (_ && _); [done|]. cbn [snd]. apply Forall_app. split; [done|].
  repeat constructor; by destruct observed.
Qed.

(** Nor does a request of the webhook. *)
Lemma Request_keeps c mknown ref policy observed :
  Forall keeps_recommendation (snd (Request c mknown ref policy observed)).
Proof.
  unfold Request, writeSnapshot. repeat case_match; simplify_eq/=; repeat constructor.
Qed.

(** An object just ensured needs no ensuring: it is live, the Policy's, and
    holds the snapshot. *)
Lemma Ensure_settled c ref policy o l known :
  cl_Get c (keyOf ref) = Ok known → WorkloadRef (wlr_Spec known) = ref →
  spec_Policy (wlr_Spec known) = policy → index (wlr_Labels known) WLRPolicyLabel = policy →
  wlr_Departed (wlr_Status known) = false → observedEqual (ObservedResources (wlr_Status known)) o = true →
  Ensure c ref policy (Some o) l = (Ok known, []).
Proof.
  intros Hg Hr Hp Hl Hd Ho. unfold Ensure, obtain.
  rewrite Hg, bool_decide_false, Hp, Hl, !String.eqb_refl by (by intros []). cbn [negb orb].
  by rewrite Hd, Ho.
Qed.

(** The snapshot a request writes keeps every container the object knew and
    leaves nothing more to request. *)
Lemma Request_settles known policy observed :
  let known' := with_status known (with_observed (wlr_Status known) (merged known observed)) in
  ObservedResources (wlr_Status known) ⊆ ObservedResources (wlr_Status known') ∧
  ShouldRequest (Some known') policy observed = false.
Proof.
  cbn zeta. split; [apply map_union_subseteq_l|].
  unfold ShouldRequest. cbn [wlr_Status wlr_Spec with_status wlr_Departed ObservedResources with_observed].
  destruct (_ || _); [done|]. destruct (_ && _); [done|].
  apply not_true_iff_false. intros H. apply existsb_exists_elem in H as ([n o] & Hin & H).
  apply elem_of_map_to_list in Hin. cbn [fst] in H. unfold merged in H.
  destruct (ObservedResources (wlr_Status known) !! n) as [o'|] eqn:E.
  - by erewrite lookup_union_Some_l in H.
  - by rewrite lookup_union_r, Hin in H.
Qed.

(** ** Deletes *)

(** a sweep never deletes a Recommendation it still serves: an object whose
    identity departed or is in conflict is kept while its stamp lasts, and
    longer. *)
Theorem Expired_not_servable known policy s at_ l :
  well_stamped l known (wlr_Status known) → 0 ≤ at_ → s ≠ SUngoverned →
  retained (wlr_Status known) = true →
  int64_range (at_ - lastComputed (wlr_Created known) (ObservedAt (wlr_Status known))) →
  Injects (rdg_Verdict (Read (Some known) policy at_)) = true →
  Expired known policy s at_ l = false.
Proof.
  intros Hst Hat Hs Hret Hrange Hi.
  pose proof (Read_until l known policy at_ Hst Hat Hi) as Hu.
  unfold window in Hu. rewrite Hret in Hu.
  unfold Expired. destruct (negb _); [done|]. destruct (_ <? sweepGrace); [done|].
  assert (Hw : (Retention l <? time_Sub at_ (lastComputed (wlr_Created known)
    (ObservedAt (wlr_Status known)))) = false); [|by destruct s].
  rewrite time_Sub_exact by done. rewrite lastComputed_max. apply Z.ltb_ge. lia.
Qed.

(** What a sweep's rule never deletes. *)
Lemma Expired_spares known policy s at_ l :
  spec_Policy (wlr_Spec known) ≠ policy ∨ s = SGoverned ∨ time_Sub at_ (wlr_Created known) < sweepGrace →
  Expired known policy s at_ l = false.
Proof.
  unfold Expired. destruct (String.eqb_spec (spec_Policy (wlr_Spec known)) policy); [|done]. cbn [negb].
  intros [?|[->|?]]; [done| |by rewrite (proj2 (Z.ltb_lt _ _))]. by destruct (_ <? _).
Qed.

Definition delete_of known : write := WDelete (wlr_UID known) (wlr_ResourceVersion known).

Lemma deleteOne_fold c conflict expired items acc :
  let '(n, failed, ws) := foldl (deleteOne c conflict expired) acc items in
  let '(n0, failed0, ws0) := acc in
  ws = ws0 ++ map delete_of (List.filter expired items) ∧
  n0 ≤ n ≤ n0 + Z.of_nat (length (List.filter expired items)).
Proof.
  revert acc. induction items as [|k items IH]; intros [[n0 f0] ws0]; cbn [foldl List.filter map length].
  { rewrite app_nil_r. split; [done|]. simpl. lia. }
  specialize (IH (deleteOne c conflict expired (n0, f0, ws0) k)).
  destruct (foldl _ _ items) as [[n f] ws]. unfold deleteOne in IH.
  destruct (expired k); cbn [negb] in IH; [|done]. cbn [map length].
  rewrite (cons_middle (delete_of k)), app_assoc. fold (delete_of k) in IH.
  destruct (cl_Delete c k) as [e|]; [destruct (IsNotFound e); [|destruct conflict; [destruct (IsConflict e)|]]|];
    destruct IH as [-> ?]; split; (done || lia).
Qed.

(** Deleted, or gone before. *)
Definition deleted c known : Prop :=
  cl_Delete c known = None ∨ ∃ e, cl_Delete c known = Some e ∧ IsNotFound e = true.

Lemma deleteOne_released c expired items acc :
  snd (fst (foldl (deleteOne c failRelease expired) acc items)) = None →
  snd (fst acc) = None ∧ Forall (deleted c) (List.filter expired items).
Proof.
  revert acc. induction items as [|k items IH]; intros acc; cbn [foldl List.filter]; [done|].
  intros [Hacc Hall]%IH. destruct acc as [[n f] ws]. unfold deleteOne in Hacc.
  destruct (expired k); cbn [negb] in Hacc; [|done].
  destruct (cl_Delete c k) as [e|] eqn:Ed; [|split; [done|constructor; [by left|done]]].
  destruct (IsNotFound e) eqn:Ee; [|by destruct f].
  split; [done|]. constructor; [right; by eauto|done].
Qed.

(** A release that did not fail left none of the Policy's objects it listed. *)
Lemma Release_deletes c policy :
  snd (fst (Release c policy)) = None →
  ∃ items, cl_List c (Some policy) = Ok items ∧
    let named := List.filter (λ known, String.eqb (spec_Policy (wlr_Spec known)) policy) items in
    snd (Release c policy) = map delete_of named ∧ Forall (deleted c) named.
Proof.
  unfold Release, deleteWhere. destruct (cl_List c (Some policy)) as [items|e]; [|done].
  intros H. exists items. split; [done|]. split; [|by eapply deleteOne_released].
  match goal with |- context [foldl (deleteOne c ?k ?e) ?acc items] =>
    pose proof (deleteOne_fold c k e items acc) as Hf; destruct (foldl (deleteOne c k e) acc items) as [[n f] ws] end.
  by destruct Hf as [-> _].
Qed.

(** a sweep attempts exactly the objects its rule expires, in order and each
    once, every delete conditioned on the version judged. *)
Theorem Sweep_deletes c policy standing at_ l items :
  cl_List c (Some policy) = Ok items →
  snd (Sweep c policy standing at_ l) =
  map delete_of
    (List.filter (λ known, Expired known policy (standing (identityOf (WorkloadRef (wlr_Spec known)))) at_ l)
       items).
Proof.
  intros Hl. unfold Sweep, deleteWhere. rewrite Hl.
  match goal with |- context [foldl (deleteOne c ?k ?e) ?acc items] =>
    pose proof (deleteOne_fold c k e items acc) as H; destruct (foldl (deleteOne c k e) acc items) as [[n f] ws] end.
  by destruct H as [-> _].
Qed.
End Facts.

(** ** At a concrete input *)
Section Sample.
#[local] Existing Instance nano_quantity.
#[local] Existing Instance nano_quantity_laws.
#[local] Instance plain_hashing : Hashing := {| sha256_hex s := s |}.

Definition sample_lifetimes : Lifetimes := {| ReconcileInterval := 5 * minute; Retention := DefaultRetention |}.

Definition sample_recommendation : ContainerRecommendation :=
  {| CPURequest := Some (NQ (300 * 10 ^ 6) DecimalSI); MemoryRequest := None; CPULimit := None; MemoryLimit := None;
     RemoveCPULimit := false; RemoveMemoryLimit := false |}.

Definition sample_stored (st : WorkloadRecommendationStatus) : WorkloadRecommendation :=
  {| wlr_Namespace := "prod"; wlr_Name := "deployment-web"; wlr_UID := "u1"; wlr_ResourceVersion := "3";
     wlr_Labels := {[WLRPolicyLabel := "frugal"]}; wlr_Created := 0;
     wlr_Spec := {| WorkloadRef := {| wr_Kind := "Deployment"; wr_Namespace := "prod"; wr_Name := "web" |};
                    spec_Policy := "frugal" |};
     wlr_Status := st |}.

Definition sample_decision : decision :=
  {| dec_Outcome := OutcomeComputed; dec_Recs := {[ "app" := sample_recommendation ]}; dec_Traces := ∅;
     dec_Departed := false |}.


(** The identity departs an hour after it was computed. *)
Definition sample_departed : WorkloadRecommendation :=
  let st := statusAfter (sample_stored noStatus) sample_decision hour sample_lifetimes in
  sample_stored (desiredStatus (sample_stored st)
    {| dec_Outcome := OutcomeFetchFailed; dec_Recs := ∅; dec_Traces := ∅; dec_Departed := true |}
    (2 * hour) sample_lifetimes).

Lemma Expired_not_servable_witness :
  Expired sample_departed "frugal" SDeparted (100 * hour) sample_lifetimes = false.
Proof.
  apply Expired_not_servable; try (vm_compute; (done || split; discriminate)).
  right. vm_compute. reflexivity.
Defined.

Definition sample_client (items : list WorkloadRecommendation) : WlrClient :=
  {| cl_Get _ := Err (APIStatus 404 "NotFound"); cl_Create w := Ok w; cl_Patch _ w := Ok w; cl_StatusPatch _ w := Ok w;
     cl_List _ := Ok items; cl_Delete _ := None; cl_ListPolicies := Ok ["frugal"] |}.

Lemma Sweep_deletes_witness :
  snd (Sweep (sample_client [sample_departed]) "frugal" (λ _, SDeparted) (1000 * hour) sample_lifetimes) =
  [WDelete "u1" "3"].
Proof.
  etransitivity; [exact (Sweep_deletes (sample_client [sample_departed]) "frugal" (λ _, SDeparted) (1000 * hour)
    sample_lifetimes [sample_departed] eq_refl)|by_running].
Defined.
End Sample.
