(* ===== verification/Inventory.v ===== *)
(** * The inventory of identities ([internal/inventory/inventory.go])

    A snapshot of the cluster's identities: their members, containers, age,
    Policy and stored recommendation. The lists the API server answers, in the
    snapshot's scope, are the fields of [Cluster]; the builder's memo of
    Namespace annotations is threaded through. *)

From S2P Require Import Prelude GoLang Quantity Kube PolicyApi WlrApi Shards Owners Governance WlrRead.
Local Open Scope Z_scope.

Section Inventory.
Context {QO : QuantityOps} {KO : KubeOps}.

(** The metadata of a member's object. *)
Record Member := {
  m_Name : string;
  m_Created : time;
  m_Policy : string;
  m_Containers : list Container;
  m_InitContainers : list Container;
}.

Record Identity := {
  Key : WorkloadIdentity;
  Members : list Member;
  Containers : list Container;
  InitContainers : list Container;
  Since : time;
  id_Policy : string;
  Conflicted : bool;
  Recommendation : option WorkloadRecommendation;
}.

Definition newIdentity (key : WorkloadIdentity) : Identity :=
  {| Key := key; Members := []; Containers := []; InitContainers := []; Since := time_zero;
     id_Policy := ""; Conflicted := false; Recommendation := None |}.

Definition Departed (id : Identity) : bool := bool_decide (Members id = []).

(** Distinct, sorted. *)
Definition memberPolicy (out : list string) (m : Member) : list string :=
  if negb (String.eqb (m_Policy m) "") && negb (contains (m_Policy m) out) then out ++ [m_Policy m] else out.

Definition MemberPolicies (id : Identity) : list string :=
  sort_by String.compare (foldl memberPolicy [] (Members id)).

Definition membersWhere (members : list Member) (keep : Member → bool) : list Member :=
  List.filter keep members.

Definition Contributors (id : Identity) : list Member :=
  if negb (String.eqb (id_Policy id) "") then membersWhere (Members id) (λ m, String.eqb (m_Policy m) (id_Policy id))
  else if Conflicted id then membersWhere (Members id) (λ m, negb (String.eqb (m_Policy m) ""))
  else Members id.

(** The containers of [src] not seen yet, appended. *)
Definition appendUnseen (st : list Container * gset string) (src : list Container) :
    list Container * gset string :=
  foldl (λ st c, if decide (c_Name c ∈ snd st) then st
                 else (fst st ++ [c], {[c_Name c]} ∪ snd st)) st src.

(** A stable sort, newest first. *)
Definition newestFirst (members : list Member) : list Member :=
  sort_by (λ a b, m_Created b ?= m_Created a) members.

Definition unionContainers (members : list Member) : list Container * list Container :=
  let sorted := newestFirst members in
  (fst (foldl (λ st m, appendUnseen st (m_Containers m)) ([], ∅) sorted),
   fst (foldl (λ st m, appendUnseen st (m_InitContainers m)) ([], ∅) sorted)).

Definition earlier (a b : time) : time :=
  if time_IsZero b then a
  else if time_IsZero a || time_Before b a then b
  else a.

Definition dedupe (namespaces : list string) : list string :=
  foldl (λ out ns, if contains ns out then out else out ++ [ns]) [] namespaces.

(** Everything an identity's members decide together. *)
Definition settle (id : Identity) : Identity :=
  let members := sort_by (λ a b, String.compare (m_Name a) (m_Name b)) (Members id) in
  let id := {| Key := Key id; Members := members; Containers := Containers id;
               InitContainers := InitContainers id; Since := Since id; id_Policy := id_Policy id;
               Conflicted := Conflicted id; Recommendation := Recommendation id |} in
  if Departed id then
    match Recommendation id with
    | Some wlr =>
        let '(cs, inits) := ContainersFromObserved (ObservedResources (wlr_Status wlr)) in
        {| Key := Key id; Members := members; Containers := cs; InitContainers := inits;
           Since := wlr_Created wlr; id_Policy := id_Policy id; Conflicted := Conflicted id;
           Recommendation := Recommendation id |}
    | None => id (* an identity is of a member or of a recommendation *)
    end
  else
    let '(policy, conflicted) :=
      match MemberPolicies id with
      | [] => (id_Policy id, Conflicted id)
      | [p] => (p, Conflicted id)
      | _ => (id_Policy id, true)
      end in
    let id := {| Key := Key id; Members := members; Containers := Containers id;
                 InitContainers := InitContainers id; Since := Since id; id_Policy := policy;
                 Conflicted := conflicted; Recommendation := Recommendation id |} in
    let contributors := Contributors id in
    let '(cs, inits) := unionContainers contributors in
    let since := match Recommendation id with Some wlr => wlr_Created wlr | None => Since id end in
    {| Key := Key id; Members := members; Containers := cs; InitContainers := inits;
       Since := foldl (λ s m, earlier s (m_Created m)) since contributors;
       id_Policy := policy; Conflicted := conflicted; Recommendation := Recommendation id |}.

(** ** The builder *)

Record Basis := { b_Policies : option PolicyLister; b_Now : option time }.

Record Options := {
  o_Basis : Basis;
  o_Namespaces : list string;
  o_Kinds : list string;
}.

(** A workload object of a kind with a pod template; [wo_Job] is what a Job
    adds: its owner references and conditions. *)
Record WorkloadObject := {
  wo_Namespace : string;
  wo_Name : string;
  wo_Created : time;
  wo_Annotations : strmap;
  wo_TemplateLabels : strmap;
  wo_TemplateAnnotations : strmap;
  wo_Containers : list Container;
  wo_InitContainers : list Container;
  wo_Job : option Job;
}.

(** What the reads of one namespace answer, the empty one standing for all. *)
Record Cluster := {
  list_workloads : string → string → result (list WorkloadObject);
  list_pods_in : string → result (list Pod);
  list_recommendations : string → result (list WorkloadRecommendation);
  list_policies : result (list Policy);
  list_namespaces : result (list (string * strmap));
  get_namespace : string → result strmap;
}.

(** [meta.IsNoMatchError]: the cluster does not serve the kind. *)
Definition NoMatch : string := "NoMatch".
Definition IsNoMatchError (e : error) : bool := errors_Is e NoMatch.

Record builder := {
  bd_byKey : gmap WorkloadIdentity Identity;
  bd_nsAnn : gmap string strmap;
  bd_nsAnnListed : bool;
}.

Definition newBuilder : builder := {| bd_byKey := ∅; bd_nsAnn := ∅; bd_nsAnnListed := false |}.

Definition with_byKey (b : builder) (m : gmap WorkloadIdentity Identity) : builder :=
  {| bd_byKey := m; bd_nsAnn := bd_nsAnn b; bd_nsAnnListed := bd_nsAnnListed b |}.

Context (cl : Cluster) (opts : Options) (policies : Policies).

Definition scope : list string := dedupe (o_Namespaces opts).

Definition inScope (kind : string) : bool :=
  bool_decide (o_Kinds opts = []) || contains kind (o_Kinds opts).

(** [builder.identity]: the identity, made on first use. *)
Definition identity_of (m : gmap WorkloadIdentity Identity) (key : WorkloadIdentity) : Identity :=
  default (newIdentity key) (m !! key).

Definition addMember (b : builder) (key : WorkloadIdentity) (mem : Member) : builder :=
  let id := identity_of (bd_byKey b) key in
  with_byKey b (<[key :=
    {| Key := Key id; Members := Members id ++ [mem]; Containers := Containers id;
       InitContainers := InitContainers id; Since := Since id; id_Policy := id_Policy id;
       Conflicted := Conflicted id; Recommendation := Recommendation id |}]> (bd_byKey b)).

(** One Namespace per name in a narrowed snapshot; otherwise all, once. *)
Definition NamespaceAnnotations (b : builder) (name : string) : result strmap * builder :=
  match bd_nsAnn b !! name with
  | Some a => (Ok a, b)
  | None =>
      if bd_nsAnnListed b then (Ok ∅, b)
      else if bool_decide (scope = []) then
        match list_namespaces cl with
        | Err e => (Err (Errorf "listing namespaces" [e]), b)
        | Ok items =>
            let ann := foldl (λ m p, <[p.1 := p.2]> m) (bd_nsAnn b) items in
            (Ok (default ∅ (ann !! name)),
             {| bd_byKey := bd_byKey b; bd_nsAnn := ann; bd_nsAnnListed := true |})
        end
      else
        let answer a :=
          (Ok a, {| bd_byKey := bd_byKey b; bd_nsAnn := <[name := a]> (bd_nsAnn b);
                    bd_nsAnnListed := bd_nsAnnListed b |}) in
        match get_namespace cl name with
        | Ok a => answer a
        | Err e => if IsNotFound e then answer ∅ else (Err (Errorf "reading namespace" [e]), b)
        end
  end.

(** The builder as the [governance.Reader] of its snapshot: bare pods have no
    controller and templates carry their workload's annotations. *)
Definition reader (b : builder) : Reader :=
  {| rd_Policies := Ok policies;
     rd_PodOwner pod := Err (ErrorNew "the inventory resolves no controller owner");
     rd_WorkloadAnnotations _ _ _ := Err (ErrorNew "the inventory reads no workload annotations");
     rd_NamespaceAnnotations name := fst (NamespaceAnnotations b name) |}.

(** A decision leaves the memo as its reads did: the walk reads the subject's
    Namespace at most once. *)
Definition decide_subject (b : builder) (s : Subject) : result Decision * builder :=
  let '(d, w) := DecideWalk s (reader b) in
  (d, if bool_decide (ReadNamespace ∈ w_reads w) then snd (NamespaceAnnotations b (su_namespace s)) else b).

(** [builder.list]: every namespace in scope in turn, the visits threaded. *)
Fixpoint list_each {A} (lister : string → result (list A)) (visit : builder → A → result builder)
    (scopes : list string) (b : builder) : result builder :=
  match scopes with
  | [] => Ok b
  | ns :: scopes' =>
      match lister ns with
      | Err e => if IsNoMatchError e then Ok b else Err e
      | Ok items =>
          match foldl (λ rb a, rbind rb (λ b, visit b a)) (Ok b) items with
          | Err e => Err e
          | Ok b => list_each lister visit scopes' b
          end
      end
  end.

Definition list_scoped {A} (lister : string → result (list A)) (visit : builder → A → result builder)
    (b : builder) : result builder :=
  list_each lister visit (if bool_decide (scope = []) then [""] else scope) b.

Definition visitWorkload (kind : string) (b : builder) (o : WorkloadObject) : result builder :=
  if match wo_Job o with
     | Some job => IsOwnedByKind (job_OwnerReferences job) "CronJob" || JobFinished job
     | None => false
     end then Ok b
  else
    match decide_subject b (SubjectPodTemplate (wo_Namespace o) kind (wo_Name o) (wo_Annotations o)
                      (wo_TemplateLabels o) (wo_TemplateAnnotations o)) with
    | (Err e, _) => Err e
    | (Ok d, b) =>
        Ok (addMember b (d_Identity d)
          {| m_Name := wo_Name o; m_Created := wo_Created o; m_Policy := PolicyName d;
             m_Containers := wo_Containers o; m_InitContainers := wo_InitContainers o |})
    end.

Definition addWorkloads (kind : string) (b : builder) : result builder :=
  list_scoped (list_workloads cl kind) (visitWorkload kind) b.

Definition visitBarePod (b : builder) (pod : Pod) : result builder :=
  match GetControllerOf (pod_OwnerReferences pod) with
  | Some _ => Ok b
  | None =>
      match decide_subject b (SubjectPod pod) with
      | (Err e, _) => Err e
      | (Ok d, b) =>
          if bool_decide (d_Refusal d = Some NoOwner) then Ok b
          else
            Ok (addMember b (d_Identity d)
              {| m_Name := pod_Name pod; m_Created := pod_Created pod; m_Policy := PolicyName d;
                 m_Containers := pod_Containers pod; m_InitContainers := pod_InitContainers pod |})
      end
  end.

Definition addBarePods (b : builder) : result builder :=
  list_scoped (list_pods_in cl) visitBarePod b.

Definition visitRecommendation (b : builder) (wlr : WorkloadRecommendation) : result builder :=
  let ref := WorkloadRef (wlr_Spec wlr) in
  if negb (inScope (wr_Kind ref)) then Ok b
  else
    let key := identityOf ref in
    let id := identity_of (bd_byKey b) key in
    let set (policy : string) :=
      <[key := {| Key := Key id; Members := Members id; Containers := Containers id;
                  InitContainers := InitContainers id; Since := Since id; id_Policy := policy;
                  Conflicted := Conflicted id; Recommendation := Some wlr |}]> (bd_byKey b) in
    if negb (Departed id) then Ok (with_byKey b (set (id_Policy id)))
    else
      match decide_subject b (SubjectDeparted key (spec_Policy (wlr_Spec wlr))) with
      | (Err e, _) => Err e
      | (Ok d, b) => Ok (with_byKey b (set (PolicyName d)))
      end.

Definition addRecommendations (b : builder) : result builder :=
  list_scoped (list_recommendations cl) visitRecommendation b.

Record Snapshot := { Identities : list Identity; TakenAt : time }.

Definition addKind (rb : result builder) (kind : string) : result builder :=
  rbind rb (λ b,
    if negb (inScope kind) then Ok b
    else
      match (if String.eqb kind "Pod" then addBarePods b else addWorkloads kind b) with
      | Err e => Err (Errorf "listing" [e])
      | Ok b => Ok b
      end).

(** Sorted by key. *)
Definition snapshot_of (b : builder) : list Identity :=
  sort_by (λ a b, CompareIdentity (Key a) (Key b)) (map settle (map_to_list (bd_byKey b)).*2).

Definition Lookup (s : Snapshot) (key : WorkloadIdentity) : option Identity :=
  List.find (λ id, bool_decide (Key id = key)) (Identities s).

Definition GovernedBy (s : Snapshot) (policy : string) : list Identity :=
  List.filter (λ id, String.eqb (id_Policy id) policy) (Identities s).
End Inventory.

Definition errNoClock : error := Sentinel "errNoClock".

Section Take.
Context {QO : QuantityOps} {KO : KubeOps}.

Definition validate (b : Basis) : option error :=
  match b_Policies b, b_Now b with
  | None, _ => Some (Errorf "inventory" [ErrNoPolicyLister])
  | Some _, None => Some errNoClock
  | Some _, Some _ => None
  end.

(** The snapshot, and the PolicyLister as listing the Policies left it. *)
Definition Take (cl : Cluster) (opts : Options) : result Snapshot * option PolicyLister :=
  match b_Policies (o_Basis opts), b_Now (o_Basis opts) with
  | Some lister, Some takenAt =>
      match List_policies lister (list_policies cl) with
      | (Err e, lister) => (Err e, Some lister)
      | (Ok ps, lister) =>
          (match foldl (addKind cl opts ps) (Ok newBuilder) SupportedKinds with
           | Err e => Err e
           | Ok b =>
               match addRecommendations cl opts ps b with
               | Err e => Err (Errorf "listing WorkloadRecommendations" [e])
               | Ok b => Ok {| Identities := snapshot_of b; TakenAt := takenAt |}
               end
           end, Some lister)
      end
  | lister, _ =>
      (Err (default errNoClock (validate (o_Basis opts))), lister)
  end.

Definition TakeForPolicy (cl : Cluster) (policy : Policy) (b : Basis) :
    result Snapshot * option PolicyLister :=
  match validate b with
  | Some e => (Err e, b_Policies b)
  | None =>
      let kinds := List.filter (λ kind,
        match ModeForKind (Types (rs_Update (pol_RightSizing policy))) kind with
        | Some _ => true | None => false end) SupportedKinds in
      if bool_decide (kinds = []) then
        (Ok {| Identities := []; TakenAt := default time_zero (b_Now b) |}, b_Policies b)
      else
        Take cl {| o_Basis := b; o_Namespaces := Namespaces (pol_Selector policy); o_Kinds := kinds |}
  end.
End Take.

(** ** Facts *)
Section Facts.
Context {QO : QuantityOps} {KO : KubeOps}.
Implicit Types (id : Identity) (ms : list Member).

(** *** The Policies of an identity's members *)

Lemma memberPolicy_fold ms out :
  NoDup out →
  NoDup (foldl memberPolicy out ms) ∧
  ∀ p, p ∈ foldl memberPolicy out ms ↔ p ∈ out ∨ p ≠ "" ∧ ∃ m, m ∈ ms ∧ m_Policy m = p.
Proof.
  revert out. induction ms as [|m ms IH]; intros out Hout; cbn [foldl].
  { split; [done|]. intros p. split; [by left|]. by intros [?|(_ & m & ?%not_elem_of_nil & _)]. }
  assert (Hm : NoDup (memberPolicy out m) ∧
    ∀ p, p ∈ memberPolicy out m ↔ p ∈ out ∨ p ≠ "" ∧ m_Policy m = p).
  { unfold memberPolicy, contains. destruct (String.eqb_spec (m_Policy m) "") as [He|He]; cbn [negb andb].
    { split; [done|]. intros p. split; [by left|]. intros [?|[? <-]]; done. }
    destruct (bool_decide_reflect (m_Policy m ∈ out)) as [Hi|Hi]; cbn [negb].
    { split; [done|]. intros p. split; [by left|]. by intros [?|[_ <-]]. }
    split.
    - apply NoDup_app. split_and!; [done| |apply NoDup_singleton].
      by intros p Hp ->%list_elem_of_singleton.
    - intros p. rewrite elem_of_app, list_elem_of_singleton. naive_solver. }
  destruct Hm as [Hnd Hin]. destruct (IH _ Hnd) as [Hnd' Hin']. split; [done|].
  intros p. rewrite Hin', Hin. setoid_rewrite elem_of_cons. naive_solver.
Qed.

Lemma MemberPolicies_spec id p :
  p ∈ MemberPolicies id ↔ p ≠ "" ∧ ∃ m, m ∈ Members id ∧ m_Policy m = p.
Proof.
  unfold MemberPolicies. rewrite elem_of_sort_by.
  destruct (memberPolicy_fold (Members id) [] (NoDup_nil_2)) as [_ H]. rewrite H.
  split; [intros [?%not_elem_of_nil|?]; done|by right].
Qed.

Lemma MemberPolicies_NoDup id : NoDup (MemberPolicies id).
Proof. apply NoDup_sort_by. by destruct (memberPolicy_fold (Members id) [] (NoDup_nil_2)). Qed.

(** *** Containers *)

(** The first container of each name. *)
Lemma appendUnseen_find n cs st :
  (n ∈ snd st ↔ n ∈ map c_Name (fst st)) →
  List.find (λ c, String.eqb (c_Name c) n) (fst (appendUnseen st cs)) =
    List.find (λ c, String.eqb (c_Name c) n) (fst st ++ cs) ∧
  (n ∈ snd (appendUnseen st cs) ↔ n ∈ map c_Name (fst (appendUnseen st cs))).
Proof.
  revert st. unfold appendUnseen. induction cs as [|c cs IH]; intros st Hst; cbn [foldl].
  { by rewrite app_nil_r. }
  assert (Hfind : ∀ l, n ∈ map c_Name l ↔ List.find (λ c, String.eqb (c_Name c) n) l ≠ None).
  { intros l. induction l as [|x l IHl]; cbn; [split; [by intros ?%not_elem_of_nil|done]|].
    rewrite elem_of_cons, IHl. destruct (String.eqb_spec (c_Name x) n); naive_solver. }
  assert (Happ : ∀ l l', List.find (λ c, String.eqb (c_Name c) n) (l ++ l') =
    match List.find (λ c, String.eqb (c_Name c) n) l with Some x => Some x
    | None => List.find (λ c, String.eqb (c_Name c) n) l' end).
  { intros l l'. induction l as [|x l IHl]; cbn; [done|]. by destruct (String.eqb (c_Name x) n). }
  destruct (decide (c_Name c ∈ snd st)) as [Hin|Hin].
  - destruct (IH st Hst) as [E1 E2]. split; [|done]. rewrite E1, !Happ.
    destruct (List.find _ (fst st)) eqn:Ef; [done|]. cbn [List.find].
    destruct (String.eqb_spec (c_Name c) n) as [<-|]; [|done].
    apply Hst, Hfind in Hin. done.
  - destruct (IH (fst st ++ [c], {[c_Name c]} ∪ snd st)) as [E1 E2]; cbn [fst snd].
    { rewrite map_app, elem_of_app, elem_of_union, elem_of_singleton, Hst. cbn [map].
      rewrite list_elem_of_singleton. naive_solver. }
    split; [|done]. rewrite E1. cbn [fst]. by rewrite <-app_assoc.
Qed.

Lemma appendUnseen_NoDup cs st :
  NoDup (map c_Name (fst st)) → (∀ n, n ∈ map c_Name (fst st) → n ∈ snd st) →
  NoDup (map c_Name (fst (appendUnseen st cs))) ∧
  (∀ n, n ∈ map c_Name (fst (appendUnseen st cs)) → n ∈ snd (appendUnseen st cs)).
Proof.
  revert st. unfold appendUnseen. induction cs as [|c cs IH]; intros st Hnd Hst; cbn [foldl]; [done|].
  destruct (decide (c_Name c ∈ snd st)) as [Hin|Hin]; apply IH; cbn [fst snd]; try done.
  - rewrite map_app. apply NoDup_app. split_and!; [done| |apply NoDup_singleton].
    intros n Hn%Hst ->%list_elem_of_singleton. done.
  - intros n. rewrite map_app, elem_of_app. cbn [map]. intros [?%Hst| ->%list_elem_of_singleton]; set_solver.
Qed.

Lemma appendUnseen_app st cs cs' : appendUnseen (appendUnseen st cs) cs' = appendUnseen st (cs ++ cs').
Proof. unfold appendUnseen. by rewrite foldl_app. Qed.

Lemma appendUnseen_concat {A} (f : A → list Container) l st :
  foldl (λ st m, appendUnseen st (f m)) st l = appendUnseen st (concat (map f l)).
Proof.
  revert st. induction l as [|m l IH]; intros st; cbn; [done|]. by rewrite IH, appendUnseen_app.
Qed.

(** The first container called [n] among the members, newest member first. *)
Definition newest_named (f : Member → list Container) ms (n : string) : option Container :=
  List.find (λ c, String.eqb (c_Name c) n) (concat (map f (newestFirst ms))).

(** the union of members' containers holds each name once, declared as the
    newest member declaring it declares it. *)
Theorem unionContainers_newest ms n :
  NoDup (map c_Name (fst (unionContainers ms))) ∧ NoDup (map c_Name (snd (unionContainers ms))) ∧
  List.find (λ c, String.eqb (c_Name c) n) (fst (unionContainers ms)) = newest_named m_Containers ms n ∧
  List.find (λ c, String.eqb (c_Name c) n) (snd (unionContainers ms)) = newest_named m_InitContainers ms n.
Proof.
  unfold unionContainers. cbn [fst snd]. rewrite !appendUnseen_concat.
  assert (Hnd : ∀ cs, NoDup (map c_Name (fst (appendUnseen ([], ∅) cs)))).
  { intros cs. apply appendUnseen_NoDup; [apply NoDup_nil_2|]. by intros x ?%not_elem_of_nil. }
  assert (Hf : ∀ cs, List.find (λ c, String.eqb (c_Name c) n) (fst (appendUnseen ([], ∅) cs)) =
    List.find (λ c, String.eqb (c_Name c) n) cs).
  { intros cs. destruct (appendUnseen_find n cs ([], ∅)) as [-> _]; [|done]. cbn. set_solver. }
  split_and!; [apply Hnd|apply Hnd|apply Hf|apply Hf].
Qed.

(** Members come newest first. *)
Lemma newestFirst_sorted ms : StronglySorted (λ a b, m_Created b ≤ m_Created a) (newestFirst ms).
Proof.
  pose proof (cmp_on_pre (λ m, m_Created m) _ (cmp_desc_pre _ Z_compare_pre)) as HP.
  pose proof (@sort_by_sorted _ _ HP ms) as Hs.
  change (sort_by _ ms) with (newestFirst ms) in Hs.
  induction Hs as [|m l Hl IH Hm]; constructor; [done|].
  eapply Forall_impl; [exact Hm|]. by intros b Hb.
Qed.

(** *** Age *)

(** The oldest of the dates that are set. *)
Lemma earlier_fold ms t :
  0 ≤ t → (∀ m, m ∈ ms → 0 ≤ m_Created m) →
  let s := foldl (λ s m, earlier s (m_Created m)) t ms in
  (s = 0 ↔ t = 0 ∧ ∀ m, m ∈ ms → m_Created m = 0) ∧
  (0 < s → (0 < t → s ≤ t) ∧ (∀ m, m ∈ ms → 0 < m_Created m → s ≤ m_Created m) ∧
           (s = t ∨ ∃ m, m ∈ ms ∧ s = m_Created m)) ∧ 0 ≤ s.
Proof.
  revert t. induction ms as [|m ms IH]; intros t Ht Hms; cbn [foldl].
  { split_and!; [|intros; split_and!; [lia| |by left]|done].
    - split; [|tauto]. intros ->. split; [done|]. by intros ? ?%not_elem_of_nil.
    - by intros ? ?%not_elem_of_nil. }
  assert (Hm : 0 ≤ m_Created m) by (apply Hms; by left).
  set (t' := earlier t (m_Created m)).
  assert (He : 0 ≤ t' ∧ (t' = 0 ↔ t = 0 ∧ m_Created m = 0) ∧ (0 < t → t' ≤ t) ∧
    (0 < m_Created m → t' ≤ m_Created m) ∧ (t' = t ∨ t' = m_Created m)).
  { unfold t', earlier, time_IsZero, time_Before.
    destruct (Z.eqb_spec (m_Created m) 0), (Z.eqb_spec t 0), (Z.ltb_spec (m_Created m) t); cbn [orb]; lia. }
  clearbody t'. destruct He as (H0 & Hz & H1 & H2 & H3).
  destruct (IH t' H0) as (A & B & C); [intros; apply Hms; by right|].
  setoid_rewrite elem_of_cons. split_and!; [|intros Hs; specialize (B Hs)|done].
  - rewrite A, Hz. naive_solver.
  - destruct B as (B1 & B2 & B3).
    split_and!.
    + intros. assert (0 < t') by lia. specialize (B1 ltac:(done)). lia.
    + intros m' [->|Hm'] ?; [|by apply B2]. assert (0 < t') by lia. specialize (B1 ltac:(done)). lia.
    + naive_solver.
Qed.

(** The identity with its members sorted, as [settle] starts. *)
Definition sorted_members id : Identity :=
  {| Key := Key id; Members := sort_by (λ a b, String.compare (m_Name a) (m_Name b)) (Members id);
     Containers := Containers id; InitContainers := InitContainers id; Since := Since id;
     id_Policy := id_Policy id; Conflicted := Conflicted id; Recommendation := Recommendation id |}.

Lemma settle_live id :
  Members id ≠ [] → id_Policy id = "" → Conflicted id = false →
  id_Policy (settle id) = match MemberPolicies (sorted_members id) with [p] => p | _ => "" end ∧
  Conflicted (settle id) = match MemberPolicies (sorted_members id) with _ :: _ :: _ => true | _ => false end.
Proof.
  intros Hm Hp Hc. unfold settle. fold (sorted_members id).
  assert (Departed (sorted_members id) = false) as ->.
  { apply bool_decide_eq_false. intros E. apply Hm. apply Permutation_nil_r.
    rewrite <-(sort_by_perm (λ a b, String.compare (m_Name a) (m_Name b)) (Members id)).
    unfold sorted_members in E. cbn in E. by rewrite E. }
  destruct (MemberPolicies (sorted_members id)) as [|p [|q ps]]; cbn [id_Policy Conflicted sorted_members];
    rewrite ?Hp, ?Hc; by destruct (unionContainers _).
Qed.

(** a live identity is governed by the one Policy that governs its members,
    and in conflict, governed by none, when two govern some of them. *)
Theorem settle_policy id p :
  Members id ≠ [] → id_Policy id = "" → Conflicted id = false → p ≠ "" →
  (id_Policy (settle id) = p ↔
     (∃ m, m ∈ Members id ∧ m_Policy m = p) ∧ ∀ m, m ∈ Members id → m_Policy m = "" ∨ m_Policy m = p) ∧
  (Conflicted (settle id) = true ↔
     ∃ m1 m2, m1 ∈ Members id ∧ m2 ∈ Members id ∧
       m_Policy m1 ≠ "" ∧ m_Policy m2 ≠ "" ∧ m_Policy m1 ≠ m_Policy m2).
Proof.
  intros Hm Hp Hc Hne. destruct (settle_live id Hm Hp Hc) as [-> ->].
  pose proof (MemberPolicies_NoDup (sorted_members id)) as Hnd.
  assert (Hin : ∀ x, x ∈ MemberPolicies (sorted_members id) ↔
    x ≠ "" ∧ ∃ m, m ∈ Members id ∧ m_Policy m = x).
  { intros x. rewrite MemberPolicies_spec. cbn. by setoid_rewrite elem_of_sort_by. }
  generalize dependent (MemberPolicies (sorted_members id)). intros l Hnd Hin.
  assert (Hof : ∀ m, m ∈ Members id → m_Policy m ≠ "" → m_Policy m ∈ l) by (intros; apply Hin; eauto).
  destruct l as [|a [|b l]].
  - split; split; try done.
    + intros [(m & Hm' & <-) _]. by apply Hof, not_elem_of_nil in Hm'.
    + intros (m & _ & Hm' & _ & Hn & _). by apply Hof, not_elem_of_nil in Hm'.
  - destruct (proj1 (Hin a) ltac:(by left)) as (Ha & m & Hma & Hpa).
    assert (Hall : ∀ m, m ∈ Members id → m_Policy m = "" ∨ m_Policy m = a).
    { intros m' Hm'. destruct (decide (m_Policy m' = "")); [by left|right].
      by apply list_elem_of_singleton, Hof. }
    split; split; try done.
    + intros E. subst p. split; [eauto|done].
    + intros [(m' & Hm' & <-) _]. destruct (Hall m' Hm'); congruence.
    + intros (m1 & m2 & H1 & H2 & N1 & N2 & Hd). destruct (Hall m1 H1), (Hall m2 H2); congruence.
  - destruct (proj1 (Hin a) ltac:(by left)) as (Ha & m & Hma & Hpa).
    destruct (proj1 (Hin b) ltac:(by right; left)) as (Hb & m' & Hmb & Hpb).
    assert (a ≠ b) by (apply NoDup_cons in Hnd as [Hnin _]; intros ->; apply Hnin; by left).
    split; split; try done.
    + intros [_ Hall]. destruct (Hall m Hma), (Hall m' Hmb); congruence.
    + intros _. exists m, m'. split_and!; congruence.
Qed.
End Facts.

(** *** The memo of Namespace annotations *)
Section Builder.
Context {QO : QuantityOps} {KO : KubeOps} (cl : Cluster) (opts : Options) (policies : Policies).
Implicit Types (b : builder).

(** What reading a Namespace answers, without the memo. *)
Definition namespace_answer (name : string) : result strmap :=
  if bool_decide (scope opts = []) then
    match list_namespaces cl with
    | Err e => Err (Errorf "listing namespaces" [e])
    | Ok items => Ok (default ∅ (foldl (λ (m : gmap string strmap) p, <[p.1 := p.2]> m) ∅ items !! name))
    end
  else
    match get_namespace cl name with
    | Ok a => Ok a
    | Err e => if IsNotFound e then Ok ∅ else Err (Errorf "reading namespace" [e])
    end.

Record memo_ok b : Prop := {
  memo_held name a : bd_nsAnn b !! name = Some a → namespace_answer name = Ok a;
  memo_listed name : bd_nsAnnListed b = true → bd_nsAnn b !! name = None → namespace_answer name = Ok ∅;
  memo_unlisted : bd_nsAnnListed b = false → scope opts = [] → bd_nsAnn b = ∅;
}.

Lemma NamespaceAnnotations_memo b name :
  memo_ok b →
  fst (NamespaceAnnotations cl opts b name) = namespace_answer name ∧
  memo_ok (snd (NamespaceAnnotations cl opts b name)) ∧
  bd_byKey (snd (NamespaceAnnotations cl opts b name)) = bd_byKey b.
Proof.
  intros Hb. unfold NamespaceAnnotations.
  destruct (bd_nsAnn b !! name) as [a|] eqn:E.
  { split_and!; [symmetry; by eapply memo_held|done..]. }
  destruct (bd_nsAnnListed b) eqn:El.
  { split_and!; [symmetry; by eapply memo_listed|done..]. }
  destruct (bool_decide_reflect (scope opts = [])) as [Hs|Hs].
  - assert (Hun : ∀ n, namespace_answer n = match list_namespaces cl with
      | Err e => Err (Errorf "listing namespaces" [e])
      | Ok items => Ok (default ∅ (foldl (λ (m : gmap string strmap) p, <[p.1 := p.2]> m) ∅ items !! n)) end)
      by (intros; unfold namespace_answer; by rewrite bool_decide_true).
    rewrite Hun. rewrite (memo_unlisted _ Hb El Hs).
    destruct (list_namespaces cl) as [items|e]; [|by split_and!].
    cbn [fst snd bd_byKey]. split_and!; [done| |done].
    split; cbn; [|intros n _ Hn; by rewrite Hun, Hn|done].
    intros n a Ha. by rewrite Hun, Ha.
  - assert (Hun : ∀ n, namespace_answer n = match get_namespace cl n with Ok a => Ok a
      | Err e => if IsNotFound e then Ok ∅ else Err (Errorf "reading namespace" [e]) end)
      by (intros; unfold namespace_answer; by rewrite bool_decide_false).
    assert (Hins : ∀ a, namespace_answer name = Ok a →
      memo_ok {| bd_byKey := bd_byKey b; bd_nsAnn := <[name := a]> (bd_nsAnn b);
                 bd_nsAnnListed := bd_nsAnnListed b |}).
    { intros a Ha. split; cbn; [|by rewrite El|done].
      intros n a' [[<- <-]|[_ ?]]%lookup_insert_Some; [done|by eapply memo_held]. }
    rewrite El in Hins. rewrite (Hun name) in *.
    destruct (get_namespace cl name) as [a|e]; cbn [fst snd bd_byKey]; [split_and!; auto|].
    destruct (IsNotFound e); cbn [fst snd bd_byKey]; split_and!; auto.
Qed.

(** The reader of the whole snapshot, without the memo. *)
Definition plain_reader : Reader :=
  {| rd_Policies := Ok policies;
     rd_PodOwner pod := Err (ErrorNew "the inventory resolves no controller owner");
     rd_WorkloadAnnotations _ _ _ := Err (ErrorNew "the inventory reads no workload annotations");
     rd_NamespaceAnnotations := namespace_answer |}.

Lemma DecideWalk_ext s r r' :
  rd_Policies r = rd_Policies r' → rd_PodOwner r = rd_PodOwner r' →
  rd_WorkloadAnnotations r = rd_WorkloadAnnotations r' →
  rd_NamespaceAnnotations r (su_namespace s) = rd_NamespaceAnnotations r' (su_namespace s) →
  DecideWalk s r = DecideWalk s r'.
Proof.
  intros E1 E2 E3 E4.
  unfold DecideWalk, decide_walk, departedDecision, optIn, workloadAnnotations, namespaceAnnotations,
    gate, readOwner, readPolicies.
  by rewrite E1, E2, E3, E4.
Qed.

Lemma decide_subject_plain b s :
  memo_ok b →
  fst (decide_subject cl opts policies b s) = Decide s plain_reader ∧
  memo_ok (snd (decide_subject cl opts policies b s)) ∧
  bd_byKey (snd (decide_subject cl opts policies b s)) = bd_byKey b.
Proof.
  intros Hb. unfold decide_subject, Decide.
  destruct (NamespaceAnnotations_memo b (su_namespace s) Hb) as (H1 & H2 & H3).
  rewrite (DecideWalk_ext s (reader cl opts policies b) plain_reader) by done.
  destruct (DecideWalk s plain_reader) as [d w]. cbn [fst snd].
  by case_bool_decide.
Qed.

(** *** Every live object is a member of one identity *)

(** The members visited so far, with the identities they report into: each
    identity holds its own, in the order they were visited. *)
Definition holds_members b (ms : list (WorkloadIdentity * Member)) : Prop :=
  ∀ key, Key (identity_of (bd_byKey b) key) = key ∧
    Members (identity_of (bd_byKey b) key) = map snd (filter (λ p, p.1 = key) ms).

Lemma holds_addMember b ms key m :
  holds_members b ms → holds_members (addMember b key m) (ms ++ [(key, m)]).
Proof.
  intros H k. unfold addMember, with_byKey, identity_of. cbn [bd_byKey].
  rewrite filter_app, map_app, filter_cons, filter_nil. cbn [fst].
  destruct (decide (key = k)) as [->|Hk].
  - rewrite lookup_insert_eq. cbn [from_option id Members Key]. destruct (H k) as [H1 H2].
    split; [exact H1|]. by rewrite <-H2.
  - rewrite lookup_insert_ne by done. cbn [map]. rewrite app_nil_r. apply H.
Qed.

(** The members one object makes: none when it is no member. *)
Definition workload_members (kind : string) (o : WorkloadObject) : list (WorkloadIdentity * Member) :=
  if match wo_Job o with
     | Some job => IsOwnedByKind (job_OwnerReferences job) "CronJob" || JobFinished job
     | None => false
     end then []
  else
    match Decide (SubjectPodTemplate (wo_Namespace o) kind (wo_Name o) (wo_Annotations o)
                    (wo_TemplateLabels o) (wo_TemplateAnnotations o)) plain_reader with
    | Err _ => []
    | Ok d =>
        [(d_Identity d,
          {| m_Name := wo_Name o; m_Created := wo_Created o; m_Policy := PolicyName d;
             m_Containers := wo_Containers o; m_InitContainers := wo_InitContainers o |})]
    end.

Definition pod_members (pod : Pod) : list (WorkloadIdentity * Member) :=
  match GetControllerOf (pod_OwnerReferences pod) with
  | Some _ => []
  | None =>
      match Decide (SubjectPod pod) plain_reader with
      | Err _ => []
      | Ok d =>
          if bool_decide (d_Refusal d = Some NoOwner) then []
          else
            [(d_Identity d,
              {| m_Name := pod_Name pod; m_Created := pod_Created pod; m_Policy := PolicyName d;
                 m_Containers := pod_Containers pod; m_InitContainers := pod_InitContainers pod |})]
      end
  end.

(** What listing the scopes one after another visits. *)
Fixpoint listed {A} (lister : string → result (list A)) (scopes : list string) : list A :=
  match scopes with
  | [] => []
  | ns :: scopes' => match lister ns with Err _ => [] | Ok items => items ++ listed lister scopes' end
  end.

Definition list_scopes : list string := if bool_decide (scope opts = []) then [""] else scope opts.

Definition live_members : list (WorkloadIdentity * Member) :=
  concat (map (λ kind,
    if inScope opts kind then
      if String.eqb kind "Pod" then concat (map pod_members (listed (list_pods_in cl) list_scopes))
      else concat (map (workload_members kind) (listed (list_workloads cl kind) list_scopes))
    else []) SupportedKinds).

(** Visiting in a loop, one after another. *)
Lemma visit_fold {A} (P : builder → list A → Prop) (visit : builder → A → result builder) items b b' l :
  (∀ b a b' l, P b l → visit b a = Ok b' → P b' (l ++ [a])) →
  P b l → foldl (λ rb a, rbind rb (λ b, visit b a)) (Ok b) items = Ok b' → P b' (l ++ items).
Proof.
  intros Hv. revert b l. induction items as [|a items IH]; intros b l Hb; cbn [foldl].
  { intros [= <-]. by rewrite app_nil_r. }
  cbn [rbind]. destruct (visit b a) as [b1|e] eqn:E; intros H.
  - rewrite (cons_middle a), app_assoc. apply (IH b1); [by eapply Hv|done].
  - exfalso. clear -H. induction items as [|x items IH]; [done|]. by apply IH.
Qed.

Lemma list_each_inv {A} (P : builder → list A → Prop) lister (visit : builder → A → result builder)
    scopes b b' l :
  (∀ b a b' l, P b l → visit b a = Ok b' → P b' (l ++ [a])) →
  P b l → list_each lister visit scopes b = Ok b' → P b' (l ++ listed lister scopes).
Proof.
  intros Hv. revert b l. induction scopes as [|ns scopes IH]; intros b l Hb; cbn [list_each listed].
  { intros [= <-]. by rewrite app_nil_r. }
  destruct (lister ns) as [items|e].
  - destruct (foldl _ _ items) as [b1|e] eqn:E; [|done]. rewrite app_assoc. apply IH.
    by eapply visit_fold.
  - destruct (IsNoMatchError e); [|done]. intros [= <-]. by rewrite app_nil_r.
Qed.

(** A builder that remembers soundly and holds the members of [ms]. *)
Definition built (ms : list (WorkloadIdentity * Member)) b : Prop := memo_ok b ∧ holds_members b ms.

Lemma memo_ok_byKey b m : memo_ok b → memo_ok (with_byKey b m).
Proof. intros []. by split. Qed.

Lemma visitWorkload_built kind b o b' ms :
  built ms b → visitWorkload cl opts policies kind b o = Ok b' → built (ms ++ workload_members kind o) b'.
Proof.
  intros [Hm Hh]. unfold visitWorkload, workload_members.
  destruct (match wo_Job o with Some _ => _ | None => _ end).
  { intros [= <-]. by rewrite app_nil_r. }
  match goal with |- context [decide_subject cl opts policies b ?s] =>
    destruct (decide_subject_plain b s Hm) as (<- & Hm' & Hk); destruct (decide_subject cl opts policies b s) as [d b1] end.
  cbn [fst snd] in *. destruct d as [d|e]; [|done]. intros [= <-]. split; [by apply memo_ok_byKey|].
  apply holds_addMember. intros key. rewrite Hk. apply Hh.
Qed.

Lemma visitBarePod_built b pod b' ms :
  built ms b → visitBarePod cl opts policies b pod = Ok b' → built (ms ++ pod_members pod) b'.
Proof.
  intros [Hm Hh]. unfold visitBarePod, pod_members.
  destruct (GetControllerOf _); [intros [= <-]; by rewrite app_nil_r|].
  destruct (decide_subject_plain b (SubjectPod pod) Hm) as (<- & Hm' & Hk).
  destruct (decide_subject cl opts policies b (SubjectPod pod)) as [d b1].
  cbn [fst snd] in *. destruct d as [d|e]; [|done].
  assert (Hh1 : holds_members b1 ms) by (intros key; rewrite Hk; apply Hh).
  destruct (bool_decide _); intros [= <-]; [by rewrite app_nil_r|].
  split; [by apply memo_ok_byKey|]. by apply holds_addMember.
Qed.

Lemma list_scoped_built {A} (f : A → list (WorkloadIdentity * Member)) lister visit b b' ms :
  (∀ b a b' ms, built ms b → visit b a = Ok b' → built (ms ++ f a) b') →
  built ms b → list_scoped opts lister visit b = Ok b' →
  built (ms ++ concat (map f (listed lister list_scopes))) b'.
Proof.
  intros Hv Hb H. unfold list_scoped in H. fold list_scopes in H.
  apply (list_each_inv (λ b l, built (ms ++ concat (map f l)) b) _ _ _ _ _ []) in H; [done| |].
  - intros b1 a b2 l Hb1 Ha. rewrite map_app, concat_app. cbn. rewrite app_nil_r, app_assoc. by eapply Hv.
  - cbn. by rewrite app_nil_r.
Qed.

Lemma addKind_built kind b b' ms :
  built ms b → addKind cl opts policies (Ok b) kind = Ok b' →
  built (ms ++ (if inScope opts kind then
      if String.eqb kind "Pod" then concat (map pod_members (listed (list_pods_in cl) list_scopes))
      else concat (map (workload_members kind) (listed (list_workloads cl kind) list_scopes))
    else [])) b'.
Proof.
  intros Hb. unfold addKind. cbn [rbind]. destruct (inScope opts kind); cbn [negb];
    [|intros [= <-]; by rewrite app_nil_r].
  destruct (String.eqb kind "Pod").
  - destruct (addBarePods _ _ _ b) as [b1|e] eqn:E; [|done]. intros [= <-].
    eapply list_scoped_built; [|done|exact E]. intros; by eapply visitBarePod_built.
  - destruct (addWorkloads _ _ _ kind b) as [b1|e] eqn:E; [|done]. intros [= <-].
    eapply list_scoped_built; [|done|exact E]. intros; by eapply visitWorkload_built.
Qed.

Lemma newBuilder_built : built [] newBuilder.
Proof. split; [by split|]. by intros key. Qed.

Lemma addKinds_built b' :
  foldl (addKind cl opts policies) (Ok newBuilder) SupportedKinds = Ok b' → built live_members b'.
Proof.
  unfold live_members. generalize SupportedKinds as kinds. intros kinds.
  assert (H : ∀ kinds b ms, built ms b → foldl (addKind cl opts policies) (Ok b) kinds = Ok b' →
    built (ms ++ concat (map (λ kind,
      if inScope opts kind then
        if String.eqb kind "Pod" then concat (map pod_members (listed (list_pods_in cl) list_scopes))
        else concat (map (workload_members kind) (listed (list_workloads cl kind) list_scopes))
      else []) kinds)) b'); [|by apply (H kinds newBuilder []), newBuilder_built].
  clear kinds. intros kinds. induction kinds as [|kind kinds IH]; intros b ms Hb; cbn [foldl map concat].
  { intros [= <-]. by rewrite app_nil_r. }
  destruct (addKind cl opts policies (Ok b) kind) as [b1|e] eqn:E.
  - rewrite app_assoc. apply IH. by eapply addKind_built.
  - intros H. exfalso. clear -H. induction kinds as [|k kinds IH]; [done|]. by apply IH.
Qed.

Lemma visitRecommendation_built b wlr b' ms :
  built ms b → visitRecommendation cl opts policies b wlr = Ok b' → built ms b'.
Proof.
  intros [Hm Hh]. unfold visitRecommendation. destruct (negb (inScope _ _)); [by intros [= <-]|].
  set (key := identityOf _). set (id := identity_of (bd_byKey b) key).
  assert (Hset : ∀ b1 policy, memo_ok b1 → bd_byKey b1 = bd_byKey b → built ms (with_byKey b1
    (<[key := {| Key := Key id; Members := Members id; Containers := Containers id;
                 InitContainers := InitContainers id; Since := Since id; id_Policy := policy;
                 Conflicted := Conflicted id; Recommendation := Some wlr |}]> (bd_byKey b)))).
  { intros b1 policy Hb1 _. split; [by apply memo_ok_byKey|]. intros k.
    unfold with_byKey, identity_of. cbn [bd_byKey]. destruct (decide (key = k)) as [<-|Hk].
    - rewrite lookup_insert_eq. apply (Hh key).
    - rewrite lookup_insert_ne by done. apply Hh. }
  destruct (negb (Departed id)); [intros [= <-]; by apply Hset|].
  destruct (decide_subject_plain b (SubjectDeparted key (spec_Policy (wlr_Spec wlr))) Hm) as (_ & Hm' & Hk).
  destruct (decide_subject cl opts policies b _) as [[d|e] b1]; [|done]. cbn [snd] in *.
  intros [= <-]. by apply Hset.
Qed.

Lemma addRecommendations_built b b' ms :
  built ms b → addRecommendations cl opts policies b = Ok b' → built ms b'.
Proof.
  intros Hb H. unfold addRecommendations, list_scoped in H.
  apply (list_each_inv (λ b _, built ms b) _ _ _ _ _ []) in H; [exact H| |exact Hb].
  intros ? ? ? ? ? ?. by eapply visitRecommendation_built.
Qed.

Lemma settle_members id : Key (settle id) = Key id ∧ Members (settle id) ≡ₚ Members id.
Proof.
  unfold settle. destruct (Departed _).
  - destruct (Recommendation _); [destruct (ContainersFromObserved _)|]; cbn; by rewrite sort_by_perm.
  - destruct (match MemberPolicies _ with [] => _ | _ => _ end).
    destruct (unionContainers _). cbn. by rewrite sort_by_perm.
Qed.

(** What a built snapshot holds: one identity per key, in key order, each with
    the live members that report into it. *)
Lemma snapshot_of_built b ms :
  built ms b →
  StronglySorted (λ x y, CompareIdentity (Key x) (Key y) ≠ Gt) (snapshot_of b) ∧
  NoDup (map Key (snapshot_of b)) ∧
  (∀ id, id ∈ snapshot_of b → Members id ≡ₚ map snd (filter (λ p, p.1 = Key id) ms)) ∧
  (∀ key m, (key, m) ∈ ms → ∃ id, id ∈ snapshot_of b ∧ Key id = key ∧ m ∈ Members id).
Proof.
  intros [_ Hh]. unfold snapshot_of.
  assert (Hkey : ∀ key id, bd_byKey b !! key = Some id → Key id = key ∧
    Members id = map snd (filter (λ p, p.1 = key) ms)).
  { intros key id Hid. specialize (Hh key). unfold identity_of in Hh. by rewrite Hid in Hh. }
  assert (Hin : ∀ id, id ∈ snapshot_of b ↔ ∃ key id0, bd_byKey b !! key = Some id0 ∧ id = settle id0).
  { intros id. unfold snapshot_of. rewrite elem_of_sort_by, list_elem_of_fmap. split.
    - intros (id0 & -> & [[key ?] [-> Hl%elem_of_map_to_list]]%list_elem_of_fmap). eauto.
    - intros (key & id0 & Hl & ->). exists id0. split; [done|]. apply list_elem_of_fmap.
      exists (key, id0). split; [done|]. by apply elem_of_map_to_list. }
  fold (snapshot_of b). split_and!.
  - pose proof (cmp_on_pre Key _ CompareIdentity_pre). apply sort_by_sorted; done.
  - unfold snapshot_of. rewrite sort_by_perm, map_map.
    rewrite (map_ext_in _ Key); [|intros id _; apply settle_members].
    assert (map Key (map_to_list (bd_byKey b)).*2 = (map_to_list (bd_byKey b)).*1) as ->;
      [|apply NoDup_fst_map_to_list].
    rewrite map_map. apply map_ext_in. intros [key id] Hl%list_elem_of_In%elem_of_map_to_list.
    by apply Hkey.
  - intros id (key & id0 & Hl & ->)%Hin. destruct (settle_members id0) as [-> ->].
    destruct (Hkey _ _ Hl) as [-> ->]. done.
  - intros key m Hm.
    assert (Hmem : m ∈ map snd (filter (λ p, p.1 = key) ms)).
    { apply list_elem_of_fmap. exists (key, m). split; [done|]. by apply list_elem_of_filter. }
    pose proof (Hh key) as [_ Hk]. unfold identity_of in Hk.
    destruct (bd_byKey b !! key) as [id0|] eqn:E; cbn [default] in Hk.
    2: { cbn in Hk. rewrite <-Hk in Hmem. by apply not_elem_of_nil in Hmem. }
    exists (settle id0). destruct (settle_members id0) as [E1 E2]. split_and!.
    + apply Hin. eauto.
    + rewrite E1. by apply (Hkey _ _ E).
    + rewrite E2. cbn in Hk. by rewrite Hk.
Qed.
End Builder.

(** The identities of a pass have distinct keys. *)
Lemma Take_distinct `{KO : KubeOps} (cl : Cluster) (opts : Options) snap :
  fst (Take cl opts) = Ok snap → NoDup (map Key (Identities snap)).
Proof.
  unfold Take. destruct (b_Policies (o_Basis opts)) as [lister|], (b_Now (o_Basis opts)) as [takenAt|]; try done.
  destruct (List_policies lister (list_policies cl)) as [[ps|e] lister']; [|done].
  destruct (foldl _ _ SupportedKinds) as [b|e] eqn:Eb; [|done].
  destruct (addRecommendations cl opts ps b) as [b'|e] eqn:Er; [|done].
  intros [= <-]. cbn [Identities]. eapply snapshot_of_built, addRecommendations_built; [|exact Er].
  by apply addKinds_built.
Qed.

Lemma TakeForPolicy_distinct `{KO : KubeOps} (cl : Cluster) policy b snap :
  fst (TakeForPolicy cl policy b) = Ok snap → NoDup (map Key (Identities snap)).
Proof.
  unfold TakeForPolicy. destruct (validate b); [done|]. case_bool_decide; [|apply Take_distinct].
  intros [= <-]. apply NoDup_nil_2.
Qed.

(** C28: a snapshot holds every live object of its scope once, in the identity it
    reports into: identities are one per key, in key order, and the members of
    each are the objects whose decision, made without the memo, names it. *)
Theorem Take_members `{KO : KubeOps} (cl : Cluster) (opts : Options) lister takenAt ps snap :
  b_Policies (o_Basis opts) = Some lister → b_Now (o_Basis opts) = Some takenAt →
  fst (List_policies lister (list_policies cl)) = Ok ps →
  fst (Take cl opts) = Ok snap →
  StronglySorted (λ x y, CompareIdentity (Key x) (Key y) ≠ Gt) (Identities snap) ∧
  NoDup (map Key (Identities snap)) ∧
  (∀ id, id ∈ Identities snap →
     Members id ≡ₚ map snd (filter (λ p, p.1 = Key id) (live_members cl opts ps))) ∧
  (∀ key m, (key, m) ∈ live_members cl opts ps →
     ∃ id, id ∈ Identities snap ∧ Key id = key ∧ m ∈ Members id).
Proof.
  intros Hl Hn Hps. unfold Take. rewrite Hl, Hn.
  destruct (List_policies lister (list_policies cl)) as [r lister']. cbn [fst] in Hps. subst r. cbn [fst].
  destruct (foldl _ _ SupportedKinds) as [b|e] eqn:Eb; [|done].
  destruct (addRecommendations cl opts ps b) as [b'|e] eqn:Er; [|done].
  intros [= <-]. cbn [Identities]. eapply snapshot_of_built, addRecommendations_built; [|exact Er].
  by apply addKinds_built.
Qed.

(** ** At a concrete input *)
Section Sample.
#[local] Existing Instance nano_quantity.
#[local] Existing Instance simple_kube.

Definition sample_object (name : string) (created : time) (ann : strmap) : WorkloadObject :=
  {| wo_Namespace := "prod"; wo_Name := name; wo_Created := created; wo_Annotations := ann;
     wo_TemplateLabels := ∅; wo_TemplateAnnotations := {[OwnerNameAnnotation := "web"]};
     wo_Containers := [{| c_Name := "app"; c_Resources := {| Requests := ∅; Limits := ∅ |}; c_RestartPolicy := None |}];
     wo_InitContainers := []; wo_Job := None |}.

(** Two Deployments of one identity, one of them annotated. *)
Definition sample_cluster : Cluster :=
  {| list_workloads kind _ :=
       if String.eqb kind "Deployment"
       then Ok [sample_object "web-b" 20 {[PolicyAnnotation := "frugal"]}; sample_object "web-a" 10 ∅]
       else Err (Sentinel NoMatch);
     list_pods_in _ := Ok []; list_recommendations _ := Ok []; list_policies := Ok [sample_policy];
     list_namespaces := Ok [("prod", ∅)]; get_namespace _ := Ok ∅ |}.

Definition sample_options : Options :=
  {| o_Basis := {| b_Policies := Some (NewPolicyLister []); b_Now := Some 100 |}; o_Namespaces := []; o_Kinds := [] |}.

Definition sample_snapshot : Snapshot :=
  match fst (Take sample_cluster sample_options) with
  | Ok s => s
  | Err _ => {| Identities := []; TakenAt := 0 |}
  end.

Lemma Take_members_witness :
  map (λ id, (id_OwnerName (Key id), map m_Name (Members id), id_Policy id)) (Identities sample_snapshot) =
    [("web", ["web-a"; "web-b"], "frugal")] ∧
  NoDup (map Key (Identities sample_snapshot)) ∧
  ∀ id, id ∈ Identities sample_snapshot →
    Members id ≡ₚ map snd (filter (λ p, p.1 = Key id)
      (live_members sample_cluster sample_options (index_policies [sample_policy] [] ∅))).
Proof.
  destruct (Take_members sample_cluster sample_options (NewPolicyLister []) 100
    (index_policies [sample_policy] [] ∅) sample_snapshot) as (_ & H2 & H3 & _).
  1-4: by_running.
  split; [by_running|]. by split.
Defined.

Definition sample_member (name policy : string) : Member :=
  {| m_Name := name; m_Created := 0; m_Policy := policy; m_Containers := []; m_InitContainers := [] |}.

Definition sample_identity (members : list Member) : Identity :=
  {| Key := Shards.Identity "prod" "Deployment" "web"; Members := members; Containers := []; InitContainers := [];
     Since := 0; id_Policy := ""; Conflicted := false; Recommendation := None |}.

Lemma settle_policy_witness :
  id_Policy (settle (sample_identity [sample_member "b" ""; sample_member "a" "frugal"])) = "frugal" ∧
  Conflicted (settle (sample_identity [sample_member "b" "generous"; sample_member "a" "frugal"])) = true.
Proof.
  split.
  - apply (settle_policy (sample_identity [sample_member "b" ""; sample_member "a" "frugal"]) "frugal"); try done.
    split; [exists (sample_member "a" "frugal"); split; [right; by left|done]|].
    intros m [->|[->|[]%elem_of_nil]%elem_of_cons]%elem_of_cons; [by left|by right].
  - apply (settle_policy (sample_identity [sample_member "b" "generous"; sample_member "a" "frugal"]) "frugal"); try done.
    exists (sample_member "b" "generous"), (sample_member "a" "frugal"). repeat split; try done; [by left|right; by left].
Defined.
End Sample.
