(* ===== verification/Limits.v ===== *)
(** * The limit side of a recommendation ([internal/recommender/limit.go])

    The limit strategies of a Policy, the chain that runs the chosen one, the
    limit adjusters and the guard, and the contributions of signals both chains
    run ([contributionsTo], [stagesOf] of [compute.go]). *)

From S2P Require Import Prelude GoLang GoFloat Quantity Kube PolicyApi WlrApi Resources Signals.
Local Open Scope Z_scope.

Section Limits.
Context {PL : Platform} {QO : QuantityOps} {PO : PromOps}.

(** ** Contributions *)

Record contributed := {
  cd_signal : signal;
  cd_role : role;
  cd_contribution : contribution;
}.

Definition cd_value (c : contributed) : float64 := ct_value (cd_contribution c).

Definition contributionsTo (sc : stageContext) (res : resourceKind) (roles : list role) :
    list contributed :=
  concat (map (λ r,
    omap (λ s,
      match contribute s sc with
      | Some ct => Some {| cd_signal := s; cd_role := r; cd_contribution := ct |}
      | None => None
      end) (inSlot {| sl_role := r; sl_resource := res |})) roles).

Definition stagesOf (cs : list contributed) (sc : stageContext) (determined : Z) :
    list TraceStage :=
  map (λ p, sig_stage (cd_signal p.2) sc (cd_value p.2) (Z.of_nat p.1 =? determined))
    (indexed_from 0 cs).

(** ** Limits *)

Record limit := {
  l_value : option Quantity;
  l_removed : bool;
  l_set : bool;
}.

(** [limit.recommendation] *)
Definition limit_recommendation (l : limit) : option Quantity * bool :=
  if l_set l then (l_value l, false) else (None, l_removed l).

(** [limit.stage] *)
Definition limit_stage (l : limit) (name : string) (facts : strmap) : TraceStage :=
  {| Stage := name; ts_Value := l_value l; Removed := l_removed l; Facts := facts |}.

Definition set_limit (q : Quantity) : limit :=
  {| l_value := Some q; l_removed := false; l_set := true |}.

Record limitBasis := {
  lb_res : resourceKind;
  lb_request : Quantity;
  lb_current : ResourceRequirements;
  lb_cfg : ResourceLimitsConfig;
}.

Record limitStrategy := {
  st_name : string;
  chosen : ResourceLimitsConfig → bool;
  st_limit : limitBasis → limit * strmap;
}.

Definition stageKeepLimit : string := "keepLimit".
Definition stageNoLimit : string := "noLimit".
Definition stageEqualsToRequest : string := "equalsToRequest".
Definition stageRequestsLimitsRatio : string := "requestsLimitsRatio".
Definition stageKeepLimitRequestRatio : string := "keepLimitRequestRatio".
Definition stageGuard : string := "guard".
Definition factRatio : string := "ratio".

(** The container's own limit, kept. *)
Definition ownLimit (b : limitBasis) : limit * strmap :=
  ({| l_value := quantityOf (lb_res b) (Limits (lb_current b)); l_removed := false; l_set := false |}, ∅).

Definition scaleByRatio (request : Quantity) (ratio : float64) : Quantity :=
  if decide (QFormat request = BinarySI) then
    NewQuantity (int64_of_float (math_Ceil (f_mul (f_of_Z (Value request)) ratio))) (QFormat request)
  else
    NewMilliQuantity (int64_of_float (math_Ceil (f_mul (f_of_Z (MilliValue request)) ratio)))
      (QFormat request).

Definition ratioLimit (request : Quantity) (ratio : float64) : limit * strmap :=
  (set_limit (scaleByRatio request ratio), {[factRatio := formatFactor ratio]}).

Definition limitStrategies : list limitStrategy := [
  {| st_name := stageKeepLimit; chosen := KeepLimit; st_limit := ownLimit |};
  {| st_name := stageNoLimit; chosen := NoLimit;
     st_limit _ := ({| l_value := None; l_removed := true; l_set := false |}, ∅) |};
  {| st_name := stageEqualsToRequest; chosen := EqualsToRequest;
     st_limit b := (set_limit (lb_request b), ∅) |};
  {| st_name := stageRequestsLimitsRatio;
     chosen cfg := match RequestsLimitsRatio cfg with Some _ => true | None => false end;
     (* chosen only when the ratio is set *)
     st_limit b := ratioLimit (lb_request b) (default f_zero (RequestsLimitsRatio (lb_cfg b))) |};
  {| st_name := stageKeepLimitRequestRatio; chosen := KeepLimitRequestRatio;
     st_limit b :=
       match quantityOf (lb_res b) (Limits (lb_current b)),
             quantityOf (lb_res b) (Requests (lb_current b)) with
       | Some own, Some req =>
           ratioLimit (lb_request b) (f_div (f_of_Z (MilliValue own)) (f_of_Z (MilliValue req)))
       | _, _ => ownLimit b
       end |}
].

(** The first strategy [cfg] chooses, the first of all when none. *)
Definition strategyOf (cfg : ResourceLimitsConfig) : limitStrategy :=
  match List.find (λ s, chosen s cfg) limitStrategies with
  | Some s => s
  | None => hd {| st_name := stageKeepLimit; chosen := KeepLimit; st_limit := ownLimit |}
              limitStrategies
  end.

(** One adjuster of the limit: it raises a limit below it. *)
Definition raise (res : resourceKind) (st : limit * Z) (p : nat * contributed) : limit * Z :=
  let q := withHeadroom res (cd_value p.2) None in
  match l_value (fst st) with
  | Some v => if is_gt (Cmp q v) then (set_limit q, Z.of_nat p.1) else st
  | None => st
  end.

(** [sc_request] is set on the limit side. *)
Definition limitChain (res : resourceKind) (sc : stageContext) : limit * list TraceStage :=
  let request := default ZeroQuantity (sc_request sc) in
  let cfg := rc_Limits (sc_config sc) in
  let s := strategyOf cfg in
  let '(l, facts) := st_limit s
    {| lb_res := res; lb_request := request; lb_current := c_Resources (sc_container sc);
       lb_cfg := cfg |} in
  let stages := [limit_stage l (st_name s) facts] in
  let raised := contributionsTo sc res [limitAdjuster] in
  let '(l, winner) := foldl (raise res) (l, -1) (indexed_from 0 raised) in
  let guarded := match l_value l with Some v => is_lt (Cmp v request) | None => false end in
  let '(l, winner) := if guarded then (set_limit request, -1) else (l, winner) in
  let stages := stages ++ stagesOf raised sc winner in
  (l, if guarded then stages ++ [limit_stage l stageGuard ∅] else stages).
End Limits.

(** ** Facts *)
Section Facts.
Context {PL : Platform} {QO : QuantityOps} {PO : PromOps} {QL : QuantityLaws}.
Implicit Types (sc : stageContext) (l : limit).

(** No signal of the program adjusts a limit yet. *)
Lemma no_limit_adjusters sc res : contributionsTo sc res [limitAdjuster] = [].
Proof. unfold contributionsTo, inSlot, signals. by destruct res. Qed.

(** What the chosen strategy derives before the guard. *)
Definition strategy_limit (res : resourceKind) sc : limit :=
  fst (st_limit (strategyOf (rc_Limits (sc_config sc)))
    {| lb_res := res; lb_request := default ZeroQuantity (sc_request sc);
       lb_current := c_Resources (sc_container sc); lb_cfg := rc_Limits (sc_config sc) |}).

(** The chain is the strategy, then the guard. *)
Lemma limitChain_guard res sc :
  fst (limitChain res sc) =
  match l_value (strategy_limit res sc), sc_request sc with
  | Some v, r =>
      if is_lt (Cmp v (default ZeroQuantity r)) then set_limit (default ZeroQuantity r)
      else strategy_limit res sc
  | None, _ => strategy_limit res sc
  end.
Proof.
  unfold limitChain, strategy_limit. destruct (st_limit _ _) as [l facts].
  rewrite no_limit_adjusters. cbn [fst snd indexed_from imap foldl].
  destruct (l_value l) as [v|]; [|done]. by destruct (is_lt _).
Qed.

(** Every strategy either sets a limit, removes it, or keeps the container's. *)
Lemma strategyOf_shape cfg b :
  let l := fst (st_limit (strategyOf cfg) b) in
  (∃ q, l = set_limit q) ∨
  l = {| l_value := None; l_removed := true; l_set := false |} ∨
  l = fst (ownLimit b).
Proof.
  unfold strategyOf. cbn [List.find limitStrategies chosen].
  destruct (KeepLimit cfg); [by right; right|].
  destruct (NoLimit cfg); [by right; left|].
  destruct (EqualsToRequest cfg); [left; by eexists|].
  destruct (RequestsLimitsRatio cfg); [left; by eexists|].
  destruct (KeepLimitRequestRatio cfg); [|by right; right].
  cbn [st_limit fst]. destruct (quantityOf _ (Limits _)); [|by right; right].
  destruct (quantityOf _ (Requests _)); [left; by eexists|by right; right].
Qed.

(** The limit a container ends with when the chain's recommendation is applied
    to it. *)
Definition applied_limit (res : resourceKind) (c : Container) l : option Quantity :=
  match limit_recommendation l with
  | (Some q, _) => Some q
  | (None, true) => None
  | (None, false) => quantityOf res (Limits (c_Resources c))
  end.

Lemma chain_shape res sc :
  let l := fst (limitChain res sc) in
  (∃ q, l = set_limit q) ∨
  l = {| l_value := None; l_removed := true; l_set := false |} ∨
  l = {| l_value := quantityOf res (Limits (c_Resources (sc_container sc)));
         l_removed := false; l_set := false |}.
Proof.
  intros l. unfold l. rewrite limitChain_guard.
  pose proof (strategyOf_shape (rc_Limits (sc_config sc))
    {| lb_res := res; lb_request := default ZeroQuantity (sc_request sc);
       lb_current := c_Resources (sc_container sc); lb_cfg := rc_Limits (sc_config sc) |}) as H.
  cbn zeta in H. fold (strategy_limit res sc) in H.
  destruct (l_value (strategy_limit res sc)); [|exact H].
  destruct (is_lt _); [left; by eexists|exact H].
Qed.

Lemma applied_limit_value res sc :
  applied_limit res (sc_container sc) (fst (limitChain res sc)) =
  l_value (fst (limitChain res sc)).
Proof.
  unfold applied_limit.
  destruct (chain_shape res sc) as [[q ->] | [-> | ->]]; try done.
Qed.

(** the limit a container ends with, set by the chain or its own, is never
    below the final request, whatever the strategy. *)
Theorem limit_holds_request res sc request v :
  sc_request sc = Some request →
  applied_limit res (sc_container sc) (fst (limitChain res sc)) = Some v →
  nano request ≤ nano v.
Proof.
  intros Hr. rewrite applied_limit_value, limitChain_guard, Hr. cbn [from_option id].
  destruct (l_value (strategy_limit res sc)) as [w|] eqn:E; [|cbn iota; by rewrite E].
  destruct (Cmp w request) eqn:Hc; cbn [is_lt]; cbn iota.
  - apply Cmp_eq in Hc. rewrite E. intros [= <-]. lia.
  - intros [= <-]. done.
  - apply Cmp_gt in Hc. rewrite E. intros [= <-]. lia.
Qed.

(** A strategy that sets no limit leaves a container without one as it is. *)
Lemma limit_not_added res sc :
  quantityOf res (Limits (c_Resources (sc_container sc))) = None →
  let cfg := rc_Limits (sc_config sc) in
  KeepLimit cfg = true ∨ NoLimit cfg = true ∨
    (EqualsToRequest cfg = false ∧ RequestsLimitsRatio cfg = None) →
  applied_limit res (sc_container sc) (fst (limitChain res sc)) = None.
Proof.
  intros Ho cfg Hcfg. rewrite applied_limit_value, limitChain_guard.
  assert (l_value (strategy_limit res sc) = None) as Hn; [|by rewrite Hn].
  unfold strategy_limit, strategyOf. fold cfg. cbn [List.find limitStrategies chosen].
  assert (Hown : ∀ b, lb_res b = res → lb_current b = c_Resources (sc_container sc) →
    l_value (fst (ownLimit b)) = None) by (intros b <- Hb; simpl; by rewrite Hb).
  destruct (KeepLimit cfg); [by apply Hown|].
  destruct (NoLimit cfg); [done|].
  destruct Hcfg as [?|[?|[-> ->]]]; [done|done|].
  destruct (KeepLimitRequestRatio cfg); cbn [st_limit hd fst]; [|by apply Hown].
  cbn [lb_res lb_current]. rewrite Ho. by apply Hown.
Qed.

(** A limit set by the chain and the container's own that already holds the
    request are told apart: the latter is not recommended. *)
Lemma own_limit_kept res sc request v :
  sc_request sc = Some request → KeepLimit (rc_Limits (sc_config sc)) = true →
  quantityOf res (Limits (c_Resources (sc_container sc))) = Some v →
  limit_recommendation (fst (limitChain res sc)) =
    (if is_lt (Cmp v request) then Some request else None, false).
Proof.
  intros Hr Hk Ho. rewrite limitChain_guard.
  assert (strategy_limit res sc = {| l_value := Some v; l_removed := false; l_set := false |}) as ->.
  { unfold strategy_limit, strategyOf. cbn [List.find limitStrategies chosen].
    rewrite Hk. unfold ownLimit. cbn [st_limit fst lb_res lb_current]. by rewrite Ho. }
  rewrite Hr. cbn [l_value from_option id]. by destruct (is_lt _).
Qed.
End Facts.
