(* ===== verification/Compute.v ===== *)
(** * The recommendation algorithm ([internal/recommender/compute.go])

    The age gate, the chain of stages that sizes one resource of one container,
    and the answer for an identity. *)

From S2P Require Import Prelude GoLang GoFloat FloatOrder Quantity Kube PolicyApi WlrApi Autoscaler Shards.
From S2P Require Import Resources Signals Coordination Limits.
Local Open Scope Z_scope.

Definition MinWorkloadAge : duration := 10 * minute.

(** [sc_inputs] holds one entry per signal; ranging over them is order blind. *)
Definition tooYoung (since now : time) (inputs : WorkloadInputs) : bool :=
  if time_IsZero since || (MinWorkloadAge <=? time_Sub now since) then false
  else negb (existsb (λ p, excusesAge p.2) (map_to_list inputs)).

Inductive Outcome := Recommended | TooYoung | NoData.

#[export] Instance Outcome_eq_dec : EqDecision Outcome.
Proof. solve_decision. Defined.

Definition Recorded (o : Outcome) : RecommendationOutcome :=
  match o with
  | TooYoung => OutcomeTooYoung
  | NoData => OutcomeNoData
  | Recommended => OutcomeComputed
  end.

Record InputsRequest := {
  ir_Identity : WorkloadIdentity;
  ir_Containers : Z;
}.

Section Compute.
Context {PL : Platform} {QO : QuantityOps} {PO : PromOps}.

Record Request := {
  containers : list Container;
  resources : ResourcesConfigs;
  coordination : AutoscalerCoordination;
  autoInfo : Info;
  inputs : WorkloadInputs;
  since : time;
  now : time;
  fetch : InputsRequest;
}.

Record Result := {
  r_Outcome : Outcome;
  Recs : gmap string ContainerRecommendation;
  Traces : gmap string ContainerTrace;
}.

(** ** One resource of one container *)

(** One contribution: the running value and winner, [-1] for none. *)
Definition requestStep (st : float64 * Z) (p : nat * contributed) : float64 * Z :=
  let '(v, winner) := st in
  if f_gtb (cd_value p.2) v || (bool_decide (cd_role p.2 = base) && (winner <? 0))
  then (cd_value p.2, Z.of_nat p.1) else st.

Definition requestOf (cs : list contributed) : float64 * Z :=
  foldl requestStep (f_zero, -1) (indexed_from 0 cs).

Definition stageHeadroom : string := "headroom".
Definition stageClamp : string := "clamp".

Record sizing := {
  sz_request : Quantity;
  sz_limit : limit;
  sz_trace : ResourceTrace;
}.

(** What [size] returns: the sizing, and whether a signal justified one. *)
Definition size (res : resourceKind) (c : Container) (req : Request) : option sizing * bool :=
  let cfg := config res (resources req) in
  let sc := {| sc_inputs := inputs req; sc_config := cfg; sc_container := c;
               sc_now := now req; sc_request := None |} in
  let contributions := contributionsTo sc res [base; adjuster] in
  let '(v, winner) := requestOf contributions in
  let justified := existsb (λ ct, anchors (cd_contribution ct)) contributions in
  if negb justified || KeepRequest (rc_Requests cfg) then (None, justified)
  else
    let headroom := withHeadroom res v (Headroom (rc_Requests cfg)) in
    let clamped := clamp headroom (MinAllowed (rc_Requests cfg)) (MaxAllowed (rc_Requests cfg)) in
    let co := coordinate clamped res (coordination req) (autoInfo req) (rc_Requests cfg) in
    let bounded := negb (is_eq (Cmp clamped headroom)) ||
      match co with Some co => negb (is_eq (Cmp (co_value co) (co_scaled co))) | None => false end in
    let winner := if bounded then -1 else winner in
    let stages := stagesOf contributions sc winner ++
      [quantityStage stageHeadroom headroom; quantityStage stageClamp clamped] in
    let request := match co with Some co => co_value co | None => clamped end in
    let stages := match co with Some co => stages ++ [coordinated_stage co] | None => stages end in
    let sc := {| sc_inputs := sc_inputs sc; sc_config := sc_config sc;
                 sc_container := sc_container sc; sc_now := sc_now sc;
                 sc_request := Some request |} in
    let '(l, lstages) := limitChain res sc in
    (Some {| sz_request := request; sz_limit := l;
             sz_trace := {| rt_Request := stages; rt_Limit := lstages |} |}, true).

(** ** One container, one identity *)

Definition computeContainer (c : Container) (req : Request) :
    option (ContainerRecommendation * ContainerTrace) :=
  let '(cpu, cpuOK) := size cpuResource c req in
  let '(mem, memOK) := size memoryResource c req in
  if negb cpuOK && negb memOK then None
  else
    let limits (s : option sizing) : option Quantity * bool :=
      match s with Some s => limit_recommendation (sz_limit s) | None => (None, false) end in
    Some ({| CPURequest := sz_request <$> cpu; MemoryRequest := sz_request <$> mem;
             CPULimit := fst (limits cpu); MemoryLimit := fst (limits mem);
             RemoveCPULimit := snd (limits cpu); RemoveMemoryLimit := snd (limits mem) |},
          {| ct_CPU := sz_trace <$> cpu; ct_Memory := sz_trace <$> mem |}).

Definition computeStep (req : Request)
    (res : gmap string ContainerRecommendation * gmap string ContainerTrace) (c : Container) :=
  match computeContainer c req with
  | None => res
  | Some (rec, tr) => (<[c_Name c := rec]> (fst res), <[c_Name c := tr]> (snd res))
  end.

Definition Compute (req : Request) : Result :=
  let '(recs, traces) := foldl (computeStep req) (∅, ∅) (containers req) in
  let outcome :=
    if tooYoung (since req) (now req) (inputs req) then TooYoung
    else if decide (recs = ∅) then NoData
    else Recommended in
  {| r_Outcome := outcome; Recs := recs; Traces := traces |}.

(** [stageNamed] and [TracedCoordination] read a trace back. *)
Definition stageNamed (stages : list TraceStage) (name : string) : option TraceStage :=
  List.find (λ s, String.eqb (Stage s) name) stages.
End Compute.

(** ** The winner of the request side *)
Section Winner.
Context {PL : Platform} {QO : QuantityOps} {PO : PromOps}.

(** No contribution before a base one is an adjuster's. *)
Definition bases_first (cs : list contributed) : Prop :=
  ∃ bs ads, cs = bs ++ ads ∧ Forall (λ c, cd_role c = base) bs ∧
    Forall (λ c, cd_role c ≠ base) ads.

Lemma contributionsTo_app sc res r1 r2 :
  contributionsTo sc res (r1 ++ r2) = contributionsTo sc res r1 ++ contributionsTo sc res r2.
Proof. unfold contributionsTo. by rewrite map_app, concat_app. Qed.

Lemma contributionsTo_role sc res r : Forall (λ c, cd_role c = r) (contributionsTo sc res [r]).
Proof.
  unfold contributionsTo. simpl. rewrite app_nil_r. apply Forall_forall.
  intros c Hc. apply list_elem_of_omap in Hc as (s & _ & Hs). by split_cases.
Qed.

Lemma contributionsTo_bases_first sc res :
  bases_first (contributionsTo sc res [base; adjuster]).
Proof.
  exists (contributionsTo sc res [base]), (contributionsTo sc res [adjuster]).
  rewrite <-contributionsTo_app. split_and!; [done|apply contributionsTo_role|].
  eapply Forall_impl; [apply contributionsTo_role|]. by intros c ->.
Qed.

(** What the loop of [requestOf] holds after the contributions [cs]. *)
Definition winner_of (cs : list contributed) (st : float64 * Z) : Prop :=
  (st = (f_zero, -1) ∧
   ∀ c, c ∈ cs → cd_role c ≠ base ∧ f_gtb (cd_value c) f_zero = false) ∨
  (∃ n c, st = (cd_value c, Z.of_nat n) ∧ cs !! n = Some c ∧
     (∀ c', c' ∈ cs → f_gtb (cd_value c') (cd_value c) = false) ∧
     (∀ i c', (i < n)%nat → cs !! i = Some c' → f_gtb (cd_value c) (cd_value c') = true)).

Lemma requestOf_snoc cs c :
  requestOf (cs ++ [c]) = requestStep (requestOf cs) (length cs, c).
Proof.
  unfold requestOf, indexed_from. rewrite imap_app, foldl_app. simpl. by rewrite Nat.add_0_r.
Qed.

Lemma bases_first_snoc cs c :
  bases_first (cs ++ [c]) →
  bases_first cs ∧ (cd_role c = base → Forall (λ c', cd_role c' = base) cs).
Proof.
  intros (bs & ads & E & Hb & Ha).
  destruct ads as [|a ads _] using rev_ind.
  - rewrite app_nil_r in E. subst bs. apply Forall_app in Hb as [Hb _].
    split; [|done]. exists cs, []. by rewrite app_nil_r.
  - rewrite app_assoc in E. apply app_inj_tail in E as [-> ->].
    apply Forall_app in Ha as [Ha Hc]. apply Forall_cons in Hc as [Hc _].
    split; [by exists bs, ads|intros E]. by destruct Hc.
Qed.

Lemma winner_new cs c :
  (∀ c', c' ∈ cs → f_gtb (cd_value c) (cd_value c') = true) → f_isNaN (cd_value c) = false →
  winner_of (cs ++ [c]) (cd_value c, Z.of_nat (length cs)).
Proof.
  intros H Hc. right. exists (length cs), c. split_and!.
  - done.
  - by rewrite lookup_app_r, Nat.sub_diag by done.
  - intros c' [Hc'| ->%list_elem_of_singleton]%elem_of_app; [|apply f_ltb_irrefl].
    destruct (f_gtb (cd_value c') (cd_value c)) eqn:E; [|done].
    specialize (H c' Hc'). unfold f_gtb in *.
    rewrite <-(f_ltb_irrefl (cd_value c)). symmetry. by eapply f_ltb_trans.
  - intros i c' Hi. rewrite lookup_app_l by done. intros Hc'%list_elem_of_lookup_2. by apply H.
Qed.

(** With no NaN among the values, the request is the highest contribution, the
    first of equal ones, and a base contribution counts whatever its sign. *)
Lemma requestOf_winner cs :
  bases_first cs → Forall (λ c, f_isNaN (cd_value c) = false) cs →
  winner_of cs (requestOf cs).
Proof.
  induction cs as [|c cs IH] using rev_ind; intros Hbf Hnan.
  { left. split; [done|]. by intros c ?%not_elem_of_nil. }
  apply bases_first_snoc in Hbf as [Hbf Hbase].
  apply Forall_app in Hnan as [Hnan Hc]. apply Forall_cons in Hc as [Hc _].
  rewrite requestOf_snoc.
  destruct (IH Hbf Hnan) as [[-> Hno]|(n & w & -> & Hw & Hmax & Hfst)]; unfold requestStep; cbn [fst snd].
  - assert (Hnil : cd_role c = base → cs = []).
    { intros E. destruct cs as [|c' cs]; [done|].
      specialize (Hbase E). apply Forall_cons in Hbase as [Hc' _].
      by destruct (Hno c' ltac:(by left)). }
    destruct (f_gtb (cd_value c) f_zero) eqn:Hgt; cbn [orb];
      [|destruct (bool_decide_reflect (cd_role c = base)) as [E|E]; cbn [andb]].
    + apply winner_new; [|done]. intros c' Hc'. destruct (Hno c' Hc') as [_ Hz].
      eapply f_le_ltb_trans; [|exact Hz|exact Hgt].
      by eapply Forall_forall in Hnan; [|exact Hc'].
    + rewrite Hnil by done. apply (winner_new []); [|done]. by intros c' ?%not_elem_of_nil.
    + left. split; [done|].
      intros c' [Hc'| ->%list_elem_of_singleton]%elem_of_app; [by apply Hno|done].
  - destruct (f_gtb (cd_value c) (cd_value w)) eqn:Hgt; cbn [orb].
    + apply winner_new; [|done]. intros c' Hc'.
      eapply f_le_ltb_trans; [|by apply Hmax|exact Hgt].
      by eapply Forall_forall in Hnan; [|exact Hc'].
    + replace (Z.of_nat n <? 0) with false by (symmetry; apply Z.ltb_ge; lia).
      rewrite andb_false_r. right. exists n, w.
      pose proof (lookup_lt_Some _ _ _ Hw) as Hlt.
      split_and!; [done|by rewrite lookup_app_l| |].
      * intros c' [Hc'| ->%list_elem_of_singleton]%elem_of_app; [by apply Hmax|done].
      * intros i c' Hi. rewrite lookup_app_l by lia. by apply Hfst.
Qed.
End Winner.

(** ** The request of one resource *)
Section Sizing.
Context {PL : Platform} {QO : QuantityOps} {PO : PromOps} {QL : QuantityLaws}.
Implicit Types (req : Request) (c : Container).

(** What both sides of the chain size with. *)
Definition stage_context res c req (request : option Quantity) : stageContext :=
  {| sc_inputs := inputs req; sc_config := config res (resources req); sc_container := c;
     sc_now := now req; sc_request := request |}.

Definition request_config res req : ResourceRequestsConfig :=
  rc_Requests (config res (resources req)).

Definition request_contributions res c req : list contributed :=
  contributionsTo (stage_context res c req None) res [base; adjuster].

Definition request_clamped res c req : Quantity :=
  clamp (withHeadroom res (fst (requestOf (request_contributions res c req)))
           (Headroom (request_config res req)))
    (MinAllowed (request_config res req)) (MaxAllowed (request_config res req)).

Definition request_final res c req : Quantity :=
  match coordinate (request_clamped res c req) res (coordination req) (autoInfo req)
          (request_config res req) with
  | Some co => co_value co
  | None => request_clamped res c req
  end.

Definition request_justified res c req : bool :=
  existsb (λ ct, anchors (cd_contribution ct)) (request_contributions res c req).

(** [size] is the final request and the limit derived from it, exactly when a
    signal justified one and the Policy does not keep the container's. *)
Lemma size_spec res c req :
  snd (size res c req) = request_justified res c req ∧
  match fst (size res c req) with
  | Some s =>
      request_justified res c req = true ∧ KeepRequest (request_config res req) = false ∧
      sz_request s = request_final res c req ∧
      sz_limit s = fst (limitChain res (stage_context res c req (Some (request_final res c req))))
  | None => request_justified res c req = false ∨ KeepRequest (request_config res req) = true
  end.
Proof.
  unfold size. fold (request_config res req). fold (stage_context res c req None).
  fold (request_contributions res c req). fold (request_justified res c req).
  unfold request_final, request_clamped.
  destruct (requestOf _) as [v winner]. cbn [fst].
  destruct (request_justified res c req); [|by split; [|left]].
  destruct (KeepRequest _); [by split; [|right]|]. cbn [negb orb].
  unfold stage_context. cbn [sc_inputs sc_config sc_container sc_now].
  match goal with |- context [limitChain res ?sc] => destruct (limitChain res sc) as [l ls] eqn:E end.
  split; [done|]. cbn [fst]. split_and!; try done.
Qed.

Lemma size_Some res c req s :
  fst (size res c req) = Some s →
  request_justified res c req = true ∧ KeepRequest (request_config res req) = false ∧
  sz_request s = request_final res c req ∧
  sz_limit s = fst (limitChain res (stage_context res c req (Some (request_final res c req)))).
Proof. intros H. destruct (size_spec res c req) as [_ Hs]. by rewrite H in Hs. Qed.

Lemma nano_request_final_clamped res c req :
  ∃ q, nano (request_final res c req) =
    nano (clamp q (MinAllowed (request_config res req)) (MaxAllowed (request_config res req))).
Proof.
  unfold request_final, coordinate.
  destruct (_ || _); [by eexists|].
  destruct (applyOverhead _ _) as [scaled ov].
  destruct res, (ReplicaBudgetAnchor (coordination req)); try (destruct (applyReplicaCorrection _ _ _ _ _));
    by eexists.
Qed.

(** whatever the signals, the headroom and the autoscaler, a computed request
    stays within the operator's bounds. *)
Theorem request_within_bounds res c req s :
  fst (size res c req) = Some s →
  requests_admitted (request_config res req) = true →
  match MinAllowed (request_config res req) with Some m => nano m ≤ nano (sz_request s) | None => True end ∧
  match MaxAllowed (request_config res req) with Some m => nano (sz_request s) ≤ nano m | None => True end.
Proof.
  intros (_ & _ & -> & _)%size_Some Hadm.
  destruct (nano_request_final_clamped res c req) as [q ->].
  unfold requests_admitted in Hadm. bool_props.
  destruct (MinAllowed _) as [mn|], (MaxAllowed _) as [mx|]; split; try done.
  - apply clamp_ge_min. destruct (Cmp mn mx) eqn:E; [apply Cmp_eq in E; lia|apply Cmp_lt in E; lia|done].
  - apply clamp_le_max.
  - by apply clamp_ge_min.
  - apply clamp_le_max.
Qed.

(** What a container declares of a resource once its recommendation is applied:
    the recommended request or its own, and the same for the limit, which the
    recommendation may also strip. *)
Definition recommended_request (res : resourceKind) (rec : ContainerRecommendation) : option Quantity :=
  match res with cpuResource => CPURequest rec | memoryResource => MemoryRequest rec end.

Definition recommended_limit (res : resourceKind) c (rec : ContainerRecommendation) : option Quantity :=
  let '(l, removed) :=
    match res with
    | cpuResource => (CPULimit rec, RemoveCPULimit rec)
    | memoryResource => (MemoryLimit rec, RemoveMemoryLimit rec)
    end in
  match l with
  | Some q => Some q
  | None => if removed then None else quantityOf res (Limits (c_Resources c))
  end.

Lemma computeContainer_Some c req rec tr :
  computeContainer c req = Some (rec, tr) →
  ∀ res, recommended_request res rec = sz_request <$> fst (size res c req) ∧
    recommended_limit res c rec =
      match fst (size res c req) with
      | Some s => applied_limit res c (sz_limit s)
      | None => quantityOf res (Limits (c_Resources c))
      end.
Proof.
  unfold computeContainer.
  destruct (size cpuResource c req) as [cpu b1] eqn:E1, (size memoryResource c req) as [mem b2] eqn:E2.
  destruct (negb b1 && negb b2); [done|]. intros [= <- <-] res.
  unfold recommended_request, recommended_limit, applied_limit.
  destruct res; rewrite ?E1, ?E2; cbn [fst]; (split; [done|]).
  - destruct cpu as [s|]; [|done]. cbn [CPULimit RemoveCPULimit]. by destruct (limit_recommendation _).
  - destruct mem as [s|]; [|done]. cbn [MemoryLimit RemoveMemoryLimit]. by destruct (limit_recommendation _).
Qed.

(** C1: a recommendation never sizes a container the API server rejects: the
    limit it leaves the container with holds the request it sets. *)
Theorem recommendation_admissible c req rec tr res request l :
  computeContainer c req = Some (rec, tr) →
  recommended_request res rec = Some request →
  recommended_limit res c rec = Some l →
  nano request ≤ nano l.
Proof.
  intros H. destruct (computeContainer_Some _ _ _ _ H res) as [-> ->].
  destruct (fst (size res c req)) as [s|] eqn:E; [|done].
  apply size_Some in E as (_ & _ & Hq & Hl). simpl. rewrite Hq, Hl. intros [= <-].
  eapply (limit_holds_request res (stage_context res c req (Some (request_final res c req)))).
  done.
Qed.

(** A resource whose request the Policy keeps is left alone, limit included. *)
Lemma kept_request_untouched c req rec tr res :
  KeepRequest (request_config res req) = true →
  computeContainer c req = Some (rec, tr) →
  recommended_request res rec = None ∧
  recommended_limit res c rec = quantityOf res (Limits (c_Resources c)).
Proof.
  intros Hk H. destruct (computeContainer_Some _ _ _ _ H res) as [-> ->].
  destruct (fst (size res c req)) as [s|] eqn:E; [|done].
  apply size_Some in E as (_ & Hk' & _). by rewrite Hk in Hk'.
Qed.

(** ** The answer for an identity *)

(** The maps of the answer are filled by independent loops. *)
Lemma computeStep_split req cs st :
  foldl (computeStep req) st cs =
  (foldl (λ m c, match fst <$> computeContainer c req with Some w => <[c_Name c := w]> m | None => m end)
     (fst st) cs,
   foldl (λ m c, match snd <$> computeContainer c req with Some w => <[c_Name c := w]> m | None => m end)
     (snd st) cs).
Proof.
  revert st. induction cs as [|c cs IH]; intros st; simpl; [by destruct st|].
  rewrite IH. unfold computeStep. by destruct (computeContainer c req) as [[]|].
Qed.

Lemma Compute_Recs req n rec :
  NoDup (map c_Name (containers req)) →
  Recs (Compute req) !! n = Some rec ↔
  ∃ c, c ∈ containers req ∧ c_Name c = n ∧ fst <$> computeContainer c req = Some rec.
Proof.
  intros Hnd. unfold Compute. rewrite computeStep_split. cbn [Recs fst snd].
  by apply lookup_fold_insert.
Qed.

Lemma Compute_Traces req n tr :
  NoDup (map c_Name (containers req)) →
  Traces (Compute req) !! n = Some tr ↔
  ∃ c, c ∈ containers req ∧ c_Name c = n ∧ snd <$> computeContainer c req = Some tr.
Proof.
  intros Hnd. unfold Compute. rewrite computeStep_split. cbn [Traces fst snd].
  by apply lookup_fold_insert.
Qed.

Definition usage_contributed (r : resourceKind) (u : float64) : contributed :=
  {| cd_signal := usage r; cd_role := base;
     cd_contribution := {| ct_value := u; anchors := true |} |}.

Definition oom_contributed (o : OOM) : contributed :=
  {| cd_signal := oomFloor; cd_role := adjuster;
     cd_contribution := {| ct_value := fst (floor o); anchors := negb (String.eqb (snd (floor o)) "") |} |}.

(** Memory is sized from its usage percentile and the floor of a recent kill. *)
Lemma memory_contributions sc :
  contributionsTo sc memoryResource [base; adjuster] =
  match inputs_usage (sc_inputs sc) (c_Name (sc_container sc)) memoryResource with
  | Some u => [usage_contributed memoryResource u]
  | None => []
  end ++ (if recent (oomOf sc) then [oom_contributed (oomOf sc)] else []).
Proof.
  unfold contributionsTo. cbn [map]. rewrite inSlot_base, inSlot_adjuster. cbn.
  unfold usage_contribute, oom_contribute, inputs_usage. cbn [resource_name].
  destruct (usageOfInputs (sc_inputs sc) ResourceMemory !! c_Name (sc_container sc));
    destruct (recent (oomOf sc)); cbn; try done;
    unfold oom_contributed; by destruct (floor (oomOf sc)).
Qed.

(** CPU is sized from its usage percentile alone. *)
Lemma cpu_contributions sc :
  contributionsTo sc cpuResource [base; adjuster] =
  match inputs_usage (sc_inputs sc) (c_Name (sc_container sc)) cpuResource with
  | Some u => [usage_contributed cpuResource u]
  | None => []
  end.
Proof.
  unfold contributionsTo. cbn [map]. rewrite inSlot_base, inSlot_adjuster. cbn.
  unfold usage_contribute, inputs_usage. cbn [resource_name].
  by destruct (usageOfInputs (sc_inputs sc) ResourceCPU !! c_Name (sc_container sc)).
Qed.

(** *** What the answer should be, said of the inputs alone *)

(** An OOM kill was counted in the window or seen live. *)
Definition killed (o : OOM) : Prop := f_gtb (Kills o) f_zero = true ∨ LiveAt o ≠ time_zero.

(** The identity was first seen less than ten minutes ago and no container of
    it was killed. *)
Definition young req : Prop :=
  since req ≠ time_zero ∧ time_Sub (now req) (since req) < 600 * 1000000000 ∧
  ∀ sig m n o, inputs req !! sig = Some (oomValues m) → m !! n = Some o → ¬ killed o.

Definition usage_observed res c req : option float64 :=
  match inputs req !! resource_name res with
  | Some (usageValues m) => m !! c_Name c
  | _ => None
  end.

Definition kills_observed c req : option OOM :=
  match inputs req !! oomName with
  | Some (oomValues m) => m !! c_Name c
  | _ => None
  end.

(** [o] is a recent kill whose floor is [fl]: 1.2 times the limit it was killed
    at when that is above the peak, else the peak. *)
Definition floored (o : OOM) (fl : float64) : Prop :=
  killed o ∧
  let bumped := f_mul (LimitBytes o) (f_const 6 5) in
  (f_gtb (LimitBytes o) f_zero = true ∧ f_gtb bumped (PeakBytes o) = true ∧ fl = bumped) ∨
  ((f_gtb (LimitBytes o) f_zero = false ∨ f_gtb bumped (PeakBytes o) = false) ∧
   HasPeak o = true ∧ fl = PeakBytes o).

(** A request rests on the usage observed or, for memory, on a kill's floor;
    it needs the highest of them. The floor of a kill that left no size is 0. *)
Definition justified res c req : Prop :=
  is_Some (usage_observed res c req) ∨
  res = memoryResource ∧ ∃ o fl, kills_observed c req = Some o ∧ floored o fl.

Definition floor_of res c req (fl : float64) : Prop :=
  res = memoryResource ∧ ∃ o, kills_observed c req = Some o ∧ killed o ∧
    (floored o fl ∨ (∀ f, ¬ floored o f) ∧ fl = f_zero).

Definition needs res c req (v : float64) : Prop :=
  match usage_observed res c req with
  | Some u =>
      (∀ fl, floor_of res c req fl → v = if f_gtb fl u then fl else u) ∧
      ((∀ fl, ¬ floor_of res c req fl) → v = u)
  | None => ∀ fl, floor_of res c req fl → v = if f_gtb fl f_zero then fl else f_zero
  end.

(** The need with its headroom, within the operator's bounds, then shaped for
    the autoscaler. *)
Definition request_for res c req (v : float64) : Quantity :=
  let rq := request_config res req in
  let q := clamp (withHeadroom res v (Headroom rq)) (MinAllowed rq) (MaxAllowed rq) in
  from_option co_value q (coordinate q res (coordination req) (autoInfo req) rq).

Definition limit_fields (res : resourceKind) (rec : ContainerRecommendation) : option Quantity * bool :=
  match res with
  | cpuResource => (CPULimit rec, RemoveCPULimit rec)
  | memoryResource => (MemoryLimit rec, RemoveMemoryLimit rec)
  end.

(** [rec] is what [c] should be recommended: of each resource a signal
    justifies and the Policy does not keep, the request it needs and the limit
    its chain derives of that request; of the others nothing. *)
Definition recommends c req (rec : ContainerRecommendation) : Prop :=
  ∀ res,
    (justified res c req ∧ KeepRequest (request_config res req) = false →
     ∃ v, needs res c req v ∧ recommended_request res rec = Some (request_for res c req v) ∧
       limit_fields res rec = limit_recommendation (fst (limitChain res
         (stage_context res c req (Some (request_for res c req v)))))) ∧
    (¬ (justified res c req ∧ KeepRequest (request_config res req) = false) →
     recommended_request res rec = None ∧ limit_fields res rec = (None, false)).

(** The trace [tr] tells how [rec] came about: the last stage of a resource's
    request is the request, that of its limit the limit the container ends
    with. *)
Definition trace_of (res : resourceKind) (tr : ContainerTrace) : option ResourceTrace :=
  match res with cpuResource => ct_CPU tr | memoryResource => ct_Memory tr end.

Definition traces c (rec : ContainerRecommendation) (tr : ContainerTrace) : Prop :=
  ∀ res,
    (is_Some (trace_of res tr) ↔ is_Some (recommended_request res rec)) ∧
    ∀ t, trace_of res tr = Some t →
      (last (rt_Request t) ≫= ts_Value) = recommended_request res rec ∧
      (last (rt_Limit t) ≫= ts_Value) = recommended_limit res c rec.

(** *** The code does that *)

Lemma recent_killed o : recent o = true ↔ killed o.
Proof.
  unfold recent, killed, time_IsZero, time_zero.
  by rewrite orb_true_iff, negb_true_iff, Z.eqb_neq.
Qed.

Lemma tooYoung_young req : tooYoung (since req) (now req) (inputs req) = true ↔ young req.
Proof.
  unfold tooYoung, young, time_IsZero, time_zero.
  replace MinWorkloadAge with (600 * 1000000000) by done.
  destruct (Z.eqb_spec (since req) 0) as [|Hs]; cbn [orb]; [split; [done|by intros []]|].
  destruct (Z.leb_spec (600 * 1000000000) (time_Sub (now req) (since req))) as [|Ha];
    [split; [done|intros (_ & ? & _); lia]|].
  rewrite negb_true_iff. split.
  - intros H. split_and!; [done..|]. intros sig m n o Hm Hn Hk%recent_killed.
    assert (existsb (λ p, excusesAge p.2) (map_to_list (inputs req)) = true) as Ht; [|by rewrite H in Ht].
    apply existsb_exists_elem. exists (sig, oomValues m).
    split; [by apply elem_of_map_to_list|]. apply existsb_exists_elem. exists (n, o).
    by rewrite elem_of_map_to_list.
  - intros (_ & _ & H). destruct (existsb _ _) eqn:E; [|done]. exfalso.
    apply existsb_exists_elem in E as ([sig [m|m]] & Hm%elem_of_map_to_list & E); [done|].
    apply existsb_exists_elem in E as ([n o] & Hn%elem_of_map_to_list & E).
    by apply (H sig m n o), recent_killed.
Qed.

Lemma floor_floored o : killed o →
  match snd (floor o) with
  | EmptyString => (∀ fl, ¬ floored o fl) ∧ fst (floor o) = f_zero
  | _ => ∀ fl, floored o fl ↔ fl = fst (floor o)
  end.
Proof.
  intros Hk. unfold floor, floored, oomBumpFactor.
  set (b := f_mul (LimitBytes o) (f_const 6 5)). cbn zeta.
  destruct (f_gtb (LimitBytes o) f_zero), (f_gtb b (PeakBytes o)), (HasPeak o); cbn; naive_solver.
Qed.

Lemma oomOf_kills res c req q :
  oomOf (stage_context res c req q) = default noOOM (kills_observed c req).
Proof.
  unfold oomOf, kills_observed, oomOfInputs. cbn [sc_inputs sc_container stage_context].
  destruct (inputs req !! oomName) as [[m|m]|]; cbn; by rewrite ?lookup_empty.
Qed.

Lemma usage_of_inputs res c req :
  inputs_usage (inputs req) (c_Name c) res = usage_observed res c req.
Proof.
  unfold inputs_usage, usage_observed, usageOfInputs.
  destruct (inputs req !! resource_name res) as [[m|m]|]; by rewrite ?lookup_empty.
Qed.

Lemma floor_of_memory c req fl :
  floor_of memoryResource c req fl ↔
  recent (default noOOM (kills_observed c req)) = true ∧ fl = fst (floor (default noOOM (kills_observed c req))).
Proof.
  unfold floor_of. destruct (kills_observed c req) as [o|]; cbn [from_option id].
  2:{ split; [by intros (_ & ? & ? & _)|by intros [? _]]. }
  rewrite recent_killed. split.
  - intros (_ & ? & [= <-] & Hk & Hf). split; [done|].
    pose proof (floor_floored o Hk) as H. destruct (snd (floor o)).
    + destruct H as [H ->]. destruct Hf as [?%H|[_ ->]]; done.
    + destruct Hf as [?%H|[Hf _]]; [done|]. destruct (Hf (fst (floor o))). by apply H.
  - intros [Hk ->]. split; [done|]. exists o. split_and!; [done..|].
    pose proof (floor_floored o Hk) as H. destruct (snd (floor o)); [by right|].
    left. by apply H.
Qed.

Lemma floored_anchor o fl : floored o fl → negb (String.eqb (snd (floor o)) "") = true.
Proof.
  intros H. assert (killed o) as Hk by apply H. pose proof (floor_floored o Hk) as Hf.
  destruct (snd (floor o)); [|done]. by destruct (proj1 Hf fl).
Qed.

Lemma anchor_floored o :
  killed o → negb (String.eqb (snd (floor o)) "") = true → floored o (fst (floor o)).
Proof.
  intros Hk. pose proof (floor_floored o Hk) as Hf.
  destruct (snd (floor o)); [done|]. intros _. by apply Hf.
Qed.

Lemma justified_spec res c req : request_justified res c req = true ↔ justified res c req.
Proof.
  unfold request_justified, request_contributions, justified.
  assert (Hno : res = cpuResource → ¬ (res = memoryResource ∧
    ∃ o fl, kills_observed c req = Some o ∧ floored o fl)) by (by intros -> [? _]).
  destruct res; rewrite ?cpu_contributions, ?memory_contributions, ?oomOf_kills;
    cbn [stage_context sc_inputs sc_container]; rewrite usage_of_inputs;
    destruct (usage_observed _ _ _); cbn [app existsb usage_contributed cd_contribution anchors orb].
  - split; [by left; eexists|done].
  - split; [done|]. by intros [[]%is_Some_None|H%Hno].
  - split; [by left; eexists|done].
  - split.
    + intros H. right. split; [done|]. destruct (kills_observed c req) as [o|]; [|done]. cbn in H.
      destruct (recent o) eqn:Hr; [|done]. cbn in H. rewrite orb_false_r in H.
      exists o, (fst (floor o)). split; [done|]. apply anchor_floored; [by apply recent_killed|done].
    + intros [[]%is_Some_None|(_ & o & fl & -> & Hfl)]. cbn [from_option id].
      assert (recent o = true) as -> by (apply recent_killed, Hfl). cbn.
      rewrite orb_false_r. by eapply floored_anchor.
Qed.

Lemma needs_spec res c req : needs res c req (fst (requestOf (request_contributions res c req))).
Proof.
  unfold request_contributions, needs. destruct res.
  - rewrite cpu_contributions. cbn [stage_context sc_inputs sc_container].
    rewrite usage_of_inputs. destruct (usage_observed _ _ _) as [u|]; [|by intros ? []].
    unfold requestOf. cbn. rewrite orb_true_r. split; [by intros ? []|done].
  - rewrite memory_contributions, oomOf_kills. cbn [stage_context sc_inputs sc_container].
    rewrite usage_of_inputs. set (o := default noOOM (kills_observed c req)).
    destruct (usage_observed _ _ _) as [u|]; unfold requestOf; [|]; destruct (recent o) eqn:Hr; cbn.
    + rewrite orb_true_r. cbn. rewrite orb_false_r. split.
      * intros fl [_ ->]%floor_of_memory. fold o. unfold cd_value. cbn. by destruct (f_gtb _ u).
      * intros H. destruct (H (fst (floor o))). by apply floor_of_memory.
    + rewrite orb_true_r. split; [|done]. intros fl [Hr' _]%floor_of_memory. fold o in Hr'. congruence.
    + rewrite orb_false_r. intros fl [_ ->]%floor_of_memory. fold o. unfold cd_value. cbn.
      by destruct (f_gtb _ f_zero).
    + intros fl [Hr' _]%floor_of_memory. fold o in Hr'. congruence.
Qed.
Lemma request_final_for res c req :
  request_final res c req = request_for res c req (fst (requestOf (request_contributions res c req))).
Proof.
  unfold request_final, request_for, request_clamped. cbn zeta. by destruct (coordinate _ _ _ _ _).
Qed.

(** The trace of the limit ends with the limit the container ends with. *)
Lemma limitChain_last res sc :
  (last (snd (limitChain res sc)) ≫= ts_Value) = applied_limit res (sc_container sc) (fst (limitChain res sc)).
Proof.
  rewrite applied_limit_value. unfold limitChain. destruct (st_limit _ _) as [l facts].
  rewrite no_limit_adjusters. cbn [fst snd indexed_from imap foldl].
  destruct (match l_value l with Some v => _ | None => false end); cbn [fst snd];
    unfold stagesOf; cbn [map indexed_from imap]; rewrite app_nil_r; [by rewrite last_snoc|done].
Qed.

(** The trace of a sizing: the request last of its stages, the limit's chain. *)
Lemma size_trace res c req s :
  fst (size res c req) = Some s →
  (last (rt_Request (sz_trace s)) ≫= ts_Value) = Some (sz_request s) ∧
  (last (rt_Limit (sz_trace s)) ≫= ts_Value) = applied_limit res c (sz_limit s).
Proof.
  unfold size. destruct (requestOf _) as [v winner]. destruct (_ || _); [done|].
  match goal with |- context [limitChain res ?sc] =>
    pose proof (limitChain_last res sc) as Hl; destruct (limitChain res sc) as [l ls] end.
  intros [= <-]. cbn [sz_trace rt_Request rt_Limit sz_request sz_limit]. split; [|exact Hl].
  destruct (coordinate _ _ _ _ _); [by rewrite last_snoc|].
  match goal with |- context [last (?x ++ [?y; ?z])] =>
    replace (x ++ [y; z]) with ((x ++ [y]) ++ [z]) by by rewrite <-app_assoc end.
  by rewrite last_snoc.
Qed.

Lemma computeContainer_justified c req :
  is_Some (computeContainer c req) ↔ justified cpuResource c req ∨ justified memoryResource c req.
Proof.
  rewrite <-!justified_spec. unfold computeContainer.
  destruct (size_spec cpuResource c req) as [<- _], (size_spec memoryResource c req) as [<- _].
  destruct (size cpuResource c req) as [? []], (size memoryResource c req) as [? []];
    cbn; split; try done; try (by left); try (by right); try (by intros [? ?]); by intros [?|?].
Qed.

Lemma computeContainer_limits c req rec tr res :
  computeContainer c req = Some (rec, tr) →
  limit_fields res rec =
    match fst (size res c req) with Some s => limit_recommendation (sz_limit s) | None => (None, false) end ∧
  trace_of res tr = sz_trace <$> fst (size res c req).
Proof.
  unfold computeContainer.
  destruct (size cpuResource c req) as [cpu b1] eqn:E1, (size memoryResource c req) as [mem b2] eqn:E2.
  destruct (negb b1 && negb b2); [done|]. intros [= <- <-].
  unfold limit_fields, trace_of. destruct res; rewrite ?E1, ?E2; cbn [fst CPULimit RemoveCPULimit MemoryLimit
    RemoveMemoryLimit ct_CPU ct_Memory]; [destruct cpu|destruct mem]; cbn; split; try done; by destruct (limit_recommendation _).
Qed.

Lemma needs_unique res c req v v' :
  justified res c req → needs res c req v → needs res c req v' → v = v'.
Proof.
  unfold needs. intros Hj. destruct (usage_observed res c req) as [u|] eqn:Eu.
  - intros [H1 H2] [H1' H2'].
    destruct (decide (res = memoryResource ∧ recent (default noOOM (kills_observed c req)) = true)) as [[-> Hr]|Hn].
    + set (fl := fst (floor (default noOOM (kills_observed c req)))).
      assert (floor_of memoryResource c req fl) as Hfl by (by apply floor_of_memory).
      by rewrite (H1 fl Hfl), (H1' fl Hfl).
    + assert (∀ fl, ¬ floor_of res c req fl) as Hno.
      { intros fl Hf. apply Hn. destruct Hf as [-> Hf]. split; [done|].
        by apply (floor_of_memory c req fl). }
      by rewrite (H2 Hno), (H2' Hno).
  - intros H H'. destruct Hj as [Hu|(-> & o & fl & Ho & Hfl)].
    + rewrite Eu in Hu. by destruct (is_Some_None Hu).
    + assert (floor_of memoryResource c req fl) as Hf.
      { split; [done|]. exists o. split_and!; [done|apply Hfl|by left]. }
      by rewrite (H fl Hf), (H' fl Hf).
Qed.

Lemma computeContainer_recommends c req rec tr :
  computeContainer c req = Some (rec, tr) → recommends c req rec ∧ traces c rec tr.
Proof.
  intros H. split; intros res; destruct (computeContainer_limits _ _ _ _ res H) as [Hl Ht];
    destruct (computeContainer_Some _ _ _ _ H res) as [Hq Hlim].
  - rewrite <-justified_spec, Hq, Hl.
    destruct (size_spec res c req) as [_ Hs]. destruct (fst (size res c req)) as [s|].
    + destruct Hs as (Hj & Hk & Hsr & Hsl). split; [intros _|by intros []].
      cbn [fmap option_fmap option_map]. rewrite Hsr, Hsl.
      exists (fst (requestOf (request_contributions res c req))).
      rewrite <-request_final_for. split; [apply needs_spec|done].
    + split; [|done]. intros [Hj Hk]. destruct Hs; congruence.
  - rewrite Ht, Hq, Hlim. destruct (fst (size res c req)) as [s|] eqn:Es; cbn.
    + split; [split; by eexists|]. intros t [= <-]. by apply size_trace in Es.
    + split; [split; by intros []%is_Some_None|done].
Qed.

Lemma recommends_unique c req rec rec' : recommends c req rec → recommends c req rec' → rec = rec'.
Proof.
  intros H H'.
  assert (∀ res, recommended_request res rec = recommended_request res rec' ∧
    limit_fields res rec = limit_fields res rec') as Hr.
  { intros res. specialize (H res) as [H1 H2]. specialize (H' res) as [H1' H2'].
    destruct (decide (request_justified res c req = true ∧ KeepRequest (request_config res req) = false))
      as [Hd|Hd]; rewrite justified_spec in Hd.
    - destruct (H1 Hd) as (v & Hv & -> & ->), (H1' Hd) as (v' & Hv' & -> & ->).
      by rewrite (needs_unique res c req v v') by (by destruct Hd).
    - destruct (H2 Hd) as [-> ->], (H2' Hd) as [-> ->]. by split. }
  destruct (Hr cpuResource) as [Hc Hcl], (Hr memoryResource) as [Hm Hml].
  destruct rec, rec'. cbn in *. by simplify_eq.
Qed.

Lemma Compute_outcome req :
  r_Outcome (Compute req) =
  if tooYoung (since req) (now req) (inputs req) then TooYoung
  else if decide (Recs (Compute req) = ∅) then NoData else Recommended.
Proof. unfold Compute. by destruct (foldl _ _ _). Qed.

Lemma Compute_traced req c :
  NoDup (map c_Name (containers req)) → c ∈ containers req →
  match Recs (Compute req) !! c_Name c, Traces (Compute req) !! c_Name c with
  | Some rec, Some tr => traces c rec tr
  | None, None => True
  | _, _ => False
  end.
Proof.
  intros Hnd Hc. destruct (computeContainer c req) as [[rec tr]|] eqn:E.
  - rewrite (proj2 (Compute_Recs req (c_Name c) rec Hnd)) by (exists c; by rewrite E).
    rewrite (proj2 (Compute_Traces req (c_Name c) tr Hnd)) by (exists c; by rewrite E).
    apply (computeContainer_recommends _ _ _ _ E).
  - assert (Hnone : ∀ c', c' ∈ containers req → c_Name c' = c_Name c → c' = c)
      by (intros c' Hc' Hn; by apply (NoDup_map_inj c_Name (containers req))).
    destruct (Recs (Compute req) !! c_Name c) eqn:E1.
    { apply Compute_Recs in E1 as (c' & Hc' & Hn & H); [|done]. by rewrite (Hnone c' Hc' Hn), E in H. }
    destruct (Traces (Compute req) !! c_Name c) eqn:E2; [|done].
    apply Compute_Traces in E2 as (c' & Hc' & Hn & H); [|done]. by rewrite (Hnone c' Hc' Hn), E in H.
Qed.

(** C15: the answer for an identity, said without the algorithm. It holds
    exactly the containers whose CPU usage or memory usage was observed or
    whose kill left a floor, each recommended, of every such resource whose
    request the Policy does not keep, what the highest of its usage and its
    floor needs: headroom, the operator's bounds, the autoscaler, then the
    limit derived of that; the trace of each ends with those values. The
    identity is too young exactly when it was first seen, at a known time, less
    than ten minutes ago and none of its containers was killed; else it is
    recommended when some container is in the answer, and has no data when
    none is. *)
Theorem Compute_spec req :
  NoDup (map c_Name (containers req)) →
  (∀ n rec, Recs (Compute req) !! n = Some rec ↔
     ∃ c, c ∈ containers req ∧ c_Name c = n ∧
       (justified cpuResource c req ∨ justified memoryResource c req) ∧ recommends c req rec) ∧
  (∀ c, c ∈ containers req →
     match Recs (Compute req) !! c_Name c, Traces (Compute req) !! c_Name c with
     | Some rec, Some tr => traces c rec tr
     | None, None => True
     | _, _ => False
     end) ∧
  (r_Outcome (Compute req) = TooYoung ↔ young req) ∧
  (r_Outcome (Compute req) = Recommended ↔ ¬ young req ∧
     ∃ c, c ∈ containers req ∧ (justified cpuResource c req ∨ justified memoryResource c req)).
Proof.
  intros Hnd.
  assert (Hrecs : ∀ n rec, Recs (Compute req) !! n = Some rec ↔
     ∃ c, c ∈ containers req ∧ c_Name c = n ∧
       (justified cpuResource c req ∨ justified memoryResource c req) ∧ recommends c req rec).
  { intros n rec. rewrite Compute_Recs by done. setoid_rewrite <-computeContainer_justified.
    split; intros (c & Hc & Hn & H); exists c; split_and!; try done.
    - by destruct (computeContainer c req).
    - destruct (computeContainer c req) as [[rec' tr]|] eqn:E; [|done]. injection H as <-.
      apply (computeContainer_recommends _ _ _ _ E).
    - destruct H as [[[rec' tr] E] Hr]. rewrite E. cbn.
      by rewrite (recommends_unique c req rec rec' Hr) by apply (computeContainer_recommends _ _ _ _ E). }
  split; [exact Hrecs|]. split; [intros c; by apply Compute_traced|].
  rewrite <-tooYoung_young, Compute_outcome. destruct (tooYoung _ _ _).
  { split; [done|]. split; [done|]. by intros [[] _]. }
  assert (Hne : Recs (Compute req) ≠ ∅ ↔
    ∃ c, c ∈ containers req ∧ (justified cpuResource c req ∨ justified memoryResource c req)).
  { setoid_rewrite <-computeContainer_justified. split.
    - intros (n & rec & (c & Hc & _ & H)%Compute_Recs)%map_choose; [|done].
      exists c. split; [done|]. by destruct (computeContainer c req).
    - intros (c & Hc & [[rec tr] H]) He.
      assert (Recs (Compute req) !! c_Name c = Some rec) as Hl
        by (apply Compute_Recs; [done|]; exists c; by rewrite H).
      by rewrite He, lookup_empty in Hl. }
  rewrite <-Hne. destruct (decide _); naive_solver.
Qed.
End Sizing.

(** ** The OOM floor *)
Section OOMFloor.
Context {PL : Platform} {QO : QuantityOps} {PO : PromOps} {QL : QuantityLaws}.
Implicit Types (req : Request) (c : Container).

Lemma int64_of_trunc x k : f_trunc x = Some k → int64_range k → int64_of_float x = k.
Proof. intros Hx Hk. unfold int64_of_float. by rewrite Hx, decide_True. Qed.

(** A value of memory of [k] whole bytes, below [bound]. *)
Definition bytes_value (x : float64) (k bound : Z) : Prop :=
  valid_float x = true ∧ f_isNaN x = false ∧ f_trunc x = Some k ∧ k < bound.

Lemma requestOf_floor cs (cd : contributed) b bound :
  bases_first cs → (∀ cd', cd' ∈ cs → ∃ k, bytes_value (cd_value cd') k bound) →
  cd ∈ cs → f_trunc (cd_value cd) = Some b → 0 < b →
  ∃ k, f_trunc (fst (requestOf cs)) = Some k ∧ b ≤ k < bound.
Proof.
  intros Hbf Hv Hc Hb Hpos.
  assert (Hnan : Forall (λ c : contributed, f_isNaN (cd_value c) = false) cs).
  { apply Forall_forall. intros c' Hc'. by destruct (Hv c' Hc') as (? & _ & ? & _). }
  destruct (Hv cd Hc) as (? & Hval & _).
  destruct (requestOf_winner cs Hbf Hnan) as [[_ Hno]|(n & w & -> & Hw & Hmax & _)].
  - destruct (Hno cd Hc) as [_ Hz].
    destruct (f_trunc_positive _ _ Hb Hpos) as (m & e & E). by rewrite E in Hz.
  - cbn [fst]. apply list_elem_of_lookup_2 in Hw.
    destruct (Hv w Hw) as (k & Hvw & _ & Hk & Hlt). exists k. split; [done|]. split; [|done].
    by apply (f_trunc_mono (cd_value cd) (cd_value w)); [..|apply Hmax| | |].
Qed.

Lemma coordinate_off clamped res cfg info rq :
  Enabled cfg = false ∨ i_Kind info = KindNone → coordinate clamped res cfg info rq = None.
Proof.
  unfold coordinate. intros [->| ->]; [done|]. rewrite bool_decide_true by done. by rewrite orb_true_r.
Qed.

(** Whether the autoscaler shapes the request. *)
Definition coordinated_by req : Prop :=
  Enabled (coordination req) = true ∧ i_Kind (autoInfo req) ≠ KindNone.

Lemma coordinate_memory clamped cfg info rq :
  coordinate clamped memoryResource cfg info rq = None ∨
  Enabled cfg = true ∧ i_Kind info ≠ KindNone ∧
  ∃ co t, coordinate clamped memoryResource cfg info rq = Some co ∧
    co_value co = clamp (fst (applyOverhead clamped t)) (MinAllowed rq) (MaxAllowed rq).
Proof.
  destruct (Enabled cfg) eqn:He; [|left; apply coordinate_off; by left].
  destruct (decide (i_Kind info = KindNone)) as [Hk|Hk]; [left; apply coordinate_off; by right|].
  right. split_and!; [done..|].
  destruct (coordinate_overhead clamped memoryResource cfg info rq He Hk ltac:(by left))
    as (co & E & _ & Hs & Hv).
  rewrite Hs in Hv. by eexists co, _.
Qed.

(** The clamped request of a memory value [k] with its headroom. *)
Lemma clamped_holds v rq k :
  f_trunc v = Some k → 0 < k < 2 ^ 53 → 0 ≤ default 0 (Headroom rq) ≤ 100 →
  let q := withHeadroom memoryResource v (Headroom rq) in
  k * 10 ^ 9 ≤ nano q ∧ (k < 2 ^ 44 → scalable q).
Proof.
  intros Hk Hr Hh q.
  assert (Hi : int64_of_float v = k)
    by (apply int64_of_trunc; [done|]; unfold int64_range, int64_min, int64_max; lia).
  destruct (withHeadroom_memory_bytes v (Headroom rq) k Hi ltac:(lia) Hh) as (mib & Hq & _ & Hlo & Hup).
  fold q in Hq. set (h := default 0 (Headroom rq)) in *.
  assert (k ≤ k * (100 + h) / 100 ≤ 2 * k).
  { split; [apply Z.div_le_lower_bound; [lia|nia]|].
    transitivity (k * 200 / 100); [apply Z.div_le_mono; nia|].
    replace (k * 200) with (2 * k * 100) by lia. by rewrite Z.div_mul. }
  unfold scalable, unit_nano. rewrite decide_True by apply QFormat_NewQuantity.
  unfold mebibyte in *. rewrite Hq. split; [nia|]. intros Hs. lia.
Qed.

Lemma memory_value_floor c req fl a b bound :
  let o := oomOf (stage_context memoryResource c req None) in
  recent o = true → floor o = (fl, a) → bytes_value fl b bound → 0 < b →
  match inputs_usage (inputs req) (c_Name c) memoryResource with
  | Some u => ∃ k, bytes_value u k bound
  | None => True
  end →
  ∃ k, f_trunc (fst (requestOf (request_contributions memoryResource c req))) = Some k ∧ b ≤ k < bound.
Proof.
  intros o Hrec Hfl Hb Hpos Hu.
  assert (Hcs : request_contributions memoryResource c req =
    match inputs_usage (inputs req) (c_Name c) memoryResource with
    | Some u => [usage_contributed memoryResource u]
    | None => []
    end ++ [oom_contributed o])
    by (unfold request_contributions; rewrite memory_contributions; fold o; by rewrite Hrec).
  apply (requestOf_floor _ (oom_contributed o)).
  - apply contributionsTo_bases_first.
  - rewrite Hcs. intros c' [Hc'| ->%list_elem_of_singleton]%elem_of_app.
    + destruct (inputs_usage _ _ _); [|by apply not_elem_of_nil in Hc'].
      by apply list_elem_of_singleton in Hc' as ->.
    + exists b. unfold oom_contributed, cd_value. cbn. by rewrite Hfl.
  - rewrite Hcs. apply elem_of_app. right. by left.
  - unfold oom_contributed, cd_value. cbn. rewrite Hfl. by destruct Hb as (_ & _ & ? & _).
  - done.
Qed.

(** C37: the OOM floor. A container killed recently is recommended at least the
    whole bytes of its floor, 1.2 times the limit it was killed at or its peak,
    or [maxAllowed] when that is less: whatever its usage, a Policy the API
    server admits, and whether or not an autoscaler shapes the request. Usage
    and floor are below 2^53 bytes; where an autoscaler shapes the request,
    below 2^44 bytes, and the Policy's bounds are ones the overhead scales
    exactly. *)
Theorem oom_floor_kept c req s fl a b bound :
  fst (size memoryResource c req) = Some s →
  let o := oomOf (stage_context memoryResource c req None) in
  let rq := request_config memoryResource req in
  recent o = true → floor o = (fl, a) → bytes_value fl b bound → 0 < b →
  match inputs_usage (inputs req) (c_Name c) memoryResource with
  | Some u => ∃ k, bytes_value u k bound
  | None => True
  end →
  requests_admitted rq = true →
  bound ≤ 2 ^ 53 →
  (coordinated_by req → bound ≤ 2 ^ 44 ∧ ∀ m, MinAllowed rq = Some m ∨ MaxAllowed rq = Some m → scalable m) →
  match MaxAllowed rq with
  | Some m => Z.min (b * 10 ^ 9) (nano m)
  | None => b * 10 ^ 9
  end ≤ nano (sz_request s).
Proof.
  intros (_ & _ & -> & _)%size_Some o rq Hrec Hfl Hb Hpos Hu Hadm Hbound Hco.
  destruct (memory_value_floor c req fl a b bound Hrec Hfl Hb Hpos Hu) as (k & Hk & Hbk).
  assert (Hh : 0 ≤ default 0 (Headroom rq) ≤ 100).
  { unfold requests_admitted in Hadm. bool_props. destruct (Headroom rq); cbn; [|lia]. bool_props. lia. }
  unfold request_final, request_clamped. fold rq.
  destruct (clamped_holds _ rq k Hk ltac:(lia) Hh) as [Hq Hsq]. cbn zeta in Hq, Hsq.
  set (q := withHeadroom _ _ _) in *. set (cl := clamp q _ _).
  assert (Hcl : match MaxAllowed rq with Some m => Z.min (b * 10 ^ 9) (nano m) | None => b * 10 ^ 9 end ≤ nano cl).
  { unfold cl. rewrite nano_clamp. cbn zeta. destruct (MinAllowed rq), (MaxAllowed rq); lia. }
  destruct (coordinate_memory cl (coordination req) (autoInfo req) rq) as [->|(He & Hki & co & t & -> & ->)]; [done|].
  destruct (Hco (conj He Hki)) as [Hb44 Hm].
  assert (Hs : nano cl ≤ nano (fst (applyOverhead cl t))).
  { apply applyOverhead_scalable. unfold cl.
    destruct (clamp_cases q (MinAllowed rq) (MaxAllowed rq)) as [->|H]; [apply Hsq; lia|by apply Hm]. }
  clearbody cl. rewrite nano_clamp. cbn zeta. destruct (MinAllowed rq), (MaxAllowed rq); lia.
Qed.
End OOMFloor.

(** ** At a concrete input *)
Section Sample.
#[local] Existing Instance amd64.
#[local] Existing Instance nano_quantity.
#[local] Existing Instance nano_quantity_laws.
#[local] Instance no_durations : PromOps := {| ParseDuration _ := None |}.

Definition sample_requests : ResourceRequestsConfig :=
  {| Headroom := Some 20; KeepRequest := false; MaxAllowed := None; MinAllowed := Some (NQ (200 * 10 ^ 6) DecimalSI);
     Percentile := None |}.
Definition sample_limits : ResourceLimitsConfig :=
  {| EqualsToRequest := false; KeepLimit := true; KeepLimitRequestRatio := false; NoLimit := false;
     RequestsLimitsRatio := None |}.
Definition sample_config : ResourceConfig :=
  {| Window := ""; rc_Requests := sample_requests; rc_Limits := sample_limits; rc_DownsizeThreshold := None |}.

(** A container killed at its limit of 1 GB, using half of it. *)
Definition sample_container : Container :=
  {| c_Name := "app";
     c_Resources := {| Requests := {[ ResourceCPU := NQ (500 * 10 ^ 6) DecimalSI ]};
                       Limits := {[ ResourceCPU := NQ (700 * 10 ^ 6) DecimalSI;
                                    ResourceMemory := NQ (10 ^ 9 * 10 ^ 9) DecimalSI ]} |};
     c_RestartPolicy := None |}.

Definition sample_oom : OOM :=
  {| Kills := f_of_Z 1; PeakBytes := f_of_Z 900000000; HasPeak := true; LimitBytes := f_of_Z 1000000000;
     LiveAt := time_zero; KillsInStep := f_zero |}.

Definition sample_request : Request :=
  {| containers := [sample_container]; resources := {| CPU := sample_config; Memory := sample_config |};
     coordination := {| Enabled := false; ReplicaBudgetAnchor := None |}; autoInfo := noInfo;
     inputs := NewInputs [WithCPUUsage {[ "app" := f_of_Z 1 ]}; WithMemoryUsage {[ "app" := f_of_Z 500000000 ]};
                          WithOOMKills {[ "app" := sample_oom ]}];
     since := time_zero; now := 10 ^ 18;
     fetch := {| ir_Identity := Identity "prod" "Deployment" "web"; ir_Containers := 1 |} |}.

(** The CPU it uses and its headroom pass its limit, which is raised. *)
Lemma recommendation_admissible_witness :
  match computeContainer sample_container sample_request with
  | Some (rec, _) =>
      match recommended_request cpuResource rec, recommended_limit cpuResource sample_container rec with
      | Some request, Some l => nano request ≤ nano l
      | _, _ => False
      end
  | None => False
  end.
Proof.
  assert (H : match computeContainer sample_container sample_request with
    | Some (rec, _) => bool_decide (is_Some (recommended_request cpuResource rec)) &&
                       bool_decide (is_Some (recommended_limit cpuResource sample_container rec))
    | None => false end = true) by (vm_compute; reflexivity).
  revert H. generalize (recommendation_admissible sample_container sample_request).
  generalize (computeContainer sample_container sample_request). intros [[rec tr]|] Hadm H; [|discriminate].
  bool_props. specialize (Hadm rec tr cpuResource).
  destruct (recommended_request cpuResource rec) as [q|]; [|by destruct (is_Some_None ltac:(eassumption))].
  destruct (recommended_limit cpuResource sample_container rec) as [l|]; [|by destruct (is_Some_None ltac:(eassumption))].
  by apply (Hadm q l).
Defined.

Lemma request_within_bounds_witness :
  ∃ s, fst (size cpuResource sample_container sample_request) = Some s ∧ 200 * 10 ^ 6 ≤ nano (sz_request s).
Proof.
  assert (is_Some (fst (size cpuResource sample_container sample_request))) as [s E] by by_evaluation.
  exists s. split; [done|].
  destruct (request_within_bounds cpuResource sample_container sample_request s E) as [H _]; [vm_compute; reflexivity|].
  exact H.
Defined.

Lemma Compute_spec_witness :
  r_Outcome (Compute sample_request) = Recommended ∧ is_Some (Recs (Compute sample_request) !! "app").
Proof.
  destruct (Compute_spec sample_request) as (_ & _ & _ & Ho); [apply NoDup_singleton|]. split.
  - apply Ho. split; [by intros [[] _]|]. exists sample_container. split; [by left|].
    left. left. by_evaluation.
  - by_evaluation.
Defined.

(** Killed at 1 GB with an autoscaler targeting its memory and at most 2 GB
    allowed, it is recommended at least 1.2 GB. *)
Definition sample_capped : ResourceConfig :=
  {| Window := ""; rc_Requests := {| Headroom := Some 20; KeepRequest := false;
       MaxAllowed := Some (NQ (2 * 10 ^ 9 * 10 ^ 9) DecimalSI); MinAllowed := None; Percentile := None |};
     rc_Limits := sample_limits; rc_DownsizeThreshold := None |}.

Definition sample_coordinated : Request :=
  {| containers := [sample_container]; resources := {| CPU := sample_config; Memory := sample_capped |};
     coordination := {| Enabled := true; ReplicaBudgetAnchor := None |}; autoInfo := sample_autoscaler;
     inputs := inputs sample_request; since := time_zero; now := 10 ^ 18; fetch := fetch sample_request |}.

Lemma oom_floor_kept_witness :
  ∃ s, fst (size memoryResource sample_container sample_coordinated) = Some s ∧
    1200000000 * 10 ^ 9 ≤ nano (sz_request s).
Proof.
  assert (is_Some (fst (size memoryResource sample_container sample_coordinated))) as [s E] by by_evaluation.
  exists s. split; [done|].
  assert (Hm : ∀ m, MinAllowed (rc_Requests sample_capped) = Some m ∨
    MaxAllowed (rc_Requests sample_capped) = Some m → scalable m)
    by (intros m [[=]|[= <-]]; split; [done|by vm_compute]).
  etrans; [|apply (oom_floor_kept _ _ _ (f_mul (f_of_Z 1000000000) oomBumpFactor) anchorKilledAtLimit
    1200000000 (2 ^ 44) E)].
  - vm_compute. discriminate.
  - vm_compute. reflexivity.
  - vm_compute. reflexivity.
  - repeat split; vm_compute; reflexivity.
  - done.
  - exists 500000000. repeat split; vm_compute; reflexivity.
  - vm_compute. reflexivity.
  - done.
  - intros _. split; [done|exact Hm].
Defined.
End Sample.
