(* ===== verification/Inject.v ===== *)
(** * Applying a Recommendation to containers ([internal/workload/inject.go])

    What the webhook writes into a pod being created and the controller into
    one that runs: each container's requests and limits with its recommendation
    applied, and no request left above its limit. *)

From S2P Require Import Prelude GoLang Quantity Kube WlrApi Resources Limits Compute.
Local Open Scope Z_scope.

Section Inject.
Context {QO : QuantityOps} {KO : KubeOps}.

Record ContainerWrite := {
  cw_Name : string;
  cw_Init : bool;
  cw_Index : nat;
  cw_Resources : ResourceRequirements;
  cw_RaisedLimits : list string;
}.

Record Injection := {
  inj_Recs : gmap string ContainerRecommendation;
  inj_Writes : list ContainerWrite;
}.

Definition setQuantity (rl : ResourceList) (name : string) (q : option Quantity) : ResourceList :=
  match q with
  | None => rl
  | Some q => if is_eq (Cmp (rl_index rl name) q) then rl else <[name := q]> rl
  end.

Definition applyLimit (rl : ResourceList) (name : string) (q : option Quantity) (remove : bool) : ResourceList :=
  if negb remove then setQuantity rl name q else delete name rl.

(** The guard of one resource: a limit below its request is raised to it. *)
Definition raiseLimit (st : ResourceRequirements * list string) (name : string) :
    ResourceRequirements * list string :=
  let '(out, raised) := st in
  match Requests out !! name, Limits out !! name with
  | Some req, Some limit =>
      if is_gt (Cmp req limit)
      then ({| Requests := Requests out; Limits := <[name := req]> (Limits out) |}, raised ++ [name])
      else st
  | _, _ => st
  end.

Definition requestsEqual (a b : ResourceRequirements) : bool :=
  is_eq (Cmp (rl_Cpu (Requests a)) (rl_Cpu (Requests b))) &&
  is_eq (Cmp (rl_Memory (Requests a)) (rl_Memory (Requests b))).

Definition valueEqual (a b : ResourceRequirements) : bool :=
  requestsEqual a b &&
  is_eq (Cmp (rl_Cpu (Limits a)) (rl_Cpu (Limits b))) &&
  is_eq (Cmp (rl_Memory (Limits a)) (rl_Memory (Limits b))).

Definition applyTo (current : ResourceRequirements) (rec : ContainerRecommendation) :
    ResourceRequirements * list string * bool :=
  let reqs := setQuantity (Requests current) ResourceCPU (CPURequest rec) in
  let lims := applyLimit (Limits current) ResourceCPU (CPULimit rec) (RemoveCPULimit rec) in
  let reqs := setQuantity reqs ResourceMemory (MemoryRequest rec) in
  let lims := applyLimit lims ResourceMemory (MemoryLimit rec) (RemoveMemoryLimit rec) in
  let '(out, raised) :=
    foldl raiseLimit ({| Requests := reqs; Limits := lims |}, []) [ResourceCPU; ResourceMemory] in
  (out, raised, negb (valueEqual current out)).

(** One container of [add]. *)
Definition injectOne (init : bool) (recs : gmap string ContainerRecommendation) (inj : Injection)
    (p : nat * Container) : Injection :=
  let '(i, c) := p in
  match recs !! c_Name c with
  | None => inj
  | Some rec =>
      let '(res, raised, changed) := applyTo (c_Resources c) rec in
      {| inj_Recs := <[c_Name c := rec]> (inj_Recs inj);
         inj_Writes :=
           if changed
           then inj_Writes inj ++ [{| cw_Name := c_Name c; cw_Init := init; cw_Index := i;
                                      cw_Resources := res; cw_RaisedLimits := raised |}]
           else inj_Writes inj |}
  end.

Definition Inject (containers initContainers : list Container) (excludeInit : bool)
    (recs : gmap string ContainerRecommendation) : Injection :=
  let inj := foldl (injectOne false recs) {| inj_Recs := ∅; inj_Writes := [] |} (indexed_from 0 containers) in
  if negb excludeInit then foldl (injectOne true recs) inj (indexed_from 0 initContainers) else inj.

(** ** One resource at a time *)

Definition rec_request (res : resourceKind) (rec : ContainerRecommendation) : option Quantity :=
  match res with cpuResource => CPURequest rec | memoryResource => MemoryRequest rec end.

Definition rec_limit (res : resourceKind) (rec : ContainerRecommendation) : option Quantity :=
  match res with cpuResource => CPULimit rec | memoryResource => MemoryLimit rec end.

Definition rec_remove (res : resourceKind) (rec : ContainerRecommendation) : bool :=
  match res with cpuResource => RemoveCPULimit rec | memoryResource => RemoveMemoryLimit rec end.

Definition set1 (cur q : option Quantity) : option Quantity :=
  match q with
  | None => cur
  | Some q => if is_eq (Cmp (default ZeroQuantity cur) q) then cur else Some q
  end.

Definition limit1 (cur q : option Quantity) (remove : bool) : option Quantity :=
  if remove then None else set1 cur q.

Definition guard1 (req lim : option Quantity) : option Quantity :=
  match req, lim with
  | Some r, Some l => if is_gt (Cmp r l) then Some r else Some l
  | _, _ => lim
  end.

Definition request_after (res : resourceKind) (current : ResourceRequirements) (rec : ContainerRecommendation) :=
  set1 (Requests current !! resource_name res) (rec_request res rec).

Definition limit_after (res : resourceKind) (current : ResourceRequirements) (rec : ContainerRecommendation) :=
  guard1 (request_after res current rec)
    (limit1 (Limits current !! resource_name res) (rec_limit res rec) (rec_remove res rec)).

(** ** Facts *)

Lemma setQuantity_lookup rl name q n :
  setQuantity rl name q !! n = if decide (name = n) then set1 (rl !! n) q else rl !! n.
Proof.
  unfold setQuantity, set1, rl_index. destruct q as [q|]; [|by case_decide].
  destruct (decide (name = n)) as [->|Hn].
  - destruct (is_eq _); [done|]. by rewrite lookup_insert_eq.
  - destruct (is_eq _); [done|]. by rewrite lookup_insert_ne.
Qed.

Lemma applyLimit_lookup rl name q remove n :
  applyLimit rl name q remove !! n = if decide (name = n) then limit1 (rl !! n) q remove else rl !! n.
Proof.
  unfold applyLimit, limit1. destruct remove; cbn [negb]; [|apply setQuantity_lookup].
  rewrite lookup_delete. by case_decide.
Qed.

Lemma raiseLimit_lookup st name n :
  Requests (fst (raiseLimit st name)) = Requests (fst st) ∧
  Limits (fst (raiseLimit st name)) !! n =
    if decide (name = n) then guard1 (Requests (fst st) !! n) (Limits (fst st) !! n) else Limits (fst st) !! n.
Proof.
  destruct st as [out raised]. unfold raiseLimit, guard1. cbn [fst].
  destruct (decide (name = n)) as [->|Hn].
  - destruct (Requests out !! n), (Limits out !! n) eqn:El; cbn [fst]; try done.
    destruct (is_gt _); cbn [fst Requests Limits]; [|done]. by rewrite lookup_insert_eq.
  - destruct (Requests out !! name), (Limits out !! name); cbn [fst]; try done.
    destruct (is_gt _); cbn [fst Requests Limits]; [|done]. by rewrite lookup_insert_ne.
Qed.

(** What is applied, resource by resource. *)
Lemma applyTo_lookup current rec res :
  Requests (fst (fst (applyTo current rec))) !! resource_name res = request_after res current rec ∧
  Limits (fst (fst (applyTo current rec))) !! resource_name res = limit_after res current rec.
Proof.
  unfold applyTo. set (st := ({| Requests := _; Limits := _ |}, [])).
  assert (Hreq : Requests (fst st) !! resource_name res = request_after res current rec).
  { unfold st, request_after. cbn [fst Requests]. rewrite !setQuantity_lookup.
    destruct res; cbn; by rewrite ?setQuantity_lookup. }
  assert (Hlim : Limits (fst st) !! resource_name res =
    limit1 (Limits current !! resource_name res) (rec_limit res rec) (rec_remove res rec)).
  { unfold st. cbn [fst Limits]. rewrite !applyLimit_lookup. destruct res; cbn; by rewrite ?applyLimit_lookup. }
  cbn [foldl]. destruct (raiseLimit_lookup st ResourceCPU (resource_name res)) as [Hr1 Hl1].
  destruct (raiseLimit_lookup (raiseLimit st ResourceCPU) ResourceMemory (resource_name res)) as [Hr2 Hl2].
  destruct (raiseLimit (raiseLimit st ResourceCPU) ResourceMemory) as [out raised]. cbn [fst] in *.
  rewrite Hr2, Hr1, Hl2, Hl1, Hr1, Hreq, Hlim. split; [done|]. unfold limit_after. by destruct res.
Qed.
End Inject.

Section Laws.
Context {QO : QuantityOps} {KO : KubeOps} {QL : QuantityLaws} {KL : KubeLaws}.

(** An unset value counts as zero. *)
Definition amount (q : option Quantity) : Z := nano (default ZeroQuantity q).

Lemma set1_amount cur q : amount (set1 cur q) = match q with Some q => nano q | None => amount cur end.
Proof.
  unfold set1, amount. destruct q as [q|]; [|done].
  destruct (Cmp (default ZeroQuantity cur) q) eqn:E; cbn [is_eq]; [by apply Cmp_eq in E|done..].
Qed.

Lemma set1_same cur q : amount cur = nano q → set1 cur (Some q) = cur.
Proof. intros H. unfold set1. by rewrite (proj2 (Cmp_eq _ _) H). Qed.

Lemma guard1_holds r l l' : guard1 (Some r) l = Some l' → nano r ≤ nano l'.
Proof.
  unfold guard1. destruct l as [l|]; [|done]. destruct (Cmp r l) eqn:E; cbn [is_gt]; intros [= <-]; [|apply Cmp_lt in E; lia|lia].
  apply Cmp_eq in E. lia.
Qed.

Lemma guard1_raised r l : nano l < nano r → guard1 (Some r) (Some l) = Some r.
Proof. intros H. unfold guard1. by rewrite (proj2 (Cmp_gt _ _) H). Qed.

Lemma guard1_kept r l : nano r ≤ nano l → guard1 (Some r) (Some l) = Some l.
Proof.
  intros H. unfold guard1. destruct (Cmp r l) eqn:E; cbn [is_gt]; [done..|]. apply Cmp_gt in E. lia.
Qed.

Lemma guard1_idemp r l : guard1 r (guard1 r l) = guard1 r l.
Proof.
  destruct r as [r|]; [|done]. destruct l as [l|]; [|done].
  destruct (Z.lt_ge_cases (nano l) (nano r)) as [H|H].
  - rewrite (guard1_raised r l H). by apply guard1_kept.
  - rewrite (guard1_kept r l H). by apply guard1_kept.
Qed.

(** Comparing values is comparing the amounts of each resource. *)
Lemma requestsEqual_amount a b :
  requestsEqual a b = true ↔
  ∀ res, amount (Requests a !! resource_name res) = amount (Requests b !! resource_name res).
Proof.
  unfold requestsEqual, amount. rewrite !Cmp_nano, !nano_rl_Cpu, !nano_rl_Memory. unfold rl_index.
  split.
  - intros H. apply andb_true_iff in H as [H1 H2].
    intros []; cbn [resource_name]; [clear H2|clear H1];
      match goal with H : is_eq (?x ?= ?y) = true |- _ => destruct (Z.compare_spec x y); done end.
  - intros H. rewrite (H cpuResource : nano (default ZeroQuantity (Requests a !! ResourceCPU)) = _),
      (H memoryResource : nano (default ZeroQuantity (Requests a !! ResourceMemory)) = _).
    cbn [resource_name]. by rewrite !Z.compare_refl.
Qed.

Lemma valueEqual_amount a b :
  valueEqual a b = true ↔
  ∀ res, amount (Requests a !! resource_name res) = amount (Requests b !! resource_name res) ∧
         amount (Limits a !! resource_name res) = amount (Limits b !! resource_name res).
Proof.
  unfold valueEqual. rewrite !andb_true_iff, requestsEqual_amount, !Cmp_nano, !nano_rl_Cpu, !nano_rl_Memory.
  unfold rl_index, amount. split.
  - intros [[Hr H1] H2] res. split; [apply Hr|].
    destruct res; cbn [resource_name]; [clear H2|clear H1];
      match goal with H : is_eq (?x ?= ?y) = true |- _ => destruct (Z.compare_spec x y); done end.
  - intros H. split_and!; [apply H| |].
    + rewrite (proj2 (H cpuResource) : nano (default ZeroQuantity (Limits a !! ResourceCPU)) = _).
      cbn [resource_name]. by rewrite Z.compare_refl.
    + rewrite (proj2 (H memoryResource) : nano (default ZeroQuantity (Limits a !! ResourceMemory)) = _).
      cbn [resource_name]. by rewrite Z.compare_refl.
Qed.

(** applying a recommendation sets each request it names, leaves the others
    alone, and never leaves a container the API server rejects: a limit it
    ends with holds the request it ends with, whatever the recommendation
    withholds or removes. *)
Theorem applyTo_admissible current rec res :
  let out := fst (fst (applyTo current rec)) in
  amount (Requests out !! resource_name res) =
    match rec_request res rec with Some q => nano q | None => amount (Requests current !! resource_name res) end ∧
  (rec_remove res rec = true → Limits out !! resource_name res = None) ∧
  ∀ r l, Requests out !! resource_name res = Some r → Limits out !! resource_name res = Some l → nano r ≤ nano l.
Proof.
  cbn zeta. destruct (applyTo_lookup current rec res) as [-> ->]. split_and!.
  - apply set1_amount.
  - intros Hr. unfold limit_after, limit1. rewrite Hr. unfold guard1. by destruct (request_after _ _ _).
  - intros r l Hr. unfold limit_after. rewrite Hr. apply guard1_holds.
Qed.
End Laws.

(** ** The containers of a pod *)
Section Containers.
Context {QO : QuantityOps} {KO : KubeOps}.

(** What one container's recommendation writes. *)
Definition write_of (init : bool) (recs : gmap string ContainerRecommendation) (p : nat * Container) :
    option ContainerWrite :=
  match recs !! c_Name p.2 with
  | Some rec =>
      match applyTo (c_Resources p.2) rec with
      | (res, raised, true) =>
          Some {| cw_Name := c_Name p.2; cw_Init := init; cw_Index := p.1; cw_Resources := res; cw_RaisedLimits := raised |}
      | _ => None
      end
  | None => None
  end.

Lemma injectOne_writes init recs l inj :
  inj_Writes (foldl (injectOne init recs) inj l) = inj_Writes inj ++ omap (write_of init recs) l.
Proof.
  revert inj. induction l as [|[i c] l IH]; intros inj; cbn [foldl omap list_omap]; [by rewrite app_nil_r|].
  rewrite IH. unfold injectOne at 1, write_of at 2. cbn [fst snd].
  destruct (recs !! c_Name c) as [rec|]; [|done].
  destruct (applyTo (c_Resources c) rec) as [[res raised] []]; cbn [inj_Writes]; [by rewrite <-app_assoc|done].
Qed.

Lemma injectOne_recs init recs l inj n :
  inj_Recs (foldl (injectOne init recs) inj l) !! n =
  match recs !! n with
  | Some rec => if decide (n ∈ map (λ p, c_Name p.2) l) then Some rec else inj_Recs inj !! n
  | None => inj_Recs inj !! n
  end.
Proof.
  revert inj. induction l as [|[i c] l IH]; intros inj; cbn [foldl map].
  { destruct (recs !! n); [|done]. by rewrite decide_False by apply not_elem_of_nil. }
  rewrite IH. cbn [snd]. unfold injectOne.
  assert (Hone : inj_Recs (match recs !! c_Name c with
     | Some rec => let '(res, raised, changed) := applyTo (c_Resources c) rec in
        {| inj_Recs := <[c_Name c := rec]> (inj_Recs inj); inj_Writes := if changed then inj_Writes inj ++
           [{| cw_Name := c_Name c; cw_Init := init; cw_Index := i; cw_Resources := res; cw_RaisedLimits := raised |}]
           else inj_Writes inj |}
     | None => inj end) !! n =
    match recs !! n with Some rec => if decide (n = c_Name c) then Some rec else inj_Recs inj !! n | None => inj_Recs inj !! n end).
  { destruct (decide (n = c_Name c)) as [->|Hn].
    - destruct (recs !! c_Name c) as [rec|]; [|done]. destruct (applyTo _ _) as [[res raised] ch]. cbn [inj_Recs].
      by rewrite lookup_insert_eq.
    - assert (inj_Recs (match recs !! c_Name c with
        | Some rec => let '(res, raised, changed) := applyTo (c_Resources c) rec in
           {| inj_Recs := <[c_Name c := rec]> (inj_Recs inj); inj_Writes := if changed then inj_Writes inj ++
              [{| cw_Name := c_Name c; cw_Init := init; cw_Index := i; cw_Resources := res; cw_RaisedLimits := raised |}]
              else inj_Writes inj |}
        | None => inj end) !! n = inj_Recs inj !! n) as ->; [|by destruct (recs !! n)].
      destruct (recs !! c_Name c) as [rec|]; [|done]. destruct (applyTo _ _) as [[res raised] ch]. cbn [inj_Recs].
      by rewrite lookup_insert_ne. }
  rewrite Hone. destruct (recs !! n) as [rec|]; [|done].
  destruct (decide (n ∈ map (λ p, c_Name p.2) l)) as [Hin|Hin].
  - by rewrite (decide_True (P := n ∈ c_Name c :: _)) by by right.
  - destruct (decide (n = c_Name c)) as [->|Hn]; [by rewrite decide_True by by left|].
    rewrite decide_False; [done|]. by intros [?|?]%elem_of_cons.
Qed.

(** The containers an injection is made of: those declared, and the init
    containers unless they are left out. *)
Definition injected (cs inits : list Container) (excludeInit init : bool) : list Container :=
  if init then (if excludeInit then [] else inits) else cs.

Lemma elem_of_indexed {A} (l : list A) i x : (i, x) ∈ indexed_from 0 l ↔ l !! i = Some x.
Proof.
  unfold indexed_from. rewrite elem_of_lookup_imap. split.
  - by intros (j & y & [= -> ->] & Hy).
  - intros Hx. exists i, x. done.
Qed.

Lemma elem_of_writes init recs l w :
  w ∈ omap (write_of init recs) (indexed_from 0 l) ↔
  cw_Init w = init ∧ ∃ c rec, l !! cw_Index w = Some c ∧ cw_Name w = c_Name c ∧
    recs !! c_Name c = Some rec ∧ applyTo (c_Resources c) rec = (cw_Resources w, cw_RaisedLimits w, true).
Proof.
  rewrite list_elem_of_omap. split.
  - intros ([i c] & Hi%elem_of_indexed & Hw). unfold write_of in Hw. cbn [fst snd] in Hw.
    destruct (recs !! c_Name c) as [rec|] eqn:E; [|done].
    destruct (applyTo (c_Resources c) rec) as [[res raised] []] eqn:Ea; [|done]. injection Hw as <-. cbn. eauto 10.
  - intros (<- & c & rec & Hi & Hn & Hr & Ha). exists (cw_Index w, c). rewrite elem_of_indexed. split; [done|].
    unfold write_of. cbn [fst snd]. rewrite Hr, Ha. f_equal. destruct w. cbn in *. by subst.
Qed.

(** an injection writes a container exactly when a recommendation names it
    and changes a value of it, at the place it is declared; one recommendation
    serves a name declared in both lists; and the recommendation is narrowed to
    what is declared, init containers left out when the Policy leaves them
    out. *)
Theorem Inject_writes cs inits ex recs :
  (∀ w, w ∈ inj_Writes (Inject cs inits ex recs) ↔
     ∃ c rec, injected cs inits ex (cw_Init w) !! cw_Index w = Some c ∧ cw_Name w = c_Name c ∧
       recs !! c_Name c = Some rec ∧ applyTo (c_Resources c) rec = (cw_Resources w, cw_RaisedLimits w, true)) ∧
  (∀ n rec, inj_Recs (Inject cs inits ex recs) !! n = Some rec ↔
     recs !! n = Some rec ∧ ∃ init, n ∈ map c_Name (injected cs inits ex init)).
Proof.
  assert (Hnames : ∀ l, map (λ p, c_Name p.2) (indexed_from 0 l) = map c_Name l).
  { intros l. unfold indexed_from. apply list_eq. intros i. rewrite !list_lookup_fmap, list_lookup_imap. by destruct (l !! i). }
  unfold Inject. split.
  - intros w. destruct ex; cbn [negb]; rewrite ?injectOne_writes; cbn [inj_Writes app]; rewrite ?elem_of_app, !elem_of_writes.
    + split; [intros [-> H]; by apply H|]. intros (c & rec & Hi & ?). unfold injected in Hi.
      destruct (cw_Init w); [done|]. split; [done|eauto 10].
    + split; [intros [[-> H]|[-> H]]; by apply H|]. intros (c & rec & Hi & ?). unfold injected in Hi.
      destruct (cw_Init w); [right|left]; (split; [done|eauto 10]).
  - intros n rec. destruct ex; cbn [negb]; rewrite !injectOne_recs, ?Hnames; cbn [inj_Recs]; rewrite lookup_empty.
    + destruct (recs !! n) as [r|]; [|naive_solver]. case_decide as Hd.
      * split; [|naive_solver]. intros [= ->]. split; [done|]. by exists false.
      * split; [done|]. intros [_ [[] Hin]]; [|done]. by apply not_elem_of_nil in Hin.
    + destruct (recs !! n) as [r|]; [|naive_solver]. case_decide as Hd1; [|case_decide as Hd2].
      * split; [|naive_solver]. intros [= ->]. split; [done|]. by exists true.
      * split; [|naive_solver]. intros [= ->]. split; [done|]. by exists false.
      * split; [done|]. intros [_ [[] Hin]]; done.
Qed.
End Containers.
