(* ===== verification/Match.v ===== *)
(** * What applying a Recommendation changes on a pod ([internal/workload/match.go])

    The one judge of whether a container runs at its recommended size, the
    decreases the Policy's tolerance withholds, the plan of a pod, and the
    resize that carries it out ([resized] of [patcher.go]). *)

From S2P Require Import Prelude GoLang Quantity Kube PolicyApi WlrApi Resources Inject.
Local Open Scope Z_scope.

Section Match.
Context {QO : QuantityOps} {KO : KubeOps}.

(** Ordered: the larger of two changes is the pod's. *)
Inductive podChange := noChange | limitChange | requestChange.

#[global] Instance podChange_eq_dec : EqDecision podChange.
Proof. solve_decision. Defined.

Definition change_max (a b : podChange) : podChange :=
  match a, b with
  | requestChange, _ | _, requestChange => requestChange
  | limitChange, _ | _, limitChange => limitChange
  | noChange, noChange => noChange
  end.

Definition containerChange (current : ResourceRequirements) (rec : ContainerRecommendation) : podChange :=
  let '(out, _, changed) := applyTo current rec in
  if negb changed then noChange
  else if negb (requestsEqual current out) then requestChange
  else limitChange.

(** ** Tolerance *)

Definition defaultDownsizePercent : Z := 5.
Definition defaultCPUDownsizeFloor : Quantity := MustParse "10m".
Definition defaultMemoryDownsizeFloor : Quantity := MustParse "15Mi".

Record Tolerance := {
  CPUPercent : Z;
  CPUFloor : Quantity;
  MemPercent : Z;
  MemFloor : Quantity;
}.

Definition downsizeThreshold (t : option DownsizeThreshold) (defFloor : Quantity) : Z * Quantity :=
  match t with
  | None => (defaultDownsizePercent, defFloor)
  | Some t => (default defaultDownsizePercent (Percent t), default defFloor (MinDecrease t))
  end.

Definition toleranceOf (rs : ResourcesConfigs) : Tolerance :=
  let '(cp, cf) := downsizeThreshold (rc_DownsizeThreshold (CPU rs)) defaultCPUDownsizeFloor in
  let '(mp, mf) := downsizeThreshold (rc_DownsizeThreshold (Memory rs)) defaultMemoryDownsizeFloor in
  {| CPUPercent := cp; CPUFloor := cf; MemPercent := mp; MemFloor := mf |}.

Definition withinDecrease (current : Quantity) (rec : option Quantity) (percent : Z) (floor : Quantity) : bool :=
  match rec with
  | None => false
  | Some rec =>
      let delta := wrap64 (MilliValue current - MilliValue rec) in
      if delta <=? 0 then false
      else
        let band := wrap64 (Z.quot (MilliValue current) 100 * percent) in
        let band := if band <? MilliValue floor then MilliValue floor else band in
        delta <? band
  end.

(** A value withheld is cleared. *)
Definition withhold (b : bool) (q : option Quantity) : option Quantity := if b then None else q.

Definition clampDecreaseToTolerance (current : ResourceRequirements) (rec : ContainerRecommendation)
    (tol : Tolerance) : ContainerRecommendation :=
  {| CPURequest := withhold (withinDecrease (rl_Cpu (Requests current)) (CPURequest rec) (CPUPercent tol) (CPUFloor tol))
                     (CPURequest rec);
     MemoryRequest := withhold (withinDecrease (rl_Memory (Requests current)) (MemoryRequest rec) (MemPercent tol) (MemFloor tol))
                        (MemoryRequest rec);
     CPULimit := withhold (negb (RemoveCPULimit rec) &&
                           withinDecrease (rl_Cpu (Limits current)) (CPULimit rec) (CPUPercent tol) (CPUFloor tol))
                   (CPULimit rec);
     MemoryLimit := withhold (negb (RemoveMemoryLimit rec) &&
                              withinDecrease (rl_Memory (Limits current)) (MemoryLimit rec) (MemPercent tol) (MemFloor tol))
                      (MemoryLimit rec);
     RemoveCPULimit := RemoveCPULimit rec; RemoveMemoryLimit := RemoveMemoryLimit rec |}.

Definition clampRecsToTolerance (current : list Container) (recs : gmap string ContainerRecommendation)
    (tol : Tolerance) : gmap string ContainerRecommendation :=
  let byName := foldl (λ m c, <[c_Name c := c]> m) (∅ : gmap string Container) current in
  map_imap (λ name rec,
    Some match byName !! name with
         | Some c => clampDecreaseToTolerance (c_Resources c) rec tol
         | None => rec
         end) recs.

(** The resources [observe] is told of, for one container. *)
Definition suppressed (o c : ContainerRecommendation) : list string :=
  (if (bool_decide (is_Some (CPURequest o)) && bool_decide (CPURequest c = None)) ||
      (bool_decide (is_Some (CPULimit o)) && bool_decide (CPULimit c = None)) then ["cpu"] else []) ++
  (if (bool_decide (is_Some (MemoryRequest o)) && bool_decide (MemoryRequest c = None)) ||
      (bool_decide (is_Some (MemoryLimit o)) && bool_decide (MemoryLimit c = None)) then ["memory"] else []).

(** ** The plan of a pod *)

Definition podContainers (pod : Pod) : list Container := pod_Containers pod ++ pod_InitContainers pod.

Definition isRestartableInitContainer (c : Container) : bool := bool_decide (c_RestartPolicy c = Some "Always").

Record podPlan := {
  pl_recs : gmap string ContainerRecommendation;
  pl_change : podChange;
}.

Definition planContainer (recs : gmap string ContainerRecommendation) (change : podChange) (c : Container) : podChange :=
  match recs !! c_Name c with
  | Some rec => change_max change (containerChange (c_Resources c) rec)
  | None => change
  end.

Definition planFor (pod : Pod) (recs : gmap string ContainerRecommendation) (tol : Tolerance) : podPlan :=
  let clamped := clampRecsToTolerance (podContainers pod) recs tol in
  let change := foldl (planContainer clamped) noChange (pod_Containers pod) in
  let change := foldl (λ ch c, if isRestartableInitContainer c then planContainer clamped ch c else ch)
                  change (pod_InitContainers pod) in
  {| pl_recs := clamped; pl_change := change |}.

Definition stale (pl : podPlan) : bool := bool_decide (pl_change pl = requestChange).

(** ** Carrying a plan out *)

Record resize := {
  rz_containers : list Container;
  rz_initContainers : list Container;
  rz_regular : list string;
  rz_sidecars : list string;
}.

Definition setResources (l : list Container) (i : nat) (r : ResourceRequirements) : list Container :=
  alter (λ c, with_resources c r) i l.

Definition resizeWrite (r : resize) (w : ContainerWrite) : resize :=
  if negb (cw_Init w) then
    {| rz_containers := setResources (rz_containers r) (cw_Index w) (cw_Resources w);
       rz_initContainers := rz_initContainers r; rz_regular := rz_regular r ++ [cw_Name w];
       rz_sidecars := rz_sidecars r |}
  else
    match rz_initContainers r !! cw_Index w with
    | Some c =>
        if isRestartableInitContainer c then
          {| rz_containers := rz_containers r;
             rz_initContainers := setResources (rz_initContainers r) (cw_Index w) (cw_Resources w);
             rz_regular := rz_regular r; rz_sidecars := rz_sidecars r ++ [cw_Name w] |}
        else r
    | None => r
    end.

Definition resized (pod : Pod) (recs : gmap string ContainerRecommendation) : resize :=
  foldl resizeWrite
    {| rz_containers := pod_Containers pod; rz_initContainers := pod_InitContainers pod;
       rz_regular := []; rz_sidecars := [] |}
    (inj_Writes (Inject (pod_Containers pod) (pod_InitContainers pod) false recs)).

(** The pod once the server took the resize. *)
Definition resized_pod (pod : Pod) (recs : gmap string ContainerRecommendation) : Pod :=
  with_containers pod (rz_containers (resized pod recs)) (rz_initContainers (resized pod recs)).
End Match.

(** ** Facts *)
Section Facts.
Context {QO : QuantityOps} {KO : KubeOps} {QL : QuantityLaws} {KL : KubeLaws}.

(** *** The tolerance *)

(** A quantity whose thousandths an int64 holds. *)
Definition representable (q : Quantity) : Prop := 0 ≤ nano q ∧ round_away (nano q) (10 ^ 6) ≤ int64_max.
Definition milli (q : Quantity) : Z := round_away (nano q) (10 ^ 6).

Lemma round_away_mono a b : 0 ≤ a → a ≤ b → round_away a (10 ^ 6) ≤ round_away b (10 ^ 6).
Proof.
  intros Ha Hb. unfold round_away. destruct (decide (b = 0)) as [->|]; [by replace a with 0 by lia|].
  assert (H : 0 ≤ (Z.abs a + 10 ^ 6 - 1) / 10 ^ 6 ≤ (Z.abs b + 10 ^ 6 - 1) / 10 ^ 6)
    by (split; [apply Z.div_pos; lia|apply Z.div_le_mono; lia]).
  rewrite (Z.sgn_pos b) by lia. revert H. generalize ((Z.abs b + 10 ^ 6 - 1) / 10 ^ 6). intros B H.
  destruct (decide (a = 0)) as [->|]; [rewrite Z.sgn_0, Z.mul_0_l, Z.mul_1_l; lia|].
  rewrite (Z.sgn_pos a) by lia. lia.
Qed.

Lemma milli_nonneg q : 0 ≤ nano q → 0 ≤ milli q.
Proof. intros H. pose proof (round_away_mono 0 (nano q) ltac:(lia) H). unfold milli. by change (round_away 0 (10 ^ 6)) with 0 in *. Qed.

Lemma milli_lt p q : 0 ≤ nano p → 0 ≤ nano q → milli p < milli q → nano p < nano q.
Proof.
  intros Hp Hq H. destruct (Z.lt_ge_cases (nano p) (nano q)); [done|].
  assert (milli q ≤ milli p) by (apply round_away_mono; lia). lia.
Qed.

Lemma MilliValue_milli q : representable q → MilliValue q = milli q.
Proof.
  intros [H0 H1]. apply MilliValue_nano. pose proof (milli_nonneg q H0). unfold milli, int64_range, int64_min in *. lia.
Qed.

(** the decreases withheld are the small ones and nothing else: a value is
    left alone exactly when it would shrink by less than the percentage of its
    current size or the least decrease, whichever is larger; growth never is. *)
Theorem withinDecrease_spec current rec percent floor :
  representable current → representable rec → representable floor → 0 ≤ percent ≤ 100 →
  withinDecrease current (Some rec) percent floor = true ↔
  milli rec < milli current ∧
  milli current - milli rec < Z.max (milli current / 100 * percent) (milli floor).
Proof.
  intros Hc Hr Hf Hp. unfold withinDecrease. rewrite !MilliValue_milli by done.
  pose proof (milli_nonneg _ (proj1 Hc)). pose proof (milli_nonneg _ (proj1 Hr)). pose proof (milli_nonneg _ (proj1 Hf)).
  destruct Hc as [_ Hc], Hr as [_ Hr], Hf as [_ Hf]. fold (milli current) in Hc. fold (milli rec) in Hr. fold (milli floor) in Hf.
  unfold int64_max in *. rewrite Z.quot_div_nonneg by lia.
  pose proof (Z.mul_div_le (milli current) 100). pose proof (Z.div_pos (milli current) 100).
  rewrite !wrap64_id by (unfold int64_range, int64_min, int64_max; nia).
  destruct (Z.leb_spec (milli current - milli rec) 0); [split; [done|lia]|].
  destruct (Z.ltb_spec (milli current / 100 * percent) (milli floor)); rewrite Z.ltb_lt; lia.
Qed.

Lemma withinDecrease_decrease current rec percent floor :
  representable current → representable rec →
  withinDecrease current (Some rec) percent floor = true → nano rec < nano current.
Proof.
  intros Hc Hr. unfold withinDecrease. rewrite !MilliValue_milli by done.
  pose proof (milli_nonneg _ (proj1 Hc)). pose proof (milli_nonneg _ (proj1 Hr)).
  rewrite wrap64_id by (unfold int64_range, int64_min, int64_max; destruct Hc, Hr; unfold milli, int64_max in *; lia).
  destruct (Z.leb_spec (milli current - milli rec) 0); [done|]. intros _. apply milli_lt; [apply Hr|apply Hc|lia].
Qed.

(** The judgement is of the amount, whatever the quantity's format. *)
Lemma withinDecrease_amount p q rec percent floor :
  representable p → nano p = nano q → withinDecrease p rec percent floor = withinDecrease q rec percent floor.
Proof.
  intros Hp Heq. assert (Hq : representable q) by (revert Hp; unfold representable; rewrite Heq; exact id).
  destruct rec as [x|]; [|done]. unfold withinDecrease.
  rewrite (MilliValue_milli p), (MilliValue_milli q) by done. unfold milli. by rewrite Heq.
Qed.

(** *** One resource *)

Definition tol_percent (res : resourceKind) (tol : Tolerance) : Z :=
  match res with cpuResource => CPUPercent tol | memoryResource => MemPercent tol end.
Definition tol_floor (res : resourceKind) (tol : Tolerance) : Quantity :=
  match res with cpuResource => CPUFloor tol | memoryResource => MemFloor tol end.

Definition representable_opt (q : option Quantity) : Prop := match q with Some q => representable q | None => True end.

Lemma representable_default q : representable_opt q → representable (default ZeroQuantity q).
Proof.
  destruct q; [done|]. intros _. unfold representable. cbn. rewrite nano_ZeroQuantity.
  change (round_away 0 (10 ^ 6)) with 0. unfold int64_max. lia.
Qed.

(** [clampDecreaseToTolerance], one resource of it. *)
Definition clamp1 (cur rec : option Quantity) (remove : bool) (percent : Z) (floor : Quantity) : option Quantity :=
  withhold (negb remove && withinDecrease (default ZeroQuantity cur) rec percent floor) rec.

Lemma clamp_request res current rec tol :
  representable_opt (Requests current !! resource_name res) →
  rec_request res (clampDecreaseToTolerance current rec tol) =
  clamp1 (Requests current !! resource_name res) (rec_request res rec) false (tol_percent res tol) (tol_floor res tol).
Proof.
  intros Hr%representable_default. unfold clamp1. cbn [negb andb].
  destruct res; cbn [clampDecreaseToTolerance rec_request CPURequest MemoryRequest tol_percent tol_floor resource_name] in *;
    f_equal; symmetry; apply withinDecrease_amount; try done.
  - by rewrite nano_rl_Cpu.
  - by rewrite nano_rl_Memory.
Qed.

Lemma clamp_limit res current rec tol :
  representable_opt (Limits current !! resource_name res) →
  rec_limit res (clampDecreaseToTolerance current rec tol) =
  clamp1 (Limits current !! resource_name res) (rec_limit res rec) (rec_remove res rec) (tol_percent res tol) (tol_floor res tol).
Proof.
  intros Hr%representable_default. unfold clamp1.
  destruct res; cbn [clampDecreaseToTolerance rec_limit rec_remove CPULimit MemoryLimit tol_percent tol_floor resource_name] in *;
    do 2 f_equal; symmetry; apply withinDecrease_amount; try done.
  - by rewrite nano_rl_Cpu.
  - by rewrite nano_rl_Memory.
Qed.

Lemma clamp_remove res current rec tol : rec_remove res (clampDecreaseToTolerance current rec tol) = rec_remove res rec.
Proof. by destruct res. Qed.

(** A request settles: applied once under the tolerance, it is not changed
    again. *)
Lemma request_settles cur rec percent floor :
  let r1 := set1 cur (clamp1 cur rec false percent floor) in
  set1 r1 (clamp1 r1 rec false percent floor) = r1.
Proof.
  cbn zeta. unfold clamp1. cbn [negb andb]. destruct rec as [x|]; [|by cbn].
  destruct (withinDecrease (default ZeroQuantity cur) (Some x) percent floor) eqn:E; cbn [withhold].
  - cbn [set1]. by rewrite E.
  - destruct (withinDecrease (default ZeroQuantity (set1 cur (Some x))) _ _ _); cbn [withhold]; [done|].
    apply set1_same. by rewrite set1_amount.
Qed.

(** A limit the recommendation set, raised to the request or not, keeps its
    value when the recommendation is asked for again or withheld. *)
Lemma limit_kept req l0 x b :
  amount l0 = nano x → guard1 req (set1 (guard1 req l0) (withhold b (Some x))) = guard1 req l0.
Proof.
  intros Hx0. destruct b; cbn [withhold]; [by apply guard1_idemp|].
  destruct req as [r|]; [|cbn [guard1]; by rewrite set1_same].
  destruct l0 as [l|]; [|cbn [guard1]; rewrite set1_same by done; done].
  unfold amount in Hx0. cbn in Hx0. destruct (Z.lt_ge_cases (nano l) (nano r)) as [H|H].
  - rewrite guard1_raised by done. unfold set1. cbn [from_option id].
    destruct (is_eq (Cmp r x)) eqn:Ec; [by apply guard1_kept|]. rewrite guard1_raised; [done|lia].
  - rewrite guard1_kept by done. rewrite set1_same by (unfold amount; cbn; lia). by apply guard1_kept.
Qed.

(** And so does a limit under the tolerance. *)
Lemma limit_settles req cur rec remove percent floor :
  representable_opt cur → representable_opt rec → representable_opt req →
  let l1 := guard1 req (limit1 cur (clamp1 cur rec remove percent floor) remove) in
  guard1 req (limit1 l1 (clamp1 l1 rec remove percent floor) remove) = l1.
Proof.
  intros Hc Hx Hr. cbn zeta. unfold clamp1, limit1. destruct remove; cbn [negb andb]; [by unfold guard1; destruct req|].
  destruct rec as [x|]; [|cbn [withhold withinDecrease set1]; by rewrite guard1_idemp].
  destruct (withinDecrease (default ZeroQuantity cur) (Some x) percent floor) eqn:E; cbn [withhold].
  - cbn [set1]. set (l1 := guard1 req cur).
    destruct (withinDecrease (default ZeroQuantity l1) (Some x) percent floor) eqn:E1; cbn [withhold set1];
      [by apply guard1_idemp|].
    pose proof (withinDecrease_decrease _ _ _ _ (representable_default _ Hc) Hx E) as Hlt.
    (* the guard raised the limit, or it would still withhold *)
    unfold l1 in *. destruct req as [r|]; [|by cbn [guard1] in E1; congruence]. destruct cur as [l|]; [|by cbn [guard1] in E1; congruence].
    destruct (Z.lt_ge_cases (nano l) (nano r)) as [H|H]; [|rewrite guard1_kept in E1 by done; congruence].
    rewrite guard1_raised by done. unfold set1. cbn [from_option id] in *.
    destruct (is_eq (Cmp r x)) eqn:Ec; [by apply guard1_kept|]. rewrite guard1_raised; [done|lia].
  - apply limit_kept. exact (set1_amount cur (Some x)).
Qed.

(** Both, when nothing was withheld the first time. *)
Lemma request_settles_full cur rec percent floor :
  let r1 := set1 cur rec in set1 r1 (clamp1 r1 rec false percent floor) = r1.
Proof.
  cbn zeta. unfold clamp1. cbn [negb andb]. destruct rec as [x|]; [|by cbn].
  destruct (withinDecrease _ _ _ _); cbn [withhold]; [done|]. apply set1_same. by rewrite set1_amount.
Qed.

Lemma limit_settles_full req cur rec remove percent floor :
  let l1 := guard1 req (limit1 cur rec remove) in
  guard1 req (limit1 l1 (clamp1 l1 rec remove percent floor) remove) = l1.
Proof.
  cbn zeta. unfold clamp1, limit1. destruct remove; cbn [negb andb]; [by unfold guard1; destruct req|].
  destruct rec as [x|]; [|cbn [withhold withinDecrease set1]; by rewrite guard1_idemp].
  apply limit_kept. exact (set1_amount cur (Some x)).
Qed.

(** *** One container *)

(** What the program can size: every value is one an int64 of thousandths
    holds. *)
Definition sizes_representable (cur : ResourceRequirements) (rec : ContainerRecommendation) : Prop :=
  ∀ res, representable_opt (Requests cur !! resource_name res) ∧
         representable_opt (Limits cur !! resource_name res) ∧
         representable_opt (rec_request res rec) ∧ representable_opt (rec_limit res rec).

Lemma representable_clamp1 cur rec remove percent floor :
  representable_opt rec → representable_opt (clamp1 cur rec remove percent floor).
Proof. intros H. unfold clamp1, withhold. by destruct (_ && _). Qed.

Lemma representable_set1 cur q : representable_opt cur → representable_opt q → representable_opt (set1 cur q).
Proof. intros Hc Hq. unfold set1. destruct q; [|done]. by destruct (is_eq _). Qed.

Lemma representable_limit1 cur q remove :
  representable_opt cur → representable_opt q → representable_opt (limit1 cur q remove).
Proof. intros Hc Hq. unfold limit1. destruct remove; [done|]. by apply representable_set1. Qed.

Lemma representable_guard1 r l : representable_opt r → representable_opt l → representable_opt (guard1 r l).
Proof. intros Hr Hl. unfold guard1. destruct r, l; try done. by destruct (is_gt _). Qed.

Definition applied (cur : ResourceRequirements) (rec : ContainerRecommendation) : ResourceRequirements :=
  fst (fst (applyTo cur rec)).

(** The recommendation a container takes under the tolerance, taken again by
    what it made of the container, makes the same of it. *)
Lemma applied_settles cur rec tol res :
  sizes_representable cur rec →
  let out := applied cur (clampDecreaseToTolerance cur rec tol) in
  let out' := applied out (clampDecreaseToTolerance out rec tol) in
  Requests out' !! resource_name res = Requests out !! resource_name res ∧
  Limits out' !! resource_name res = Limits out !! resource_name res.
Proof.
  intros Hrep. destruct (Hrep res) as (Hq & Hl & Hrq & Hrl). cbn zeta. unfold applied.
  destruct (applyTo_lookup cur (clampDecreaseToTolerance cur rec tol) res) as [Er El].
  revert Er El. generalize (fst (fst (applyTo cur (clampDecreaseToTolerance cur rec tol)))). intros out Er El.
  destruct (applyTo_lookup out (clampDecreaseToTolerance out rec tol) res) as [-> ->].
  unfold limit_after, request_after in *. rewrite clamp_remove in *.
  rewrite (clamp_request res cur) in * by done. rewrite (clamp_limit res cur) in * by done.
  assert (Ho : representable_opt (Requests out !! resource_name res)).
  { rewrite Er. apply representable_set1; [done|]. by apply representable_clamp1. }
  assert (Hol : representable_opt (Limits out !! resource_name res)).
  { rewrite El, <-Er. apply representable_guard1; [done|]. apply representable_limit1; [done|]. by apply representable_clamp1. }
  rewrite (clamp_request res out), (clamp_limit res out) by done.
  assert (Hr' : set1 (Requests out !! resource_name res)
    (clamp1 (Requests out !! resource_name res) (rec_request res rec) false (tol_percent res tol) (tol_floor res tol)) =
    Requests out !! resource_name res) by (rewrite Er; apply request_settles).
  rewrite Hr'. split; [done|]. rewrite El, <-Er. by apply limit_settles.
Qed.

(** The same of a container given the whole recommendation, as at admission. *)
Lemma applied_settles_full cur rec tol res :
  sizes_representable cur rec →
  let out := applied cur rec in
  let out' := applied out (clampDecreaseToTolerance out rec tol) in
  Requests out' !! resource_name res = Requests out !! resource_name res ∧
  Limits out' !! resource_name res = Limits out !! resource_name res.
Proof.
  intros Hrep. destruct (Hrep res) as (Hq & Hl & Hrq & Hrl). cbn zeta. unfold applied.
  destruct (applyTo_lookup cur rec res) as [Er El].
  revert Er El. generalize (fst (fst (applyTo cur rec))). intros out Er El.
  destruct (applyTo_lookup out (clampDecreaseToTolerance out rec tol) res) as [-> ->].
  unfold limit_after, request_after in *. rewrite clamp_remove in *.
  assert (Ho : representable_opt (Requests out !! resource_name res)) by (rewrite Er; by apply representable_set1).
  assert (Hol : representable_opt (Limits out !! resource_name res)).
  { rewrite El, <-Er. apply representable_guard1; [done|]. by apply representable_limit1. }
  rewrite (clamp_request res out), (clamp_limit res out) by done.
  assert (Hr' : set1 (Requests out !! resource_name res)
    (clamp1 (Requests out !! resource_name res) (rec_request res rec) false (tol_percent res tol) (tol_floor res tol)) =
    Requests out !! resource_name res) by (rewrite Er; apply request_settles_full).
  rewrite Hr'. split; [done|]. rewrite El, <-Er. apply limit_settles_full.
Qed.

Lemma containerChange_no cur rec : snd (applyTo cur rec) = false → containerChange cur rec = noChange.
Proof. unfold containerChange. by destruct (applyTo cur rec) as [[? ?] []]. Qed.

Lemma containerChange_none cur rec : containerChange cur rec = noChange → snd (applyTo cur rec) = false.
Proof. unfold containerChange. destruct (applyTo cur rec) as [[? ?] []]; cbn; [by destruct (requestsEqual _ _)|done]. Qed.

Lemma applyTo_changed cur rec : snd (applyTo cur rec) = negb (valueEqual cur (applied cur rec)).
Proof. unfold applied, applyTo. by destruct (foldl raiseLimit _ _). Qed.

Lemma container_settles cur rec tol :
  sizes_representable cur rec →
  let out := applied cur (clampDecreaseToTolerance cur rec tol) in
  containerChange out (clampDecreaseToTolerance out rec tol) = noChange.
Proof.
  intros Hrep. cbn zeta. apply containerChange_no. rewrite applyTo_changed. apply negb_false_iff, valueEqual_amount.
  intros res. destruct (applied_settles cur rec tol res Hrep) as [Hr Hl]. by rewrite Hr, Hl.
Qed.

(** A limit the recommendation leaves as it is, withheld or not. *)
Lemma limit_unchanged req cur rec remove b :
  amount cur = amount (guard1 req (limit1 cur rec remove)) →
  amount (guard1 req (limit1 cur (withhold b rec) remove)) = amount cur.
Proof.
  intros H. unfold limit1 in *. destruct remove; [done|]. destruct b; cbn [withhold]; [|done]. cbn [set1].
  destruct req as [r|]; [|done]. destruct cur as [l|]; [|done].
  destruct (set1 (Some l) rec) as [l0|] eqn:E; [|unfold set1 in E; destruct rec as [x|]; [by destruct (is_eq _)|done]].
  destruct (guard1 (Some r) (Some l0)) as [l'|] eqn:Eg; [|by unfold guard1 in Eg; destruct (is_gt _)].
  pose proof (guard1_holds _ _ _ Eg). unfold amount in H. cbn in H. rewrite guard1_kept; [done|lia].
Qed.

Lemma unchanged_settles cur rec tol res :
  sizes_representable cur rec → valueEqual cur (applied cur rec) = true →
  amount (Requests (applied cur (clampDecreaseToTolerance cur rec tol)) !! resource_name res) =
    amount (Requests cur !! resource_name res) ∧
  amount (Limits (applied cur (clampDecreaseToTolerance cur rec tol)) !! resource_name res) =
    amount (Limits cur !! resource_name res).
Proof.
  intros Hrep Hv. destruct (Hrep res) as (Hq & Hl & _ & _).
  destruct (proj1 (valueEqual_amount cur (applied cur rec)) Hv res) as [Hr Hlm]. clear Hv. unfold applied in *.
  destruct (applyTo_lookup cur rec res) as [Er El]. rewrite Er in Hr. rewrite El in Hlm. clear Er El.
  destruct (applyTo_lookup cur (clampDecreaseToTolerance cur rec tol) res) as [-> ->].
  unfold limit_after, request_after in *. rewrite clamp_remove, clamp_request, clamp_limit by done. unfold clamp1.
  cbn [negb andb].
  assert (Hkeep : ∀ b, set1 (Requests cur !! resource_name res) (withhold b (rec_request res rec)) = Requests cur !! resource_name res).
  { intros []; cbn [withhold]; [done|]. destruct (rec_request res rec) as [x|]; [|done].
    apply set1_same. by rewrite set1_amount in Hr. }
  rewrite Hkeep. split; [done|]. apply limit_unchanged. pose proof (Hkeep false) as Hk. cbn [withhold] in Hk. by rewrite Hk in Hlm.
Qed.

Lemma container_settles_full cur rec tol :
  sizes_representable cur rec → containerChange (applied cur rec) (clampDecreaseToTolerance (applied cur rec) rec tol) = noChange.
Proof.
  intros Hrep. apply containerChange_no. rewrite applyTo_changed. apply negb_false_iff, valueEqual_amount.
  intros res. destruct (applied_settles_full cur rec tol res Hrep) as [Hr Hl]. by rewrite Hr, Hl.
Qed.
End Facts.

(** ** The plan of a pod, carried out *)
Section Plan.
Context {QO : QuantityOps} {KO : KubeOps}.

(** A container once the resize took its write. *)
Definition resize_container (recs : gmap string ContainerRecommendation) (c : Container) : Container :=
  match recs !! c_Name c with
  | Some rec =>
      match applyTo (c_Resources c) rec with
      | (res, _, true) => with_resources c res
      | _ => c
      end
  | None => c
  end.

Definition resize_init (recs : gmap string ContainerRecommendation) (c : Container) : Container :=
  if isRestartableInitContainer c then resize_container recs c else c.

Lemma resize_container_name recs c : c_Name (resize_container recs c) = c_Name c.
Proof. unfold resize_container. destruct (recs !! _); [|done]. by destruct (applyTo _ _) as [[? ?] []]. Qed.

Lemma resize_init_name recs c : c_Name (resize_init recs c) = c_Name c.
Proof. unfold resize_init. destruct (isRestartableInitContainer c); [apply resize_container_name|done]. Qed.

Lemma indexed_from_cons {A} k (x : A) l : indexed_from k (x :: l) = (k, x) :: indexed_from (S k) l.
Proof.
  unfold indexed_from. cbn [imap]. rewrite Nat.add_0_r. f_equal. apply imap_ext. intros i y _. cbn. f_equal. lia.
Qed.

Lemma write_of_pair init recs k c :
  write_of init recs (k, c) =
  match recs !! c_Name c with
  | Some rec =>
      match applyTo (c_Resources c) rec with
      | (res, raised, true) =>
          Some {| cw_Name := c_Name c; cw_Init := init; cw_Index := k; cw_Resources := res; cw_RaisedLimits := raised |}
      | _ => None
      end
  | None => None
  end.
Proof. done. Qed.

Lemma resizeWrite_regular recs l k pre r :
  rz_containers r = pre ++ l → length pre = k →
  let r' := foldl resizeWrite r (omap (write_of false recs) (indexed_from k l)) in
  rz_containers r' = pre ++ map (resize_container recs) l ∧ rz_initContainers r' = rz_initContainers r.
Proof.
  revert k pre r. induction l as [|c l IH]; intros k pre r Hr Hk; cbn zeta; [done|].
  rewrite indexed_from_cons. cbn [omap list_omap map]. rewrite write_of_pair.
  unfold resize_container at 1.
  assert (Hnext : ∀ r', rz_initContainers r' = rz_initContainers r → ∀ c', rz_containers r' = pre ++ c' :: l →
    rz_containers (foldl resizeWrite r' (omap (write_of false recs) (indexed_from (S k) l))) =
      pre ++ c' :: map (resize_container recs) l ∧
    rz_initContainers (foldl resizeWrite r' (omap (write_of false recs) (indexed_from (S k) l))) = rz_initContainers r).
  { intros r' Hi c' Hr'. rewrite <-Hi.
    destruct (IH (S k) (pre ++ [c']) r') as [H1 H2]; [by rewrite <-app_assoc|rewrite length_app; cbn; lia|].
    split; [rewrite H1, <-app_assoc; done|done]. }
  destruct (recs !! c_Name c) as [rec|]; [|by apply Hnext].
  destruct (applyTo (c_Resources c) rec) as [[res raised] []]; [|by apply Hnext]. cbn [foldl].
  apply Hnext; [done|]. unfold resizeWrite. cbn [negb cw_Init cw_Index cw_Resources rz_containers].
  unfold setResources. rewrite Hr, alter_app_r_alt by lia. by rewrite Hk, Nat.sub_diag.
Qed.

Lemma resizeWrite_init recs l k pre r :
  rz_initContainers r = pre ++ l → length pre = k →
  let r' := foldl resizeWrite r (omap (write_of true recs) (indexed_from k l)) in
  rz_initContainers r' = pre ++ map (resize_init recs) l ∧ rz_containers r' = rz_containers r.
Proof.
  revert k pre r. induction l as [|c l IH]; intros k pre r Hr Hk; cbn zeta; [done|].
  rewrite indexed_from_cons. cbn [omap list_omap map]. rewrite write_of_pair.
  assert (Hnext : ∀ r', rz_containers r' = rz_containers r → ∀ c', rz_initContainers r' = pre ++ c' :: l →
    rz_initContainers (foldl resizeWrite r' (omap (write_of true recs) (indexed_from (S k) l))) =
      pre ++ c' :: map (resize_init recs) l ∧
    rz_containers (foldl resizeWrite r' (omap (write_of true recs) (indexed_from (S k) l))) = rz_containers r).
  { intros r' Hi c' Hr'. rewrite <-Hi.
    destruct (IH (S k) (pre ++ [c']) r') as [H1 H2]; [by rewrite <-app_assoc|rewrite length_app; cbn; lia|].
    split; [rewrite H1, <-app_assoc; done|done]. }
  unfold resize_init at 1. unfold resize_container at 1.
  destruct (recs !! c_Name c) as [rec|]; [|destruct (isRestartableInitContainer c); by apply Hnext].
  destruct (applyTo (c_Resources c) rec) as [[res raised] []];
    [|destruct (isRestartableInitContainer c); by apply Hnext]. cbn [foldl].
  unfold resizeWrite at 2 4. cbn [negb cw_Init cw_Index cw_Resources].
  rewrite Hr, list_lookup_middle by done.
  destruct (isRestartableInitContainer c); [|by apply Hnext].
  apply Hnext; [done|]. cbn [rz_initContainers]. unfold setResources.
  rewrite alter_app_r_alt by lia. by rewrite Hk, Nat.sub_diag.
Qed.

(** A resize sets every regular container and every sidecar to what its
    recommendation makes of it, and no init container that runs once. *)
Lemma resized_containers pod recs :
  rz_containers (resized pod recs) = map (resize_container recs) (pod_Containers pod) ∧
  rz_initContainers (resized pod recs) = map (resize_init recs) (pod_InitContainers pod).
Proof.
  unfold resized, Inject. cbn [negb]. rewrite !injectOne_writes. cbn [inj_Writes app]. rewrite foldl_app.
  set (r0 := Build_resize _ _ _ _).
  destruct (resizeWrite_regular recs (pod_Containers pod) 0 [] r0) as [H1 H2]; [done..|].
  set (r1 := foldl resizeWrite r0 _) in *.
  destruct (resizeWrite_init recs (pod_InitContainers pod) 0 [] r1) as [H3 H4]; [by rewrite H2|done|].
  by rewrite H3, H4, H1.
Qed.
End Plan.

Section Converges.
Context {QO : QuantityOps} {KO : KubeOps} {QL : QuantityLaws} {KL : KubeLaws}.

Lemma change_max_no a b : change_max a b = noChange ↔ a = noChange ∧ b = noChange.
Proof. destruct a, b; naive_solver. Qed.

(** What a container of the pod contributes to the pod's change. *)
Definition container_change (recs : gmap string ContainerRecommendation) (c : Container) : podChange :=
  match recs !! c_Name c with Some rec => containerChange (c_Resources c) rec | None => noChange end.

Lemma planContainer_change recs ch c : planContainer recs ch c = change_max ch (container_change recs c).
Proof. unfold planContainer, container_change. destruct (recs !! c_Name c); [done|by destruct ch]. Qed.

Lemma fold_change (step : podChange → Container → podChange) l ch (f : Container → podChange) :
  (∀ ch c, step ch c = change_max ch (f c)) →
  foldl step ch l = noChange ↔ ch = noChange ∧ ∀ c, c ∈ l → f c = noChange.
Proof.
  intros Hs. revert ch. induction l as [|c l IH]; intros ch; cbn [foldl]; [set_solver|].
  rewrite IH, Hs, change_max_no. split; [intros [[? ?] ?]|intros [? H]].
  - split; [done|]. by intros d [->|Hd]%elem_of_cons; auto.
  - repeat split; [done|apply H; by left|]. intros d Hd. apply H. by right.
Qed.

Definition planned (recs : gmap string ContainerRecommendation) (pod : Pod) : podChange :=
  foldl (λ ch c, if isRestartableInitContainer c then planContainer recs ch c else ch)
    (foldl (planContainer recs) noChange (pod_Containers pod)) (pod_InitContainers pod).

(** The pod's change is none exactly when no container it runs changes. *)
Lemma planned_none recs pod :
  planned recs pod = noChange ↔
  (∀ c, c ∈ pod_Containers pod → container_change recs c = noChange) ∧
  (∀ c, c ∈ pod_InitContainers pod → isRestartableInitContainer c = true → container_change recs c = noChange).
Proof.
  unfold planned. rewrite (fold_change _ _ _ (λ c, if isRestartableInitContainer c then container_change recs c else noChange)),
    (fold_change _ _ _ (container_change recs)).
  - split; [intros [[_ H1] H2]|intros [H1 H2]]; repeat split; try done.
    + intros c Hc E. specialize (H2 c Hc). by rewrite E in H2.
    + intros c Hc. specialize (H2 c Hc). destruct (isRestartableInitContainer c); auto.
  - intros ch c. apply planContainer_change.
  - intros ch c. destruct (isRestartableInitContainer c); [apply planContainer_change|by destruct ch].
Qed.

(** A pod no container of which changes is resized in nothing. *)
Lemma resized_nothing pod recs :
  planned recs pod = noChange → rz_regular (resized pod recs) = [] ∧ rz_sidecars (resized pod recs) = [].
Proof.
  intros Hpl. apply planned_none in Hpl as [Hc Hi].
  assert (Hstill : ∀ ws r, (∀ w, w ∈ ws → cw_Init w = true ∧
    ∃ c, rz_initContainers r !! cw_Index w = Some c ∧ isRestartableInitContainer c = false) → foldl resizeWrite r ws = r).
  { induction ws as [|w ws IH]; intros r Hw; [done|]. cbn [foldl].
    destruct (Hw w ltac:(by left)) as (Hin & c & Hlk & Hrs). unfold resizeWrite at 2. rewrite Hin, Hlk, Hrs. cbn [negb].
    apply IH. intros w' Hw'. apply Hw. by right. }
  assert (Hchg : ∀ l w init c rec, recs !! c_Name c = Some rec → container_change recs c = noChange →
    applyTo (c_Resources c) rec = (l, w, init) → init = false).
  { intros l w init c rec Hr Hn Ha. unfold container_change in Hn. rewrite Hr in Hn. apply containerChange_none in Hn.
    by rewrite Ha in Hn. }
  unfold resized, Inject. cbn [negb]. rewrite !injectOne_writes. cbn [inj_Writes app]. rewrite Hstill; [done|].
  intros w. rewrite elem_of_app, !elem_of_writes. intros [[_ (c & rec & Hlk & _ & Hr & Ha)]|[Hin (c & rec & Hlk & _ & Hr & Ha)]].
  - apply list_elem_of_lookup_2 in Hlk. discriminate (Hchg _ _ _ _ _ Hr (Hc _ Hlk) Ha).
  - split; [done|]. exists c. split; [done|]. destruct (isRestartableInitContainer c) eqn:E; [|done].
    discriminate (Hchg _ _ _ _ _ Hr (Hi _ (list_elem_of_lookup_2 _ _ _ Hlk) E) Ha).
Qed.

Lemma byName_lookup (l : list Container) c :
  NoDup (map c_Name l) → c ∈ l →
  foldl (λ m c, <[c_Name c := c]> m) (∅ : gmap string Container) l !! c_Name c = Some c.
Proof. intros Hnd Hc. apply (lookup_fold_insert c_Name Some l); eauto. Qed.

(** What the tolerance leaves of a container's recommendation. *)
Lemma clampRecs_lookup l recs tol c :
  NoDup (map c_Name l) → c ∈ l →
  clampRecsToTolerance l recs tol !! c_Name c =
  (λ rec, clampDecreaseToTolerance (c_Resources c) rec tol) <$> recs !! c_Name c.
Proof.
  intros Hnd Hc. unfold clampRecsToTolerance. rewrite map_lookup_imap, byName_lookup by done. by destruct (recs !! _).
Qed.

(** A container and its recommendation, once resized, no longer change. *)
Lemma resized_container_settles recs recs' c c' l tol :
  NoDup (map c_Name l) → c ∈ l → c' ∈ recs' → NoDup (map c_Name recs') →
  (∀ rec, recs !! c_Name c = Some rec → sizes_representable (c_Resources c) rec) →
  c' = resize_container (clampRecsToTolerance l recs tol) c →
  container_change (clampRecsToTolerance recs' recs tol) c' = noChange.
Proof.
  intros Hnd Hc Hc' Hnd' Hrep ->. unfold container_change.
  rewrite clampRecs_lookup by done. rewrite resize_container_name.
  unfold resize_container. rewrite clampRecs_lookup by done.
  destruct (recs !! c_Name c) as [rec|] eqn:E; [|done]. cbn [fmap option_fmap option_map].
  specialize (Hrep rec eq_refl).
  destruct (applyTo (c_Resources c) (clampDecreaseToTolerance (c_Resources c) rec tol)) as [[res raised] []] eqn:Ea;
    cbn [with_resources c_Resources].
  - pose proof (container_settles (c_Resources c) rec tol Hrep) as H. unfold applied in H. by rewrite Ea in H.
  - apply containerChange_no. by rewrite Ea.
Qed.

(** A container the whole recommendation was written to no longer changes; one it
    would not change was not. *)
Lemma injected_container_settles recs l c c' tol :
  NoDup (map c_Name l) → c' ∈ l → c' = resize_container recs c →
  (∀ rec, recs !! c_Name c = Some rec → sizes_representable (c_Resources c) rec) →
  container_change (clampRecsToTolerance l recs tol) c' = noChange.
Proof.
  intros Hnd Hc' E Hrep. unfold container_change. rewrite clampRecs_lookup by done. subst c'.
  rewrite resize_container_name. unfold resize_container. destruct (recs !! c_Name c) as [rec|] eqn:Er; [|done].
  cbn [fmap option_fmap option_map]. specialize (Hrep rec eq_refl).
  pose proof (container_settles_full (c_Resources c) rec tol Hrep) as Hs.
  destruct (applyTo (c_Resources c) rec) as [[res raised] []] eqn:Ea; unfold applied in Hs; rewrite Ea in Hs; [exact Hs|].
  (* it declares the values already: what it is clamped to changes nothing either *)
  apply containerChange_no. rewrite applyTo_changed. apply negb_false_iff, valueEqual_amount. intros k.
  assert (Hv : valueEqual (c_Resources c) res = true).
  { pose proof (applyTo_changed (c_Resources c) rec) as Hch. unfold applied in Hch. rewrite Ea in Hch. cbn in Hch.
    by apply negb_false_iff. }
  destruct (unchanged_settles (c_Resources c) rec tol k Hrep) as [Hr Hl]; [by unfold applied; rewrite Ea|]. by rewrite Hr, Hl.
Qed.

(** C2: a plan carried out leaves nothing to do: the pod a resize made, planned
    again from the same recommendations and tolerance, has no change left, so
    the controller neither resizes it again nor calls it stale, whichever
    decreases the tolerance withheld and whichever limits were raised. *)
Theorem planFor_converges pod recs tol :
  NoDup (map c_Name (podContainers pod)) →
  (∀ c rec, c ∈ podContainers pod → recs !! c_Name c = Some rec → sizes_representable (c_Resources c) rec) →
  pl_change (planFor (resized_pod pod (pl_recs (planFor pod recs tol))) recs tol) = noChange.
Proof.
  intros Hnd Hrep. set (pl := pl_recs (planFor pod recs tol)).
  change (pl_change (planFor ?p recs tol)) with (planned (clampRecsToTolerance (podContainers p) recs tol) p).
  destruct (resized_containers pod pl) as [Hcs His].
  assert (Hnd' : NoDup (map c_Name (podContainers (resized_pod pod pl)))).
  { unfold podContainers, resized_pod. cbn [pod_Containers pod_InitContainers with_containers].
    rewrite Hcs, His. revert Hnd. unfold podContainers. rewrite !map_app, !map_map.
    rewrite (map_ext (λ c, c_Name (resize_container pl c)) c_Name (resize_container_name pl)).
    by rewrite (map_ext (λ c, c_Name (resize_init pl c)) c_Name (resize_init_name pl)). }
  apply planned_none. split.
  - intros c' Hc'. assert (Hin : c' ∈ podContainers (resized_pod pod pl)) by (apply elem_of_app; by left).
    cbn [resized_pod with_containers pod_Containers] in Hc'. rewrite Hcs in Hc'.
    apply list_elem_of_fmap in Hc' as (c & -> & Hc).
    assert (c ∈ podContainers pod) by (apply elem_of_app; by left).
    eapply (resized_container_settles recs (podContainers (resized_pod pod pl)) c _ (podContainers pod)); eauto.
  - intros c' Hc' Hrs. assert (Hin : c' ∈ podContainers (resized_pod pod pl)) by (apply elem_of_app; by right).
    cbn [resized_pod with_containers pod_InitContainers] in Hc'. rewrite His in Hc'.
    apply list_elem_of_fmap in Hc' as (c & -> & Hc).
    assert (c ∈ podContainers pod) by (apply elem_of_app; by right).
    unfold resize_init in *. destruct (isRestartableInitContainer c) eqn:E; [|congruence].
    eapply (resized_container_settles recs (podContainers (resized_pod pod pl)) c _ (podContainers pod)); eauto.
Qed.
End Converges.

(** ** At a concrete input *)
Section Sample.
#[local] Existing Instance nano_quantity.
#[local] Existing Instance nano_quantity_laws.
#[local] Existing Instance simple_kube.
#[local] Existing Instance simple_kube_laws.

Definition cores (m : Z) : Quantity := NQ (m * 10 ^ 6) DecimalSI.

Definition sample_tolerance : Tolerance :=
  {| CPUPercent := 5; CPUFloor := cores 10; MemPercent := 5; MemFloor := NQ (15 * 2 ^ 20 * 10 ^ 9) BinarySI |}.

Definition sample_pod_container (name : string) (request lim : Z) : Container :=
  {| c_Name := name;
     c_Resources := {| Requests := {[ ResourceCPU := cores request ]}; Limits := {[ ResourceCPU := cores lim ]} |};
     c_RestartPolicy := None |}.

Definition sample_pod : Pod :=
  {| pod_Name := "web-0"; pod_Namespace := "prod"; pod_UID := "u"; pod_Labels := ∅; pod_Annotations := ∅;
     pod_OwnerReferences := []; pod_Deleting := false; pod_Created := 0;
     pod_Containers := [sample_pod_container "app" 500 600; sample_pod_container "sidecar" 100 200];
     pod_InitContainers := []; pod_Phase := "Running"; pod_Conditions := []; pod_ContainerStatuses := [];
     pod_InitContainerStatuses := []; pod_EphemeralContainerStatuses := [] |}.

(** The application grows past its limit; the sidecar shrinks too little. *)
Definition sample_rec (request : Z) : ContainerRecommendation :=
  {| CPURequest := Some (cores request); MemoryRequest := None; CPULimit := None; MemoryLimit := None;
     RemoveCPULimit := false; RemoveMemoryLimit := false |}.
Definition sample_recs : gmap string ContainerRecommendation :=
  {[ "app" := sample_rec 800; "sidecar" := sample_rec 95 ]}.

Lemma cores_representable m : 0 ≤ m ≤ 1000 → representable (cores m).
Proof.
  intros Hm. change (0 ≤ m * 10 ^ 6 ∧ round_away (m * 10 ^ 6) (10 ^ 6) ≤ int64_max).
  rewrite round_away_exact by lia. unfold int64_max. lia.
Qed.

Lemma sample_representable name request lim m :
  0 ≤ request ≤ 1000 → 0 ≤ lim ≤ 1000 → 0 ≤ m ≤ 1000 →
  sizes_representable (c_Resources (sample_pod_container name request lim)) (sample_rec m).
Proof.
  intros Hr Hl Hm res. cbn [c_Resources sample_pod_container Requests Limits].
  destruct res; cbn [resource_name rec_request rec_limit sample_rec CPURequest MemoryRequest CPULimit MemoryLimit].
  - rewrite !lookup_singleton_eq. repeat split; by apply cores_representable.
  - rewrite !lookup_singleton_ne by done. done.
Qed.

Lemma planFor_converges_witness :
  pl_change (planFor sample_pod sample_recs sample_tolerance) = requestChange ∧
  pl_change (planFor (resized_pod sample_pod (pl_recs (planFor sample_pod sample_recs sample_tolerance)))
    sample_recs sample_tolerance) = noChange.
Proof.
  split; [vm_compute; reflexivity|]. apply planFor_converges; [by_evaluation|].
  intros c rec Hc. unfold sample_recs. intros [[_ <-]|[_ [_ <-]%lookup_singleton_Some]]%lookup_insert_Some;
    (apply elem_of_cons in Hc as [->|Hc]; [|apply list_elem_of_singleton in Hc as ->]);
    apply sample_representable; lia.
Defined.

Lemma withinDecrease_spec_witness :
  withinDecrease (cores 1000) (Some (cores 960)) 5 (cores 10) = true.
Proof.
  apply withinDecrease_spec; [apply cores_representable; lia..|lia|]. vm_compute. split; reflexivity.
Defined.
End Sample.
