(* ===== verification/Patcher.v ===== *)
(** * Driving running pods toward a Recommendation
    ([patcher.go] and [apply.go] of [internal/workload])

    Resizes, evictions and the wait for an evicted pod's replacement. The API
    server, the clock and the context are the class [PodClient], whose state is
    threaded through; [env] keeps beside it the calls made, in order, with what
    a list answered. A pod is the shared object the Go code points to: what a
    resize makes of it replaces it in the list the pass counts. *)

From S2P Require Import Prelude GoLang Quantity Kube PolicyApi WlrApi Owners Resources Inject Match.
Local Open Scope Z_scope.

(** ** Constants of [corev1] *)

Definition PodPending : string := "Pending".
Definition PodRunning : string := "Running".
Definition PodSucceeded : string := "Succeeded".
Definition PodFailed : string := "Failed".
Definition PodReady : string := "Ready".
Definition PodResizePending : string := "PodResizePending".
Definition PodResizeInProgress : string := "PodResizeInProgress".
Definition PodReasonDeferred : string := "Deferred".
Definition PodReasonInfeasible : string := "Infeasible".
Definition PodReasonError : string := "Error".

Definition SafeToEvictAnnotation : string := "cluster-autoscaler.kubernetes.io/safe-to-evict".

(** [apierrors.IsInvalid] and [IsTooManyRequests] *)
Definition IsInvalid (e : error) : bool := bool_decide (error_status e = Some 422).
Definition IsTooManyRequests (e : error) : bool := bool_decide (error_status e = Some 429).

Definition errCrashLoopBackOff : error := Sentinel "errCrashLoopBackOff".
Definition ErrRefused : error := Sentinel "ErrRefused".

Section Pods.
Context {QO : QuantityOps} {KO : KubeOps}.

(** ** What a pod's status says *)

Definition terminal (pod : Pod) : bool :=
  String.eqb (pod_Phase pod) PodSucceeded || String.eqb (pod_Phase pod) PodFailed.

Definition countable (pod : Pod) : bool := negb (pod_Deleting pod) && negb (terminal pod).

Definition containersCrashing (cs : list ContainerStatus) : bool :=
  existsb (λ c, bool_decide (cs_WaitingReason c = Some "CrashLoopBackOff")) cs.

Definition hasCrashLoopBackOff (pod : Pod) : bool :=
  containersCrashing (pod_ContainerStatuses pod) || containersCrashing (pod_InitContainerStatuses pod) ||
  containersCrashing (pod_EphemeralContainerStatuses pod).

Definition isPodReady (pod : Pod) : bool :=
  String.eqb (pod_Phase pod) PodRunning &&
  existsb (λ c, String.eqb (cond_Type c) PodReady && String.eqb (cond_Status c) "True") (pod_Conditions pod).

Definition isProgressing (pod : Pod) : bool :=
  if pod_Deleting pod then false
  else if terminal pod then false
  else if String.eqb (pod_Phase pod) PodPending then true
  else negb (isPodReady pod).

(** The kubelet's verdict on a staged resize; empty when none is pending. *)
Fixpoint pendingReason (errored : bool) (cs : list PodCondition) : string :=
  match cs with
  | [] => if errored then PodReasonError else ""
  | c :: cs =>
      if String.eqb (cond_Type c) PodResizePending && String.eqb (cond_Status c) "True" then cond_Reason c
      else
        pendingReason
          (errored || (String.eqb (cond_Type c) PodResizeInProgress && String.eqb (cond_Status c) "True" &&
                       String.eqb (cond_Reason c) PodReasonError)) cs
  end.

Definition resizePendingReason (pod : Pod) : string := pendingReason false (pod_Conditions pod).

Definition enactedResources (pod : Pod) : gmap string ResourceRequirements :=
  foldl (λ m s, match cs_Resources s with Some r => <[cs_Name s := r]> m | None => m end) ∅
    (pod_ContainerStatuses pod ++ pod_InitContainerStatuses pod).

Definition running (pod : Pod) : list Container * list Container :=
  let enacted := enactedResources pod in
  let withEnacted := map (λ c, match enacted !! c_Name c with Some r => with_resources c r | None => c end) in
  (withEnacted (pod_Containers pod), withEnacted (pod_InitContainers pod)).

Definition stagedRequests (pod : Pod) : bool :=
  let enacted := enactedResources pod in
  let staged (c : Container) :=
    match enacted !! c_Name c with None => true | Some r => negb (requestsEqual (c_Resources c) r) end in
  existsb staged (pod_Containers pod) ||
  existsb (λ c, isRestartableInitContainer c && staged c) (pod_InitContainers pod).

(** ** The order pods are recycled in *)

(** What follows the last dash of a name; none without a dash. *)
Fixpoint after_last_dash (s : string) : option string :=
  match s with
  | EmptyString => None
  | String c s' =>
      match after_last_dash s' with
      | Some t => Some t
      | None => if (Ascii.N_of_ascii c =? 45)%N then Some s' else None
      end
  end.

Definition podOrdinal (pod : Pod) : option Z :=
  match after_last_dash (pod_Name pod) with
  | None | Some EmptyString => None
  | Some t => Atoi t
  end.

Definition anyOwnedByStatefulSet (pods : list Pod) : bool :=
  existsb (λ pod, IsOwnedByKind (pod_OwnerReferences pod) "StatefulSet") pods.

(** Between pods one of which has no ordinal the names decide; Go leaves the
    order open where that makes the comparison inconsistent. *)
Definition compareOrdinal (a b : Pod) : comparison :=
  match podOrdinal a, podOrdinal b with
  | Some oa, Some ob => ob ?= oa
  | _, _ => String.compare (pod_Name b) (pod_Name a)
  end.

Definition compareName (a b : Pod) : comparison := String.compare (pod_Name a) (pod_Name b).

Definition sortPodsForRecycle (pods : list Pod) : list Pod :=
  if anyOwnedByStatefulSet pods then sort_by compareOrdinal pods else sort_by compareName pods.

(** ** Counting *)

Record PodCounts := { Total : Z; Stale : Z }.

Definition countPod (recs : gmap string ContainerRecommendation) (tol : Tolerance) (fixed : gset string)
    (pc : PodCounts) (pod : Pod) : PodCounts :=
  if negb (countable pod) then pc
  else
    {| Total := Total pc + 1;
       Stale := if negb (bool_decide (pod_UID pod ∈ fixed)) && stale (planFor pod recs tol)
                then Stale pc + 1 else Stale pc |}.

Definition countPods (pods : list Pod) (recs : gmap string ContainerRecommendation) (tol : Tolerance)
    (fixed : gset string) : PodCounts :=
  foldl (countPod recs tol fixed) {| Total := 0; Stale := 0 |} pods.

(** ** Results *)

Inductive ResultKind := ResultDone | ResultIdle | ResultCountedOnly | ResultFailed.
Inductive ApplyStep := StepNone | StepPrometheus | StepPatch | StepResize | StepStore.

Record ApplyResult := {
  res_Kind : ResultKind;
  res_Step : ApplyStep;
  res_Err : option error;
  res_Pods : PodCounts;
  Counted : bool;
  Resized : list string;
  Evicted : list string;
  res_Containers : list string;
  Suppressed : gmap string Z;
}.

(** [Result{}] *)
Definition noResult : ApplyResult :=
  {| res_Kind := ResultDone; res_Step := StepNone; res_Err := None; res_Pods := {| Total := 0; Stale := 0 |};
     Counted := false; Resized := []; Evicted := []; res_Containers := []; Suppressed := ∅ |}.

Definition Changed (r : ApplyResult) : Z := Z.of_nat (length (Resized r)) + Z.of_nat (length (Evicted r)).

Record changes := {
  ch_Resized : list string;
  ch_Evicted : list string;
  ch_Suppressed : gmap string Z;
  ch_fixed : gset string;
  ch_containers : gset string;
}.

Definition newChanges : changes :=
  {| ch_Resized := []; ch_Evicted := []; ch_Suppressed := ∅; ch_fixed := ∅; ch_containers := ∅ |}.

Definition changes_resized (c : changes) (pod : Pod) (names : list string) : changes :=
  {| ch_Resized := ch_Resized c ++ [pod_Name pod]; ch_Evicted := ch_Evicted c; ch_Suppressed := ch_Suppressed c;
     ch_fixed := {[pod_UID pod]} ∪ ch_fixed c; ch_containers := list_to_set names ∪ ch_containers c |}.

Definition changes_evicted (c : changes) (pod : Pod) (recs : gmap string ContainerRecommendation) : changes :=
  let '(cs, inits) := running pod in
  {| ch_Resized := ch_Resized c; ch_Evicted := ch_Evicted c ++ [pod_Name pod]; ch_Suppressed := ch_Suppressed c;
     ch_fixed := {[pod_UID pod]} ∪ ch_fixed c;
     ch_containers := list_to_set (map cw_Name (inj_Writes (Inject cs inits false recs))) ∪ ch_containers c |}.

Definition countSuppressed (m : gmap string Z) (res : string) : gmap string Z := <[res := default 0 (m !! res) + 1]> m.

(** [ContainerRecommendation{}] *)
Definition noRecommendation : ContainerRecommendation :=
  {| CPURequest := None; MemoryRequest := None; CPULimit := None; MemoryLimit := None;
     RemoveCPULimit := false; RemoveMemoryLimit := false |}.

(** [observeSuppressed] with the pass's counter: the counts do not depend on the
    order the recommendations are ranged over. *)
Definition changes_suppressed (c : changes) (orig clamped : gmap string ContainerRecommendation) : changes :=
  let seen := concat (map (λ p, suppressed p.2 (default noRecommendation (clamped !! p.1))) (map_to_list orig)) in
  {| ch_Resized := ch_Resized c; ch_Evicted := ch_Evicted c;
     ch_Suppressed := foldl countSuppressed (ch_Suppressed c) seen;
     ch_fixed := ch_fixed c; ch_containers := ch_containers c |}.

Definition changes_result (c : changes) (pods : list Pod) (recs : gmap string ContainerRecommendation)
    (tol : Tolerance) (err : option error) : ApplyResult * option error :=
  ({| res_Kind := ResultDone; res_Step := StepNone; res_Err := None;
      res_Pods := match err with None => countPods pods recs tol (ch_fixed c) | Some _ => {| Total := 0; Stale := 0 |} end;
      Counted := match err with None => true | Some _ => false end;
      Resized := ch_Resized c; Evicted := ch_Evicted c;
      res_Containers := sort_by String.compare (elements (ch_containers c));
      Suppressed := ch_Suppressed c |}, err).
End Pods.

(** ** The API server, the clock and the context *)
Class PodClient {QO : QuantityOps} {KO : KubeOps} : Type := {
  kc_state : Type;
  (** A patch of the [resize] subresource with the difference from a base to a
      pod: the pod as stored. *)
  kc_resize : kc_state → Pod → Pod → kc_state * result Pod;
  kc_evict : kc_state → Pod → kc_state * option error;
  kc_list : kc_state → string → Selector → kc_state * result (list Pod);
  (** [ctx.Err()] *)
  kc_done : kc_state → option error;
  (** The [select] between the context and [time.After]: the context's error
      when it ends first. *)
  kc_wait : kc_state → duration → kc_state * option error;
  (** [time.Now()] *)
  kc_now : kc_state → time;
}.

(** What is documented of the clock: it does not go back, and [time.After] fires
    no earlier than asked. *)
Class PodClientLaws {QO : QuantityOps} {KO : KubeOps} {PC : PodClient} : Prop := {
  list_clock s ns sel : kc_now s ≤ kc_now (fst (kc_list s ns sel));
  wait_clock s d : snd (kc_wait s d) = None → kc_now s + d ≤ kc_now (fst (kc_wait s d));
}.

Record patcher := {
  p_inPlace : bool;
  readyPollInterval : duration;
  readyTimeout : duration;
}.

Definition defaultReadyPollInterval : duration := 2 * second.
Definition defaultReadyTimeout : duration := 5 * minute.

Abbreviation PatcherOption := (patcher → patcher).

Definition WithReadyPollInterval (d : duration) : PatcherOption := λ p,
  if 0 <? d then {| p_inPlace := p_inPlace p; readyPollInterval := d; readyTimeout := readyTimeout p |} else p.

Definition WithReadyTimeout (d : duration) : PatcherOption := λ p,
  if 0 <? d then {| p_inPlace := p_inPlace p; readyPollInterval := readyPollInterval p; readyTimeout := d |} else p.

Definition NewPatcher (inPlace : bool) (opts : list PatcherOption) : patcher :=
  foldl (λ p opt, opt p)
    {| p_inPlace := inPlace; readyPollInterval := defaultReadyPollInterval; readyTimeout := defaultReadyTimeout |} opts.

Section Patcher.
Context {QO : QuantityOps} {KO : KubeOps} {PC : PodClient}.

(** A call made of the API server; what an eviction and a list answered. *)
Inductive call :=
  | CResize (pod : Pod)
  | CEvict (pod : Pod) (accepted : bool)
  | CList (answer : list Pod).

Record env := { e_state : kc_state; e_calls : list call }.

Definition called (e : env) (st : kc_state) (c : call) : env := {| e_state := st; e_calls := e_calls e ++ [c] |}.

(** ** Evictions *)

Record evictionGate := { ignoreSafeToEvict : bool; halted : option error }.

Definition submitEviction (e : env) (pod : Pod) (gate : evictionGate) : env * (bool * option error) :=
  if negb (ignoreSafeToEvict gate) && String.eqb (index (pod_Annotations pod) SafeToEvictAnnotation) "false"
  then (e, (false, None))
  else
    match halted gate with
    | Some err => (e, (false, Some err))
    | None =>
        let '(st, answer) := kc_evict (e_state e) pod in
        let e := called e st (CEvict pod (bool_decide (answer = None))) in
        match answer with
        | None => (e, (true, None))
        | Some err =>
            if IsNotFound err then (e, (false, None))
            else if IsTooManyRequests err then (e, (false, None))
            else (e, (false, Some err))
        end
    end.

Fixpoint updatedPodCrashLooping (pods : list Pod) (recs : gmap string ContainerRecommendation) (tol : Tolerance) :
    option error :=
  match pods with
  | [] => None
  | pod :: pods' =>
      if negb (countable pod) || negb (hasCrashLoopBackOff pod) then updatedPodCrashLooping pods' recs tol
      else if stale (planFor pod recs tol) then updatedPodCrashLooping pods' recs tol
      else Some (Errorf (pod_Name pod +:+ " already runs the recommendation") [errCrashLoopBackOff])
  end.

(** ** Resizes *)

Inductive resizeAnswer := resizeAccepted | resizeInvalid | resizeGone | resizeFailed (err : error).

Definition with_specs (pod base : Pod) : Pod := with_containers pod (pod_Containers base) (pod_InitContainers base).

(** The answer, and the pod as it leaves it. *)
Definition submitInPlaceResize (e : env) (pod base : Pod) : env * (Pod * resizeAnswer) :=
  let '(st, answer) := kc_resize (e_state e) base pod in
  let e := called e st (CResize pod) in
  match answer with
  | Ok stored => (e, (stored, resizeAccepted))
  | Err err =>
      if IsInvalid err then (e, (with_specs pod base, resizeInvalid))
      else if IsNotFound err then (e, (pod, resizeGone))
      else (e, (pod, resizeFailed err))
  end.

Definition applySidecarResize (e : env) (pod base : Pod) (initContainers : list Container) : env * (Pod * bool) :=
  let sidecarBase := with_containers pod (pod_Containers pod) (pod_InitContainers base) in
  let pod := with_containers pod (pod_Containers pod) initContainers in
  let '(st, answer) := kc_resize (e_state e) sidecarBase pod in
  let e := called e st (CResize pod) in
  match answer with
  | Err _ => (e, (with_containers pod (pod_Containers pod) (pod_InitContainers base), false))
  | Ok stored => (e, (stored, true))
  end.

Record unapplyStrategy := {
  onUnsatisfiable : env → Pod → string → env * (bool * option error);
  onUnapplied : env → Pod → env * (bool * option error);
}.

(** What a resize answers: the containers written, whether the pod was evicted
    instead, and the error. *)
Record resizeOutcome := { written : list string; ro_evicted : bool; ro_err : option error }.

Definition nothingWritten : resizeOutcome := {| written := []; ro_evicted := false; ro_err := None |}.

Definition instead (r : env * (bool * option error)) (pod : Pod) : env * (Pod * resizeOutcome) :=
  let '(e, (evicted, err)) := r in (e, (pod, {| written := []; ro_evicted := evicted; ro_err := err |})).

(** The sidecars' call, after the containers [done] were written. *)
Definition resizeSidecars (e : env) (pod base : Pod) (r : resize) (done : list string) : env * (Pod * resizeOutcome) :=
  match rz_sidecars r with
  | [] => (e, (pod, {| written := done; ro_evicted := false; ro_err := None |}))
  | _ =>
      let '(e, (pod, ok)) := applySidecarResize e pod base (rz_initContainers r) in
      (e, (pod, {| written := if ok then done ++ rz_sidecars r else done; ro_evicted := false; ro_err := None |}))
  end.

Definition resizePodInPlaceWith (e : env) (pod : Pod) (recs : gmap string ContainerRecommendation)
    (strat : unapplyStrategy) : env * (Pod * resizeOutcome) :=
  let base := pod in
  let r := resized pod recs in
  match rz_regular r, rz_sidecars r with
  | [], [] =>
      let verdict := resizePendingReason pod in
      if String.eqb verdict PodReasonInfeasible || String.eqb verdict PodReasonError
      then instead (onUnsatisfiable strat e pod verdict) pod
      else (e, (pod, nothingWritten))
  | [], _ => resizeSidecars e pod base r []
  | regular, _ =>
      let '(e, (pod, answer)) :=
        submitInPlaceResize e (with_containers pod (rz_containers r) (pod_InitContainers pod)) base in
      match answer with
      | resizeFailed err => (e, (pod, {| written := []; ro_evicted := false; ro_err := Some err |}))
      | resizeGone => (e, (pod, nothingWritten))
      | resizeInvalid => instead (onUnapplied strat e pod) pod
      | resizeAccepted => resizeSidecars e pod base r regular
      end
  end.

Definition neverEvict : unapplyStrategy :=
  {| onUnsatisfiable e _ _ := (e, (false, None)); onUnapplied e _ := (e, (false, None)) |}.

Definition resizePodInPlaceNoEvict (e : env) (pod : Pod) (recs : gmap string ContainerRecommendation) :
    env * (Pod * resizeOutcome) := resizePodInPlaceWith e pod recs neverEvict.

Definition orEvict (gate : evictionGate) : unapplyStrategy :=
  {| onUnsatisfiable e pod _ :=
       if negb (stagedRequests pod) then (e, (false, None)) else submitEviction e pod gate;
     onUnapplied e pod := submitEviction e pod gate |}.

Definition patchPodInPlace (e : env) (pod : Pod) (recs : gmap string ContainerRecommendation) (gate : evictionGate) :
    env * (Pod * resizeOutcome) := resizePodInPlaceWith e pod recs (orEvict gate).

(** ** Waiting for a replacement *)

(** How a wait ends; [OutOfPolls] is shown never to happen. *)
Inductive waited := Quiescent | WaitFailed (err : error) | OutOfPolls.

(** Whether the listed pod is the evicted one, not yet gone. *)
Definition isEvicted (name uid : string) (pod : Pod) : bool :=
  if negb (String.eqb uid "") then String.eqb (pod_UID pod) uid else String.eqb (pod_Name pod) name.

(** One listed pod: a crash loop ends the loop; otherwise whether the evicted
    pod is gone, and the pods that progress. *)
Fixpoint pollPods (name uid : string) (gone : bool) (pending : Z) (pods : list Pod) : (bool * Z) + string :=
  match pods with
  | [] => inl (gone, pending)
  | pod :: pods' =>
      if hasCrashLoopBackOff pod then inr (pod_Name pod)
      else if isEvicted name uid pod then pollPods name uid false pending pods'
      else if isProgressing pod then pollPods name uid gone (pending + 1) pods'
      else pollPods name uid gone pending pods'
  end.

Fixpoint waitLoop (fuel : nat) (p : patcher) (e : env) (namespace : string) (selector : Selector)
    (name uid : string) (deadline : time) : env * waited :=
  match fuel with
  | O => (e, OutOfPolls)
  | S fuel =>
      let '(st, answer) := kc_list (e_state e) namespace selector in
      match answer with
      | Err err => ({| e_state := st; e_calls := e_calls e |},
                    WaitFailed (Errorf "listing pods while waiting for replacement" [err]))
      | Ok pods =>
          let e := called e st (CList pods) in
          match pollPods name uid true 0 pods with
          | inr crashing => (e, WaitFailed (Errorf crashing [errCrashLoopBackOff]))
          | inl (gone, pending) =>
              if gone && (pending =? 0) then (e, Quiescent)
              else if time_After (kc_now (e_state e)) deadline
              then (e, WaitFailed (ErrorNew "timed out waiting for replacement"))
              else
                let '(st, done) := kc_wait (e_state e) (readyPollInterval p) in
                let e := {| e_state := st; e_calls := e_calls e |} in
                match done with
                | Some err => (e, WaitFailed err)
                | None => waitLoop fuel p e namespace selector name uid deadline
                end
          end
      end
  end.

(** Every poll but the last comes an interval after the one before. *)
Definition poll_fuel (p : patcher) : nat := Z.to_nat (readyTimeout p / readyPollInterval p + 2).

Definition waitForReplacement (p : patcher) (e : env) (namespace : string) (selector : Selector)
    (name uid : string) : env * waited :=
  waitLoop (poll_fuel p) p e namespace selector name uid (time_Add (kc_now (e_state e)) (readyTimeout p)).

(** ** A pass over the pods of a member *)

Record ApplySettings := {
  as_RecommendOnly : string;
  DryRun : bool;
  as_Tolerance : Tolerance;
  IgnoreSafeToEvict : bool;
}.

(** The state of a loop over pods: the pods behind it as it left them, what it
    changed and the errors so far. *)
Record pass := { ps_env : env; ps_done : list Pod; ps_changes : changes; ps_errs : list error }.

Definition podError (pod : Pod) (err : error) : error := Errorf ("pod " +:+ pod_Name pod) [err].

(** A pod planned and its suppressions counted. *)
Definition plan_pod (s : ApplySettings) (recs : gmap string ContainerRecommendation) (c : changes) (pod : Pod) :
    podPlan * changes :=
  let plan := planFor pod recs (as_Tolerance s) in (plan, changes_suppressed c recs (pl_recs plan)).

Definition skipped (ps : pass) (pod : Pod) : pass :=
  {| ps_env := ps_env ps; ps_done := ps_done ps ++ [pod]; ps_changes := ps_changes ps; ps_errs := ps_errs ps |}.

(** The loop over the pods: whether the context ended it, and the pass with the
    pods it did not reach. *)
Fixpoint resizeLoop (s : ApplySettings) (recs : gmap string ContainerRecommendation) (ps : pass) (pods : list Pod) :
    pass * option error :=
  match pods with
  | [] => (ps, None)
  | pod :: pods' =>
      match kc_done (e_state (ps_env ps)) with
      | Some err => ({| ps_env := ps_env ps; ps_done := ps_done ps ++ pods; ps_changes := ps_changes ps;
                        ps_errs := ps_errs ps |}, Some err)
      | None =>
          if pod_Deleting pod || negb (String.eqb (pod_Phase pod) PodRunning)
          then resizeLoop s recs (skipped ps pod) pods'
          else
            let '(plan, c) := plan_pod s recs (ps_changes ps) pod in
            let '(e, (pod', out)) := resizePodInPlaceNoEvict (ps_env ps) pod (pl_recs plan) in
            resizeLoop s recs
              {| ps_env := e; ps_done := ps_done ps ++ [pod'];
                 ps_changes := match written out with [] => c | names => changes_resized c pod' names end;
                 ps_errs := ps_errs ps ++ match ro_err out with Some err => [podError pod' err] | None => [] end |}
              pods'
      end
  end.

Definition emptyPass (e : env) : pass := {| ps_env := e; ps_done := []; ps_changes := newChanges; ps_errs := [] |}.

(** What the pass answers: its errors joined, unless the context ended it. *)
Definition pass_result (s : ApplySettings) (recs : gmap string ContainerRecommendation)
    (r : pass * option error) : ApplyResult * option error :=
  let '(ps, ended) := r in
  changes_result (ps_changes ps) (ps_done ps) recs (as_Tolerance s)
    (match ended with Some err => Some err | None => errors_Join (ps_errs ps) end).

Definition resizeInPlaceOnly (p : patcher) (e : env) (pods : list Pod) (recs : gmap string ContainerRecommendation)
    (s : ApplySettings) : env * (ApplyResult * option error) :=
  if negb (p_inPlace p) then (e, changes_result newChanges pods recs (as_Tolerance s) None)
  else
    let r := resizeLoop s recs (emptyPass e) pods in
    (ps_env (fst r), pass_result s recs r).

Record podSet := { set_pods : list Pod; set_namespace : string; set_selector : option Selector }.

(** What is done to one live pod, by its plan. *)
Definition recyclePod (p : patcher) (e : env) (plan : podPlan) (gate : evictionGate) (pod : Pod) :
    env * (Pod * resizeOutcome) :=
  let inPlace := p_inPlace p && String.eqb (pod_Phase pod) PodRunning in
  if inPlace && bool_decide (pl_change plan = limitChange) then resizePodInPlaceNoEvict e pod (pl_recs plan)
  else if inPlace then patchPodInPlace e pod (pl_recs plan) gate
  else if stale plan then instead (submitEviction e pod gate) pod
  else (e, (pod, nothingWritten)).

Fixpoint recycleLoop (p : patcher) (set : podSet) (selector : Selector) (s : ApplySettings)
    (recs : gmap string ContainerRecommendation) (gate : evictionGate) (ps : pass) (pods : list Pod) :
    pass * option error :=
  match pods with
  | [] => (ps, None)
  | pod :: pods' =>
      match kc_done (e_state (ps_env ps)) with
      | Some err => ({| ps_env := ps_env ps; ps_done := ps_done ps ++ pods; ps_changes := ps_changes ps;
                        ps_errs := ps_errs ps |}, Some err)
      | None =>
          if pod_Deleting pod || terminal pod then recycleLoop p set selector s recs gate (skipped ps pod) pods'
          else
            let '(plan, c) := plan_pod s recs (ps_changes ps) pod in
            let '(e, (pod', out)) := recyclePod p (ps_env ps) plan gate pod in
            let errs := ps_errs ps ++ match ro_err out with Some err => [podError pod' err] | None => [] end in
            if match ro_err out with Some err => errors_Is err "errCrashLoopBackOff" | None => false end
            then ({| ps_env := e; ps_done := ps_done ps ++ pod' :: pods'; ps_changes := c; ps_errs := errs |}, None)
            else
              let c := match written out with [] => c | names => changes_resized c pod' names end in
              if negb (ro_evicted out)
              then recycleLoop p set selector s recs gate
                     {| ps_env := e; ps_done := ps_done ps ++ [pod']; ps_changes := c; ps_errs := errs |} pods'
              else
                let c := changes_evicted c pod' recs in
                match waitForReplacement p e (set_namespace set) selector (pod_Name pod') (pod_UID pod') with
                | (e, Quiescent) =>
                    recycleLoop p set selector s recs gate
                      {| ps_env := e; ps_done := ps_done ps ++ [pod']; ps_changes := c; ps_errs := errs |} pods'
                | (e, WaitFailed err) =>
                    ({| ps_env := e; ps_done := ps_done ps ++ pod' :: pods'; ps_changes := c;
                        ps_errs := errs ++ [Errorf ("after evicting " +:+ pod_Name pod') [err]] |}, None)
                | (e, OutOfPolls) =>
                    ({| ps_env := e; ps_done := ps_done ps ++ pod' :: pods'; ps_changes := c; ps_errs := errs |}, None)
                end
      end
  end.

(** [None] is the nil selector of an in-place-only kind's set, which [recycle]
    dereferences. *)
Definition recycle (p : patcher) (e : env) (set : podSet) (recs : gmap string ContainerRecommendation)
    (s : ApplySettings) : option (env * (ApplyResult * option error)) :=
  match set_selector set with
  | None => None
  | Some selector =>
      let pods := sortPodsForRecycle (set_pods set) in
      let gate := {| ignoreSafeToEvict := IgnoreSafeToEvict s;
                     halted := updatedPodCrashLooping pods recs (as_Tolerance s) |} in
      let r := recycleLoop p set selector s recs gate (emptyPass e) pods in
      Some (ps_env (fst r), pass_result s recs r)
  end.
End Patcher.

(** ** Facts *)

(** *** The order of a pass *)
Section Order.
Context {QO : QuantityOps} {KO : KubeOps}.

Lemma sortPodsForRecycle_perm pods : sortPodsForRecycle pods ≡ₚ pods.
Proof. unfold sortPodsForRecycle. destruct (anyOwnedByStatefulSet pods); apply sort_by_perm. Qed.

(** Among pods that have one, ordinals are compared. *)
Definition by_ordinal (a b : Pod) : comparison := default 0 (podOrdinal b) ?= default 0 (podOrdinal a).

Lemma sort_by_ext {A} (c1 c2 : A → A → comparison) l :
  (∀ x y, x ∈ l → y ∈ l → c1 x y = c2 x y) → sort_by c1 l = sort_by c2 l.
Proof.
  induction l as [|x l IH]; intros Heq; [done|]. cbn [sort_by foldr]. fold (sort_by c1 l) (sort_by c2 l).
  rewrite IH by (intros; apply Heq; by right).
  assert (Hx : ∀ y, y ∈ sort_by c2 l → c1 x y = c2 x y).
  { intros y Hy%elem_of_sort_by. apply Heq; [by left|by right]. }
  revert Hx. generalize (sort_by c2 l). induction l0 as [|y l0 IHl]; intros Hx; [done|]. cbn [insert_by].
  rewrite (Hx y) by (by left). destruct (c2 x y); [done..|]. f_equal. apply IHl. intros z Hz. apply Hx. by right.
Qed.

(** a StatefulSet's pods are recycled from the highest ordinal down, as its own
    rolling update goes, and other pods by name; no pod is left out or recycled
    twice. *)
Theorem recycle_order pods :
  sortPodsForRecycle pods ≡ₚ pods ∧
  (anyOwnedByStatefulSet pods = false →
   StronglySorted (λ a b, String.compare (pod_Name a) (pod_Name b) ≠ Gt) (sortPodsForRecycle pods)) ∧
  (anyOwnedByStatefulSet pods = true → (∀ pod, pod ∈ pods → is_Some (podOrdinal pod)) →
   StronglySorted (λ a b, default 0 (podOrdinal b) ≤ default 0 (podOrdinal a)) (sortPodsForRecycle pods)).
Proof.
  split; [apply sortPodsForRecycle_perm|]. unfold sortPodsForRecycle. split; intros ->.
  - assert (PreCmp compareName) by apply (cmp_on_pre pod_Name), _. by apply (sort_by_sorted compareName).
  - intros Hord. rewrite (sort_by_ext compareOrdinal by_ordinal).
    + assert (PreCmp by_ordinal) by (apply (cmp_desc_pre (λ a b, default 0 (podOrdinal a) ?= default 0 (podOrdinal b))),
        (cmp_on_pre (λ p, default 0 (podOrdinal p))), _).
      exact (sort_by_sorted by_ordinal pods).
    + intros x y Hx Hy. unfold compareOrdinal, by_ordinal.
      destruct (Hord x Hx) as [ox ->], (Hord y Hy) as [oy ->]. done.
Qed.
End Order.

(** *** The wait *)
Section Wait.
Context {QO : QuantityOps} {KO : KubeOps} {PC : PodClient}.

(** A listed pod that holds nothing up. *)
Definition settled_pod (name uid : string) (pod : Pod) : bool :=
  negb (hasCrashLoopBackOff pod) && negb (isEvicted name uid pod) && negb (isProgressing pod).

Lemma pollPods_quiescent name uid pods gone pending :
  0 ≤ pending → pollPods name uid gone pending pods = inl (true, 0) →
  gone = true ∧ pending = 0 ∧ forallb (settled_pod name uid) pods = true.
Proof.
  revert gone pending. induction pods as [|pod pods IH]; intros gone pending Hp; cbn [pollPods forallb].
  { by intros [= -> ->]. }
  unfold settled_pod at 1. destruct (hasCrashLoopBackOff pod); [done|]. destruct (isEvicted name uid pod).
  { intros H. apply IH in H as [? _]; done. }
  destruct (isProgressing pod); intros H; [apply IH in H as (? & ? & _); lia|]. by apply IH in H.
Qed.

Context {PL : PodClientLaws}.

Lemma waitLoop_ends fuel p e ns sel name uid deadline :
  0 < readyPollInterval p →
  deadline < kc_now (e_state e) + (Z.of_nat fuel - 1) * readyPollInterval p →
  snd (waitLoop fuel p e ns sel name uid deadline) ≠ OutOfPolls ∨ fuel = 0%nat ∧ deadline < kc_now (e_state e).
Proof.
  intros Hi. revert e. induction fuel as [|fuel IH]; intros e Hd.
  { right. split; [done|]. lia. }
  left. cbn [waitLoop]. pose proof (list_clock (e_state e) ns sel) as Hl.
  destruct (kc_list (e_state e) ns sel) as [st [pods|err]]; cbn [fst] in Hl; [|done].
  destruct (pollPods name uid true 0 pods) as [[gone pending]|]; [|done].
  destruct (gone && (pending =? 0)); [done|]. cbn [e_state called].
  destruct (time_After (kc_now st) deadline) eqn:Ha; [done|]. unfold time_After in Ha. bool_props.
  pose proof (wait_clock st (readyPollInterval p)) as Hw.
  destruct (kc_wait st (readyPollInterval p)) as [st2 [err|]]; cbn [fst snd] in Hw; [done|]. specialize (Hw eq_refl).
  destruct (IH {| e_state := st2; e_calls := e_calls (called e st (CList pods)) |}) as [H|[-> H]].
  - cbn [e_state]. nia.
  - done.
  - cbn [e_state] in H. exfalso. nia.
Qed.

(** the wait for a replacement ends: by the time the Patcher's timeout is over
    it has polled no more often than its interval allows, and then it answers. *)
Theorem waitForReplacement_ends p e ns sel name uid :
  0 < readyPollInterval p → 0 ≤ readyTimeout p →
  snd (waitForReplacement p e ns sel name uid) ≠ OutOfPolls.
Proof.
  intros Hi Ht. unfold waitForReplacement, time_Add.
  destruct (waitLoop_ends (poll_fuel p) p e ns sel name uid (kc_now (e_state e) + readyTimeout p) Hi) as [H|[H _]];
    [|done|].
  - unfold poll_fuel. pose proof (Z.div_pos (readyTimeout p) (readyPollInterval p) Ht Hi).
    pose proof (Z.mod_pos_bound (readyTimeout p) (readyPollInterval p) Hi).
    pose proof (Z.div_mod (readyTimeout p) (readyPollInterval p) ltac:(lia)).
    rewrite Z2Nat.id by lia. nia.
  - unfold poll_fuel in H. pose proof (Z.div_pos (readyTimeout p) (readyPollInterval p) Ht Hi). lia.
Qed.
End Wait.

(** A Patcher built by [NewPatcher] polls. *)
Lemma NewPatcher_polls inPlace opts :
  Forall (λ opt, ∃ d, opt = WithReadyPollInterval d ∨ opt = WithReadyTimeout d) opts →
  0 < readyPollInterval (NewPatcher inPlace opts) ∧ 0 < readyTimeout (NewPatcher inPlace opts) ∧
  p_inPlace (NewPatcher inPlace opts) = inPlace.
Proof.
  intros Hopts. unfold NewPatcher. set (p0 := Build_patcher _ _ _).
  assert (H0 : 0 < readyPollInterval p0 ∧ 0 < readyTimeout p0 ∧ p_inPlace p0 = inPlace) by done.
  revert H0. generalize p0. induction Hopts as [|opt opts (d & Hd) _ IH]; intros p Hp; [done|].
  cbn [foldl]. apply IH. destruct Hd as [-> | ->]; unfold WithReadyPollInterval, WithReadyTimeout;
    destruct (Z.ltb_spec 0 d); cbn; by destruct Hp as (? & ? & ?).
Qed.

(** *** The calls of a pass *)
Section Calls.
Context {QO : QuantityOps} {KO : KubeOps} {PC : PodClient}.
Implicit Types (e : env) (c : call).

(** Every call made between two environments satisfies [Q]. *)
Definition made (Q : call → Prop) e e' : Prop := ∃ l, e_calls e' = e_calls e ++ l ∧ Forall Q l.

Lemma made_refl Q e : made Q e e.
Proof. exists []. rewrite app_nil_r. split; [done|constructor]. Qed.

Lemma made_trans Q e1 e2 e3 : made Q e1 e2 → made Q e2 e3 → made Q e1 e3.
Proof.
  intros (l1 & H1 & F1) (l2 & H2 & F2). exists (l1 ++ l2). rewrite H2, H1, app_assoc. split; [done|]. by apply Forall_app.
Qed.

Lemma made_called Q e st c : Q c → made Q e (called e st c).
Proof. intros Hc. exists [c]. split; [done|]. by constructor. Qed.

Lemma made_same Q e st : made Q e {| e_state := st; e_calls := e_calls e |}.
Proof. exists []. rewrite app_nil_r. split; [done|constructor]. Qed.

(** The gate is the only way to an eviction. *)
Definition gate_open (gate : evictionGate) (pod : Pod) : Prop :=
  halted gate = None ∧ (ignoreSafeToEvict gate = true ∨ index (pod_Annotations pod) SafeToEvictAnnotation ≠ "false").

Lemma submitEviction_made Q e pod gate :
  (gate_open gate pod → ∀ b, Q (CEvict pod b)) → made Q e (fst (submitEviction e pod gate)).
Proof.
  intros HQ. unfold submitEviction.
  destruct (ignoreSafeToEvict gate) eqn:Ei, (String.eqb_spec (index (pod_Annotations pod) SafeToEvictAnnotation) "false")
    as [Ea|Ea]; cbn [negb andb]; try apply made_refl.
  all: destruct (halted gate) eqn:Eh; [apply made_refl|]; destruct (kc_evict (e_state e) pod) as [st answer];
    assert (Hq : ∀ b, Q (CEvict pod b)) by (apply HQ; split; [done|auto]);
    pose proof (made_called Q e st _ (Hq (bool_decide (answer = None)))) as Hm;
    destruct answer as [err|]; [|done]; destruct (IsNotFound err); [done|]; by destruct (IsTooManyRequests err).
Qed.

Lemma with_specs_back pod cs inits : with_specs (with_containers pod cs inits) pod = pod.
Proof. by destruct pod. Qed.

Context (Q : call → Prop) (Qresize : ∀ pod, Q (CResize pod)).

Lemma resizeSidecars_made e pod base r names : made Q e (fst (resizeSidecars e pod base r names)).
Proof.
  unfold resizeSidecars. destruct (rz_sidecars r); [apply made_refl|]. unfold applySidecarResize.
  destruct (kc_resize _ _ _) as [st [stored|err]]; cbn; by apply made_called.
Qed.

(** A resize makes the calls of its patches and of what it does instead. *)
Lemma resize_made e pod recs strat :
  (rz_regular (resized pod recs) = [] → rz_sidecars (resized pod recs) = [] →
   resizePendingReason pod = PodReasonInfeasible ∨ resizePendingReason pod = PodReasonError →
   made Q e (fst (onUnsatisfiable strat e pod (resizePendingReason pod)))) →
  (rz_regular (resized pod recs) ≠ [] → ∀ e, made Q e (fst (onUnapplied strat e pod))) →
  made Q e (fst (resizePodInPlaceWith e pod recs strat)).
Proof.
  intros Hs Hu. unfold resizePodInPlaceWith.
  destruct (rz_regular (resized pod recs)) as [|n ns] eqn:Er.
  - destruct (rz_sidecars (resized pod recs)) eqn:Es; [|apply resizeSidecars_made].
    destruct (_ || _) eqn:Ev; [|apply made_refl]. unfold instead.
    apply orb_true_iff in Ev as [Ev|Ev]; apply String.eqb_eq in Ev.
    all: specialize (Hs eq_refl eq_refl ltac:(auto)).
    all: by destruct (onUnsatisfiable strat e pod (resizePendingReason pod)) as [e' [ev err]].
  - unfold submitInPlaceResize. destruct (kc_resize _ _ _) as [st [stored|err]].
    + eapply made_trans; [by apply made_called|]. apply resizeSidecars_made.
    + destruct (IsInvalid err).
      * rewrite with_specs_back. unfold instead.
        pose proof (Hu ltac:(done) (called e st (CResize (with_containers pod (rz_containers (resized pod recs))
          (pod_InitContainers pod))))) as Hm.
        destruct (onUnapplied strat _ pod) as [e' [ev er]]. cbn [fst] in *.
        eapply made_trans; [by apply made_called|exact Hm].
      * destruct (IsNotFound err); by apply made_called.
Qed.

Lemma noEvict_made e pod recs : made Q e (fst (resizePodInPlaceNoEvict e pod recs)).
Proof. apply resize_made; intros; apply made_refl. Qed.

Lemma resizeLoop_made s recs ps pods : made Q (ps_env ps) (ps_env (fst (resizeLoop s recs ps pods))).
Proof.
  revert ps. induction pods as [|pod pods IH]; intros ps; cbn [resizeLoop]; [apply made_refl|].
  destruct (kc_done _); [apply made_refl|]. destruct (_ || _); [apply (IH (skipped ps pod))|].
  destruct (plan_pod s recs (ps_changes ps) pod) as [plan c].
  pose proof (noEvict_made (ps_env ps) pod (pl_recs plan)) as Hm.
  destruct (resizePodInPlaceNoEvict _ _ _) as [e [pod' out]]. cbn [fst] in Hm.
  eapply made_trans; [exact Hm|].
  match goal with |- made _ _ (ps_env (fst (resizeLoop _ _ ?ps' _))) => exact (IH ps') end.
Qed.

Lemma resizeInPlaceOnly_made p e pods recs s : made Q e (fst (resizeInPlaceOnly p e pods recs s)).
Proof.
  unfold resizeInPlaceOnly. destruct (negb _); [apply made_refl|]. cbn [fst].
  apply (resizeLoop_made s recs (emptyPass e) pods).
Qed.

Context (Qlist : ∀ pods, Q (CList pods)).

Lemma waitLoop_made fuel p e ns sel name uid deadline : made Q e (fst (waitLoop fuel p e ns sel name uid deadline)).
Proof.
  revert e. induction fuel as [|fuel IH]; intros e; cbn [waitLoop]; [apply made_refl|].
  destruct (kc_list _ _ _) as [st [pods|err]]; [|apply made_same].
  assert (Hl : made Q e (called e st (CList pods))) by by apply made_called.
  destruct (pollPods _ _ _ _ _) as [[gone pending]|]; [|done]. destruct (_ && _); [done|].
  destruct (time_After _ _); [done|]. destruct (kc_wait _ _) as [st2 [err|]]; cbn [fst].
  - eapply made_trans; [exact Hl|apply made_same].
  - eapply made_trans; [exact Hl|]. eapply made_trans; [apply (made_same _ _ st2)|apply IH].
Qed.
End Calls.

(** *** What a recycle evicts *)
Section Evictions.
Context {QO : QuantityOps} {KO : KubeOps} {QL : QuantityLaws} {KL : KubeLaws} {PC : PodClient}.
Implicit Types (e : env) (c : call).

(** Why a pass may evict a pod: a request of it differs from the Recommendation,
    or, its spec already the Recommendation's, the kubelet cannot enact a staged
    resize of a request. *)
Definition evictable (p : patcher) (recs : gmap string ContainerRecommendation) (s : ApplySettings) (pod : Pod) : Prop :=
  let plan := planFor pod recs (as_Tolerance s) in
  pl_change plan = requestChange ∨
  pl_change plan = noChange ∧ p_inPlace p = true ∧ pod_Phase pod = PodRunning ∧ stagedRequests pod = true ∧
    (resizePendingReason pod = PodReasonInfeasible ∨ resizePendingReason pod = PodReasonError).

(** What an eviction of the pass is of. *)
Definition allowed (p : patcher) (pods : list Pod) (recs : gmap string ContainerRecommendation) (s : ApplySettings)
    (c : call) : Prop :=
  match c with
  | CEvict pod _ =>
      pod ∈ pods ∧ countable pod = true ∧ evictable p recs s pod ∧
      (IgnoreSafeToEvict s = true ∨ index (pod_Annotations pod) SafeToEvictAnnotation ≠ "false") ∧
      updatedPodCrashLooping (sortPodsForRecycle pods) recs (as_Tolerance s) = None
  | _ => True
  end.

Lemma recyclePod_made (Q : call → Prop) p e plan gate pod :
  (∀ pod, Q (CResize pod)) →
  (pl_change plan = noChange → rz_regular (resized pod (pl_recs plan)) = [] ∧ rz_sidecars (resized pod (pl_recs plan)) = []) →
  (gate_open gate pod → pl_change plan = requestChange ∨
     pl_change plan = noChange ∧ p_inPlace p = true ∧ pod_Phase pod = PodRunning ∧ stagedRequests pod = true ∧
     (resizePendingReason pod = PodReasonInfeasible ∨ resizePendingReason pod = PodReasonError) → ∀ b, Q (CEvict pod b)) →
  made Q e (fst (recyclePod p e plan gate pod)).
Proof.
  intros HR Hno HE. unfold recyclePod.
  destruct (p_inPlace p && String.eqb (pod_Phase pod) PodRunning) eqn:Ein; cbn [andb].
  - apply andb_true_iff in Ein as [Hin Hph]. apply String.eqb_eq in Hph.
    destruct (bool_decide_reflect (pl_change plan = limitChange)) as [|Hnl]; [by apply noEvict_made|].
    apply resize_made; [done| |].
    + intros _ _ Hv. cbn [onUnsatisfiable orEvict]. destruct (stagedRequests pod) eqn:Est; cbn [negb]; [|apply made_refl].
      apply submitEviction_made. intros Hg. apply HE; [done|]. destruct (pl_change plan); [by right|done|by left].
    + intros Hne e'. cbn [onUnapplied orEvict]. apply submitEviction_made. intros Hg. apply HE; [done|].
      destruct (pl_change plan) eqn:Ec; [|done|by left]. destruct (Hno eq_refl) as [Hr _]. by rewrite Hr in Hne.
  - unfold stale. destruct (bool_decide_reflect (pl_change plan = requestChange)) as [Hrc|]; [|apply made_refl].
    pose proof (submitEviction_made Q e pod gate) as Hs. unfold instead.
    destruct (submitEviction e pod gate) as [e' [ev err]]. apply Hs. intros Hg. apply HE; [done|by left].
Qed.

Lemma recycleLoop_made p set sel s recs gate ps pods all :
  gate = {| ignoreSafeToEvict := IgnoreSafeToEvict s;
            halted := updatedPodCrashLooping (sortPodsForRecycle all) recs (as_Tolerance s) |} →
  (∀ pod, pod ∈ pods → pod ∈ all) →
  made (allowed p all recs s) (ps_env ps) (ps_env (fst (recycleLoop p set sel s recs gate ps pods))).
Proof.
  intros Hg. revert ps. induction pods as [|pod pods IH]; intros ps Hin; cbn [recycleLoop]; [apply made_refl|].
  specialize (λ ps', IH ps' (λ q Hq, Hin q (list_elem_of_further _ _ _ Hq))).
  destruct (kc_done _); [apply made_refl|].
  destruct (pod_Deleting pod || terminal pod) eqn:Esk; [apply (IH (skipped ps pod))|].
  unfold plan_pod. set (plan := planFor pod recs (as_Tolerance s)). set (c := changes_suppressed _ _ _).
  assert (Hm : made (allowed p all recs s) (ps_env ps) (fst (recyclePod p (ps_env ps) plan gate pod))).
  { apply recyclePod_made; [done| |].
    - intros Hno. by apply (resized_nothing pod (clampRecsToTolerance (podContainers pod) recs (as_Tolerance s))).
    - subst gate. intros [Hh Hs] Hev b. cbn [halted ignoreSafeToEvict] in *. unfold allowed, evictable.
      repeat split; [apply Hin; by left| |done|done|done].
      unfold countable. apply orb_false_iff in Esk as [-> ->]. done. }
  destruct (recyclePod p (ps_env ps) plan gate pod) as [e [pod' out]]. cbn [fst] in Hm.
  destruct (match ro_err out with Some err => _ | None => _ end); [done|].
  destruct (negb (ro_evicted out)).
  - eapply made_trans; [exact Hm|].
    match goal with |- made _ _ (ps_env (fst (recycleLoop _ _ _ _ _ _ ?ps' _))) => exact (IH ps') end.
  - assert (Hw : made (allowed p all recs s) e
      (fst (waitForReplacement p e (set_namespace set) sel (pod_Name pod') (pod_UID pod')))) by by apply waitLoop_made.
    destruct (waitForReplacement p e _ _ _ _) as [e2 [|err|]]; cbn [fst] in Hw |- *.
    2,3: by eapply made_trans.
    eapply made_trans; [exact Hm|]. eapply made_trans; [exact Hw|].
    match goal with |- made _ _ (ps_env (fst (recycleLoop _ _ _ _ _ _ ?ps' _))) => exact (IH ps') end.
Qed.

(** C3: nothing is evicted that need not be: every eviction of a pass is of a live
    pod of the workload a request of which differs from the Recommendation past
    the tolerance, or whose staged resize of a request the kubelet cannot enact,
    never for limits alone; never one annotated safe-to-evict=false unless the
    Policy says to ignore it; and none at all while a pod that already runs the
    Recommendation crash-loops. *)
Theorem recycle_evicts_allowed p e set recs s e' r :
  recycle p e set recs s = Some (e', r) →
  ∃ l, e_calls e' = e_calls e ++ l ∧ ∀ pod b, CEvict pod b ∈ l → allowed p (set_pods set) recs s (CEvict pod b).
Proof.
  unfold recycle. destruct (set_selector set) as [sel|]; [|done]. intros [= <- _].
  edestruct (recycleLoop_made p set sel s recs) as (l & Hl & Hall); [reflexivity| |].
  - intros pod. apply (proj1 (elem_of_Permutation_proper pod _ _ (sortPodsForRecycle_perm (set_pods set)))).
  - exists l. split; [exact Hl|]. intros pod b Hin. rewrite Forall_forall in Hall. exact (Hall _ Hin).
Qed.
End Evictions.

(** *** One disruption at a time *)
Section Pacing.
Context {QO : QuantityOps} {KO : KubeOps} {PC : PodClient}.
Implicit Types (e : env) (c : call).

(** A monitor of the calls: whose replacement is awaited, if any. While one is,
    only lists may be made, until one shows the pod gone and every other
    settled. *)
Abbreviation awaiting := (option (string * string)).

Definition pace (w : awaiting) c : option awaiting :=
  match w, c with
  | None, CEvict pod true => Some (Some (pod_Name pod, pod_UID pod))
  | None, _ => Some None
  | Some (name, uid), CList pods => Some (if forallb (settled_pod name uid) pods then None else Some (name, uid))
  | Some _, _ => None
  end.

Fixpoint paced (w : awaiting) (l : list call) : option awaiting :=
  match l with
  | [] => Some w
  | c :: l' => match pace w c with Some w' => paced w' l' | None => None end
  end.

Lemma paced_app w l1 l2 w1 : paced w l1 = Some w1 → paced w (l1 ++ l2) = paced w1 l2.
Proof.
  revert w. induction l1 as [|c l1 IH]; intros w; cbn; [by intros [= ->]|].
  destruct (pace w c); [apply IH|done].
Qed.

(** The calls between two environments lead the monitor from a state to
    another. *)
Definition paces (w : awaiting) e e' (w' : awaiting) : Prop :=
  ∃ l, e_calls e' = e_calls e ++ l ∧ paced w l = Some w'.

Lemma paces_refl w e : paces w e e w.
Proof. exists []. by rewrite app_nil_r. Qed.

Lemma paces_trans w1 e1 w2 e2 w3 e3 : paces w1 e1 e2 w2 → paces w2 e2 e3 w3 → paces w1 e1 e3 w3.
Proof.
  intros (l1 & H1 & F1) (l2 & H2 & F2). exists (l1 ++ l2). rewrite H2, H1, app_assoc. split; [done|].
  by rewrite (paced_app _ _ _ _ F1).
Qed.

Lemma paces_called w e st c w' : pace w c = Some w' → paces w e (called e st c) w'.
Proof. intros Hc. exists [c]. split; [done|]. cbn. by rewrite Hc. Qed.

Lemma paces_resize e st pod : paces None e (called e st (CResize pod)) None.
Proof. by apply paces_called. Qed.

Lemma paces_same w e st : paces w e {| e_state := st; e_calls := e_calls e |} w.
Proof. exists []. by rewrite app_nil_r. Qed.

Definition awaited (evicted : bool) (pod : Pod) : awaiting :=
  if evicted then Some (pod_Name pod, pod_UID pod) else None.

Lemma submitEviction_paces e pod gate :
  paces None e (fst (submitEviction e pod gate)) (awaited (fst (snd (submitEviction e pod gate))) pod).
Proof.
  unfold submitEviction. destruct (_ && _); [apply paces_refl|]. destruct (halted gate); [apply paces_refl|].
  destruct (kc_evict (e_state e) pod) as [st [err|]].
  - rewrite bool_decide_false by done.
    destruct (IsNotFound err); [by apply paces_called|]. destruct (IsTooManyRequests err); by apply paces_called.
  - rewrite bool_decide_true by done. by apply paces_called.
Qed.

(** What a resize, or whatever is done to a pod, leaves awaited. *)
Definition resize_paces e (r : env * (Pod * resizeOutcome)) : Prop :=
  paces None e (fst r) (awaited (ro_evicted (snd (snd r))) (fst (snd r))).

Lemma instead_paces e e0 pod r :
  paces None e e0 None → paces None e0 (fst r) (awaited (fst (snd r)) pod) → resize_paces e (instead r pod).
Proof. intros H1 H2. destruct r as [e' [ev err]]. exact (paces_trans _ _ _ _ _ _ H1 H2). Qed.

Lemma resizeSidecars_paces e pod base r names : resize_paces e (resizeSidecars e pod base r names).
Proof.
  unfold resizeSidecars. destruct (rz_sidecars r); [apply paces_refl|]. unfold applySidecarResize.
  destruct (kc_resize _ _ _) as [st [stored|err]]; by apply paces_called.
Qed.

Lemma resize_with_paces e pod recs strat :
  (∀ e v, paces None e (fst (onUnsatisfiable strat e pod v)) (awaited (fst (snd (onUnsatisfiable strat e pod v))) pod)) →
  (∀ e, paces None e (fst (onUnapplied strat e pod)) (awaited (fst (snd (onUnapplied strat e pod))) pod)) →
  resize_paces e (resizePodInPlaceWith e pod recs strat).
Proof.
  intros Hs Hu. unfold resizePodInPlaceWith. destruct (rz_regular (resized pod recs)) as [|n ns] eqn:Er.
  - destruct (rz_sidecars (resized pod recs)) eqn:Es; [|apply resizeSidecars_paces].
    destruct (_ || _); [|apply paces_refl]. eapply instead_paces; [apply paces_refl|apply Hs].
  - unfold submitInPlaceResize. destruct (kc_resize _ _ _) as [st [stored|err]].
    + eapply paces_trans; [apply paces_resize|apply resizeSidecars_paces].
    + destruct (IsInvalid err); [|destruct (IsNotFound err); by apply paces_called].
      rewrite with_specs_back. eapply instead_paces; [apply paces_resize|apply Hu].
Qed.

Lemma recyclePod_paces p e plan gate pod : resize_paces e (recyclePod p e plan gate pod).
Proof.
  unfold recyclePod. destruct (p_inPlace p && _); cbn [andb].
  - destruct (bool_decide _); apply resize_with_paces; intros; try apply paces_refl; cbn [onUnsatisfiable onUnapplied orEvict].
    + destruct (negb _); [apply paces_refl|apply submitEviction_paces].
    + apply submitEviction_paces.
  - destruct (stale plan); [|apply paces_refl]. eapply instead_paces; [apply paces_refl|apply submitEviction_paces].
Qed.

(** A wait lists until the pod is gone; it then leaves none awaited. *)
Lemma waitLoop_paces fuel p e ns sel name uid deadline :
  let r := waitLoop fuel p e ns sel name uid deadline in
  match snd r with
  | Quiescent => paces (Some (name, uid)) e (fst r) None
  | _ => ∃ w, paces (Some (name, uid)) e (fst r) w
  end.
Proof.
  cbn zeta. revert e. induction fuel as [|fuel IH]; intros e; cbn [waitLoop]; [eexists; apply paces_refl|].
  destruct (kc_list _ _ _) as [st [pods|err]]; [|eexists; apply paces_same].
  set (w := if forallb (settled_pod name uid) pods then None else Some (name, uid)).
  assert (Hl : paces (Some (name, uid)) e (called e st (CList pods)) w) by by apply paces_called.
  destruct (pollPods name uid true 0 pods) as [[gone pending]|] eqn:Ep; [|by eexists].
  destruct (gone && (pending =? 0)) eqn:Eq.
  { bool_props. subst gone pending. apply pollPods_quiescent in Ep as (_ & _ & Ep); [|done]. unfold w in Hl.
    by rewrite Ep in Hl. }
  destruct (time_After _ _); [by eexists|]. destruct (kc_wait _ _) as [st2 [err|]]; cbn [fst snd].
  { eexists. eapply paces_trans; [exact Hl|apply paces_same]. }
  assert (Hw : w = Some (name, uid)).
  { unfold w. destruct (forallb _ _) eqn:Ef; [|done]. exfalso.
    assert (Hp : ∀ l, forallb (settled_pod name uid) l = true → pollPods name uid true 0 l = inl (true, 0)).
    { induction l as [|pod l IHl]; cbn [forallb pollPods]; [done|]. unfold settled_pod at 1. intros H. bool_props.
      repeat match goal with H : _ = false |- _ => rewrite H end. by apply IHl. }
    rewrite (Hp _ Ef) in Ep. injection Ep as <- <-. done. }
  rewrite Hw in Hl.
  specialize (IH {| e_state := st2; e_calls := e_calls (called e st (CList pods)) |}).
  destruct (waitLoop fuel p _ ns sel name uid deadline) as [e' [|err|]]; cbn [fst snd] in *.
  - eapply paces_trans; [exact Hl|]. eapply paces_trans; [apply (paces_same _ _ st2)|exact IH].
  - destruct IH as [w' IH]. exists w'. eapply paces_trans; [exact Hl|]. eapply paces_trans; [apply (paces_same _ _ st2)|exact IH].
  - destruct IH as [w' IH]. exists w'. eapply paces_trans; [exact Hl|]. eapply paces_trans; [apply (paces_same _ _ st2)|exact IH].
Qed.

Lemma recycleLoop_paces p set sel s recs gate ps pods :
  ∃ w, paces None (ps_env ps) (ps_env (fst (recycleLoop p set sel s recs gate ps pods))) w.
Proof.
  revert ps. induction pods as [|pod pods IH]; intros ps; cbn [recycleLoop]; [eexists; apply paces_refl|].
  destruct (kc_done _); [eexists; apply paces_refl|].
  destruct (_ || _); [apply (IH (skipped ps pod))|].
  destruct (plan_pod s recs (ps_changes ps) pod) as [plan c].
  pose proof (recyclePod_paces p (ps_env ps) plan gate pod) as Hm. unfold resize_paces in Hm.
  destruct (recyclePod p (ps_env ps) plan gate pod) as [e [pod' out]]. cbn [fst snd] in Hm.
  destruct (match ro_err out with Some err => _ | None => _ end); [by eexists|].
  destruct (ro_evicted out); cbn [negb awaited] in *.
  - pose proof (waitLoop_paces (poll_fuel p) p e (set_namespace set) sel (pod_Name pod') (pod_UID pod')
      (time_Add (kc_now (e_state e)) (readyTimeout p))) as Hw.
    fold (waitForReplacement p e (set_namespace set) sel (pod_Name pod') (pod_UID pod')) in Hw. cbn zeta in Hw.
    destruct (waitForReplacement p e _ _ _ _) as [e2 [|err|]]; cbn [fst snd] in Hw |- *.
    + match goal with |- ∃ w, paces _ _ (ps_env (fst (recycleLoop _ _ _ _ _ _ ?ps' _))) _ =>
        destruct (IH ps') as [w Hn] end.
      exists w. eapply paces_trans; [exact Hm|]. eapply paces_trans; [exact Hw|exact Hn].
    + destruct Hw as [w Hw]. exists w. by eapply paces_trans.
    + destruct Hw as [w Hw]. exists w. by eapply paces_trans.
  - match goal with |- ∃ w, paces _ _ (ps_env (fst (recycleLoop _ _ _ _ _ _ ?ps' _))) _ =>
      destruct (IH ps') as [w Hn] end.
    exists w. by eapply paces_trans.
Qed.

(** C4: one disruption at a time: after an eviction the server took, a pass resizes
    and evicts nothing more until a list of the workload's pods shows the
    evicted pod gone, none crash-looping and none still coming up. *)
Theorem recycle_paced p e set recs s e' r :
  recycle p e set recs s = Some (e', r) →
  ∃ l, e_calls e' = e_calls e ++ l ∧ is_Some (paced None l).
Proof.
  unfold recycle. destruct (set_selector set) as [sel|]; [|done]. intros [= <- _].
  edestruct (recycleLoop_paces p set sel s recs) as (w & l & Hl & Hp).
  exists l. split; [exact Hl|]. by exists w.
Qed.
End Pacing.

(** ** At a concrete input *)
Section Sample.
#[local] Existing Instance nano_quantity.
#[local] Existing Instance nano_quantity_laws.
#[local] Existing Instance simple_kube.
#[local] Existing Instance simple_kube_laws.

(** A server that takes every call and a clock that each wait moves. *)
#[local] Instance sample_server : PodClient :=
  {| kc_state := Z; kc_resize st _ pod := (st, Ok pod); kc_evict st _ := (st, None); kc_list st _ _ := (st, Ok []);
     kc_done _ := None; kc_wait st d := (st + d, None); kc_now st := st |}.

#[local] Instance sample_server_laws : PodClientLaws.
Proof. split; intros; cbn; lia. Qed.

Lemma waitForReplacement_ends_witness :
  snd (waitForReplacement (NewPatcher false []) {| e_state := 0; e_calls := [] |} "prod" ∅ "web-0" "u") ≠ OutOfPolls.
Proof. apply waitForReplacement_ends; vm_compute; (reflexivity || discriminate). Defined.

Definition sample_settings : ApplySettings :=
  {| as_RecommendOnly := ""; DryRun := false; as_Tolerance := sample_tolerance; IgnoreSafeToEvict := false |}.

Definition sample_set : podSet :=
  {| set_pods := [sample_pod]; set_namespace := "prod"; set_selector := Some (∅ : strmap) |}.

Definition sample_recycle : env * (ApplyResult * option error) :=
  default ({| e_state := 0; e_calls := [] |}, (noResult, None))
    (recycle (NewPatcher false []) {| e_state := 0; e_calls := [] |} sample_set sample_recs sample_settings).

Lemma sample_recycles :
  recycle (NewPatcher false []) {| e_state := 0; e_calls := [] |} sample_set sample_recs sample_settings =
  Some (fst sample_recycle, snd sample_recycle).
Proof. by_running. Qed.

(** Without in-place resizes the pod that outgrew its request is evicted. *)
Lemma recycle_evicts_allowed_witness :
  e_calls (fst sample_recycle) = [CEvict sample_pod true; CList []] ∧
  allowed (NewPatcher false []) [sample_pod] sample_recs sample_settings (CEvict sample_pod true).
Proof.
  assert (Hc : e_calls (fst sample_recycle) = [CEvict sample_pod true; CList []]) by by_running.
  split; [exact Hc|].
  destruct (recycle_evicts_allowed _ _ _ _ _ _ _ sample_recycles) as (l & Hl & Hall). apply Hall.
  rewrite Hc in Hl. cbn [e_calls app] in Hl. rewrite <-Hl. by left.
Defined.

Lemma recycle_paced_witness : ∃ l, e_calls (fst sample_recycle) = l ∧ is_Some (paced None l).
Proof.
  destruct (recycle_paced _ _ _ _ _ _ _ sample_recycles) as (l & Hl & Hp). exists l. split; [exact Hl|exact Hp].
Defined.
End Sample.
