(* ===== verification/Apply.v ===== *)
(** * Applying a Recommendation to a member ([internal/workload/apply.go])

    The Policy's choices for a member, the pods of each kind's members, and
    [Apply], which resizes or evicts them through the passes of [Patcher]. The
    typed objects of the Kubernetes client are the constructors of [Object]:
    a type assertion is a match. *)

From S2P Require Import Prelude GoLang Quantity Kube PolicyApi WlrApi Owners Resources Inject Match Patcher.
Local Open Scope Z_scope.

Section Apply.
Context {QO : QuantityOps} {KO : KubeOps} {PC : PodClient}.

(** A member's object: a workload of the type named, with its selector, a
    CronJob, a Job, or another. *)
Inductive Object :=
  | WorkloadObj (type namespace name uid : string) (selector : option LabelSelector)
  | CronJobObj (cj : CronJob)
  | JobObj (job : Job)
  | OtherObj.

Record Member := {
  mb_Kind : string;
  mb_Object : Object;
  mb_Pods : list Pod;
  mb_Containers : list Container;
  mb_InitContainers : list Container;
}.

Definition RecommendOnlyFlag : string := "flag".
Definition RecommendOnlyPolicy : string := "policy".

Definition ApplySettingsFor (policy : Policy) (kind : string) (recommendOnly : bool) : ApplySettings :=
  let rs := pol_RightSizing policy in
  {| as_RecommendOnly :=
       if recommendOnly then RecommendOnlyFlag else if RecommendOnly rs then RecommendOnlyPolicy else "";
     DryRun := match ModeForKind (Types (rs_Update rs)) kind with Some UpdateModeOngoing => false | _ => true end;
     as_Tolerance := toleranceOf (rs_ResourcesConfigs rs);
     IgnoreSafeToEvict := IgnoreAutoscalerSafeToEvictAnnotations (Eviction (rs_Update rs)) |}.

(** ** The pods of a member *)

Definition refusal (why : string) : error := Errorf why [ErrRefused].

(** The pods of the list the workload owns, the memo of ReplicaSets threaded. *)
Fixpoint ownedPods (c : ClusterReads) (uid : string) (rsOwned : gmap string bool) (pods : list Pod) :
    result (list Pod) :=
  match pods with
  | [] => Ok []
  | pod :: pods' =>
      match PodOwnedByWorkload c pod uid rsOwned with
      | (Err e, _) => Err (Errorf ("resolving owner of pod " +:+ pod_Name pod) [e])
      | (Ok owned, rsOwned) =>
          match ownedPods c uid rsOwned pods' with
          | Err e => Err e
          | Ok kept => Ok (if owned then pod :: kept else kept)
          end
      end
  end.

Definition selectedPods (type : string) (c : ClusterReads) (e : env) (m : Member) : env * result podSet :=
  match mb_Object m with
  | WorkloadObj t namespace name uid selector =>
      if negb (String.eqb t type) then (e, Err (refusal "member is of another type"))
      else if String.eqb uid "" then (e, Err (refusal "member has no UID"))
      else
        match selector with
        | None => (e, Err (refusal "member has no selector"))
        | Some ls =>
            match LabelSelectorAsSelector ls with
            | Err err => (e, Err (Errorf "parsing selector" [ErrRefused; err]))
            | Ok sel =>
                let '(st, answer) := kc_list (e_state e) namespace sel in
                match answer with
                | Err err => ({| e_state := st; e_calls := e_calls e |}, Err (Errorf "listing pods" [err]))
                | Ok items =>
                    (called e st (CList items),
                     match ownedPods c uid ∅ items with
                     | Err err => Err err
                     | Ok pods => Ok {| set_pods := pods; set_namespace := namespace; set_selector := Some sel |}
                     end)
                end
            end
        end
  | _ => (e, Err (refusal "member is of another type"))
  end.

Definition inPlaceSet (pods : list Pod) : podSet :=
  {| set_pods := pods; set_namespace := ""; set_selector := None |}.

(** The pods of several Jobs, one Job after another. *)
Fixpoint podsOfJobs (c : ClusterReads) (jobs : list Job) : result (list Pod) :=
  match jobs with
  | [] => Ok []
  | job :: jobs' =>
      match podsOfJob c job with
      | Err e => Err (Errorf ("listing pods for job " +:+ job_Name job) [e])
      | Ok pods => match podsOfJobs c jobs' with Err e => Err e | Ok rest => Ok (pods ++ rest) end
      end
  end.

Definition cronJobPods (c : ClusterReads) (e : env) (m : Member) : env * result podSet :=
  (e, match mb_Object m with
      | CronJobObj cj =>
          if String.eqb (cj_UID cj) "" then Err (refusal "member has no UID")
          else
            match activeJobsOf c cj with
            | Err err => Err (Errorf "listing jobs for cronjob" [err])
            | Ok jobs => match podsOfJobs c jobs with Err err => Err err | Ok pods => Ok (inPlaceSet pods) end
            end
      | _ => Err (refusal "member is of another type")
      end).

Definition jobPods (c : ClusterReads) (e : env) (m : Member) : env * result podSet :=
  (e, match mb_Object m with
      | JobObj job =>
          if String.eqb (job_UID job) "" then Err (refusal "member has no UID")
          else
            match podsOfJob c job with
            | Err err => Err (Errorf ("listing pods for job " +:+ job_Name job) [err])
            | Ok pods => Ok (inPlaceSet pods)
            end
      | _ => Err (refusal "member is of another type")
      end).

Fixpoint ownBarePods (pods : list Pod) : result (list Pod) :=
  match pods with
  | [] => Ok []
  | pod :: pods' =>
      if String.eqb (pod_UID pod) "" then Err (refusal "bare pod has no UID")
      else
        match ownBarePods pods' with
        | Err e => Err e
        | Ok kept => Ok (match GetControllerOf (pod_OwnerReferences pod) with Some _ => kept | None => pod :: kept end)
        end
  end.

Definition barePods (_ : ClusterReads) (e : env) (m : Member) : env * result podSet :=
  (e, match ownBarePods (mb_Pods m) with Err err => Err err | Ok pods => Ok (inPlaceSet pods) end).

(** ** The rules of the kinds *)

Record applyRule := {
  inPlaceOnly : bool;
  podsOf : ClusterReads → env → Member → env * result podSet;
}.

Definition evictingRule (type : string) : applyRule := {| inPlaceOnly := false; podsOf := selectedPods type |}.

Definition applyRules (kind : string) : option applyRule :=
  if String.eqb kind "Deployment" then Some (evictingRule "Deployment")
  else if String.eqb kind "StatefulSet" then Some (evictingRule "StatefulSet")
  else if String.eqb kind "DaemonSet" then Some (evictingRule "DaemonSet")
  else if String.eqb kind "Rollout" then Some (evictingRule "Rollout")
  else if String.eqb kind "CronJob" then Some {| inPlaceOnly := true; podsOf := cronJobPods |}
  else if String.eqb kind "Job" then Some {| inPlaceOnly := true; podsOf := jobPods |}
  else if String.eqb kind "Pod" then Some {| inPlaceOnly := true; podsOf := barePods |}
  else None.

Definition InPlaceOnly (kind : string) : bool :=
  match applyRules kind with Some r => inPlaceOnly r | None => false end.

(** ** Apply *)

Definition idle : ApplyResult :=
  {| res_Kind := ResultIdle; res_Step := StepNone; res_Err := None; res_Pods := {| Total := 0; Stale := 0 |};
     Counted := false; Resized := []; Evicted := []; res_Containers := []; Suppressed := ∅ |}.

Definition failed (step : ApplyStep) (err : error) : ApplyResult :=
  {| res_Kind := ResultFailed; res_Step := step; res_Err := Some err; res_Pods := {| Total := 0; Stale := 0 |};
     Counted := false; Resized := []; Evicted := []; res_Containers := []; Suppressed := ∅ |}.

Definition countedOnly (counts : option PodCounts) : ApplyResult :=
  {| res_Kind := ResultCountedOnly; res_Step := StepNone; res_Err := None;
     res_Pods := default {| Total := 0; Stale := 0 |} counts;
     Counted := bool_decide (is_Some counts); Resized := []; Evicted := []; res_Containers := [];
     Suppressed := ∅ |}.

(** The result of a pass, done or failed at the step. *)
Definition finished (step : ApplyStep) (r : ApplyResult * option error) : ApplyResult :=
  let '(res, err) := r in
  match err with
  | None =>
      {| res_Kind := ResultDone; res_Step := res_Step res; res_Err := res_Err res; res_Pods := res_Pods res;
         Counted := Counted res; Resized := Resized res; Evicted := Evicted res;
         res_Containers := res_Containers res; Suppressed := Suppressed res |}
  | Some err =>
      {| res_Kind := ResultFailed; res_Step := step; res_Err := Some err; res_Pods := res_Pods res;
         Counted := Counted res; Resized := Resized res; Evicted := Evicted res;
         res_Containers := res_Containers res; Suppressed := Suppressed res |}
  end.

(** [None] is a nil selector dereferenced, shown never to happen. *)
Definition Apply (p : patcher) (c : ClusterReads) (e : env) (m : Member)
    (recs : gmap string ContainerRecommendation) (s : ApplySettings) : option (env * ApplyResult) :=
  let recs := inj_Recs (Inject (mb_Containers m) (mb_InitContainers m) false recs) in
  if bool_decide (recs = ∅) then Some (e, idle)
  else if negb (String.eqb (as_RecommendOnly s) "") then Some (e, idle)
  else
    match applyRules (mb_Kind m) with
    | None => Some (e, failed StepPatch (refusal "no apply rule for kind"))
    | Some rule =>
        let step := if inPlaceOnly rule then StepResize else StepPatch in
        match podsOf rule c e m with
        | (e, Err err) => Some (e, if DryRun s then countedOnly None else failed step err)
        | (e, Ok set) =>
            if DryRun s
            then Some (e, countedOnly (Some (countPods (set_pods set) recs (as_Tolerance s) ∅)))
            else if inPlaceOnly rule
            then let '(e, r) := resizeInPlaceOnly p e (set_pods set) recs s in Some (e, finished step r)
            else
              match recycle p e set recs s with
              | None => None
              | Some (e, r) => Some (e, finished step r)
              end
        end
    end.
End Apply.

(** ** Facts *)
Section Facts.
Context {QO : QuantityOps} {KO : KubeOps} {PC : PodClient}.
Implicit Types (e : env).

Definition is_list (c : call) : Prop := match c with CList _ => True | _ => False end.
Definition no_eviction (c : call) : Prop := match c with CEvict _ _ => False | _ => True end.

Lemma made_weaken (Q Q' : call → Prop) e e' : (∀ c, Q c → Q' c) → made Q e e' → made Q' e e'.
Proof. intros HQ (l & Hl & Hall). exists l. split; [done|]. by eapply Forall_impl. Qed.

Lemma selectedPods_made type c e m : made is_list e (fst (selectedPods type c e m)).
Proof.
  unfold selectedPods. destruct (mb_Object m) as [t ns name uid sel|cj|job|]; try apply made_refl.
  destruct (negb _); [apply made_refl|]. destruct (String.eqb uid ""); [apply made_refl|].
  destruct sel as [ls|]; [|apply made_refl]. destruct (LabelSelectorAsSelector ls) as [sel|err]; [|apply made_refl].
  destruct (kc_list _ _ _) as [st [items|err]]; [by apply made_called|apply made_same].
Qed.

(** The selector of the pods a rule answers is set exactly for the kinds it
    evicts pods of. *)
Lemma rule_pods kind rule c e m :
  applyRules kind = Some rule →
  made is_list e (fst (podsOf rule c e m)) ∧
  ∀ set, snd (podsOf rule c e m) = Ok set → is_Some (set_selector set) ∨ inPlaceOnly rule = true.
Proof.
  assert (Hsel : ∀ type, made is_list e (fst (selectedPods type c e m)) ∧
    ∀ set, snd (selectedPods type c e m) = Ok set → is_Some (set_selector set) ∨ false = true).
  { intros type. split; [apply selectedPods_made|]. unfold selectedPods. intros set H. left.
    split_cases; eauto. }
  unfold applyRules. intros H. split_cases; try apply Hsel; (split; [apply made_refl|by right]).
Qed.

(** Apply always answers. *)
Lemma Apply_answers p c e m recs s : is_Some (Apply p c e m recs s).
Proof.
  unfold Apply. destruct (bool_decide _); [eauto|]. destruct (negb _); [eauto|].
  destruct (applyRules (mb_Kind m)) as [rule|] eqn:Er; [|eauto].
  destruct (rule_pods _ _ c e m Er) as [_ Hsel].
  destruct (podsOf rule c e m) as [e1 [set|err]]; [|eauto]. destruct (DryRun s); [eauto|].
  destruct (inPlaceOnly rule) eqn:Ei.
  - destruct (resizeInPlaceOnly _ _ _ _ _). eauto.
  - unfold recycle. destruct (Hsel set eq_refl) as [[sel ->]|?]; [eauto|done].
Qed.

Lemma recycle_made (Q : call → Prop) p e set recs s e' r :
  (∀ c, Q c) → recycle p e set recs s = Some (e', r) → made Q e e'.
Proof.
  intros HQ. unfold recycle. destruct (set_selector set) as [sel|]; [|done]. intros [= <- _].
  edestruct (recycleLoop_paces p set sel s recs) as (w & l & Hl & _). exists l. split; [exact Hl|].
  apply Forall_forall. auto.
Qed.

(** The calls of Apply are those its settings and its kind leave it. *)
Lemma Apply_made (Q : call → Prop) p c e m recs s e' r :
  (as_RecommendOnly s = "" → ∀ pods, Q (CList pods)) →
  (as_RecommendOnly s = "" → DryRun s = false → ∀ pod, Q (CResize pod)) →
  (as_RecommendOnly s = "" → DryRun s = false → InPlaceOnly (mb_Kind m) = false → ∀ pod b, Q (CEvict pod b)) →
  Apply p c e m recs s = Some (e', r) → made Q e e'.
Proof.
  unfold Apply, InPlaceOnly. intros HL HR HE. destruct (bool_decide _); [intros [= <- _]; apply made_refl|].
  destruct (String.eqb_spec (as_RecommendOnly s) "") as [Hro|Hro]; cbn [negb]; [|intros [= <- _]; apply made_refl].
  specialize (HL Hro). specialize (HR Hro). specialize (HE Hro).
  destruct (applyRules (mb_Kind m)) as [rule|] eqn:Er; [|intros [= <- _]; apply made_refl].
  destruct (rule_pods _ _ c e m Er) as [Hlist _].
  assert (Hl : made Q e (fst (podsOf rule c e m))).
  { eapply made_weaken; [|exact Hlist]. intros [|pod b|pods]; done || intros; apply HL. }
  destruct (podsOf rule c e m) as [e1 [set|err]]; cbn [fst] in Hl; [|by intros [= <- _]].
  destruct (DryRun s); [by intros [= <- _]|]. specialize (HR eq_refl). specialize (HE eq_refl).
  destruct (inPlaceOnly rule).
  - pose proof (resizeInPlaceOnly_made Q HR p e1 (set_pods set)
      (inj_Recs (Inject (mb_Containers m) (mb_InitContainers m) false recs)) s) as Hp.
    destruct (resizeInPlaceOnly _ _ _ _ _) as [e2 r2]. intros [= <- _]. by eapply made_trans.
  - specialize (HE eq_refl). destruct (recycle _ _ _ _ _) as [[e2 r2]|] eqn:Erec; [|done]. intros [= <- _].
    eapply made_trans; [exact Hl|]. eapply recycle_made; [|exact Erec]. by intros [].
Qed.

(** C5: Apply answers, and never touches what it may not: a pod of a CronJob, of a
    Job or of no controller is never evicted; recommend-only makes no call at
    all; and a dry run, which every mode but Ongoing is, only lists. *)
Theorem Apply_spares p c e m recs s :
  ∃ e' r l, Apply p c e m recs s = Some (e', r) ∧ e_calls e' = e_calls e ++ l ∧
    ∀ x, x ∈ l → (InPlaceOnly (mb_Kind m) = true → no_eviction x) ∧ as_RecommendOnly s = "" ∧
                 (DryRun s = true → is_list x).
Proof.
  destruct (Apply_answers p c e m recs s) as [[e' r] Happ].
  edestruct (Apply_made (λ x, (InPlaceOnly (mb_Kind m) = true → no_eviction x) ∧ as_RecommendOnly s = "" ∧
    (DryRun s = true → is_list x))) as (l & Hl & Hall); [..|exact Happ|].
  1-3: intros; repeat split; congruence || done.
  exists e', r, l. rewrite Forall_forall in Hall. auto.
Qed.

(** The settings of a Policy's mode. *)
Lemma ApplySettingsFor_mode policy kind flag :
  (DryRun (ApplySettingsFor policy kind flag) = false ↔
     ModeForKind (Types (rs_Update (pol_RightSizing policy))) kind = Some UpdateModeOngoing) ∧
  (as_RecommendOnly (ApplySettingsFor policy kind flag) = "" ↔ EffectiveRecommendOnly policy flag = false).
Proof.
  unfold ApplySettingsFor, EffectiveRecommendOnly. cbn. split; [by destruct (ModeForKind _ _) as [[]|]|].
  destruct flag; [done|]. cbn. by destruct (RecommendOnly _).
Qed.
End Facts.
