(* ===== verification/Ledger.v ===== *)
(** * The memory of applying each member ([internal/ledger])

    The controller's ledger across passes and Policies: which member may run,
    when its retry is due, whether it is Blocked, the health of an identity over
    its members. Every operation holds the ledger's lock, so each is one function
    of the state. The clock's readings are arguments. Of an event's message what
    it is formatted from is kept, not the text. *)

From stdpp Require Import sets.
From S2P Require Import Prelude GoLang GoText Rfc3339 Shards Quantity Kube PolicyApi WlrApi Patcher.
Local Open Scope Z_scope.

Definition BaseRetryDelay : duration := 30 * second.
Definition MaxRetryDelay : duration := 5 * minute.

Definition stepFailures (step : ApplyStep) : string :=
  match step with
  | StepPrometheus => "Prometheus query failed"
  | StepPatch => "Pod recycle failed"
  | StepResize => "In-place pod resize failed"
  | StepStore => "Recommendation could not be stored for the webhook"
  | StepNone => ""
  end.

#[export] Instance ApplyStep_eq_dec : EqDecision ApplyStep.
Proof. solve_decision. Defined.

Record MemberKey := Key { mk_Kind : string; mk_Namespace : string; mk_Name : string }.

#[export] Instance MemberKey_eq_dec : EqDecision MemberKey.
Proof. solve_decision. Defined.

#[export] Instance MemberKey_countable : Countable MemberKey.
Proof.
  apply (inj_countable' (λ k, (mk_Kind k, mk_Namespace k, mk_Name k)) (λ '(a, b, c), Key a b c)). by intros [].
Defined.

Definition MemberKey_String (k : MemberKey) : string :=
  mk_Kind k +:+ "/" +:+ mk_Namespace k +:+ "/" +:+ mk_Name k.

Inductive ResultKind := Done | Idle | Uncounted | Skipped | Failed.

#[export] Instance ResultKind_eq_dec : EqDecision ResultKind.
Proof. solve_decision. Defined.

Record Result := {
  r_Member : MemberKey;
  r_Kind : ResultKind;
  r_Pods : PodCounts;
  r_Step : ApplyStep;
  r_Err : option error;
}.

(** [ev_retry]: the attempt, and the time of the next as the message writes it,
    to the second, for a transient failure. *)
Record Event := {
  Reason : string;
  ev_what : string;
  ev_err : option error;
  ev_retry : option (Z * string);
}.

Record Health := {
  h_Pods : PodCounts;
  Measured : bool;
  BlockedOn : ApplyStep;
  Attempts : Z;
}.

Definition Blocked (h : Health) : bool := negb (bool_decide (BlockedOn h = StepNone)).
Definition hasFailed (h : Health) : bool := 0 <? Attempts h.

Record Verdict := { v_Identities : gmap WorkloadIdentity Health; v_Events : gmap MemberKey Event }.

Definition blockedIdentities (v : Verdict) : Z :=
  Z.of_nat (length (List.filter (λ p, Blocked p.2) (map_to_list (v_Identities v)))).

Record failure := {
  f_step : ApplyStep;
  permanent : bool;
  attempts : Z;
  due : time;
}.

Record memberEntry := { pods : PodCounts; measured : bool; me_failure : option failure }.

Abbreviation identityClaims := (gmap WorkloadIdentity (list MemberKey)).

Record Ledger := { members : gmap MemberKey memberEntry; claims : gmap string identityClaims }.

(** [New] *)
Definition newLedger : Ledger := {| members := ∅; claims := ∅ |}.

Definition with_members (l : Ledger) (m : gmap MemberKey memberEntry) : Ledger :=
  {| members := m; claims := claims l |}.

Definition MayRun (now : time) (l : Ledger) (member : MemberKey) : bool :=
  match members l !! member with
  | None => true
  | Some e =>
      match me_failure e with
      | None => true
      | Some f => permanent f || negb (time_Before now (due f))
      end
  end.

(** ** Errors *)

Fixpoint rejected (e : error) : bool :=
  match e with
  | APIStatus code _ =>
      (400 <=? code) && (code <? 500) && negb (code =? 404) && negb (code =? 409) && negb (code =? 429)
  | Errorf _ es | GoLang.Join es => existsb rejected es
  | _ => false
  end.

Definition permanentError (err : option error) : bool :=
  match err with
  | None => false
  | Some e => errors_Is e "ErrRefused" || rejected e
  end.

(** ** Recording a result *)

(** [&memberEntry{}] *)
Definition newEntry : memberEntry :=
  {| pods := {| Total := 0; Stale := 0 |}; measured := false; me_failure := None |}.

Definition entryLocked (l : Ledger) (key : MemberKey) : memberEntry := default newEntry (members l !! key).

Definition maxShift : Z := 16.

(** The attempts are counted without a bound: 2^63 passes never happen. *)

Definition retryDelay (n : Z) : duration :=
  Z.min (wrap64 (Z.shiftl BaseRetryDelay (Z.min (n - 1) maxShift))) MaxRetryDelay.

Definition failLocked (now : time) (l : Ledger) (res : Result) : Ledger * option Event :=
  let e := entryLocked l (r_Member res) in
  let prev := me_failure e in
  let set (f : failure) :=
    with_members l
      (<[r_Member res := {| pods := pods e; measured := measured e; me_failure := Some f |}]> (members l)) in
  let what := stepFailures (r_Step res) in
  if permanentError (r_Err res) then
    (set {| f_step := r_Step res; permanent := true; attempts := 0; due := time_zero |},
     match prev with
     | Some p =>
         if permanent p then None
         else Some {| Reason := "ReconciliationFailed"; ev_what := what; ev_err := r_Err res; ev_retry := None |}
     | None => Some {| Reason := "ReconciliationFailed"; ev_what := what; ev_err := r_Err res; ev_retry := None |}
     end)
  else
    let n := match prev with Some p => 1 + attempts p | None => 1 end in
    let at_ := time_Add now (retryDelay n) in
    (set {| f_step := r_Step res; permanent := false; attempts := n; due := at_ |},
     Some {| Reason := "ReconciliationRetryScheduled"; ev_what := what; ev_err := r_Err res;
             ev_retry := Some (n, FormatRFC3339 at_) |}).

Definition recordLocked (now : time) (l : Ledger) (res : Result) : Ledger * option Event * bool :=
  match r_Kind res with
  | Skipped => (l, None, false)
  | Failed => (failLocked now l res, true)
  | kind =>
      let e := entryLocked l (r_Member res) in
      let e :=
        {| pods := match kind with Done => r_Pods res | _ => pods e end;
           measured := match kind with Done => true | Idle => false | _ => measured e end;
           me_failure := None |} in
      let set := <[r_Member res := e]> (members l) in
      (with_members l (if measured e then set else delete (r_Member res) set), None, false)
  end.

(** ** Claims *)

Definition memberKeys (ids : identityClaims) : list MemberKey := concat (map snd (map_to_list ids)).

(** Every member a Policy claims. *)
Definition claimedSet (claims : gmap string identityClaims) : gset MemberKey :=
  list_to_set (concat (map (λ p, memberKeys p.2) (map_to_list claims))).

Definition claimLocked (l : Ledger) (policy : string) (new : option identityClaims) : Ledger :=
  let prev := default ∅ (claims l !! policy) in
  let claims' := match new with None => delete policy (claims l) | Some c => <[policy := c]> (claims l) end in
  let claimed := claimedSet claims' in
  {| members := foldl (λ ms m, if bool_decide (m ∈ claimed) then ms else delete m ms) (members l) (memberKeys prev);
     claims := claims' |}.

(** The members of an identity over Policies ranged over in the order given. *)
Definition addClaimed (out : list MemberKey) (m : MemberKey) : list MemberKey :=
  if contains m out then out else out ++ [m].

Definition compareKey (a b : MemberKey) : comparison :=
  cmp_or (String.compare (mk_Kind a) (mk_Kind b))
    (cmp_or (String.compare (mk_Namespace a) (mk_Namespace b)) (String.compare (mk_Name a) (mk_Name b))).

Definition claimedOver (order : list identityClaims) (id : WorkloadIdentity) : list MemberKey :=
  sort_by compareKey
    (foldl (λ out ids, foldl addClaimed out (default [] (ids !! id))) [] order).

Definition claimedLocked (l : Ledger) (id : WorkloadIdentity) : list MemberKey :=
  claimedOver (map snd (map_to_list (claims l))) id.

Definition addHealth (l : Ledger) (h : Health) (m : MemberKey) : Health :=
  match members l !! m with
  | None => h
  | Some e =>
      let h :=
        if measured e
        then {| h_Pods := {| Total := Total (h_Pods h) + Total (pods e); Stale := Stale (h_Pods h) + Stale (pods e) |};
                Measured := true; BlockedOn := BlockedOn h; Attempts := Attempts h |}
        else h in
      match me_failure e with
      | Some f =>
          if bool_decide (BlockedOn h = StepNone)
          then {| h_Pods := h_Pods h; Measured := Measured h; BlockedOn := f_step f; Attempts := Attempts h |}
          else h
      | None => h
      end
  end.

Definition noHealth : Health :=
  {| h_Pods := {| Total := 0; Stale := 0 |}; Measured := false; BlockedOn := StepNone; Attempts := 0 |}.

Definition healthLocked (l : Ledger) (id : WorkloadIdentity) : Health :=
  foldl (addHealth l) noHealth (claimedLocked l id).

(** ** Settling a pass

    The pass's map is ranged over in the order given; [now i] is the clock's
    reading as the [i]th result is recorded. *)

Abbreviation pass := (list (WorkloadIdentity * list Result)).

Record settling := {
  s_ledger : Ledger;
  s_events : gmap MemberKey Event;
  s_attempts : gmap WorkloadIdentity Z;
  s_claims : identityClaims;
  s_reads : nat;
}.

Definition settleResult (now : nat → time) (id : WorkloadIdentity) (s : settling) (res : Result) : settling :=
  let '(l, ev, failed) := recordLocked (now (s_reads s)) (s_ledger s) res in
  {| s_ledger := l;
     s_events := match ev with Some ev => <[r_Member res := ev]> (s_events s) | None => s_events s end;
     s_attempts := if failed : bool then <[id := default 0 (s_attempts s !! id) + 1]> (s_attempts s) else s_attempts s;
     s_claims := s_claims s;
     s_reads := S (s_reads s) |}.

Definition with_claims (s : settling) (c : identityClaims) : settling :=
  {| s_ledger := s_ledger s; s_events := s_events s; s_attempts := s_attempts s; s_claims := c;
     s_reads := s_reads s |}.

Definition settleIdentity (now : nat → time) (s : settling) (p : WorkloadIdentity * list Result) : settling :=
  let s := foldl (settleResult now p.1) s p.2 in
  with_claims s (<[p.1 := map r_Member p.2]> (s_claims s)).

Definition startSettling (l : Ledger) : settling :=
  {| s_ledger := l; s_events := ∅; s_attempts := ∅; s_claims := ∅; s_reads := 0 |}.

Definition settledHealth (l : Ledger) (failed : gmap WorkloadIdentity Z) (id : WorkloadIdentity) : Health :=
  let h := healthLocked l id in
  {| h_Pods := h_Pods h; Measured := Measured h; BlockedOn := BlockedOn h; Attempts := default 0 (failed !! id) |}.

Definition Settle (now : nat → time) (l : Ledger) (policy : string) (results : pass) : Ledger * Verdict :=
  let s := foldl (settleIdentity now) (startSettling l) results in
  let l := claimLocked (s_ledger s) policy (Some (s_claims s)) in
  (l, {| v_Identities := foldl (λ m p, <[p.1 := settledHealth l (s_attempts s) p.1]> m) ∅ results;
         v_Events := s_events s |}).

Definition Forget (l : Ledger) (policy : string) : Ledger := claimLocked l policy None.

(** ** The next pass *)

Definition earlier (l : Ledger) (earliest : time) (m : MemberKey) : time :=
  match members l !! m with
  | Some e =>
      match me_failure e with
      | Some f =>
          if permanent f then earliest
          else if time_IsZero earliest || time_Before (due f) earliest then due f
          else earliest
      | None => earliest
      end
  | None => earliest
  end.

Definition requeueAfter (now : time) (l : Ledger) (policy : string) (interval floor : duration) : duration :=
  let earliest := foldl (earlier l) time_zero (memberKeys (default ∅ (claims l !! policy))) in
  if time_IsZero earliest then interval
  else Z.min interval (Z.max (time_Sub earliest now) floor).

Definition RequeueAfter (now : time) (l : Ledger) (policy : string) (interval : duration) : duration :=
  requeueAfter now l policy interval second.

Definition RequeueAfterListFailure (now : time) (l : Ledger) (policy : string) (interval : duration) : duration :=
  requeueAfter now l policy interval BaseRetryDelay.

(** ** Recording *)
Section Recording.
Implicit Types (l : Ledger) (now : time) (res : Result) (k : MemberKey).

Lemma recordLocked_claims now l res : claims (fst (fst (recordLocked now l res))) = claims l.
Proof. unfold recordLocked, failLocked. by destruct (r_Kind res); try destruct (permanentError _). Qed.

Lemma recordLocked_failed now l res : snd (recordLocked now l res) = bool_decide (r_Kind res = Failed).
Proof. unfold recordLocked. by destruct (r_Kind res). Qed.

(** A result changes its own member's entry, and reads no other. *)
Lemma recordLocked_frame now l res k :
  k ≠ r_Member res → members (fst (fst (recordLocked now l res))) !! k = members l !! k.
Proof.
  intros Hk. unfold recordLocked, failLocked.
  destruct (r_Kind res); try destruct (permanentError _); cbn; split_cases;
    by rewrite ?lookup_delete_ne, ?lookup_insert_ne by done.
Qed.

Lemma recordLocked_local now l l' res :
  members l !! r_Member res = members l' !! r_Member res →
  snd (fst (recordLocked now l res)) = snd (fst (recordLocked now l' res)) ∧
  members (fst (fst (recordLocked now l res))) !! r_Member res =
    members (fst (fst (recordLocked now l' res))) !! r_Member res.
Proof.
  intros Heq. unfold recordLocked, failLocked, entryLocked. rewrite Heq.
  destruct (r_Kind res); try destruct (permanentError _); cbn; split_cases;
    by rewrite ?lookup_delete_eq, ?lookup_insert_eq.
Qed.
End Recording.

(** ** Claims *)

Lemma elem_of_memberKeys (ids : identityClaims) m :
  m ∈ memberKeys ids ↔ ∃ id ms, ids !! id = Some ms ∧ m ∈ ms.
Proof.
  unfold memberKeys. rewrite elem_of_concat. setoid_rewrite list_elem_of_fmap. split.
  - intros (ms & Hm & [id ms'] & -> & Hin%elem_of_map_to_list). eauto.
  - intros (id & ms & Hid & Hm). exists ms. split; [done|]. exists (id, ms). by rewrite elem_of_map_to_list.
Qed.

Lemma elem_of_claimedSet (cl : gmap string identityClaims) m :
  m ∈ claimedSet cl ↔ ∃ p ids, cl !! p = Some ids ∧ m ∈ memberKeys ids.
Proof.
  unfold claimedSet. rewrite elem_of_list_to_set, elem_of_concat. setoid_rewrite list_elem_of_fmap. split.
  - intros (ms & Hm & [p ids] & -> & Hin%elem_of_map_to_list). eauto.
  - intros (p & ids & Hp & Hm). exists (memberKeys ids). split; [done|]. exists (p, ids). by rewrite elem_of_map_to_list.
Qed.

Lemma foldl_forget (claimed : gset MemberKey) ks (ms : gmap MemberKey memberEntry) k :
  foldl (λ ms m, if bool_decide (m ∈ claimed) then ms else delete m ms) ms ks !! k =
    if bool_decide (k ∈ claimed) then ms !! k else if bool_decide (k ∈ ks) then None else ms !! k.
Proof.
  revert ms. induction ks as [|k' ks IH]; intros ms; cbn [foldl].
  { rewrite (bool_decide_eq_false_2 (k ∈ [])) by apply not_elem_of_nil. by destruct (bool_decide _). }
  rewrite IH. destruct (decide (k = k')) as [->|Hne].
  - rewrite (bool_decide_eq_true_2 (k' ∈ k' :: ks)) by left.
    destruct (bool_decide (k' ∈ claimed)); [done|]. rewrite lookup_delete_eq. by destruct (bool_decide _).
  - rewrite (bool_decide_ext (k ∈ k' :: ks) (k ∈ ks)) by (rewrite elem_of_cons; tauto).
    destruct (bool_decide (k' ∈ claimed)); [done|]. by rewrite lookup_delete_ne by done.
Qed.

(** A member of the Policy's last claims no Policy claims any more is forgotten;
    every other keeps its entry. *)
Lemma claimLocked_members l policy new k :
  members (claimLocked l policy new) !! k =
    if bool_decide (k ∈ claimedSet (claims (claimLocked l policy new))) then members l !! k
    else if bool_decide (k ∈ memberKeys (default ∅ (claims l !! policy))) then None
    else members l !! k.
Proof. apply foldl_forget. Qed.

(** ** The fold over a pass *)
Section Settling.
Implicit Types (now : nat → time) (s : settling) (xs : list (WorkloadIdentity * Result)).

Definition steps (results : pass) : list (WorkloadIdentity * Result) :=
  concat (map (λ p, map (pair p.1) p.2) results).

Definition settleSteps now s xs : settling := foldl (λ s x, settleResult now x.1 s x.2) s xs.

Lemma settleSteps_app now s xs ys : settleSteps now s (xs ++ ys) = settleSteps now (settleSteps now s xs) ys.
Proof. apply foldl_app. Qed.

(** The claims are filled beside the results. *)
Lemma settleSteps_with_claims now s xs cl :
  settleSteps now (with_claims s cl) xs = with_claims (settleSteps now s xs) cl.
Proof.
  revert s. induction xs as [|x xs IH]; intros s; [done|]. unfold settleSteps in *. cbn [foldl]. rewrite <-IH.
  f_equal. unfold settleResult, with_claims. cbn. by destruct (recordLocked _ _ _) as [[l' ev] b].
Qed.

Lemma settleSteps_same_claims now s xs : s_claims (settleSteps now s xs) = s_claims s.
Proof.
  revert s. induction xs as [|x xs IH]; intros s; [done|]. unfold settleSteps in *. cbn [foldl]. rewrite IH.
  unfold settleResult. by destruct (recordLocked _ _ _) as [[l' ev] b].
Qed.

Lemma settleIdentity_steps now s p :
  settleIdentity now s p =
    with_claims (settleSteps now s (map (pair p.1) p.2)) (<[p.1 := map r_Member p.2]> (s_claims s)).
Proof.
  unfold settleIdentity.
  assert (E : ∀ rs, foldl (settleResult now p.1) s rs = settleSteps now s (map (pair p.1) rs)).
  { intros rs. revert s. induction rs as [|res rs IH]; intros s; [done|]. cbn [map foldl]. apply IH. }
  rewrite E. by rewrite settleSteps_same_claims.
Qed.

Lemma settled_steps now s results :
  foldl (settleIdentity now) s results =
    with_claims (settleSteps now s (steps results))
      (foldl (λ m p, <[p.1 := map r_Member p.2]> m) (s_claims s) results).
Proof.
  revert s. induction results as [|p results IH]; intros s; [by destruct s|].
  cbn [foldl]. rewrite IH, settleIdentity_steps, settleSteps_with_claims. cbn [steps map concat].
  by rewrite settleSteps_app.
Qed.

Definition key_of (x : WorkloadIdentity * Result) : MemberKey := r_Member x.2.

Definition failures_of (id : WorkloadIdentity) xs : Z :=
  sum_by (λ x, if bool_decide (x.1 = id ∧ r_Kind x.2 = Failed) then 1 else 0) xs.

Lemma settleSteps_claims now s xs : claims (s_ledger (settleSteps now s xs)) = claims (s_ledger s).
Proof.
  revert s. induction xs as [|x xs IH]; intros s; [done|]. unfold settleSteps in *. cbn [foldl]. rewrite IH.
  unfold settleResult. pose proof (recordLocked_claims (now (s_reads s)) (s_ledger s) x.2).
  by destruct (recordLocked _ _ _) as [[l' ev] b].
Qed.

(** A pass claims, for its Policy, the members of exactly its identities. *)
Lemma Settle_claims now l policy results :
  claims (fst (Settle now l policy results)) =
  <[policy := foldl (λ m p, <[p.1 := map r_Member p.2]> m) ∅ results]> (claims l).
Proof.
  unfold Settle. rewrite settled_steps. cbn [fst claimLocked claims with_claims s_ledger s_claims].
  by rewrite settleSteps_claims.
Qed.

Lemma dom_pass_claims {A} (f : WorkloadIdentity * list Result → A) (results : pass) (m : gmap WorkloadIdentity A) :
  dom (foldl (λ m p, <[p.1 := f p]> m) m results) = dom m ∪ list_to_set (map fst results).
Proof.
  revert m. induction results as [|p results IH]; intros m; cbn [foldl map list_to_set]; [set_solver|].
  rewrite IH, dom_insert_L. set_solver.
Qed.

Lemma settleSteps_attempts now s xs id :
  default 0 (s_attempts (settleSteps now s xs) !! id) = default 0 (s_attempts s !! id) + failures_of id xs.
Proof.
  revert s. induction xs as [|x xs IH]; intros s; [cbn; lia|]. unfold settleSteps in *. cbn [foldl]. rewrite IH.
  replace (failures_of id (x :: xs)) with
    ((if bool_decide (x.1 = id ∧ r_Kind x.2 = Failed) then 1 else 0) + failures_of id xs) by done.
  unfold settleResult.
  pose proof (recordLocked_failed (now (s_reads s)) (s_ledger s) x.2).
  destruct (recordLocked _ _ _) as [[l' ev] b]. cbn in *. subst b.
  case_bool_decide as Hf; case_bool_decide as Hi; try (exfalso; tauto); [|destruct (decide (x.1 = id)) as [<-|Hne]|].
  - destruct Hi as [<- _]. rewrite lookup_insert_eq. cbn. lia.
  - tauto.
  - rewrite lookup_insert_ne by done. lia.
  - lia.
Qed.

(** What a pass leaves where no result is recorded. *)
Lemma settleSteps_frame now s xs k :
  k ∉ map key_of xs →
  members (s_ledger (settleSteps now s xs)) !! k = members (s_ledger s) !! k ∧
  s_events (settleSteps now s xs) !! k = s_events s !! k.
Proof.
  revert s. induction xs as [|x xs IH]; intros s Hk; [done|]. cbn [map] in Hk.
  apply not_elem_of_cons in Hk as [Hx Hk]. unfold settleSteps in *. cbn [foldl].
  destruct (IH (settleResult now x.1 s x.2) Hk) as [-> ->]. unfold settleResult.
  pose proof (recordLocked_frame (now (s_reads s)) (s_ledger s) x.2 k Hx).
  destruct (recordLocked _ _ _) as [[l' ev] b]. cbn in *. split; [done|].
  destruct ev; [|done]. by rewrite lookup_insert_ne by (symmetry; exact Hx).
Qed.

(** Each result is recorded on the entry its member had before the pass. *)
Lemma settleSteps_lookup t s xs x :
  NoDup (map key_of xs) → x ∈ xs →
  let r := recordLocked t (s_ledger s) x.2 in
  let s' := settleSteps (λ _, t) s xs in
  members (s_ledger s') !! key_of x = members (fst (fst r)) !! key_of x ∧
  s_events s' !! key_of x = match snd (fst r) with Some ev => Some ev | None => s_events s !! key_of x end.
Proof.
  revert s. induction xs as [|y xs IH]; intros s; [by intros _ ?%not_elem_of_nil|]. cbn [map].
  intros [Hy Hnd]%NoDup_cons [->|Hx]%elem_of_cons; cbn zeta; unfold settleSteps in *; cbn [foldl].
  - destruct (settleSteps_frame (λ _, t) (settleResult (λ _, t) y.1 s y.2) xs (key_of y) Hy) as [E1 E2].
    unfold settleSteps in E1, E2. rewrite E1, E2. unfold settleResult.
    destruct (recordLocked _ _ _) as [[l' ev] b]. cbn. split; [done|].
    destruct ev; [by rewrite lookup_insert_eq|done].
  - assert (Hne : key_of x ≠ key_of y).
    { intros E. apply Hy. rewrite <-E. by apply list_elem_of_fmap_2. }
    destruct (IH (settleResult (λ _, t) y.1 s y.2) Hnd Hx) as [E1 E2]. rewrite E1, E2. clear E1 E2 IH.
    unfold settleResult. pose proof (recordLocked_frame t (s_ledger s) y.2 (key_of x) Hne) as Hf.
    destruct (recordLocked _ _ y.2) as [[l' ev] b]. cbn in Hf |- *.
    destruct (recordLocked_local t l' (s_ledger s) x.2 Hf) as [E1 E2]. split; [exact E2|].
    rewrite E1. destruct (snd (fst (recordLocked t (s_ledger s) x.2))); [done|]. destruct ev; [|done]. by rewrite lookup_insert_ne by (symmetry; exact Hne).
Qed.
End Settling.

Lemma steps_keys (results : pass) : map key_of (steps results) = map r_Member (concat (map snd results)).
Proof.
  unfold steps. rewrite !concat_map, !map_map. f_equal. apply map_ext. intros [id rs]. cbn. by rewrite map_map.
Qed.

Lemma elem_of_steps (results : pass) id res :
  (id, res) ∈ steps results ↔ ∃ rs, (id, rs) ∈ results ∧ res ∈ rs.
Proof.
  unfold steps. rewrite elem_of_concat. setoid_rewrite list_elem_of_fmap. split.
  - intros (l & Hl & [id' rs] & -> & Hin). apply list_elem_of_fmap in Hl as (res' & [= <- <-] & Hres). eauto.
  - intros (rs & Hin & Hres). exists (map (pair id) rs). split; [|by exists (id, rs)].
    apply list_elem_of_fmap. eauto.
Qed.

(** ** The order of a pass *)
Section Order.
Implicit Types (results : pass) (l : Ledger).

#[local] Instance steps_perm : Proper (Permutation ==> Permutation) steps.
Proof. intros x y H. unfold steps. induction H; cbn; rewrite ?app_assoc; [done|by f_equiv| |by etrans].
  f_equiv. apply Permutation_app_comm. Qed.

Lemma settled_order t l results results' :
  NoDup (map fst results) → NoDup (map r_Member (concat (map snd results))) → results ≡ₚ results' →
  let s := foldl (settleIdentity (λ _, t)) (startSettling l) results in
  let s' := foldl (settleIdentity (λ _, t)) (startSettling l) results' in
  s_ledger s = s_ledger s' ∧ s_events s = s_events s' ∧ s_claims s = s_claims s' ∧
  ∀ id, default 0 (s_attempts s !! id) = default 0 (s_attempts s' !! id).
Proof.
  intros Hid Hm Hp. cbn zeta. rewrite !settled_steps. cbn [with_claims s_ledger s_events s_claims s_attempts].
  rewrite <-steps_keys in Hm.
  assert (Hps : steps results ≡ₚ steps results') by (by rewrite Hp).
  assert (Hm' : NoDup (map key_of (steps results'))) by (by rewrite <-Hps).
  set (s0 := startSettling l).
  assert (Hall : ∀ k, members (s_ledger (settleSteps (λ _, t) s0 (steps results))) !! k =
      members (s_ledger (settleSteps (λ _, t) s0 (steps results'))) !! k ∧
      s_events (settleSteps (λ _, t) s0 (steps results)) !! k = s_events (settleSteps (λ _, t) s0 (steps results')) !! k).
  { intros k. destruct (decide (k ∈ map key_of (steps results))) as [Hk|Hk].
    - apply list_elem_of_fmap in Hk as (x & -> & Hx).
      destruct (settleSteps_lookup t s0 _ x Hm Hx) as [-> ->].
      destruct (settleSteps_lookup t s0 _ x Hm') as [-> ->]; [by rewrite <-Hps|done].
    - destruct (settleSteps_frame (λ _, t) s0 _ k Hk) as [-> ->].
      destruct (settleSteps_frame (λ _, t) s0 (steps results') k) as [-> ->]; [by rewrite <-Hps|done]. }
  repeat split.
  - pose proof (settleSteps_claims (λ _, t) s0 (steps results)) as C1.
    pose proof (settleSteps_claims (λ _, t) s0 (steps results')) as C2.
    destruct (s_ledger (settleSteps _ _ (steps results))) as [m1 c1],
      (s_ledger (settleSteps _ _ (steps results'))) as [m2 c2]. cbn in *.
    f_equal; [|congruence]. apply map_eq. intros k. apply Hall.
  - apply map_eq. intros k. apply Hall.
  - by apply (fold_insert_perm fst (λ p, map r_Member p.2)).
  - intros id. rewrite !settleSteps_attempts. f_equal. unfold failures_of. by rewrite Hps.
Qed.

(** A pass is settled the same whatever the order its identities are ranged
    over: the same ledger, the same health of each identity, the same events. *)
Theorem Settle_order_free t l policy results results' :
  NoDup (map fst results) → NoDup (map r_Member (concat (map snd results))) → results ≡ₚ results' →
  Settle (λ _, t) l policy results = Settle (λ _, t) l policy results'.
Proof.
  intros Hid Hm Hp. unfold Settle.
  destruct (settled_order t l results results' Hid Hm Hp) as (E1 & E2 & E3 & E4).
  rewrite E1, E2, E3. f_equal. f_equal.
  rewrite (fold_insert_perm fst (λ p, settledHealth _ _ p.1) results results') by done.
  apply foldl_pointwise. intros m p. unfold settledHealth. by rewrite E4.
Qed.
End Order.

(** ** The invariant *)

Definition sound_failure (f : failure) : Prop :=
  if permanent f then attempts f = 0 ∧ due f = time_zero
  else 1 ≤ attempts f ∧ ∃ t, 0 ≤ t ∧ due f = t + retryDelay (attempts f).

(** Every entry is of a member some Policy claims, and says something. *)
Definition sound_entry (e : memberEntry) : Prop :=
  (measured e = true ∨ is_Some (me_failure e)) ∧ ∀ f, me_failure e = Some f → sound_failure f.

Definition well_formed (l : Ledger) : Prop :=
  ∀ m e, members l !! m = Some e → m ∈ claimedSet (claims l) ∧ sound_entry e.

Inductive reachable : Ledger → Prop :=
  | reach_new : reachable newLedger
  | reach_settle now l policy results :
      reachable l → NoDup (map fst results) → (∀ i, 0 ≤ now i) → reachable (fst (Settle now l policy results))
  | reach_forget l policy : reachable l → reachable (Forget l policy).

Section Invariant.
Implicit Types (l : Ledger) (s : settling).

Definition sound_members l : Prop := ∀ m e, members l !! m = Some e → sound_entry e.

Lemma failLocked_sound t l res :
  0 ≤ t → sound_members l → sound_members (fst (failLocked t l res)).
Proof.
  intros Ht Hl k e. unfold failLocked. destruct (decide (k = r_Member res)) as [->|Hne].
  - destruct (permanentError _); cbn; rewrite lookup_insert_eq; intros [= <-]; (split; [right; by eexists|]);
      intros f [= <-]; unfold sound_failure; cbn [permanent attempts due]; [done|].
    split; [|by exists t].
    unfold entryLocked. destruct (members l !! r_Member res) as [e|] eqn:E; [|done]. cbn.
    destruct (me_failure e) as [f|] eqn:Ef; [|done].
    destruct (Hl _ _ E) as [_ Hf]. specialize (Hf f Ef). unfold sound_failure in Hf. destruct (permanent f); lia.
  - destruct (permanentError _); cbn; rewrite lookup_insert_ne by done; apply Hl.
Qed.

Lemma recordLocked_sound t l res :
  0 ≤ t → sound_members l → sound_members (fst (fst (recordLocked t l res))).
Proof.
  intros Ht Hl. unfold recordLocked. destruct (r_Kind res); try done; [..|by apply failLocked_sound].
  all: intros k e; cbn.
  1: rewrite lookup_insert_Some; intros [[<- <-]|[_ H]]; [|by eapply Hl]; split; [by left|done].
  - rewrite lookup_delete_Some. intros [Hk H]. rewrite lookup_insert_ne in H by done. by eapply Hl.
  - destruct (measured (entryLocked l (r_Member res))) eqn:Em.
    + rewrite lookup_insert_Some; intros [[<- <-]|[_ H]]; [|by eapply Hl]; split; [by left|done].
    + rewrite lookup_delete_Some. intros [Hk H]. rewrite lookup_insert_ne in H by done. by eapply Hl.
Qed.

Lemma settleSteps_sound now s xs :
  (∀ i, 0 ≤ now i) → sound_members (s_ledger s) → sound_members (s_ledger (settleSteps now s xs)).
Proof.
  intros Hnow. revert s. induction xs as [|x xs IH]; intros s Hs; [done|]. unfold settleSteps in *. cbn [foldl].
  apply IH. unfold settleResult. pose proof (recordLocked_sound (now (s_reads s)) (s_ledger s) x.2 (Hnow _) Hs).
  by destruct (recordLocked _ _ _) as [[l' ev] b].
Qed.

Lemma claimed_elsewhere l policy new k :
  k ∈ claimedSet (claims l) → k ∉ memberKeys (default ∅ (claims l !! policy)) →
  k ∈ claimedSet (claims (claimLocked l policy new)).
Proof.
  rewrite !elem_of_claimedSet. intros (p & ids & Hp & Hk) Hn. exists p, ids. split; [|done].
  assert (p ≠ policy) by (intros ->; by rewrite Hp in Hn).
  cbn. destruct new; by rewrite ?lookup_insert_ne, ?lookup_delete_ne.
Qed.

Lemma claimLocked_wf l policy new :
  sound_members l →
  (∀ k, is_Some (members l !! k) → k ∈ claimedSet (claims l) ∨ ∃ ids, new = Some ids ∧ k ∈ memberKeys ids) →
  well_formed (claimLocked l policy new).
Proof.
  intros Hs Hc k e. rewrite claimLocked_members. case_bool_decide as Hk; [intros H; split; [done|by eapply Hs]|].
  case_bool_decide as Hp; [done|]. intros H. destruct Hk.
  destruct (Hc k ltac:(by eexists)) as [Hin|(ids & -> & Hin)]; [by apply claimed_elsewhere|].
  apply elem_of_claimedSet. exists policy, ids. split; [|done]. cbn. apply lookup_insert_eq.
Qed.

Lemma pass_claims (results : pass) k :
  NoDup (map fst results) → k ∈ map key_of (steps results) →
  k ∈ memberKeys (foldl (λ m p, <[p.1 := map r_Member p.2]> m) ∅ results).
Proof.
  intros Hnd Hk. apply list_elem_of_fmap in Hk as ([id res] & -> & Hin).
  apply elem_of_steps in Hin as (rs & Hin & Hres). apply elem_of_memberKeys. exists id, (map r_Member rs).
  split; [|change (key_of (id, res)) with (r_Member res); by apply list_elem_of_fmap_2].
  apply (lookup_fold_insert fst (λ p, Some (map r_Member p.2)) results id); [done|]. by exists (id, rs).
Qed.

Lemma reachable_sound l : reachable l → well_formed l.
Proof.
  induction 1 as [|now l policy results _ IH Hnd Hnow|l policy _ IH].
  - intros m e H. cbn in H. by rewrite lookup_empty in H.
  - unfold Settle. rewrite settled_steps. apply claimLocked_wf.
    + apply settleSteps_sound; [done|]. intros m e H. by eapply IH.
    + intros k [e Hk]. cbn [with_claims s_ledger s_claims] in *. rewrite settleSteps_claims. cbn [startSettling s_ledger s_claims].
      destruct (decide (k ∈ map key_of (steps results))) as [Hin|Hin].
      * right. eexists. split; [done|]. by apply pass_claims.
      * left. destruct (settleSteps_frame now (startSettling l) _ k Hin) as [E _]. rewrite E in Hk. by eapply IH.
  - apply claimLocked_wf; [intros m e H; by eapply IH|]. intros k [e Hk]. left. by eapply IH.
Qed.

(** Whatever passes are settled and Policies forgotten, the ledger remembers
    only members some Policy claims, each for a reason: measured pods or a
    failure, whose retry is dated by a reading of the clock and its attempts. *)
Theorem ledger_well_formed l : reachable l → well_formed l.
Proof. apply reachable_sound. Qed.
End Invariant.

(** ** Claimed members *)
Section Claimed.
Implicit Types (l : Ledger) (out : list MemberKey).

Lemma elem_of_addClaimed out ms m : m ∈ foldl addClaimed out ms ↔ m ∈ out ∨ m ∈ ms.
Proof.
  revert out. induction ms as [|k ms IH]; intros out; cbn [foldl]; [by rewrite elem_of_nil; tauto|].
  rewrite IH, elem_of_cons. unfold addClaimed, contains. case_bool_decide; [|rewrite elem_of_app, list_elem_of_singleton];
    naive_solver.
Qed.

Lemma NoDup_addClaimed out ms : NoDup out → NoDup (foldl addClaimed out ms).
Proof.
  revert out. induction ms as [|k ms IH]; intros out Hnd; [done|]. cbn [foldl]. apply IH.
  unfold addClaimed, contains. case_bool_decide as Hk; [done|]. apply NoDup_app. split; [done|].
  split; [|by apply NoDup_singleton]. intros x Hx ->%list_elem_of_singleton. done.
Qed.

Lemma elem_of_claimedOver order id m :
  m ∈ claimedOver order id ↔ ∃ ids, ids ∈ order ∧ m ∈ default [] (ids !! id).
Proof.
  unfold claimedOver. rewrite elem_of_sort_by.
  assert (Hout : ∀ out, m ∈ foldl (λ out ids, foldl addClaimed out (default [] (ids !! id))) out order ↔
    m ∈ out ∨ ∃ ids, ids ∈ order ∧ m ∈ default [] (ids !! id)); [|rewrite Hout, elem_of_nil; tauto].
  induction order as [|ids order IH]; intros out; cbn [foldl].
  - split; [by left|]. intros [?|(ids & ?%not_elem_of_nil & _)]; done.
  - rewrite IH, elem_of_addClaimed. setoid_rewrite elem_of_cons. naive_solver.
Qed.

Lemma NoDup_claimedOver order id : NoDup (claimedOver order id).
Proof.
  unfold claimedOver. apply NoDup_sort_by.
  assert (Hout : ∀ out, NoDup out → NoDup (foldl (λ out ids, foldl addClaimed out (default [] (ids !! id))) out order));
    [|apply Hout, NoDup_nil_2].
  induction order as [|ids order IH]; intros out Hnd; [done|]. by apply IH, NoDup_addClaimed.
Qed.

#[local] Instance compareKey_pre : PreCmp compareKey.
Proof.
  apply cmp_or_pre; [exact (cmp_on_pre mk_Kind _ _)|].
  apply cmp_or_pre; [exact (cmp_on_pre mk_Namespace _ _)|exact (cmp_on_pre mk_Name _ _)].
Qed.

Lemma compareMember_eq a b : compareKey a b = Eq → a = b.
Proof.
  destruct a, b. unfold compareKey, cmp_or. simpl. intros H. split_cases.
  repeat match goal with E : String.compare _ _ = Eq |- _ => apply String.compare_eq_iff in E end. by subst.
Qed.

(** The members of an identity do not depend on the order of the Policies. *)
Lemma claimedOver_perm order order' id : order ≡ₚ order' → claimedOver order id = claimedOver order' id.
Proof.
  intros Hp. apply (StronglySorted_unique_strong (cmp_le compareKey)).
  - intros x y _ _ Hxy Hyx. apply compareMember_eq. unfold cmp_le in *.
    rewrite (cmp_antisym compareKey x y) in Hyx. by destruct (compareKey x y).
  - exact (sort_by_sorted compareKey _).
  - exact (sort_by_sorted compareKey _).
  - apply NoDup_Permutation; [apply NoDup_claimedOver..|]. intros m. rewrite !elem_of_claimedOver. by setoid_rewrite Hp.
Qed.

Lemma elem_of_claimedLocked l id m :
  m ∈ claimedLocked l id ↔ ∃ p ids ms, claims l !! p = Some ids ∧ ids !! id = Some ms ∧ m ∈ ms.
Proof.
  unfold claimedLocked. rewrite elem_of_claimedOver. setoid_rewrite list_elem_of_fmap. split.
  - intros (ids & ([p ids'] & -> & Hin%elem_of_map_to_list) & Hm). cbn in Hm.
    destruct (ids' !! id) as [ms|] eqn:E; cbn in Hm; [|by apply not_elem_of_nil in Hm].
    by exists p, ids', ms.
  - intros (p & ids & ms & Hp & Hid & Hm). exists ids. split; [exists (p, ids); by rewrite elem_of_map_to_list|].
    by rewrite Hid.
Qed.

(** ** Health *)

(** The step a member keeps failing on. *)
Definition failing_step l m : ApplyStep :=
  match members l !! m ≫= me_failure with Some f => f_step f | None => StepNone end.

Definition counted l (count : PodCounts → Z) m : Z :=
  match members l !! m with Some e => if measured e then count (pods e) else 0 | None => 0 end.

Lemma addHealth_fold l ms h :
  let h' := foldl (addHealth l) h ms in
  Total (h_Pods h') = Total (h_Pods h) + sum_by (counted l Total) ms ∧
  Stale (h_Pods h') = Stale (h_Pods h) + sum_by (counted l Stale) ms ∧
  (BlockedOn h' ≠ StepNone ↔ BlockedOn h ≠ StepNone ∨ ∃ m, m ∈ ms ∧ failing_step l m ≠ StepNone).
Proof.
  revert h. induction ms as [|m ms IH]; intros h; cbn zeta.
  { cbn. repeat split; [lia..|by left|]. intros [?|(m & ?%not_elem_of_nil & _)]; done. }
  cbn [foldl]. destruct (IH (addHealth l h m)) as (-> & -> & Hb).
  assert (Hstep : Total (h_Pods (addHealth l h m)) = Total (h_Pods h) + counted l Total m ∧
    Stale (h_Pods (addHealth l h m)) = Stale (h_Pods h) + counted l Stale m ∧
    (BlockedOn (addHealth l h m) ≠ StepNone ↔ BlockedOn h ≠ StepNone ∨ failing_step l m ≠ StepNone)).
  { unfold addHealth, counted, failing_step. destruct (members l !! m) as [e|]; cbn [mbind option_bind]; [|split_and!; [lia..|tauto]].
    destruct (me_failure e) as [f|]; destruct (measured e); try case_bool_decide; cbn in *;
      (split; [lia|split; [lia|]]); naive_solver. }
  destruct Hstep as (-> & -> & Hb'). cbn [sum_by foldr]. unfold sum_by. repeat split; [lia..| |].
  - intros H%Hb. rewrite Hb' in H. setoid_rewrite elem_of_cons. naive_solver.
  - intros H. apply Hb. rewrite Hb'. setoid_rewrite elem_of_cons in H. naive_solver.
Qed.
End Claimed.

(** ** Backoff *)
Section Backoff.
Implicit Types (l : Ledger) (k : MemberKey).

Lemma retryDelay_eq n : 1 ≤ n → retryDelay n = Z.min (BaseRetryDelay * 2 ^ (n - 1)) MaxRetryDelay.
Proof.
  intros Hn. unfold retryDelay, maxShift. rewrite Z.shiftl_mul_pow2 by lia.
  destruct (Z.le_gt_cases (n - 1) 16) as [H|H].
  - rewrite (Z.min_l (n - 1) 16) by lia. rewrite wrap64_id; [done|].
    pose proof (Z.pow_pos_nonneg 2 (n - 1)).
    assert (2 ^ (n - 1) ≤ 2 ^ 16) by (apply Z.pow_le_mono_r; lia).
    unfold int64_range, int64_min, int64_max, BaseRetryDelay, second. lia.
  - rewrite (Z.min_r (n - 1) 16) by lia.
    assert (2 ^ 16 ≤ 2 ^ (n - 1)) by (apply Z.pow_le_mono_r; lia).
    replace (wrap64 (BaseRetryDelay * 2 ^ 16)) with (BaseRetryDelay * 2 ^ 16) by reflexivity.
    unfold BaseRetryDelay, MaxRetryDelay, minute, second in *. lia.
Qed.

Lemma retryDelay_bounds n : 1 ≤ n → BaseRetryDelay ≤ retryDelay n ≤ MaxRetryDelay.
Proof.
  intros Hn. rewrite retryDelay_eq by done.
  pose proof (Z.pow_pos_nonneg 2 (n - 1)).
  unfold BaseRetryDelay, MaxRetryDelay, minute, second in *. lia.
Qed.

Definition fails_transiently k (p : time * Result) : Prop :=
  r_Member p.2 = k ∧ r_Kind p.2 = Failed ∧ permanentError (r_Err p.2) = false.

Definition recordAll l (rs : list (time * Result)) : Ledger :=
  foldl (λ l p, fst (fst (recordLocked p.1 l p.2))) l rs.

Definition failing l k : option failure := members l !! k ≫= me_failure.

Lemma recordLocked_transient l k t res :
  fails_transiently k (t, res) →
  let n := match failing l k with Some f => 1 + attempts f | None => 1 end in
  let r := recordLocked t l res in
  failing (fst (fst r)) k =
    Some {| f_step := r_Step res; permanent := false; attempts := n; due := t + retryDelay n |} ∧
  (ev_retry <$> snd (fst r)) = Some (Some (n, FormatRFC3339 (t + retryDelay n))).
Proof.
  intros (<- & Hk & Hp). cbn in *. unfold recordLocked, failLocked, failing, entryLocked. rewrite Hk, Hp. cbn.
  rewrite lookup_insert_eq. cbn. unfold time_Add. by destruct (members l !! r_Member res).
Qed.

Lemma transient_run l k rs :
  failing l k = None → Forall (fails_transiently k) rs →
  (attempts <$> failing (recordAll l rs) k) = (match rs with [] => None | _ => Some (Z.of_nat (length rs)) end).
Proof.
  intros Hl. induction rs as [|[t res] rs IH] using rev_ind; intros Hall; [cbn; by rewrite Hl|].
  apply Forall_app in Hall as [Hall Hr%Forall_inv]. specialize (IH Hall).
  unfold recordAll in *. rewrite foldl_app. cbn [foldl fst snd].
  destruct (recordLocked_transient (recordAll l rs) k t res Hr) as [E _]. unfold recordAll in E. rewrite E. cbn [fmap option_fmap option_map attempts].
  rewrite length_app. cbn [length].
  replace (match rs ++ [(t, res)] with [] => None | _ => Some (Z.of_nat (length rs + 1)) end)
    with (Some (Z.of_nat (length rs + 1))) by (by destruct rs).
  f_equal. set (prev := failing (foldl _ _ _) k) in *. clearbody prev. clear E.
  destruct prev as [f|], rs; cbn in IH; simplify_eq; cbn [length]; lia.
Qed.

(** C10: A member that fails transiently in pass after pass is left alone 30 seconds
    after the first failure, twice as long after each one more, never longer
    than 5 minutes, without an overflow on the way; the event names the attempt
    and, to the second it falls in, the time the member may run again. *)
Theorem backoff_doubles l k rs t res :
  failing l k = None → Forall (fails_transiently k) (rs ++ [(t, res)]) →
  let delay := Z.min (30 * second * 2 ^ Z.of_nat (length rs)) (5 * minute) in
  let r := recordLocked t (recordAll l rs) res in
  (∀ now, MayRun now (fst (fst r)) k = true ↔ t + delay ≤ now) ∧
  ∃ text, (ev_retry <$> snd (fst r)) = Some (Some (Z.of_nat (length rs) + 1, text)) ∧
    (0 ≤ t + delay < lastDay * 86400 * second → ParseRFC3339 text = Some ((t + delay) / second * second)).
Proof.
  intros Hl [Hall Hr%Forall_inv]%Forall_app. cbn zeta.
  destruct (recordLocked_transient (recordAll l rs) k t res Hr) as [E1 E2].
  pose proof (transient_run l k rs Hl Hall) as Hn.
  set (n := match failing (recordAll l rs) k with Some f => _ | None => _ end) in *.
  assert (n = Z.of_nat (length rs) + 1) as En.
  { unfold n. destruct (failing (recordAll l rs) k); destruct rs; try discriminate Hn;
      try injection Hn; cbn [length]; lia. }
  rewrite En in *. rewrite retryDelay_eq in E1, E2 by lia.
  replace (Z.of_nat (length rs) + 1 - 1) with (Z.of_nat (length rs)) in E1, E2 by lia.
  split; [|eexists; split; [exact E2|apply parse_format]]. intros now. unfold MayRun. unfold failing in E1.
  destruct (members _ !! k) as [e|]; [|done]. cbn in E1. rewrite E1. cbn [permanent due orb].
  unfold time_Before. rewrite negb_true_iff, Z.ltb_ge. done.
Qed.
End Backoff.

(** ** The next pass *)
Section Requeue.
Implicit Types (l : Ledger) (k : MemberKey).

(** When a member's transient failure may run again. *)
Definition retry_due l k : option time :=
  match failing l k with Some f => if permanent f then None else Some (due f) | None => None end.

Definition claims_of l (policy : string) : list MemberKey := memberKeys (default ∅ (claims l !! policy)).

Lemma retry_due_positive l k d : well_formed l → retry_due l k = Some d → 0 < d.
Proof.
  intros Hl. unfold retry_due, failing. destruct (members l !! k) as [e|] eqn:E; [|done]. cbn.
  destruct (me_failure e) as [f|] eqn:Ef; [|done]. destruct (Hl _ _ E) as (_ & _ & Hf).
  specialize (Hf f Ef). unfold sound_failure in Hf. destruct (permanent f); [done|].
  destruct Hf as (Hn & t & Ht & ->). intros [= <-]. pose proof (retryDelay_bounds _ Hn).
  unfold BaseRetryDelay, second in *. lia.
Qed.

Lemma earlier_due l e k :
  earlier l e k = match retry_due l k with
                  | Some d => if (e =? 0) || (d <? e) then d else e
                  | None => e
                  end.
Proof.
  unfold earlier, retry_due, failing. destruct (members l !! k) as [en|]; [|done]. cbn.
  by destruct (me_failure en) as [f|]; [destruct (permanent f)|].
Qed.

(** The earliest retry, the zero instant when there is none. *)
Lemma earliest_spec l ks :
  well_formed l →
  let e := foldl (earlier l) time_zero ks in
  (e = 0 ∧ ∀ k, k ∈ ks → retry_due l k = None) ∨
  (0 < e ∧ (∃ k, k ∈ ks ∧ retry_due l k = Some e) ∧ ∀ k d, k ∈ ks → retry_due l k = Some d → e ≤ d).
Proof.
  intros Hl. induction ks as [|k ks IH] using rev_ind; cbn zeta.
  { left. split; [done|]. by intros k ?%not_elem_of_nil. }
  rewrite foldl_app. cbn [foldl]. rewrite earlier_due. setoid_rewrite elem_of_app. setoid_rewrite list_elem_of_singleton.
  destruct (retry_due l k) as [d|] eqn:Ed; [|naive_solver].
  pose proof (retry_due_positive l k d Hl Ed). right.
  destruct IH as [[-> Hnone]|(Hpos & (k' & Hk' & Hd') & Hle)].
  - cbn [Z.eqb orb]. split; [done|]. split; [naive_solver|]. intros k' d' [Hk'| ->] Hd'; [|naive_solver lia].
    by rewrite Hnone in Hd'.
  - replace (_ =? 0) with false by (symmetry; apply Z.eqb_neq; lia). cbn [orb].
    destruct (Z.ltb_spec d (foldl (earlier l) time_zero ks)); (split; [lia|]); (split; [naive_solver|]);
      intros k2 d2 [Hk2| ->] Hd2; simplify_eq; try lia; specialize (Hle _ _ Hk2 Hd2); lia.
Qed.

(** The next pass of a Policy comes after its interval, or when the earliest
    retry among the members it claims falls due if that comes first, but no
    sooner than the floor: a second, or 30 seconds after a pass that could not
    list its workloads. So a retry an event dates finds a pass that runs it. *)
Theorem requeue_on_time l policy interval now floor :
  reachable l → int64_range interval → floor ∈ [second; BaseRetryDelay] →
  let r := requeueAfter now l policy interval floor in
  r ≤ interval ∧
  (∀ k d, k ∈ claims_of l policy → retry_due l k = Some d → r ≤ Z.max (d - now) floor) ∧
  (r = interval ∨ ∃ k d, k ∈ claims_of l policy ∧ retry_due l k = Some d ∧ r = Z.max (d - now) floor).
Proof.
  intros Hl%reachable_sound Hi Hf. cbn zeta. unfold requeueAfter, time_IsZero. fold (claims_of l policy).
  assert (0 ≤ floor) by (unfold BaseRetryDelay, second in *; set_solver by lia).
  destruct (earliest_spec l (claims_of l policy) Hl) as [[-> Hnone]|(Hpos & (k & Hk & Hd) & Hle)].
  - cbn [Z.eqb]. split; [lia|]. split; [|by left]. intros k d Hk Hd. by rewrite Hnone in Hd.
  - set (e := foldl _ _ _) in *. replace (e =? 0) with false by (symmetry; apply Z.eqb_neq; lia).
    unfold time_Sub, int64_range, int64_min, int64_max in *. split; [lia|]. split.
    + intros k' d' Hk' Hd'. specialize (Hle _ _ Hk' Hd'). lia.
    + destruct (Z.le_gt_cases interval (Z.max (e - now) floor)); [left; lia|].
      right. exists k, e. split_and!; [done..|lia].
Qed.
End Requeue.

(** ** The verdict *)
Section Verdict.
Implicit Types (l : Ledger).

Lemma settled_attempts now l results id :
  default 0 (s_attempts (foldl (settleIdentity now) (startSettling l) results) !! id) =
    failures_of id (steps results).
Proof. rewrite settled_steps. cbn [with_claims s_attempts]. rewrite settleSteps_attempts. done. Qed.

Lemma failures_of_positive id xs :
  0 < failures_of id xs ↔ ∃ res, (id, res) ∈ xs ∧ r_Kind res = Failed.
Proof.
  induction xs as [|[id' res] xs IH].
  { split; [done|]. by intros (res & ?%not_elem_of_nil & _). }
  assert (0 ≤ failures_of id xs) by (apply sum_by_nonneg; intros; by case_bool_decide).
  replace (failures_of id ((id', res) :: xs)) with
    ((if bool_decide (id' = id ∧ r_Kind res = Failed) then 1 else 0) + failures_of id xs) by done.
  setoid_rewrite elem_of_cons. case_bool_decide as Hd; split; intros H'.
  - destruct Hd as [-> ?]. eauto.
  - lia.
  - rewrite Z.add_0_l in H'. apply IH in H' as (res' & Hin & Hk). eauto.
  - rewrite Z.add_0_l. apply IH. destruct H' as (res' & [[= -> ->]|Hin] & Hk); [tauto|eauto].
Qed.

Lemma failed_result_step t l res :
  r_Kind res = Failed → failing_step (fst (fst (recordLocked t l res))) (r_Member res) = r_Step res.
Proof.
  intros Hk. unfold recordLocked, failLocked, failing_step. rewrite Hk.
  by destruct (permanentError _); cbn; rewrite lookup_insert_eq.
Qed.

(** The verdict of a pass names every identity of the pass: it failed exactly
    if a member's result did, it is Blocked exactly if a member some Policy
    claims for it keeps failing, which a member failing in this pass does, and
    its pod counts are the sums over the measured members claimed for it. *)
Theorem Settle_verdict t l policy results id rs :
  NoDup (map fst results) → NoDup (map r_Member (concat (map snd results))) → (id, rs) ∈ results →
  let '(l', v) := Settle (λ _, t) l policy results in
  ∃ h, v_Identities v !! id = Some h ∧
    (hasFailed h = true ↔ ∃ res, res ∈ rs ∧ r_Kind res = Failed) ∧
    (Blocked h = true ↔ ∃ m, m ∈ claimedLocked l' id ∧ failing_step l' m ≠ StepNone) ∧
    (∀ res, res ∈ rs → r_Kind res = Failed → r_Step res ≠ StepNone → Blocked h = true) ∧
    h_Pods h = {| Total := sum_by (counted l' Total) (claimedLocked l' id);
                  Stale := sum_by (counted l' Stale) (claimedLocked l' id) |}.
Proof.
  intros Hid Hm Hin. destruct (Settle _ _ _ _) as [l' v] eqn:Es. unfold Settle in Es.
  injection Es as El Ev. subst v. cbn [v_Identities].
  rewrite El. set (att := s_attempts _). exists (settledHealth l' att id).
  destruct (addHealth_fold l' (claimedLocked l' id) noHealth) as (HT & HS & HB). cbn [noHealth h_Pods Total Stale BlockedOn] in *.
  assert (Hblocked : Blocked (settledHealth l' att id) = true ↔ ∃ m, m ∈ claimedLocked l' id ∧ failing_step l' m ≠ StepNone).
  { unfold Blocked, settledHealth. cbn [BlockedOn]. rewrite negb_true_iff, bool_decide_eq_false. rewrite HB. tauto. }
  split; [|split; [|split; [exact Hblocked|split]]].
  - apply (lookup_fold_insert fst (λ p, Some (settledHealth l' att p.1))); [done|]. by exists (id, rs).
  - unfold hasFailed, settledHealth, att. cbn [Attempts]. rewrite settled_attempts, Z.ltb_lt, failures_of_positive.
    setoid_rewrite elem_of_steps. split; [|naive_solver].
    intros (res & (rs' & Hin' & Hres) & Hk). exists res. split; [|done].
    by assert ((id, rs) = (id, rs')) as [= ->] by (by apply (NoDup_map_inj fst results)).
  - intros res Hres Hk Hs. apply Hblocked. exists (r_Member res).
    assert (Hst : (id, res) ∈ steps results) by (apply elem_of_steps; eauto).
    assert (Hcl : ∃ ids, claims l' !! policy = Some ids ∧ ids !! id = Some (map r_Member rs)).
    { subst l'. eexists. split; [cbn; apply lookup_insert_eq|]. rewrite settled_steps. cbn [with_claims s_claims].
      apply (lookup_fold_insert fst (λ p, Some (map r_Member p.2)) results id); [done|]. by exists (id, rs). }
    destruct Hcl as (ids & Hp & Hi). assert (Hmem : r_Member res ∈ map r_Member rs) by (by apply list_elem_of_fmap_2).
    split; [apply elem_of_claimedLocked; eauto 6|].
    rewrite <-steps_keys in Hm. destruct (settleSteps_lookup t (startSettling l) _ _ Hm Hst) as [E _].
    pose proof (failed_result_step t l res Hk) as Hf. unfold failing_step in *.
    subst l'. rewrite claimLocked_members, bool_decide_eq_true_2.
    2:{ apply elem_of_claimedSet. exists policy, ids. split; [done|]. apply elem_of_memberKeys. eauto. }
    rewrite settled_steps. cbn [with_claims s_ledger]. unfold key_of in E. cbn [snd] in E.
    rewrite E. cbn [startSettling s_ledger] in *. by rewrite Hf.
  - unfold settledHealth. cbn [h_Pods]. fold (healthLocked l' id) in HT, HS. by destruct (h_Pods (healthLocked l' id)); cbn in *; subst.
Qed.
End Verdict.

(** ** At a concrete input *)
Section Sample.

Definition web : MemberKey := Key "Deployment" "shop" "web".
Definition api : MemberKey := Key "Deployment" "shop" "api".
Definition webIdentity : WorkloadIdentity := Identity "shop" "Deployment" "web".
Definition apiIdentity : WorkloadIdentity := Identity "shop" "Deployment" "api".

Definition timedOut : Result :=
  {| r_Member := web; r_Kind := Failed; r_Pods := {| Total := 0; Stale := 0 |};
     r_Step := StepPrometheus; r_Err := Some (Errorf "query" [CtxErr]) |}.
Definition settledPods : Result :=
  {| r_Member := api; r_Kind := Done; r_Pods := {| Total := 3; Stale := 1 |}; r_Step := StepNone; r_Err := None |}.

Definition samplePass : pass := [(webIdentity, [timedOut]); (apiIdentity, [settledPods])].
Definition sampleNow : time := 1000 * second.
Definition sampleLedger : Ledger := fst (Settle (λ _, sampleNow) newLedger "default" samplePass).

Lemma sampleLedger_reachable : reachable sampleLedger.
Proof.
  apply reach_settle; [apply reach_new|by_evaluation|]. intros _. unfold sampleNow, second. lia.
Qed.

Example sample_backs_off : MayRun sampleNow sampleLedger web = false ∧ MayRun sampleNow sampleLedger api = true.
Proof. by vm_compute. Qed.

Lemma Settle_order_free_witness :
  Settle (λ _, sampleNow) newLedger "default" samplePass =
  Settle (λ _, sampleNow) newLedger "default" [(apiIdentity, [settledPods]); (webIdentity, [timedOut])].
Proof. apply (Settle_order_free sampleNow); [by_evaluation..|apply Permutation_swap]. Defined.

Lemma ledger_well_formed_witness : well_formed sampleLedger.
Proof. apply (ledger_well_formed sampleLedger), sampleLedger_reachable. Defined.

Lemma backoff_doubles_witness :
  let r := recordLocked sampleNow (recordAll newLedger [(0, timedOut); (60 * second, timedOut)]) timedOut in
  MayRun (sampleNow + 120 * second) (fst (fst r)) web = true ∧
  ¬ MayRun (sampleNow + 120 * second - 1) (fst (fst r)) web = true.
Proof.
  intros r.
  assert (H : ∀ now, MayRun now (fst (fst r)) web = true ↔ sampleNow + 120 * second ≤ now).
  { apply (backoff_doubles newLedger web [(0, timedOut); (60 * second, timedOut)] sampleNow timedOut); [reflexivity|].
    repeat constructor. }
  rewrite !H. unfold second. split; lia.
Defined.

Lemma requeue_on_time_witness : requeueAfter sampleNow sampleLedger "default" (10 * minute) second ≤ 10 * minute.
Proof.
  apply (requeue_on_time sampleLedger "default" (10 * minute) sampleNow second);
    [apply sampleLedger_reachable|by_evaluation..].
Defined.

Example sample_requeue : RequeueAfter sampleNow sampleLedger "default" (10 * minute) = 30 * second.
Proof. by vm_compute. Qed.

Lemma Settle_verdict_witness :
  let '(l', v) := Settle (λ _, sampleNow) newLedger "default" samplePass in
  ∃ h, v_Identities v !! webIdentity = Some h ∧ hasFailed h = true.
Proof.
  pose proof (Settle_verdict sampleNow newLedger "default" samplePass webIdentity [timedOut]) as H.
  destruct (Settle _ _ _ _) as [l' v]. destruct H as (h & Hh & Hf & _); [by_evaluation|by_evaluation|by left|].
  exists h. split; [exact Hh|]. apply Hf. exists timedOut. split; [by left|reflexivity].
Defined.
End Sample.
