(* ===== verification/Publisher.v ===== *)
(** * The series of the controller ([internal/controller/publisher.go])

    Every series the controller exports about a Policy, the identities it
    governs and their members, with who published it. The metric vectors are
    one map from a series to its value; every operation holds the publisher's
    lock. A histogram keeps its count and its sum, not its buckets. *)

From stdpp Require Import sets.
From S2P Require Import Prelude GoLang GoFloat Quantity Kube PolicyApi WlrApi Shards Autoscaler Patcher Ledger.
Local Open Scope Z_scope.

(** ** Series *)

(** The vectors the publisher writes, by the owner their labels name. *)
Inductive policyVec :=
  | policyWorkloadCount | policyBlockedCount | policyBatchRequested | policyBatchResolved
  | policyBatchFailuresTotal | reconcileTotal | reconcileDuration
  | recommendedCPUCores | recommendedMemoryBytes | templateCPUCores | templateMemoryBytes.

Inductive identityVec :=
  | workloadPods | workloadStalePods | workloadRetryState | autoscalerPresent | autoscalerTargetConfigured
  | workloadRetryAttempts | recycleSuppressedTotal | recommendationSkipped | oomFloorApplied
  | oomReactionLatencySeconds | groupAutoscalerMismatchTotal | oomObservedTotal.

#[export] Instance policyVec_eq_dec : EqDecision policyVec.
Proof. solve_decision. Defined.
#[export] Instance identityVec_eq_dec : EqDecision identityVec.
Proof. solve_decision. Defined.

#[export] Instance policyVec_countable : Countable policyVec.
Proof.
  apply (inj_countable'
    (λ v, match v with
          | policyWorkloadCount => 0 | policyBlockedCount => 1 | policyBatchRequested => 2 | policyBatchResolved => 3
          | policyBatchFailuresTotal => 4 | reconcileTotal => 5 | reconcileDuration => 6 | recommendedCPUCores => 7
          | recommendedMemoryBytes => 8 | templateCPUCores => 9 | templateMemoryBytes => 10 end%nat)
    (λ n, match n with
          | 0 => policyWorkloadCount | 1 => policyBlockedCount | 2 => policyBatchRequested | 3 => policyBatchResolved
          | 4 => policyBatchFailuresTotal | 5 => reconcileTotal | 6 => reconcileDuration | 7 => recommendedCPUCores
          | 8 => recommendedMemoryBytes | 9 => templateCPUCores | _ => templateMemoryBytes end%nat)).
  by intros [].
Defined.

#[export] Instance identityVec_countable : Countable identityVec.
Proof.
  apply (inj_countable'
    (λ v, match v with
          | workloadPods => 0 | workloadStalePods => 1 | workloadRetryState => 2 | autoscalerPresent => 3
          | autoscalerTargetConfigured => 4 | workloadRetryAttempts => 5 | recycleSuppressedTotal => 6
          | recommendationSkipped => 7 | oomFloorApplied => 8 | oomReactionLatencySeconds => 9
          | groupAutoscalerMismatchTotal => 10 | oomObservedTotal => 11 end%nat)
    (λ n, match n with
          | 0 => workloadPods | 1 => workloadStalePods | 2 => workloadRetryState | 3 => autoscalerPresent
          | 4 => autoscalerTargetConfigured | 5 => workloadRetryAttempts | 6 => recycleSuppressedTotal
          | 7 => recommendationSkipped | 8 => oomFloorApplied | 9 => oomReactionLatencySeconds
          | 10 => groupAutoscalerMismatchTotal | _ => oomObservedTotal end%nat)).
  by intros [].
Defined.

(** A child of a vector: the Policy or the identity its labels name, and the
    values of its other labels. *)
Inductive series :=
  | PolicySeries (vec : policyVec) (policy : string) (labels : list string)
  | IdentitySeries (vec : identityVec) (id : WorkloadIdentity) (labels : list string).

#[export] Instance series_eq_dec : EqDecision series.
Proof. solve_decision. Defined.

#[export] Instance series_countable : Countable series.
Proof.
  apply (inj_countable'
    (λ s, match s with PolicySeries v p l => inl (v, p, l) | IdentitySeries v i l => inr (v, i, l) end)
    (λ x, match x with inl (v, p, l) => PolicySeries v p l | inr (v, i, l) => IdentitySeries v i l end)).
  by intros [].
Defined.

Inductive sample :=
  | gauge (v : float64)
  | counter (v : float64)
  | histogram (count : Z) (sum : float64).

(** What the vectors export. *)
Abbreviation registry := (gmap series sample).
Abbreviation seriesSet := (gset series).

(** A write of a series through a set: what it makes of the series' value. *)
Record emission := { em_series : series; em_value : option sample → sample }.

Definition set_ (s : series) (v : float64) : emission := {| em_series := s; em_value _ := gauge v |}.

Definition add (s : series) (v : float64) : emission :=
  {| em_series := s;
     em_value old := counter (f_add (match old with Some (counter x) => x | _ => f_zero end) v) |}.

Definition observe (s : series) (v : float64) : emission :=
  {| em_series := s;
     em_value old :=
       match old with
       | Some (histogram n sum) => histogram (n + 1) (f_add sum v)
       | _ => histogram 1 (f_add f_zero v)
       end |}.

(** [track] and the write. *)
Definition emit (st : registry * seriesSet) (x : emission) : registry * seriesSet :=
  let '(reg, s) := st in
  (<[em_series x := em_value x (reg !! em_series x)]> reg, {[em_series x]} ∪ s).

Definition emitAll (st : registry * seriesSet) (xs : list emission) : registry * seriesSet := foldl emit st xs.

Definition deleteSeries (reg : registry) (s : seriesSet) : registry := filter (λ p, p.1 ∉ s) reg.

(** The registry after [s.replace(prev)], which makes [s] the published set. *)
Definition replace (reg : registry) (s prev : seriesSet) : registry := deleteSeries reg (prev ∖ s).

(** [Duration.Seconds] *)
Definition Seconds (d : duration) : float64 :=
  f_add (f_of_Z (Z.quot d second)) (f_div (f_of_Z (Z.rem d second)) (f_of_Z second)).

(** ** What is published *)
Section Published.
Context {QO : QuantityOps} {KO : KubeOps}.

Definition cores (q : Quantity) : float64 := f_div (f_of_Z (MilliValue q)) (f_of_Z 1000).

Record containerSeries := {
  cs_name : string;
  cs_kind : string;
  cs_rec : ContainerRecommendation;
  cs_template : ResourceList;
}.

Record memberSeries := {
  ms_kind : string;
  ms_name : string;
  ms_containers : list containerSeries;
  ms_suppressed : gmap string Z;
}.

Record oomFloor := { of_container : string; reaction : duration; live : bool }.

Record identitySeries := {
  is_key : WorkloadIdentity;
  is_health : Health;
  is_autoscaler : option Info;
  is_mismatch : bool;
  is_oomFloors : list oomFloor;
  is_tooYoung : bool;
  is_members : list memberSeries;
}.

Record publication := {
  pub_live : Z; pub_blocked : Z;
  pub_requested : Z; pub_resolved : Z; pub_fetchFailed : Z;
  pub_identities : list identitySeries;
}.

Record published := { pb_gauges : seriesSet; pb_counters : seriesSet }.
Record policyPublished := { pp_published : published; pp_identities : gset WorkloadIdentity }.

Record publisher := {
  policies : gmap string policyPublished;
  identities : gmap WorkloadIdentity published;
  exported : registry;
}.

Definition newPublisher : publisher := {| policies := ∅; identities := ∅; exported := ∅ |}.

Definition noPublished : published := {| pb_gauges := ∅; pb_counters := ∅ |}.

Definition policyLocked (p : publisher) (policy : string) : policyPublished :=
  default {| pp_published := noPublished; pp_identities := ∅ |} (policies p !! policy).

Definition identityLocked (ids : gmap WorkloadIdentity published) (key : WorkloadIdentity) : published :=
  default noPublished (ids !! key).

Definition containerEmissions (policy : string) (key : WorkloadIdentity) (m : memberSeries) (c : containerSeries) :
    list emission :=
  let s v := PolicySeries v policy [id_Namespace key; ms_kind m; ms_name m; cs_name c; cs_kind c] in
  match CPURequest (cs_rec c) with Some q => [set_ (s recommendedCPUCores) (cores q)] | None => [] end ++
  match MemoryRequest (cs_rec c) with Some q => [set_ (s recommendedMemoryBytes) (f_of_Z (Value q))] | None => [] end ++
  (if IsZero (rl_Cpu (cs_template c)) then [] else [set_ (s templateCPUCores) (cores (rl_Cpu (cs_template c)))]) ++
  (if IsZero (rl_Memory (cs_template c)) then []
   else [set_ (s templateMemoryBytes) (f_of_Z (Value (rl_Memory (cs_template c))))]).

Definition memberEmissions (policy : string) (s : identitySeries) : list emission :=
  concat (map (λ m, concat (map (containerEmissions policy (is_key s) m) (ms_containers m))) (is_members s)).

Definition policyGauges (policy : string) (pub : publication) : list emission :=
  [ set_ (PolicySeries policyWorkloadCount policy []) (f_of_Z (pub_live pub));
    set_ (PolicySeries policyBlockedCount policy []) (f_of_Z (pub_blocked pub));
    set_ (PolicySeries policyBatchRequested policy []) (f_of_Z (pub_requested pub));
    set_ (PolicySeries policyBatchResolved policy []) (f_of_Z (pub_resolved pub)) ].

(** A step as the [reason] label spells it. *)
Definition step_label (s : ApplyStep) : string :=
  match s with
  | StepNone => "" | StepPrometheus => "prometheus" | StepPatch => "patch" | StepResize => "resize" | StepStore => "store"
  end.

Definition identityGauges (s : identitySeries) : list emission :=
  let h := is_health s in
  let g v ls := IdentitySeries v (is_key s) ls in
  (if Measured h
   then [set_ (g workloadPods []) (f_of_Z (Total (h_Pods h)));
         set_ (g workloadStalePods []) (f_of_Z (Stale (h_Pods h)))]
   else []) ++
  (if Blocked h then [set_ (g workloadRetryState [step_label (BlockedOn h)]) (f_of_Z 1)] else []) ++
  match is_autoscaler s with
  | Some a =>
      if bool_decide (i_Kind a = KindNone) then []
      else
        set_ (g autoscalerPresent [Kind_string (i_Kind a)]) (f_of_Z 1) ::
        map (λ p, set_ (g autoscalerTargetConfigured [Kind_string (i_Kind a); p.1]) (f_of_Z p.2))
          (map_to_list (ConfiguredTargets a))
  | None => []
  end.

(** The series of an autoscaler, which stay where the pass computed nothing. *)
Definition of_autoscaler (s : series) : bool :=
  match s with
  | IdentitySeries autoscalerPresent _ _ | IdentitySeries autoscalerTargetConfigured _ _ => true
  | _ => false
  end.

Definition identityCounters (s : identitySeries) : list emission :=
  let h := is_health s in
  let c v ls := IdentitySeries v (is_key s) ls in
  (if hasFailed h then [add (c workloadRetryAttempts []) (f_of_Z (Attempts h))] else []) ++
  concat (map (λ m, map (λ p, add (c recycleSuppressedTotal [p.1]) (f_of_Z p.2)) (map_to_list (ms_suppressed m)))
    (is_members s)) ++
  (if is_tooYoung s then [add (c recommendationSkipped ["workload_too_young"]) (f_of_Z 1)] else []) ++
  concat (map (λ f, add (c oomFloorApplied [of_container f]) (f_of_Z 1) ::
    (if live f then [observe (c oomReactionLatencySeconds []) (Seconds (reaction f))] else [])) (is_oomFloors s)) ++
  (if is_mismatch s then [add (c groupAutoscalerMismatchTotal []) (f_of_Z 1)] else []).

Definition publishIdentity (reg : registry) (id : published) (s : identitySeries) : registry * published :=
  let '(reg, gauges) := emitAll (reg, ∅) (identityGauges s) in
  let gauges :=
    match is_autoscaler s with
    | None => gauges ∪ filter (λ x, of_autoscaler x = true) (pb_gauges id)
    | Some _ => gauges
    end in
  let reg := replace reg gauges (pb_gauges id) in
  let '(reg, counters) := emitAll (reg, pb_counters id) (identityCounters s) in
  (reg, {| pb_gauges := gauges; pb_counters := counters |}).

Definition includedLocked (pols : gmap string policyPublished) (key : WorkloadIdentity) : bool :=
  existsb (λ p, bool_decide (key ∈ pp_identities p.2)) (map_to_list pols).

Definition dropOne (p : publisher) (key : WorkloadIdentity) : publisher :=
  if includedLocked (policies p) key then p
  else
    match identities p !! key with
    | Some id =>
        {| policies := policies p; identities := delete key (identities p);
           exported := deleteSeries (deleteSeries (exported p) (pb_gauges id)) (pb_counters id) |}
    | None => p
    end.

Definition dropLocked (p : publisher) (ids : gset WorkloadIdentity) : publisher := foldl dropOne p (elements ids).

(** One identity of a publication: the registry, the Policy's new gauges and
    the identities so far. *)
Definition publishNext (policy : string)
    (acc : registry * seriesSet * gmap WorkloadIdentity published) (s : identitySeries) :
    registry * seriesSet * gmap WorkloadIdentity published :=
  let '(reg, gauges, ids) := acc in
  let '(reg, gauges) := emitAll (reg, gauges) (memberEmissions policy s) in
  let '(reg, id) := publishIdentity reg (identityLocked ids (is_key s)) s in
  (reg, gauges, <[is_key s := id]> ids).

Definition publish (p : publisher) (policy : string) (pub : publication) : publisher :=
  let pol := policyLocked p policy in
  let '(reg, gauges) := emitAll (exported p, ∅) (policyGauges policy pub) in
  let '(reg, counters) :=
    emitAll (reg, pb_counters (pp_published pol))
      (if 0 <? pub_fetchFailed pub
       then [add (PolicySeries policyBatchFailuresTotal policy []) (f_of_Z (pub_fetchFailed pub))] else []) in
  let '(reg, gauges, ids) := foldl (publishNext policy) (reg, gauges, identities p) (pub_identities pub) in
  let reg := replace reg gauges (pb_gauges (pp_published pol)) in
  let included := list_to_set (map is_key (pub_identities pub)) in
  let p :=
    {| policies := <[policy := {| pp_published := {| pb_gauges := gauges; pb_counters := counters |};
                                  pp_identities := included |}]> (policies p);
       identities := ids; exported := reg |} in
  dropLocked p (pp_identities pol).

Definition reconciled (p : publisher) (policy result : string) (took : duration) : publisher :=
  let pol := policyLocked p policy in
  let '(reg, counters) :=
    emitAll (exported p, pb_counters (pp_published pol))
      [ add (PolicySeries reconcileTotal policy [result]) (f_of_Z 1);
        observe (PolicySeries reconcileDuration policy []) (Seconds took) ] in
  {| policies := <[policy := {| pp_published := {| pb_gauges := pb_gauges (pp_published pol); pb_counters := counters |};
                                pp_identities := pp_identities pol |}]> (policies p);
     identities := identities p; exported := reg |}.

Definition observedOOM (p : publisher) (policy : string) (id : WorkloadIdentity) (container : string) : publisher :=
  let pol := policyLocked p policy in
  let pub := identityLocked (identities p) id in
  let '(reg, counters) :=
    emitAll (exported p, pb_counters pub) [add (IdentitySeries oomObservedTotal id [container]) (f_of_Z 1)] in
  {| policies := <[policy := {| pp_published := pp_published pol; pp_identities := {[id]} ∪ pp_identities pol |}]> (policies p);
     identities := <[id := {| pb_gauges := pb_gauges pub; pb_counters := counters |}]> (identities p);
     exported := reg |}.

Definition forget (p : publisher) (policy : string) : publisher :=
  match policies p !! policy with
  | None => p
  | Some pol =>
      let p :=
        {| policies := delete policy (policies p); identities := identities p;
           exported := deleteSeries (deleteSeries (exported p) (pb_gauges (pp_published pol)))
                         (pb_counters (pp_published pol)) |} in
      dropLocked p (pp_identities pol)
  end.
End Published.

(** ** Ownership *)
Section Ownership.
Context {QO : QuantityOps} {KO : KubeOps}.
Implicit Types (p : publisher) (reg : registry) (s : series) (o : string + WorkloadIdentity) (xs : list emission).

Definition owner s : string + WorkloadIdentity :=
  match s with PolicySeries _ n _ => inl n | IdentitySeries _ k _ => inr k end.

Definition counting s : bool :=
  match s with
  | PolicySeries v _ _ =>
      match v with policyBatchFailuresTotal | reconcileTotal | reconcileDuration => true | _ => false end
  | IdentitySeries v _ _ =>
      match v with
      | workloadRetryAttempts | recycleSuppressedTotal | recommendationSkipped | oomFloorApplied
      | oomReactionLatencySeconds | groupAutoscalerMismatchTotal | oomObservedTotal => true
      | _ => false
      end
  end.

(** The emissions are of the owner's own gauges, or counters. *)
Definition emits o (counts : bool) xs : Prop :=
  Forall (λ x, owner (em_series x) = o ∧ counting (em_series x) = counts) xs.

Lemma emits_app o b xs ys : emits o b xs → emits o b ys → emits o b (xs ++ ys).
Proof. intros. by apply Forall_app. Qed.

Lemma emits_concat {A} o b (f : A → list emission) (l : list A) :
  (∀ a, emits o b (f a)) → emits o b (concat (map f l)).
Proof. intros Hf. induction l as [|a l IH]; [constructor|]. cbn. by apply emits_app. Qed.

Lemma emits_map {A} o b (f : A → emission) (l : list A) :
  (∀ a, owner (em_series (f a)) = o ∧ counting (em_series (f a)) = b) → emits o b (map f l).
Proof. intros Hf. induction l as [|a l IH]; constructor; done. Qed.

Lemma emits_nil o b : emits o b [].
Proof. constructor. Qed.
Lemma emits_cons o b x xs :
  owner (em_series x) = o → counting (em_series x) = b → emits o b xs → emits o b (x :: xs).
Proof. by constructor. Qed.

Create HintDb emissions.
#[local] Hint Resolve emits_app emits_concat emits_map emits_nil emits_cons : emissions.

Lemma policyGauges_emits n pub : emits (inl n) false (policyGauges n pub).
Proof. unfold policyGauges. auto 10 with emissions. Qed.

Lemma memberEmissions_emits n (x : identitySeries) : emits (inl n) false (memberEmissions n x).
Proof.
  unfold memberEmissions. apply emits_concat. intros m. apply emits_concat. intros c. unfold containerEmissions.
  repeat apply emits_app; split_cases; auto with emissions.
Qed.

Lemma identityGauges_emits x : emits (inr (is_key x)) false (identityGauges x).
Proof.
  unfold identityGauges. repeat apply emits_app; try (split_cases; auto with emissions; fail).
Qed.

Lemma identityCounters_emits x : emits (inr (is_key x)) true (identityCounters x).
Proof.
  unfold identityCounters. repeat apply emits_app; try (split_cases; auto with emissions; fail).
  apply emits_concat. intros f. apply emits_cons; [done..|]. destruct (live f); auto with emissions.
Qed.

(** ** Writing through a set *)

Definition touched xs : seriesSet := list_to_set (map em_series xs).

Lemma emitAll_spec reg (set : seriesSet) xs :
  snd (emitAll (reg, set) xs) = touched xs ∪ set ∧
  (∀ s, is_Some (fst (emitAll (reg, set) xs) !! s) ↔ is_Some (reg !! s) ∨ s ∈ touched xs) ∧
  ∀ s, s ∉ touched xs → fst (emitAll (reg, set) xs) !! s = reg !! s.
Proof.
  revert reg set. induction xs as [|x xs IH]; intros reg set.
  { unfold touched. cbn. split; [set_solver|]. split; [|done]. intros s. set_solver. }
  unfold emitAll in *. cbn [foldl emit]. destruct (IH (<[em_series x:=em_value x (reg !! em_series x)]> reg)
    ({[em_series x]} ∪ set)) as (H1 & H2 & H3).
  unfold touched in *. cbn [map list_to_set]. split; [rewrite H1; set_solver|]. split.
  - intros s. rewrite H2, elem_of_union, elem_of_singleton, lookup_insert_is_Some'. naive_solver.
  - intros s Hs. rewrite not_elem_of_union, not_elem_of_singleton in Hs. destruct Hs as [Hx Hs].
    rewrite H3 by done. by rewrite lookup_insert_ne.
Qed.

Lemma touched_emits o b xs s : emits o b xs → s ∈ touched xs → owner s = o ∧ counting s = b.
Proof.
  intros He. unfold touched. rewrite elem_of_list_to_set, list_elem_of_fmap. intros (x & -> & Hx).
  unfold emits in He. rewrite Forall_forall in He. by apply He.
Qed.

Lemma deleteSeries_lookup reg (set : seriesSet) s :
  deleteSeries reg set !! s = if bool_decide (s ∈ set) then None else reg !! s.
Proof.
  unfold deleteSeries. rewrite map_lookup_filter. case_bool_decide as Hs; destruct (reg !! s); cbn; try done.
  - by rewrite option_guard_False by tauto.
  - by rewrite option_guard_True by tauto.
Qed.

(** ** One owner's account *)

(** The set holds the owner's series of one sort. *)
Definition own_set o (counts : bool) (set : seriesSet) : Prop := ∀ s, s ∈ set → owner s = o ∧ counting s = counts.

(** Of an owner's series exactly those of a set are exported. *)
Definition exports reg o (set : seriesSet) : Prop := ∀ s, owner s = o → is_Some (reg !! s) ↔ s ∈ set.

Definition same_elsewhere reg reg' o : Prop := ∀ s, owner s ≠ o → reg' !! s = reg !! s.

Record accounts reg o (pub : published) : Prop := {
  acc_gauges : own_set o false (pb_gauges pub);
  acc_counters : own_set o true (pb_counters pub);
  acc_exports : exports reg o (pb_gauges pub ∪ pb_counters pub);
}.

Lemma accounts_frame reg reg' o o' pub :
  same_elsewhere reg reg' o → o' ≠ o → accounts reg o' pub → accounts reg' o' pub.
Proof.
  intros Hs Ho [H1 H2 H3]. split; [done..|]. intros s Hs'. rewrite Hs by congruence. by apply H3.
Qed.

Lemma emitAll_elsewhere reg set o b xs :
  emits o b xs → same_elsewhere reg (fst (emitAll (reg, set) xs)) o.
Proof.
  intros He s Hs. destruct (emitAll_spec reg set xs) as (_ & _ & H). apply H. intros Ht.
  by destruct (touched_emits _ _ _ _ He Ht).
Qed.

Lemma emitAll_exports reg set o b xs all :
  emits o b xs → exports reg o all → exports (fst (emitAll (reg, set) xs)) o (touched xs ∪ all).
Proof.
  intros He Ha s Hs. destruct (emitAll_spec reg set xs) as (_ & H & _). rewrite H, (Ha s Hs). set_solver.
Qed.

Lemma emitAll_own reg set o b xs :
  emits o b xs → own_set o b set → own_set o b (snd (emitAll (reg, set) xs)).
Proof.
  intros He Hs s. destruct (emitAll_spec reg set xs) as (-> & _ & _). rewrite elem_of_union.
  intros [Ht|Ht]; [by eapply touched_emits|by apply Hs].
Qed.

Lemma same_elsewhere_trans reg1 reg2 reg3 o :
  same_elsewhere reg1 reg2 o → same_elsewhere reg2 reg3 o → same_elsewhere reg1 reg3 o.
Proof. intros H1 H2 s Hs. by rewrite H2, H1. Qed.

Lemma deleteSeries_elsewhere reg set o b : own_set o b set → same_elsewhere reg (deleteSeries reg set) o.
Proof. intros H s Hs. rewrite deleteSeries_lookup, bool_decide_eq_false_2; [done|]. intros Hin. by destruct (H s Hin). Qed.

(** Replacing the old gauges with the new leaves the new and the counters. *)
Lemma replace_accounts reg o gauges prev counters :
  own_set o false gauges → own_set o false prev → own_set o true counters →
  exports reg o (gauges ∪ prev ∪ counters) →
  accounts (replace reg gauges prev) o {| pb_gauges := gauges; pb_counters := counters |} ∧
  same_elsewhere reg (replace reg gauges prev) o.
Proof.
  intros Hg Hp Hc He. split.
  - split; [done..|]. cbn. intros s Hs. unfold replace. rewrite deleteSeries_lookup. case_bool_decide as Hd.
    + split; [by intros []|]. intros Hin. apply elem_of_difference in Hd as [H1 H2].
      apply elem_of_union in Hin as [?|Hin]; [done|]. destruct (Hp s H1), (Hc s Hin). congruence.
    + rewrite (He s Hs). clear -Hd. destruct (decide (s ∈ gauges)); set_solver.
  - eapply deleteSeries_elsewhere. intros s [Hin _]%elem_of_difference. by apply Hp.
Qed.

Lemma publishIdentity_accounts reg id x :
  accounts reg (inr (is_key x)) id →
  let '(reg', id') := publishIdentity reg id x in
  accounts reg' (inr (is_key x)) id' ∧ same_elsewhere reg reg' (inr (is_key x)).
Proof.
  set (o := inr (is_key x)). intros [Hg Hc He]. unfold publishIdentity.
  pose proof (identityGauges_emits x) as Eg. pose proof (identityCounters_emits x) as Ec. fold o in Eg, Ec.
  pose proof (emitAll_elsewhere reg ∅ _ _ _ Eg) as F1. pose proof (emitAll_exports reg ∅ _ _ _ _ Eg He) as X1.
  pose proof (emitAll_own reg ∅ _ _ _ Eg ltac:(by intros s ?%elem_of_empty)) as O1.
  pose proof (proj1 (emitAll_spec reg ∅ (identityGauges x))) as S1.
  destruct (emitAll (reg, ∅) (identityGauges x)) as [reg1 gauges]. cbn [fst snd] in *.
  set (gauges' := match is_autoscaler x with None => _ | Some _ => _ end).
  assert (Hsub : gauges ⊆ gauges' ∧ gauges' ⊆ gauges ∪ pb_gauges id).
  { unfold gauges'. destruct (is_autoscaler x); (split; [apply union_subseteq_l || done|]);
      [apply union_subseteq_l|]. intros s. rewrite !elem_of_union, elem_of_filter. naive_solver. }
  assert (O2 : own_set o false gauges').
  { intros s Hs. apply Hsub, elem_of_union in Hs as [?|?]; [by apply O1|by apply Hg]. }
  destruct (replace_accounts reg1 o gauges' (pb_gauges id) (pb_counters id) O2 Hg Hc) as [[_ _ X2] F2].
  { intros s Hs. rewrite (X1 s Hs). rewrite S1 in Hsub. clear -Hsub. set_solver. }
  pose proof (emitAll_elsewhere (replace reg1 gauges' (pb_gauges id)) (pb_counters id) _ _ _ Ec) as F3.
  pose proof (emitAll_exports (replace reg1 gauges' (pb_gauges id)) (pb_counters id) _ _ _ _ Ec X2) as X3.
  pose proof (emitAll_own (replace reg1 gauges' (pb_gauges id)) (pb_counters id) _ _ _ Ec Hc) as O3.
  pose proof (proj1 (emitAll_spec (replace reg1 gauges' (pb_gauges id)) (pb_counters id) (identityCounters x))) as S3.
  destruct (emitAll (replace _ _ _, _) _) as [reg3 counters]. cbn [fst snd pb_gauges pb_counters] in *.
  split; [|by eapply same_elsewhere_trans; [|eapply same_elsewhere_trans]].
  split; [done..|]. cbn. intros s Hs. rewrite (X3 s Hs), S3. rewrite !elem_of_union, ?elem_of_empty; tauto.
Qed.

(** ** The invariant *)

Definition holding (pols : gmap string policyPublished) (ids : gmap WorkloadIdentity published) o : published :=
  match o with
  | inl n => match pols !! n with Some pol => pp_published pol | None => noPublished end
  | inr k => default noPublished (ids !! k)
  end.

Definition included_by (pols : gmap string policyPublished) (k : WorkloadIdentity) : Prop :=
  ∃ n pol, pols !! n = Some pol ∧ k ∈ pp_identities pol.

(** Every owner's series are exactly those it holds, and an identity is held
    only while a Policy includes it. *)
Record well_kept p : Prop := {
  wk_accounts : ∀ o, accounts (exported p) o (holding (policies p) (identities p) o);
  wk_included : ∀ k, is_Some (identities p !! k) → included_by (policies p) k;
}.

Lemma includedLocked_spec pols k : includedLocked pols k = true ↔ included_by pols k.
Proof.
  unfold includedLocked, included_by. rewrite existsb_exists_elem. split.
  - intros ([n pol] & Hin%elem_of_map_to_list & Hk%bool_decide_eq_true). eauto.
  - intros (n & pol & Hn & Hk). exists (n, pol). rewrite elem_of_map_to_list. split; [done|]. by apply bool_decide_eq_true.
Qed.

Lemma noPublished_accounts reg o : (∀ s, owner s = o → reg !! s = None) → accounts reg o noPublished.
Proof.
  intros H. split; [by intros s ?%elem_of_empty..|]. intros s Hs. rewrite (H s Hs). cbn.
  split; [by intros []|set_solver].
Qed.

(** Deleting all an owner holds. *)
Lemma deleteAll_accounts reg o pub :
  accounts reg o pub →
  let reg' := deleteSeries (deleteSeries reg (pb_gauges pub)) (pb_counters pub) in
  accounts reg' o noPublished ∧ same_elsewhere reg reg' o.
Proof.
  intros [Hg Hc He]. split.
  - apply noPublished_accounts. intros s Hs. rewrite !deleteSeries_lookup. case_bool_decide as H1; [done|].
    case_bool_decide as H2; [done|]. destruct (reg !! s) eqn:E; [|done].
    assert (s ∈ pb_gauges pub ∪ pb_counters pub) as [?|?]%elem_of_union; [|done..]. by apply He; [|rewrite E].
  - eapply same_elsewhere_trans; by eapply deleteSeries_elsewhere.
Qed.

Lemma dropOne_accounts p k :
  (∀ o, accounts (exported p) o (holding (policies p) (identities p) o)) →
  (∀ o, accounts (exported (dropOne p k)) o (holding (policies (dropOne p k)) (identities (dropOne p k)) o)) ∧
  policies (dropOne p k) = policies p.
Proof.
  intros Ha. unfold dropOne. destruct (includedLocked _ _); [done|]. destruct (identities p !! k) as [id|] eqn:Ek; [|done].
  split; [|done]. cbn. intros o.
  pose proof (Ha (inr k)) as Hk. cbn in Hk. rewrite Ek in Hk. cbn in Hk.
  destruct (deleteAll_accounts _ _ _ Hk) as [H1 H2].
  destruct (decide (o = inr k)) as [->|Hne].
  - cbn. by rewrite lookup_delete_eq.
  - eapply accounts_frame; [exact H2|done|]. replace (holding (policies p) (delete k (identities p)) o) with
      (holding (policies p) (identities p) o); [done|].
    destruct o as [n|k']; cbn; [done|]. by rewrite lookup_delete_ne by congruence.
Qed.

Lemma dropOne_identities p k k' :
  is_Some (identities (dropOne p k) !! k') →
  is_Some (identities p !! k') ∧ (k' = k → included_by (policies p) k').
Proof.
  unfold dropOne. destruct (includedLocked _ k) eqn:Ei.
  - intros H. split; [done|]. intros ->. by apply includedLocked_spec.
  - destruct (identities p !! k) as [id|] eqn:Ek; cbn.
    + rewrite lookup_delete_is_Some. intros [Hne H]. split; [done|]. intros ->. done.
    + intros H. split; [done|]. intros ->. rewrite Ek in H. by destruct H.
Qed.

(** Dropping identities touches no Policy. *)
Lemma dropLocked_policies p ids : policies (dropLocked p ids) = policies p.
Proof.
  unfold dropLocked. generalize (elements ids). intros ks. revert p.
  induction ks as [|k ks IH]; intros p; cbn [foldl]; [done|]. rewrite IH. unfold dropOne.
  destruct (includedLocked _ _); [done|]. by destruct (identities p !! k).
Qed.

Lemma dropLocked_well_kept p ids :
  (∀ o, accounts (exported p) o (holding (policies p) (identities p) o)) →
  (∀ k, is_Some (identities p !! k) → included_by (policies p) k ∨ k ∈ ids) →
  well_kept (dropLocked p ids).
Proof.
  intros Ha Hi. unfold dropLocked.
  assert (Hi' : ∀ k, is_Some (identities p !! k) → included_by (policies p) k ∨ k ∈ elements ids).
  { intros k Hk. rewrite elem_of_elements. by apply Hi. }
  clear Hi. revert p Ha Hi'. induction (elements ids) as [|k ks IH]; intros p Ha Hi; cbn [foldl].
  - split; [done|]. intros k Hk. destruct (Hi k Hk) as [?|?%not_elem_of_nil]; done.
  - destruct (dropOne_accounts p k Ha) as [Ha' Hp]. apply IH; [done|]. intros k' Hk'. rewrite Hp.
    apply dropOne_identities in Hk' as [Hk' Hin].
    destruct (Hi k' Hk') as [?|[->|?]%elem_of_cons]; [by left| |by right]. left. by apply Hin.
Qed.

(** The registry mid-publication: the Policy's old gauges beside its new. *)
Record publishing (reg : registry) n (gauges : seriesSet) (old : published) (pols : gmap string policyPublished)
    (ids : gmap WorkloadIdentity published) : Prop := {
  pu_gauges : own_set (inl n) false gauges;
  pu_exports : exports reg (inl n) (gauges ∪ (pb_gauges old ∪ pb_counters old));
  pu_others : ∀ o, o ≠ inl n → accounts reg o (holding pols ids o);
}.

Lemma publishNext_publishing n old pols reg gauges ids x :
  publishing reg n gauges old pols ids →
  let '(reg', gauges', ids') := publishNext n (reg, gauges, ids) x in
  publishing reg' n gauges' old pols ids' ∧ ids' !! is_key x ≠ None ∧
  ∀ k, is_Some (ids' !! k) → is_Some (ids !! k) ∨ k = is_key x.
Proof.
  intros [Hg He Ho]. unfold publishNext.
  pose proof (memberEmissions_emits n x) as Em.
  pose proof (emitAll_elsewhere reg gauges _ _ _ Em) as F1. pose proof (emitAll_exports reg gauges _ _ _ _ Em He) as X1.
  pose proof (emitAll_own reg gauges _ _ _ Em Hg) as O1.
  pose proof (proj1 (emitAll_spec reg gauges (memberEmissions n x))) as S1.
  destruct (emitAll (reg, gauges) _) as [reg1 gauges1]. cbn [fst snd] in *.
  assert (Hid : accounts reg1 (inr (is_key x)) (identityLocked ids (is_key x))).
  { eapply accounts_frame; [exact F1|done|]. by apply (Ho (inr (is_key x))). }
  pose proof (publishIdentity_accounts reg1 _ x Hid) as Hpub.
  destruct (publishIdentity reg1 _ x) as [reg2 id2]. destruct Hpub as [Hacc F2].
  split; [split|split].
  - done.
  - intros s Hs. rewrite F2 by (rewrite Hs; done). rewrite (X1 s Hs), S1. rewrite !elem_of_union, ?elem_of_empty; tauto.
  - intros o Hne. destruct (decide (o = inr (is_key x))) as [->|Hk].
    + cbn. by rewrite lookup_insert_eq.
    + eapply accounts_frame; [exact F2|done|]. eapply accounts_frame; [exact F1|done|].
      replace (holding pols (<[is_key x:=id2]> ids) o) with (holding pols ids o); [by apply Ho|].
      destruct o; [done|]. cbn. by rewrite lookup_insert_ne by congruence.
  - by rewrite lookup_insert_eq.
  - intros k Hk. apply lookup_insert_is_Some in Hk as [->|[_ Hk]]; [by right|by left].
Qed.

Lemma publishAll_publishing n old pols reg gauges ids (l : list identitySeries) :
  publishing reg n gauges old pols ids →
  let '(reg', gauges', ids') := foldl (publishNext n) (reg, gauges, ids) l in
  publishing reg' n gauges' old pols ids' ∧
  ∀ k, is_Some (ids' !! k) → is_Some (ids !! k) ∨ k ∈ map is_key l.
Proof.
  revert reg gauges ids. induction l as [|x l IH]; intros reg gauges ids Hp; [split; [done|by left]|].
  cbn [foldl]. pose proof (publishNext_publishing n old pols reg gauges ids x Hp) as H.
  destruct (publishNext n (reg, gauges, ids) x) as [[reg1 gauges1] ids1]. destruct H as (Hp1 & _ & Hk1).
  specialize (IH reg1 gauges1 ids1 Hp1). destruct (foldl _ _ l) as [[reg2 gauges2] ids2].
  destruct IH as [Hp2 Hk2]. split; [done|]. intros k [Hk| Hk]%Hk2; cbn [map]; rewrite elem_of_cons; [|tauto].
  apply Hk1 in Hk. tauto.
Qed.

(** A Policy's counters, written beside its gauges. *)
Lemma policy_counters_accounts reg n pub xs :
  accounts reg (inl n) pub → emits (inl n) true xs →
  let '(reg', counters) := emitAll (reg, pb_counters pub) xs in
  accounts reg' (inl n) {| pb_gauges := pb_gauges pub; pb_counters := counters |} ∧ same_elsewhere reg reg' (inl n).
Proof.
  intros [Hg Hc He] Em.
  pose proof (emitAll_elsewhere reg (pb_counters pub) _ _ _ Em) as F. pose proof (emitAll_exports reg (pb_counters pub) _ _ _ _ Em He) as X.
  pose proof (emitAll_own reg (pb_counters pub) _ _ _ Em Hc) as O.
  pose proof (proj1 (emitAll_spec reg (pb_counters pub) xs)) as S1.
  destruct (emitAll _ _) as [reg' counters]. cbn [fst snd] in *. split; [|done]. split; [done..|]. cbn.
  intros s Hs. rewrite (X s Hs), S1. rewrite !elem_of_union, ?elem_of_empty; tauto.
Qed.

Lemma publish_well_kept p n pub : well_kept p → well_kept (publish p n pub).
Proof.
  intros [Ha Hi]. unfold publish. set (pol := policyLocked p n).
  assert (Hpol : holding (policies p) (identities p) (inl n) = pp_published pol).
  { unfold pol, policyLocked. cbn. by destruct (policies p !! n). }
  pose proof (Ha (inl n)) as Hn. rewrite Hpol in Hn. destruct Hn as [Hg Hc He].
  pose proof (policyGauges_emits n pub) as Eg.
  pose proof (emitAll_elsewhere (exported p) ∅ _ _ _ Eg) as F1.
  pose proof (emitAll_exports (exported p) ∅ _ _ _ _ Eg He) as X1.
  pose proof (emitAll_own (exported p) ∅ _ _ _ Eg ltac:(by intros s ?%elem_of_empty)) as O1.
  pose proof (proj1 (emitAll_spec (exported p) ∅ (policyGauges n pub))) as S1.
  destruct (emitAll (exported p, ∅) _) as [reg1 gauges1]. cbn [fst snd] in *.
  set (xs := if 0 <? pub_fetchFailed pub then _ else _).
  assert (Ec : emits (inl n) true xs) by (unfold xs; destruct (0 <? _); repeat constructor).
  pose proof (emitAll_elsewhere reg1 (pb_counters (pp_published pol)) _ _ _ Ec) as F2.
  pose proof (emitAll_exports reg1 (pb_counters (pp_published pol)) _ _ _ _ Ec X1) as X2.
  pose proof (emitAll_own reg1 (pb_counters (pp_published pol)) _ _ _ Ec Hc) as O2.
  pose proof (proj1 (emitAll_spec reg1 (pb_counters (pp_published pol)) xs)) as S2.
  destruct (emitAll (reg1, _) xs) as [reg2 counters]. cbn [fst snd] in *.
  set (old := {| pb_gauges := pb_gauges (pp_published pol); pb_counters := counters |}).
  assert (Hp : publishing reg2 n gauges1 old (policies p) (identities p)).
  { split; [done| |].
    - intros s Hs. unfold old. cbn. rewrite (X2 s Hs), S1, S2. rewrite !elem_of_union, ?elem_of_empty; tauto.
    - intros o Ho. eapply accounts_frame; [exact F2|done|]. eapply accounts_frame; [exact F1|done|]. apply Ha. }
  pose proof (publishAll_publishing n old (policies p) reg2 gauges1 (identities p) (pub_identities pub) Hp) as Hall.
  destruct (foldl (publishNext n) _ _) as [[reg3 gauges3] ids3]. destruct Hall as [[Hg3 He3 Ho3] Hk3].
  destruct (replace_accounts reg3 (inl n) gauges3 (pb_gauges (pp_published pol)) counters Hg3 Hg O2) as [Hacc F4].
  { intros s Hs. rewrite (He3 s Hs). unfold old. cbn. rewrite !elem_of_union, ?elem_of_empty; tauto. }
  apply dropLocked_well_kept; cbn.
  - intros o. destruct (decide (o = inl n)) as [->|Hne]; [cbn; by rewrite lookup_insert_eq|].
    eapply accounts_frame; [exact F4|done|].
    replace (holding _ ids3 o) with (holding (policies p) ids3 o); [by apply Ho3|].
    destruct o as [n'|k]; [|done]. cbn. by rewrite lookup_insert_ne by congruence.
  - intros k Hk. destruct (Hk3 k Hk) as [Hold|Hnew].
    + destruct (Hi k Hold) as (n' & pol' & Hn' & Hin). destruct (decide (n' = n)) as [->|Hne].
      * right. unfold pol, policyLocked. by rewrite Hn'.
      * left. exists n', pol'. by rewrite lookup_insert_ne.
    + left. eexists n, _. rewrite lookup_insert_eq. split; [done|]. cbn. by apply elem_of_list_to_set.
Qed.

Lemma reconciled_well_kept p n result took : well_kept p → well_kept (reconciled p n result took).
Proof.
  intros [Ha Hi]. unfold reconciled. set (pol := policyLocked p n).
  assert (Hpol : holding (policies p) (identities p) (inl n) = pp_published pol)
    by (unfold pol, policyLocked; cbn; by destruct (policies p !! n)).
  pose proof (Ha (inl n)) as Hn. rewrite Hpol in Hn.
  set (xs := [add _ _; observe _ _]).
  pose proof (policy_counters_accounts (exported p) n (pp_published pol) xs Hn ltac:(repeat constructor)) as H.
  destruct (emitAll _ xs) as [reg counters]. destruct H as [Hacc F]. split; cbn.
  - intros o. destruct (decide (o = inl n)) as [->|Hne]; [cbn; by rewrite lookup_insert_eq|].
    eapply accounts_frame; [exact F|done|].
    replace (holding _ (identities p) o) with (holding (policies p) (identities p) o); [apply Ha|].
    destruct o as [n'|k]; [|done]. cbn. by rewrite lookup_insert_ne by congruence.
  - intros k Hk. destruct (Hi k Hk) as (n' & pol' & Hn' & Hin). destruct (decide (n' = n)) as [->|Hne].
    + eexists n, _. rewrite lookup_insert_eq. split; [done|]. cbn. unfold pol, policyLocked. by rewrite Hn'.
    + exists n', pol'. by rewrite lookup_insert_ne.
Qed.

Lemma observedOOM_well_kept p n id c : well_kept p → well_kept (observedOOM p n id c).
Proof.
  intros [Ha Hi]. unfold observedOOM. set (pol := policyLocked p n). set (pub := identityLocked _ _).
  pose proof (Ha (inr id)) as [Hg Hc He]. fold (identityLocked (identities p) id) in Hg, Hc, He. fold pub in Hg, Hc, He.
  set (xs := [add _ _]). assert (Em : emits (inr id) true xs) by repeat constructor.
  pose proof (emitAll_elsewhere (exported p) (pb_counters pub) _ _ _ Em) as F.
  pose proof (emitAll_exports (exported p) (pb_counters pub) _ _ _ _ Em He) as X.
  pose proof (emitAll_own (exported p) (pb_counters pub) _ _ _ Em Hc) as O.
  pose proof (proj1 (emitAll_spec (exported p) (pb_counters pub) xs)) as S1.
  destruct (emitAll _ xs) as [reg counters]. cbn [fst snd] in *. split; cbn.
  - intros o. destruct (decide (o = inr id)) as [->|Hne].
    + cbn. rewrite lookup_insert_eq. split; [done..|]. cbn. intros s Hs. rewrite (X s Hs), S1. rewrite !elem_of_union, ?elem_of_empty; tauto.
    + eapply accounts_frame; [exact F|done|].
      replace (holding _ (<[_ := _]> _) o) with (holding (policies p) (identities p) o); [apply Ha|].
      destruct o as [n'|k]; cbn; [|by rewrite lookup_insert_ne by congruence].
      destruct (decide (n' = n)) as [->|Hn']; [|by rewrite lookup_insert_ne].
      rewrite lookup_insert_eq. cbn. unfold pol, policyLocked. by destruct (policies p !! n).
  - intros k Hk. destruct (decide (k = id)) as [->|Hne].
    + eexists n, _. rewrite lookup_insert_eq. split; [done|]. cbn. set_solver.
    + rewrite lookup_insert_ne in Hk by done. destruct (Hi k Hk) as (n' & pol' & Hn' & Hin).
      destruct (decide (n' = n)) as [->|Hn].
      * eexists n, _. rewrite lookup_insert_eq. split; [done|]. cbn. unfold pol, policyLocked. rewrite Hn'. cbn. set_solver.
      * exists n', pol'. by rewrite lookup_insert_ne.
Qed.

Lemma forget_well_kept p n : well_kept p → well_kept (forget p n).
Proof.
  intros [Ha Hi]. unfold forget. destruct (policies p !! n) as [pol|] eqn:En; [|done].
  pose proof (Ha (inl n)) as Hn. cbn in Hn. rewrite En in Hn.
  destruct (deleteAll_accounts _ _ _ Hn) as [H1 F]. apply dropLocked_well_kept; cbn.
  - intros o. destruct (decide (o = inl n)) as [->|Hne]; [cbn; by rewrite lookup_delete_eq|].
    eapply accounts_frame; [exact F|done|].
    replace (holding _ _ o) with (holding (policies p) (identities p) o); [apply Ha|].
    destruct o as [n'|k]; [|done]. cbn. by rewrite lookup_delete_ne by congruence.
  - intros k Hk. destruct (Hi k Hk) as (n' & pol' & Hn' & Hin). destruct (decide (n' = n)) as [->|Hne].
    + right. by simplify_eq.
    + left. exists n', pol'. by rewrite lookup_delete_ne.
Qed.

(** The Policies known after each operation, and what each includes. *)
Lemma publish_policies p n pub :
  pp_identities <$> policies (publish p n pub) =
  <[n := list_to_set (map is_key (pub_identities pub))]> (pp_identities <$> policies p).
Proof.
  unfold publish. destruct (emitAll _ (policyGauges n pub)) as [reg gauges].
  destruct (emitAll (reg, _) _) as [reg' counters].
  destruct (foldl (publishNext n) _ _) as [[reg'' gauges'] ids].
  rewrite dropLocked_policies. cbn [policies]. by rewrite fmap_insert.
Qed.

Lemma policyLocked_identities p n :
  pp_identities (policyLocked p n) = default ∅ ((pp_identities <$> policies p) !! n).
Proof. unfold policyLocked. rewrite lookup_fmap. by destruct (policies p !! n). Qed.

Lemma reconciled_policies p n result took :
  pp_identities <$> policies (reconciled p n result took) =
  <[n := default ∅ ((pp_identities <$> policies p) !! n)]> (pp_identities <$> policies p).
Proof.
  unfold reconciled. destruct (emitAll _ _) as [reg counters]. cbn [policies].
  by rewrite fmap_insert, <-policyLocked_identities.
Qed.

Lemma observedOOM_policies p n id c :
  pp_identities <$> policies (observedOOM p n id c) =
  <[n := {[id]} ∪ default ∅ ((pp_identities <$> policies p) !! n)]> (pp_identities <$> policies p).
Proof.
  unfold observedOOM. destruct (emitAll _ _) as [reg counters]. cbn [policies].
  by rewrite fmap_insert, <-policyLocked_identities.
Qed.

Lemma forget_policies p n : pp_identities <$> policies (forget p n) = delete n (pp_identities <$> policies p).
Proof.
  unfold forget. destruct (policies p !! n) as [pol|] eqn:E.
  - rewrite dropLocked_policies. cbn [policies]. by rewrite fmap_delete.
  - rewrite delete_id; [done|]. by rewrite lookup_fmap, E.
Qed.

Inductive reachable : publisher → Prop :=
  | reach_new : reachable newPublisher
  | reach_publish p n pub : reachable p → reachable (publish p n pub)
  | reach_reconciled p n result took : reachable p → reachable (reconciled p n result took)
  | reach_oom p n id c : reachable p → reachable (observedOOM p n id c)
  | reach_forget p n : reachable p → reachable (forget p n).

Lemma reachable_well_kept p : reachable p → well_kept p.
Proof.
  induction 1; auto using publish_well_kept, reconciled_well_kept, observedOOM_well_kept, forget_well_kept.
  split; [|intros k [x Hx]; cbn in Hx; by rewrite lookup_empty in Hx]. intros o. replace (holding _ _ o) with noPublished by (by destruct o).
  by apply noPublished_accounts.
Qed.

(** C11: No series outlives what it describes. Whatever is published, counted,
    observed and forgotten, a series is exported exactly while its owner holds
    it: a Policy's until the Policy is forgotten, an identity's only while some
    Policy's last pass includes it, or was told a kill of it since. *)
Theorem no_series_outlives p s :
  reachable p →
  match s with
  | PolicySeries _ n _ =>
      is_Some (exported p !! s) ↔
        ∃ pol, policies p !! n = Some pol ∧ s ∈ pb_gauges (pp_published pol) ∪ pb_counters (pp_published pol)
  | IdentitySeries _ k _ =>
      (is_Some (exported p !! s) ↔ ∃ pub, identities p !! k = Some pub ∧ s ∈ pb_gauges pub ∪ pb_counters pub) ∧
      (is_Some (exported p !! s) → ∃ n pol, policies p !! n = Some pol ∧ k ∈ pp_identities pol)
  end.
Proof.
  intros [Ha Hi]%reachable_well_kept. destruct s as [v n ls|v k ls].
  - rewrite (acc_exports _ _ _ (Ha (inl n)) (PolicySeries v n ls) eq_refl). cbn.
    destruct (policies p !! n) as [pol|]; [naive_solver|]. split; [|naive_solver]. cbn.
    intros [?%elem_of_empty|?%elem_of_empty]%elem_of_union; done.
  - assert (H : is_Some (exported p !! IdentitySeries v k ls) ↔ ∃ pub, identities p !! k = Some pub ∧
      IdentitySeries v k ls ∈ pb_gauges pub ∪ pb_counters pub).
    { rewrite (acc_exports _ _ _ (Ha (inr k)) (IdentitySeries v k ls) eq_refl). cbn.
      destruct (identities p !! k) as [pub|]; cbn; [naive_solver|]. split; [|naive_solver].
      intros [?%elem_of_empty|?%elem_of_empty]%elem_of_union; done. }
    split; [exact H|]. rewrite H. intros (pub & Hk & _). apply Hi. by rewrite Hk.
Qed.

(** Once every Policy is forgotten nothing is exported. *)
Lemma forgotten_exports_nothing p : reachable p → policies p = ∅ → exported p = ∅.
Proof.
  intros Hp%reachable_well_kept Hnone. destruct Hp as [Ha Hi]. apply map_empty. intros s.
  destruct (exported p !! s) eqn:E; [|done].
  assert (Hs : is_Some (exported p !! s)) by (by rewrite E). apply (acc_exports _ _ _ (Ha (owner s)) s eq_refl) in Hs.
  destruct s as [v n ls|v k ls]; cbn in Hs.
  - rewrite Hnone, lookup_empty in Hs. cbn in Hs. apply elem_of_union in Hs as [?%elem_of_empty|?%elem_of_empty]; done.
  - destruct (identities p !! k) as [pub|] eqn:Ek; cbn in Hs;
      [|apply elem_of_union in Hs as [?%elem_of_empty|?%elem_of_empty]; done].
    destruct (Hi k) as (n & pol & Hn & _); [by rewrite Ek|]. by rewrite Hnone, lookup_empty in Hn.
Qed.
End Ownership.

(** ** At a concrete input *)
Section Sample.
#[local] Existing Instance nano_quantity.
#[local] Existing Instance simple_kube.

Lemma None_ne_Some {A} (x : A) : None = Some x → False.
Proof. done. Qed.

Definition sample_publication (ids : list WorkloadIdentity) : publication :=
  {| pub_live := 1; pub_blocked := 0; pub_requested := 1; pub_resolved := 1; pub_fetchFailed := 0;
     pub_identities := map (λ id,
       {| is_key := id;
          is_health := {| h_Pods := {| Total := 3; Stale := 1 |}; Measured := true; BlockedOn := StepNone; Attempts := 0 |};
          is_autoscaler := None; is_mismatch := false; is_oomFloors := []; is_tooYoung := true; is_members := [] |}) ids |}.

(** An identity moves from one Policy to another, and the first forgets it. *)
Definition sample_moved : publisher :=
  let p := publish newPublisher "frugal" (sample_publication [webIdentity]) in
  let p := publish p "generous" (sample_publication [webIdentity]) in
  publish p "frugal" (sample_publication []).

Lemma no_series_outlives_witness :
  is_Some (exported sample_moved !! IdentitySeries workloadPods webIdentity []) ∧
  exported (publish sample_moved "generous" (sample_publication [])) !! IdentitySeries workloadPods webIdentity [] = None.
Proof.
  split; [by_evaluation|]. apply eq_None_not_Some. intros Hs.
  assert (Hr : reachable (publish sample_moved "generous" (sample_publication []))) by (repeat constructor).
  destruct (no_series_outlives _ (IdentitySeries workloadPods webIdentity []) Hr) as [Hex _].
  destruct (proj1 Hex Hs) as (pub & Hk & _).
  assert (E : identities (publish sample_moved "generous" (sample_publication [])) !! webIdentity = None) by by_running.
  exact (None_ne_Some _ (eq_trans (eq_sym E) Hk)).
Defined.
End Sample.
