(* ===== verification/OomTrace.v ===== *)
(** * The OOM floor, read back from a trace
    ([TracedOOMFloor] of [recommender/signal_oom.go], [oomFloorsOf] of
    [controller/recommendation_pass.go])

    A pass publishes which containers a floor set the memory request of, and how
    long after a live kill, from nothing but the trace [Compute] left: the fact
    of the stage is text, the instant an RFC 3339 date. *)

From S2P Require Import Prelude GoLang GoFloat GoText Rfc3339 Quantity Kube PolicyApi WlrApi Publisher.
From S2P Require Import Resources Signals Coordination Limits Compute.
Local Open Scope Z_scope.

(** ** Reading *)

Record TracedOOM := {
  Determined : bool;
  LiveKillAt : time;
}.

Section Reading.
Context {PL : Platform} {QO : QuantityOps} {PO : PromOps}.

(** A map read of Go: the zero string for a key it lacks. *)
Definition fact (st : TraceStage) (name : string) : string := default "" (Facts st !! name).

Definition TracedOOMFloor (t : ContainerTrace) : option TracedOOM :=
  match ct_Memory t with
  | None => None
  | Some mem =>
      match stageNamed (rt_Request mem) stageOOMFloor with
      | None => None
      | Some st =>
          Some {| Determined := String.eqb (fact st factDetermined) (FormatBool true);
                  LiveKillAt := default time_zero (ParseRFC3339 (fact st factLiveKillAt)) |}
      end
  end.

(** One container of [oomFloorsOf]. *)
Definition oomFloorOf (now : time) (p : string * ContainerTrace) : option Publisher.oomFloor :=
  match TracedOOMFloor p.2 with
  | None => None
  | Some floor =>
      if negb (Determined floor) then None
      else
        Some (if time_IsZero (LiveKillAt floor)
              then {| of_container := p.1; reaction := 0; live := false |}
              else {| of_container := p.1; reaction := time_Sub now (LiveKillAt floor); live := true |})
  end.

(** The order of the floors is that of Go's map iteration, any of them. *)
Definition oomFloorsOf (traces : gmap string ContainerTrace) (now : time) : list Publisher.oomFloor :=
  omap (oomFloorOf now) (map_to_list traces).

Lemma elem_of_oomFloorsOf traces now f :
  f ∈ oomFloorsOf traces now ↔ ∃ n tr, traces !! n = Some tr ∧ oomFloorOf now (n, tr) = Some f.
Proof.
  unfold oomFloorsOf. rewrite list_elem_of_omap. split.
  - intros ([n tr] & Hin%elem_of_map_to_list & Hf). eauto.
  - intros (n & tr & Hin%elem_of_map_to_list & Hf). eauto.
Qed.
End Reading.

(** ** What is read is what was written *)
Section RoundTrip.
Context {PL : Platform} {QO : QuantityOps} {PO : PromOps} {QL : QuantityLaws}.
Implicit Types (req : Request) (c : Container).

(** The kills of a container of a request. *)
Definition killsOf req c : OOM := oomOf (stage_context memoryResource c req None).

(** The floor is above what the usage of the container asks for. *)
Definition floor_above req c : bool :=
  f_gtb (fst (floor (killsOf req c)))
    (default f_zero (inputs_usage (inputs req) (c_Name c) memoryResource)).

(** No bound of the Policy replaced the request after that: neither the clamp of
    the request with its headroom nor the clamp of what the autoscaler's overhead
    made of it changed it. The overhead itself may have scaled it. *)
Definition unbounded req c : bool :=
  let cfg := request_config memoryResource req in
  let headroom := withHeadroom memoryResource (fst (requestOf (request_contributions memoryResource c req)))
                    (Headroom cfg) in
  let clamped := request_clamped memoryResource c req in
  is_eq (Cmp clamped headroom) &&
  match coordinate clamped memoryResource (coordination req) (autoInfo req) cfg with
  | Some co => is_eq (Cmp (co_value co) (co_scaled co))
  | None => true
  end.

(** An instant RFC 3339 can write. *)
Definition dated (t : time) : Prop := 0 ≤ t < lastDay * 86400 * second.

Lemma oom_contributions req c :
  request_contributions memoryResource c req =
  match inputs_usage (inputs req) (c_Name c) memoryResource with
  | Some u => [usage_contributed memoryResource u]
  | None => []
  end ++ (if recent (killsOf req c) then [oom_contributed (killsOf req c)] else []).
Proof. unfold request_contributions. by rewrite memory_contributions. Qed.

(** Its facts. *)
Lemma oom_stage_facts sc v determined :
  dated (LiveAt (oomOf sc)) →
  fact (oom_stage sc v determined) factDetermined = FormatBool determined ∧
  default time_zero (ParseRFC3339 (fact (oom_stage sc v determined) factLiveKillAt)) =
    LiveAt (oomOf sc) / second * second.
Proof.
  intros Hd. unfold oom_stage, fact. cbn [Facts].
  set (f0 := {[factDetermined := FormatBool determined]} : strmap).
  set (f1 := if String.eqb (snd (floor (oomOf sc))) "" then f0 else <[factAnchor := _]> f0).
  set (f2 := if f_gtb _ _ then <[factKilledAtLimit := _]> f1 else f1).
  assert (H2 : f2 !! factDetermined = Some (FormatBool determined) ∧ f2 !! factLiveKillAt = None).
  { subst f2 f1 f0. destruct (f_gtb _ _), (String.eqb _ _);
      rewrite ?lookup_insert_ne, lookup_singleton_eq, ?lookup_singleton_ne by done; done. }
  destruct H2 as [Hdet Hlive]. unfold time_IsZero. destruct (Z.eqb_spec (LiveAt (oomOf sc)) 0) as [Hz|Hz].
  - rewrite Hdet, Hlive, Hz. done.
  - rewrite lookup_insert_ne by done. rewrite lookup_insert_eq, Hdet. split; [done|]. cbn [default from_option id].
    by rewrite parse_format.
Qed.

(** The stages of the request side: those of its contributions and then stages
    of other names. *)
Lemma size_stages res c req s :
  fst (size res c req) = Some s →
  ∃ winner rest,
    rt_Request (sz_trace s) =
      stagesOf (request_contributions res c req) (stage_context res c req None) winner ++ rest ∧
    Forall (λ st, String.eqb (Stage st) stageOOMFloor = false) rest ∧
    (res = memoryResource →
     winner = if unbounded req c then snd (requestOf (request_contributions res c req)) else -1).
Proof.
  unfold size. fold (request_config res req). fold (stage_context res c req None).
  fold (request_contributions res c req). destruct (requestOf _) as [v winner] eqn:E. cbn [fst snd].
  destruct (_ || _); [done|].
  match goal with |- context [limitChain res ?sc] => destruct (limitChain res sc) as [l ls] end.
  intros [= <-]. cbn [sz_trace rt_Request]. set (co := coordinate _ _ _ _ _).
  match goal with |- context [stagesOf _ _ ?w] => exists w end.
  match goal with |- context [_ ++ ?tail] =>
    exists (tail ++ match co with Some co => [coordinated_stage co] | None => [] end) end.
  split; [by destruct co; rewrite ?app_nil_r, <-?app_assoc|]. split; [by destruct co; repeat constructor|].
  intros ->. unfold unbounded, request_clamped. rewrite E. cbn [fst].
  fold (request_config memoryResource req) in co. subst co. fold (request_config memoryResource req).
  by destruct (coordinate _ _ _ _ _), (is_eq (Cmp (clamp _ _ _) _)); cbn; try destruct (is_eq _).
Qed.

Lemma stageNamed_app l rest name :
  Forall (λ st, String.eqb (Stage st) name = false) rest → stageNamed (l ++ rest) name = stageNamed l name.
Proof.
  intros Hr. unfold stageNamed. induction l as [|s l IH]; simpl; [|by destruct (String.eqb _ _)].
  induction Hr as [|s rest Hs Hrest IH]; simpl; [done|]. by rewrite Hs.
Qed.

(** Read back, the floor of a sized container is there exactly when it was
    killed recently, determined exactly when it set the request, and dated at
    its live kill, to the second. *)
Lemma traced_floor req c s cpu :
  fst (size memoryResource c req) = Some s → dated (LiveAt (killsOf req c)) →
  TracedOOMFloor {| ct_CPU := cpu; ct_Memory := Some (sz_trace s) |} =
  if recent (killsOf req c)
  then Some {| Determined := floor_above req c && unbounded req c;
               LiveKillAt := LiveAt (killsOf req c) / second * second |}
  else None.
Proof.
  intros Hs Hd. destruct (size_stages _ _ _ _ Hs) as (w & rest & Est & Hrest & Hw).
  specialize (Hw eq_refl). unfold TracedOOMFloor. cbn [ct_Memory]. rewrite Est, stageNamed_app by done.
  rewrite oom_contributions in Hw |- *. unfold floor_above, stagesOf.
  set (o := killsOf req c) in *. destruct (recent o) eqn:Hr.
  2:{ by destruct (inputs_usage _ _ _). }
  assert (Hfacts := oom_stage_facts (stage_context memoryResource c req None) (fst (floor o)) (0 =? w) Hd).
  assert (Hfacts' := oom_stage_facts (stage_context memoryResource c req None) (fst (floor o)) (1 =? w) Hd).
  change (oomOf _) with o in Hfacts, Hfacts'.
  assert (Hb : ∀ b, String.eqb (FormatBool b) (FormatBool true) = b) by by intros [].
  set (sc := stage_context memoryResource c req None) in *.
  destruct (inputs_usage (inputs req) (c_Name c) memoryResource) as [u|]; cbn [app] in Hw |- *.
  - change (stageNamed _ _) with (Some (oom_stage sc (fst (floor o)) (1 =? w))).
    destruct Hfacts' as [-> ->]. rewrite Hb, Hw. cbn.
    rewrite orb_true_r. cbn. by destruct (f_gtb _ _), (unbounded req c).
  - change (stageNamed _ _) with (Some (oom_stage sc (fst (floor o)) (0 =? w))).
    destruct Hfacts as [-> ->]. rewrite Hb, Hw. cbn.
    by destruct (f_gtb _ _), (unbounded req c).
Qed.

(** C36: the floors a pass publishes are exactly those of the killed containers
    sized from their floor: it is above their usage, and neither the clamp to
    the Policy's bounds before the autoscaler's coordination nor the one after it
    replaced the request, though the coordination's overhead may have scaled it;
    with how long ago the live kill was, to the second. *)
Theorem published_floors req at_ f :
  NoDup (map c_Name (containers req)) → Forall (λ c, dated (LiveAt (killsOf req c))) (containers req) →
  f ∈ oomFloorsOf (Traces (Compute req)) at_ ↔
  ∃ c, c ∈ containers req ∧ is_Some (fst (size memoryResource c req)) ∧
    recent (killsOf req c) = true ∧ floor_above req c = true ∧ unbounded req c = true ∧
    let killed := LiveAt (killsOf req c) / second * second in
    f = {| of_container := c_Name c;
           reaction := if time_IsZero killed then 0 else time_Sub at_ killed;
           live := negb (time_IsZero killed) |}.
Proof.
  intros Hnd Hdated. rewrite elem_of_oomFloorsOf. rewrite Forall_forall in Hdated. split.
  - intros (n & tr & (c & Hc & <- & Htr)%Compute_Traces & Hf); [|done].
    exists c. split; [done|]. unfold computeContainer in Htr. unfold oomFloorOf in Hf. cbn [fst snd] in Hf.
    destruct (size cpuResource c req) as [cpu cpuOK], (size memoryResource c req) as [mem memOK] eqn:Em.
    destruct (_ && _); [done|]. injection Htr as <-. destruct mem as [s|]; [|by destruct cpu].
    change (sz_trace <$> Some s) with (Some (sz_trace s)) in Hf.
    rewrite (traced_floor req c s) in Hf; [|by rewrite Em|by apply Hdated].
    destruct (recent _); [|done]. cbn [Determined LiveKillAt] in Hf.
    destruct (floor_above req c); [|done]. destruct (unbounded req c); [|done]. cbn [negb andb] in Hf.
    split_and!; try done. injection Hf as <-. cbn zeta. by destruct (time_IsZero _).
  - intros (c & Hc & [s Hs] & Hr & Ha & Hu & ->). exists (c_Name c).
    destruct (computeContainer c req) as [[rec tr]|] eqn:Ec.
    2:{ unfold computeContainer in Ec. destruct (size_spec memoryResource c req) as [Hj Hsize].
        rewrite Hs in Hsize. destruct Hsize as [Hsize _]. rewrite Hsize in Hj.
        destruct (size cpuResource c req), (size memoryResource c req) as [? ?]. cbn in Hj. subst.
        by rewrite andb_false_r in Ec. }
    exists tr. split.
    { apply Compute_Traces; [done|]. exists c. by rewrite Ec. }
    unfold computeContainer in Ec. destruct (size cpuResource c req) as [cpu cpuOK].
    destruct (size memoryResource c req) as [mem memOK] eqn:Em. cbn [fst] in Hs. subst mem.
    destruct (_ && _); [done|]. injection Ec as _ <-. unfold oomFloorOf. cbn [fst snd].
    change (sz_trace <$> Some s) with (Some (sz_trace s)).
    rewrite (traced_floor req c s); [|by rewrite Em|by apply Hdated]. rewrite Hr, Ha, Hu.
    cbn [Determined LiveKillAt negb andb]. by destruct (time_IsZero _).
Qed.
End RoundTrip.

(** ** At a concrete input *)
Section Sample.
#[local] Existing Instance amd64.
#[local] Existing Instance nano_quantity.
#[local] Existing Instance nano_quantity_laws.
#[local] Existing Instance no_durations.

Definition sample_kill : time := (unixToZero + 1709210096) * second + 500000000.

(** The watcher saw the kill of the sample request's container. *)
Definition sample_killed : Request :=
  {| containers := containers sample_request; resources := resources sample_request;
     coordination := coordination sample_request; autoInfo := autoInfo sample_request;
     inputs := NewInputs [WithMemoryUsage {[ "app" := f_of_Z 500000000 ]};
                          WithOOMKills {[ "app" :=
                            {| Kills := f_zero; PeakBytes := f_of_Z 900000000; HasPeak := true;
                               LimitBytes := f_of_Z 1000000000; LiveAt := sample_kill; KillsInStep := f_zero |} ]}];
     since := time_zero; now := sample_kill + 90 * second; fetch := fetch sample_request |}.

Lemma published_floors_witness :
  {| of_container := "app"; reaction := 90 * second + 500000000; live := true |} ∈
    oomFloorsOf (Traces (Compute sample_killed)) (now sample_killed).
Proof.
  apply published_floors.
  - apply NoDup_singleton.
  - apply Forall_singleton. vm_compute. split; [discriminate|reflexivity].
  - exists sample_container. split_and!; [by left|by_evaluation| | | |]; vm_compute; reflexivity.
Defined.
End Sample.
