(* ===== verification/Webhook.v ===== *)
(** * The admission of a pod ([internal/webhook])

    [decide.go]: who governs the pod, what its WorkloadRecommendation holds and
    what that injects. [optin.go]: the owner chain read through the handler's
    caches. [recommendations.go] and [handler.go]: the stored object and the
    response, which always admits. The stub request an admission may call for
    is run by [Stub]. *)

From S2P Require Import Prelude GoLang GoText Quantity Kube PolicyApi WlrApi Owners Shards Resources Compute Inject Governance WlrRead WlrWrite Match.
Local Open Scope Z_scope.

(** ** Labels and reasons *)

Definition RecSourceHit : string := "hit".
Definition RecSourceStale : string := "stale".
Definition RecSourceMissing : string := "missing".
Definition RecSourceUndecided : string := "undecided".
Definition RecSourceNoData : string := "nodata".
Definition RecSourceError : string := "error".
Definition RecSourceRetained : string := "retained".
Definition RecSourceOtherPolicy : string := "other-policy".

(** A refusal of the governance, the label of a verdict that injects nothing,
    or one of the webhook's own. *)
Inductive reason :=
  | reasonRefused (r : Refusal)
  | reasonNotInjecting (source : string)
  | reasonUndecodable
  | reasonPanic
  | reasonGovernanceFailed
  | reasonRecommendationUnreadable
  | reasonNoContainerMatches
  | reasonRecommendOnly
  | reasonAtRecommendation
  | reasonInjected.

Definition recommendationSource (v : Verdict) : string :=
  match v with
  | Absent => RecSourceMissing
  | Undecided => RecSourceUndecided
  | VNoData => RecSourceNoData
  | Withheld => RecSourceOtherPolicy
  | Stale => RecSourceStale
  | Retained => RecSourceRetained
  | Fresh => RecSourceHit
  end.

Section Webhook.
Context {QO : QuantityOps} {KO : KubeOps} {HA : Hashing}.

(** ** The owner chain *)

Record controllerRef := { cr_Namespace : string; cr_Kind : string; cr_Name : string; cr_UID : string }.
Record workloadRef := { wk_Namespace : string; wk_Kind : string; wk_Name : string }.

(** What a [Get] of each cache answers; [ReadThrough] says which answers those
    are. *)
Record ownerCaches := {
  podOwners : controllerRef → result (string * string);
  annotations : workloadRef → result strmap;
}.

Definition cacheableOwnerAnnotations (ann : strmap) : strmap :=
  foldl (λ out k, match ann !! k with Some v => <[k := v]> out | None => out end) ∅
    [PolicyAnnotation; OptOutAnnotation].

Definition fetchPodOwner (c : ClusterReads) (ref : controllerRef) : result (string * string) :=
  ResolveControllerOwner c (cr_Namespace ref)
    {| ref_Kind := cr_Kind ref; ref_Name := cr_Name ref; ref_UID := cr_UID ref; ref_Controller := None |}.

Definition fetchOwnerAnnotations (c : ClusterReads) (ref : workloadRef) : result strmap :=
  match OwnerAnnotations c (wk_Namespace ref) (wk_Kind ref) (wk_Name ref) with
  | Err e => Err e
  | Ok raw => Ok (cacheableOwnerAnnotations raw)
  end.

(** ** The handler *)

(** [h_Policies] is what listing the Policies answers, [h_Get] the read of a
    WorkloadRecommendation. *)
Record Handler := {
  h_Client : ClusterReads;
  h_Get : string * string → result WorkloadRecommendation;
  h_RecommendOnly : bool;
  h_Policies : result Policies;
  h_owners : ownerCaches;
}.

Definition reader_PodOwner (h : Handler) (pod : Pod) : result (string * string) :=
  match GetControllerOf (pod_OwnerReferences pod) with
  | None => Ok ("", "")
  | Some ref =>
      podOwners (h_owners h) {| cr_Namespace := pod_Namespace pod; cr_Kind := ref_Kind ref;
        cr_Name := ref_Name ref; cr_UID := ref_UID ref |}
  end.

Definition reader_WorkloadAnnotations (h : Handler) (namespace kind name : string) : result strmap :=
  match ownerKinds !! kind with
  | None => Ok ∅
  | Some _ => annotations (h_owners h) {| wk_Namespace := namespace; wk_Kind := kind; wk_Name := name |}
  end.

Definition admissionReader (h : Handler) : Reader :=
  {| rd_Policies := h_Policies h;
     rd_PodOwner := reader_PodOwner h;
     rd_WorkloadAnnotations := reader_WorkloadAnnotations h;
     rd_NamespaceAnnotations := NamespaceAnnotations (h_Client h) |}.

(** A missing object is none. *)
Definition storedRecommendation (h : Handler) (id : WorkloadIdentity) : result (option WorkloadRecommendation) :=
  match h_Get h (keyOf (RefOf id)) with
  | Ok wlr => Ok (Some wlr)
  | Err e => if IsNotFound e then Ok None else Err (Errorf "reading WorkloadRecommendation" [e])
  end.

Record stubRequest := {
  sr_known : option WorkloadRecommendation;
  sr_identity : WorkloadIdentity;
  sr_policy : string;
  sr_observed : gmap string ObservedContainerResources;
}.

Record admission := {
  a_reason : reason;
  a_identity : WorkloadIdentity;
  a_optIn : string;
  a_level : Level;
  a_policy : string;
  a_mode : option UpdateMode;
  a_source : string;
  a_verdict : string;
  a_held : gmap string ContainerRecommendation;
  a_recs : gmap string ContainerRecommendation;
  a_writes : list ContainerWrite;
  a_stub : option stubRequest;
  a_err : option error;
}.

(** [admission{reason: r, err: e}] *)
Definition ended (r : reason) (e : option error) : admission :=
  {| a_reason := r; a_identity := noIdentity; a_optIn := ""; a_level := LevelNone; a_policy := ""; a_mode := None;
     a_source := ""; a_verdict := ""; a_held := ∅; a_recs := ∅; a_writes := []; a_stub := None; a_err := e |}.

(** How an admission whose read injects ends. *)
Definition injectionReason (inj : Injection) (recommendOnly : bool) : reason :=
  if bool_decide (inj_Recs inj = ∅) then reasonNoContainerMatches
  else if recommendOnly then reasonRecommendOnly
  else if bool_decide (inj_Writes inj = []) then reasonAtRecommendation
  else reasonInjected.

Definition is_injected (r : reason) : bool := match r with reasonInjected => true | _ => false end.

Definition decide_admission (h : Handler) (now : time) (pod : Pod) : admission :=
  match Decide (SubjectPod pod) (admissionReader h) with
  | Err e => ended reasonGovernanceFailed (Some e)
  | Ok g =>
      match d_Policy g with
      | None =>
          {| a_reason := match d_Refusal g with Some x => reasonRefused x | None => reasonNotInjecting "" end;
             a_identity := d_Identity g; a_optIn := d_OptIn g; a_level := d_Level g; a_policy := ""; a_mode := None;
             a_source := ""; a_verdict := ""; a_held := ∅; a_recs := ∅; a_writes := []; a_stub := None; a_err := None |}
      | Some policy =>
          match storedRecommendation h (d_Identity g) with
          | Err e =>
              {| a_reason := reasonRecommendationUnreadable; a_identity := d_Identity g; a_optIn := d_OptIn g;
                 a_level := d_Level g; a_policy := pol_Name policy; a_mode := d_Mode g; a_source := RecSourceError;
                 a_verdict := ""; a_held := ∅; a_recs := ∅; a_writes := []; a_stub := None; a_err := Some e |}
          | Ok known =>
              let rdg := Read known (pol_Name policy) now in
              let observed := BuildObservedResources (pod_Containers pod) (pod_InitContainers pod) in
              let stub :=
                if ShouldRequest known (pol_Name policy) observed
                then Some {| sr_known := known; sr_identity := d_Identity g; sr_policy := pol_Name policy;
                             sr_observed := observed |}
                else None in
              let a r recs writes :=
                {| a_reason := r; a_identity := d_Identity g; a_optIn := d_OptIn g; a_level := d_Level g;
                   a_policy := pol_Name policy; a_mode := d_Mode g;
                   a_source := recommendationSource (rdg_Verdict rdg); a_verdict := Verdict_string (rdg_Verdict rdg);
                   a_held := rdg_Recs rdg; a_recs := recs; a_writes := writes; a_stub := stub; a_err := None |} in
              if negb (Injects (rdg_Verdict rdg))
              then a (reasonNotInjecting (recommendationSource (rdg_Verdict rdg))) ∅ []
              else
                let inj := Inject (pod_Containers pod) (pod_InitContainers pod)
                             (ExcludeInitContainers (pol_RightSizing policy)) (rdg_Recs rdg) in
                let r := injectionReason inj (EffectiveRecommendOnly policy (h_RecommendOnly h)) in
                a r (inj_Recs inj) (if is_injected r then inj_Writes inj else [])
          end
      end
  end.

(** ** The response *)

Record jsonPatch := { Op : string; Path : string; Value : ResourceRequirements }.
Record AdmissionResponse := { Allowed : bool; Patch : list jsonPatch }.

Definition resources_path (init : bool) (i : nat) : string :=
  ((if init then "/spec/initContainers/" else "/spec/containers/") +:+ Itoa (Z.of_nat i) +:+ "/resources")%string.

Definition respond (a : admission) : AdmissionResponse :=
  {| Allowed := true;
     Patch := map (λ w, {| Op := "add"; Path := resources_path (cw_Init w) (cw_Index w); Value := cw_Resources w |})
                (a_writes a) |}.

(** What running an admission does besides responding. *)
Inductive admit_effect :=
  | CountSource (source : string)
  | RequestStub (r : stubRequest)
  | ReportPanic (op : string).

Definition panicLabelAdmit : string := "admit".

Definition admit_effects (a : admission) : list admit_effect :=
  (if negb (String.eqb (a_source a) "") then [CountSource (a_source a)] else []) ++
  match a_stub a with Some r => [RequestStub r] | None => [] end.

(** [panics] says that what follows decoding panicked. *)
Definition admitDecoded (h : Handler) (now : time) (panics : bool) (pod : Pod) :
    AdmissionResponse * list admit_effect :=
  if panics then (respond (ended reasonPanic None), [ReportPanic panicLabelAdmit])
  else let a := decide_admission h now pod in (respond a, admit_effects a).

Definition with_namespace (p : Pod) (namespace : string) : Pod :=
  {| pod_Name := pod_Name p; pod_Namespace := namespace; pod_UID := pod_UID p;
     pod_Labels := pod_Labels p; pod_Annotations := pod_Annotations p;
     pod_OwnerReferences := pod_OwnerReferences p; pod_Deleting := pod_Deleting p;
     pod_Created := pod_Created p; pod_Containers := pod_Containers p; pod_InitContainers := pod_InitContainers p;
     pod_Phase := pod_Phase p; pod_Conditions := pod_Conditions p;
     pod_ContainerStatuses := pod_ContainerStatuses p;
     pod_InitContainerStatuses := pod_InitContainerStatuses p;
     pod_EphemeralContainerStatuses := pod_EphemeralContainerStatuses p |}.

(** [decoded] is what unmarshalling the request's object answers, in the
    request's namespace. *)
Definition admit_request (h : Handler) (now : time) (panics : bool) (namespace : string) (decoded : result Pod) :
    AdmissionResponse * list admit_effect :=
  match decoded with
  | Err _ => (respond (ended reasonUndecodable None), [])
  | Ok pod => admitDecoded h now panics (with_namespace pod namespace)
  end.

(** ** What the API server makes of the response *)

(** The "add" of RFC 6902 at the resources of a container. *)
Definition patch_container (init : bool) (p : jsonPatch) (i : nat) (c : Container) : Container :=
  if String.eqb (Path p) (resources_path init i) then with_resources c (Value p) else c.

Definition apply_patch (pod : Pod) (p : jsonPatch) : Pod :=
  with_containers pod (imap (patch_container false p) (pod_Containers pod))
    (imap (patch_container true p) (pod_InitContainers pod)).

Definition admitted_pod (pod : Pod) (r : AdmissionResponse) : Pod := foldl apply_patch pod (Patch r).
End Webhook.

(** ** Facts *)

(** *** Patches *)
Section Patches.
Context {QO : QuantityOps} {KO : KubeOps} {HA : Hashing}.

(** The resources of two containers are at two paths. *)
Lemma resources_path_inj init init' i i' :
  resources_path init i = resources_path init' i' → init = init' ∧ i = i'.
Proof.
  intros E. destruct init, init'; try done; (split; [done|]); injection E as E;
    pose proof (append_cancel_r (Itoa (Z.of_nat i)) (Itoa (Z.of_nat i')) _ E) as E'; apply Itoa_inj in E'; lia.
Qed.

(** The container at [i] once the writes are patched in. *)
Definition write_container (init : bool) (i : nat) (c : Container) (w : ContainerWrite) : Container :=
  if bool_decide (cw_Init w = init ∧ cw_Index w = i) then with_resources c (cw_Resources w) else c.

Definition patch_of (w : ContainerWrite) : jsonPatch :=
  {| Op := "add"; Path := resources_path (cw_Init w) (cw_Index w); Value := cw_Resources w |}.

Lemma patch_container_write init i c w : patch_container init (patch_of w) i c = write_container init i c w.
Proof.
  unfold patch_container, write_container. cbn [Path Value patch_of].
  destruct (String.eqb_spec (resources_path (cw_Init w) (cw_Index w)) (resources_path init i)) as [E|E].
  - by rewrite bool_decide_true by by apply resources_path_inj.
  - rewrite bool_decide_false; [done|]. by intros [<- <-].
Qed.

Lemma patched_lookup pod ws i :
  pod_Containers (foldl apply_patch pod (map patch_of ws)) !! i =
    (λ c, foldl (write_container false i) c ws) <$> pod_Containers pod !! i ∧
  pod_InitContainers (foldl apply_patch pod (map patch_of ws)) !! i =
    (λ c, foldl (write_container true i) c ws) <$> pod_InitContainers pod !! i.
Proof.
  revert pod. induction ws as [|w ws IH]; intros pod; cbn [map foldl].
  { by destruct (pod_Containers pod !! i), (pod_InitContainers pod !! i). }
  destruct (IH (apply_patch pod (patch_of w))) as [-> ->].
  cbn [apply_patch pod_Containers pod_InitContainers with_containers]. rewrite !list_lookup_imap.
  destruct (pod_Containers pod !! i), (pod_InitContainers pod !! i); cbn [fmap option_fmap option_map];
    by rewrite ?patch_container_write.
Qed.

(** The writes to one place agree, so their order is nothing. *)
Lemma write_container_fold init i c ws res :
  (∀ w, w ∈ ws → cw_Init w = init → cw_Index w = i → cw_Resources w = res) →
  (∃ w, w ∈ ws ∧ cw_Init w = init ∧ cw_Index w = i) ∧ foldl (write_container init i) c ws = with_resources c res ∨
  (∀ w, w ∈ ws → ¬ (cw_Init w = init ∧ cw_Index w = i)) ∧ foldl (write_container init i) c ws = c.
Proof.
  revert c. induction ws as [|w ws IH]; intros c Hres; cbn [foldl].
  { right. split; [|done]. by intros w ?%not_elem_of_nil. }
  assert (Hres' : ∀ w, w ∈ ws → cw_Init w = init → cw_Index w = i → cw_Resources w = res)
    by (intros w' Hw'; apply Hres; by right).
  unfold write_container at 2 4. destruct (decide (cw_Init w = init ∧ cw_Index w = i)) as [[E1 E2]|Hn].
  - rewrite bool_decide_true by done. rewrite (Hres w) by (done || by left). left. split; [exists w; by repeat constructor|].
    by destruct (IH (with_resources c res) Hres') as [[_ ->]|[_ ->]].
  - rewrite bool_decide_false by done. destruct (IH c Hres') as [[(w' & ? & ?) ->]|[Hno ->]].
    + left. split; [exists w'; split; [by right|done]|done].
    + right. split; [|done]. intros w' [->|Hw']%elem_of_cons; [done|by apply Hno].
Qed.

(** What the containers become: each what its recommendation makes of it. *)
Lemma injected_fold cs inits ex recs init i c :
  injected cs inits ex init !! i = Some c →
  foldl (write_container init i) c (inj_Writes (Inject cs inits ex recs)) = resize_container recs c.
Proof.
  intros Hi. destruct (Inject_writes cs inits ex recs) as [Hw _].
  assert (Hone : ∀ w, w ∈ inj_Writes (Inject cs inits ex recs) → cw_Init w = init → cw_Index w = i →
    ∃ rec, recs !! c_Name c = Some rec ∧ applyTo (c_Resources c) rec = (cw_Resources w, cw_RaisedLimits w, true)).
  { intros w (c' & rec & Hi' & _ & ? & ?)%Hw <- <-. rewrite Hi in Hi'. injection Hi' as <-. eauto. }
  unfold resize_container.
  destruct (write_container_fold init i c (inj_Writes (Inject cs inits ex recs))
    (match recs !! c_Name c with Some rec => fst (fst (applyTo (c_Resources c) rec)) | None => c_Resources c end))
    as [[(w & Hin & E1 & E2) ->]|[Hno ->]].
  - intros w Hin E1 E2. destruct (Hone w Hin E1 E2) as (rec & -> & ->). done.
  - destruct (Hone w Hin E1 E2) as (rec & -> & ->). done.
  - destruct (recs !! c_Name c) as [rec|] eqn:Er; [|done].
    destruct (applyTo (c_Resources c) rec) as [[res raised] []] eqn:Ea; [|done]. exfalso.
    apply (Hno {| cw_Name := c_Name c; cw_Init := init; cw_Index := i; cw_Resources := res; cw_RaisedLimits := raised |});
      [|done]. apply Hw. eauto 10.
Qed.

(** The pod the response makes of an injection. *)
Lemma injected_pod pod ex recs :
  let pod' := foldl apply_patch pod (map patch_of (inj_Writes (Inject (pod_Containers pod) (pod_InitContainers pod) ex recs))) in
  pod_Containers pod' = map (resize_container recs) (pod_Containers pod) ∧
  pod_InitContainers pod' = if ex then pod_InitContainers pod else map (resize_container recs) (pod_InitContainers pod).
Proof.
  cbn zeta. set (ws := inj_Writes _). split; apply list_eq; intros i; destruct (patched_lookup pod ws i) as [Hc Hi].
  - rewrite Hc, list_lookup_fmap. destruct (pod_Containers pod !! i) as [c|] eqn:E; [|done]. cbn. f_equal.
    by apply (injected_fold _ _ ex recs false).
  - rewrite Hi. destruct ex.
    + destruct (pod_InitContainers pod !! i) as [c|] eqn:E; [|done]. cbn. f_equal.
      destruct (write_container_fold true i c ws (c_Resources c)) as [[(w & Hin & E1 & _) _]|[_ ->]]; [| |done].
      all: try intros w Hin E1 _; apply Inject_writes in Hin as (c' & rec & Hin & _); rewrite E1 in Hin; by destruct (cw_Index w).
    + rewrite list_lookup_fmap. destruct (pod_InitContainers pod !! i) as [c|] eqn:E; [|done]. cbn. f_equal.
      by apply (injected_fold _ _ false recs true).
Qed.
End Patches.

(** *** The decision *)
Section Decides.
Context {QO : QuantityOps} {KO : KubeOps} {HA : Hashing}.

Lemma injectionReason_injected inj ro :
  is_injected (injectionReason inj ro) = true ↔ inj_Recs inj ≠ ∅ ∧ ro = false ∧ inj_Writes inj ≠ [].
Proof.
  unfold injectionReason. case_bool_decide; [naive_solver|]. destruct ro; [naive_solver|].
  case_bool_decide; cbn; naive_solver.
Qed.

Lemma Inject_some cs inits ex recs : inj_Writes (Inject cs inits ex recs) ≠ [] → inj_Recs (Inject cs inits ex recs) ≠ ∅.
Proof.
  destruct (Inject_writes cs inits ex recs) as [Hw Hr]. intros Hne He.
  destruct (inj_Writes (Inject cs inits ex recs)) as [|w ws]; [done|].
  destruct (proj1 (Hw w) ltac:(by left)) as (c & rec & Hi & _ & Hrec & _).
  assert (inj_Recs (Inject cs inits ex recs) !! c_Name c = Some rec) as Hin.
  { apply Hr. split; [done|]. exists (cw_Init w). by eapply list_elem_of_fmap_2, list_elem_of_lookup_2. }
  by rewrite He, lookup_empty in Hin.
Qed.

(** C7: a pod is patched exactly when a Policy governs it, the
    WorkloadRecommendation of its identity is that Policy's and computed by it,
    the stamp has not passed, neither the Policy nor the flag only recommends,
    and a container differs from what it recommends; then it is patched with
    what injecting the stored recommendation writes and nothing else. *)
Theorem admission_patches h now pod ps :
  Patch (fst (admitDecoded h now false pod)) = ps ∧ ps ≠ [] ↔
  ∃ g p w, Decide (SubjectPod pod) (admissionReader h) = Ok g ∧ d_Policy g = Some p ∧
    h_Get h (keyOf (RefOf (d_Identity g))) = Ok w ∧
    spec_Policy (wlr_Spec w) = pol_Name p ∧ ComputedBy (wlr_Status w) = pol_Name p ∧
    now < ServableUntil (wlr_Status w) ∧ EffectiveRecommendOnly p (h_RecommendOnly h) = false ∧
    let ws := inj_Writes (Inject (pod_Containers pod) (pod_InitContainers pod)
                (ExcludeInitContainers (pol_RightSizing p)) (wlr_Containers (wlr_Status w))) in
    ws ≠ [] ∧ ps = map patch_of ws.
Proof.
  cbn [admitDecoded fst]. unfold respond, decide_admission. cbn [Patch].
  destruct (Decide (SubjectPod pod) (admissionReader h)) as [g|e];
    [|split; [by intros [<- ?]|by intros (? & ? & ? & ? & _)]].
  destruct (d_Policy g) as [p|] eqn:Ep; [|split; [by intros [<- ?]|intros (? & ? & ? & [= <-] & ? & _); congruence]].
  unfold storedRecommendation. destruct (h_Get h (keyOf (RefOf (d_Identity g)))) as [w|e] eqn:Eg.
  2: { split; [|intros (? & ? & ? & [= <-] & _ & ? & _); congruence].
       destruct (IsNotFound e); [|by intros [<- ?]]. cbn. by intros [<- ?]. }
  destruct (Injects (rdg_Verdict (Read (Some w) (pol_Name p) now))) eqn:Ei; cbn [negb].
  - destruct (proj1 (Read_injects_iff (Some w) (pol_Name p) now _) (conj Ei eq_refl)) as (w' & [= <-] & Hs & Hb & Hne & Ht & ->).
    cbn [a_writes]. set (inj := Inject _ _ _ _). destruct (is_injected _) eqn:Er.
    + apply injectionReason_injected in Er as (_ & Hro & Hws). split.
      * intros [<- _]. exists g, p, w. by split_and!.
      * intros (g' & p' & w' & [= <-] & Hp' & Hg' & _ & _ & _ & _ & Hw & ->).
        rewrite Ep in Hp'. injection Hp' as <-. rewrite Eg in Hg'. injection Hg' as <-. split; [done|]. intros E%map_eq_nil. by apply Hw.
    + split; [by intros [<- ?]|]. intros (g' & p' & w' & [= <-] & Hp' & Hg' & _ & _ & _ & Hro & Hw & ->).
      rewrite Ep in Hp'. injection Hp' as <-. rewrite Eg in Hg'. injection Hg' as <-. exfalso. apply not_true_iff_false in Er. apply Er, injectionReason_injected.
      split_and!; [by apply Inject_some|done..].
  - cbn [a_writes]. split; [by intros [<- ?]|]. intros (g' & p' & w' & [= <-] & Hp' & Hg' & Hs & Hb & Ht & Hro & Hw & ->).
    rewrite Ep in Hp'. injection Hp' as <-. rewrite Eg in Hg'. injection Hg' as <-. apply not_true_iff_false in Ei. destruct Ei.
    apply (Read_injects_iff (Some w) (pol_Name p) now (wlr_Containers (wlr_Status w))). exists w. split_and!; try done.
    intros He. apply Inject_some in Hw. apply Hw. apply map_eq. intros n. rewrite lookup_empty.
    apply eq_None_not_Some. intros [rec Hrec]. apply Inject_writes in Hrec as [Hrec _]. by rewrite He, lookup_empty in Hrec.
Qed.

(** An admission that read a recommendation and applied it, if it had to. *)
Definition applies (r : reason) : bool :=
  match r with reasonInjected | reasonAtRecommendation | reasonNoContainerMatches => true | _ => false end.

Lemma applies_injection h now pod :
  applies (a_reason (decide_admission h now pod)) = true →
  ∃ ex, let inj := Inject (pod_Containers pod) (pod_InitContainers pod) ex (a_held (decide_admission h now pod)) in
    a_writes (decide_admission h now pod) = inj_Writes inj ∧ a_recs (decide_admission h now pod) = inj_Recs inj.
Proof.
  unfold decide_admission. destruct (Decide _ _) as [g|]; [|done]. destruct (d_Policy g) as [p|]; [|by destruct (d_Refusal g)].
  destruct (storedRecommendation h (d_Identity g)) as [known|]; [|done].
  destruct (Injects _); cbn [negb]; [|done]. cbn [a_reason a_writes a_recs a_held]. intros Ha.
  exists (ExcludeInitContainers (pol_RightSizing p)). cbn zeta. set (inj := Inject _ _ _ _) in *. split; [|done].
  destruct (is_injected _) eqn:Er; [done|]. destruct (inj_Writes inj) eqn:Ew; [done|]. exfalso.
  assert (Hne : inj_Writes inj ≠ []) by (by rewrite Ew). pose proof (Inject_some _ _ _ _ Hne) as Hrecs.
  unfold injectionReason in Ha, Er. rewrite bool_decide_false in Ha, Er by done. destruct (EffectiveRecommendOnly _ _); [done|].
  by rewrite bool_decide_false in Er.
Qed.
End Decides.

Section Settles.
Context {QO : QuantityOps} {KO : KubeOps} {QL : QuantityLaws} {KL : KubeLaws} {HA : Hashing}.

(** The change planned for a container depends on its own recommendation only. *)
Lemma container_change_own l recs recs' tol c :
  NoDup (map c_Name l) → c ∈ l → recs !! c_Name c = recs' !! c_Name c →
  container_change (clampRecsToTolerance l recs tol) c = container_change (clampRecsToTolerance l recs' tol) c.
Proof. intros Hnd Hc E. unfold container_change. by rewrite !clampRecs_lookup, E. Qed.

(** What an injection holds: the recommendations of the containers it covers. *)
Lemma Inject_recs cs inits ex recs n :
  inj_Recs (Inject cs inits ex recs) !! n =
    if decide (n ∈ map c_Name cs ∨ ex = false ∧ n ∈ map c_Name inits) then recs !! n else None.
Proof.
  assert (Hi : ∀ l, map (λ p : nat * Container, c_Name p.2) (indexed_from 0 l) = map c_Name l).
  { intros l. assert (H : ∀ f : nat → nat, map (λ p : nat * Container, c_Name p.2) (imap (λ j x, (f j, x)) l) = map c_Name l).
    { induction l as [|c l IH]; intros f; [done|]. cbn. f_equal. apply (IH (λ j, f (S j))). }
    apply (H (λ j, (0 + j)%nat)). }
  unfold Inject. destruct ex; cbn [negb]; rewrite ?injectOne_recs, !Hi; cbn [inj_Recs]; rewrite ?lookup_empty;
    destruct (recs !! n); repeat case_decide; tauto || naive_solver.
Qed.

(** Planned from recommendations that are, of each container the plan looks at,
    those the pod was sized by. *)
Lemma sized_settles pod ex recs recs' tol :
  let pod' := foldl apply_patch pod (map patch_of (inj_Writes (Inject (pod_Containers pod) (pod_InitContainers pod) ex recs))) in
  NoDup (map c_Name (podContainers pod)) →
  (∀ c rec, c ∈ podContainers pod → recs !! c_Name c = Some rec → sizes_representable (c_Resources c) rec) →
  (∀ c, c ∈ pod_Containers pod → recs' !! c_Name c = recs !! c_Name c) →
  (∀ c, c ∈ pod_InitContainers pod → isRestartableInitContainer c = true →
     recs' !! c_Name c = if ex then None else recs !! c_Name c) →
  pl_change (planFor pod' recs' tol) = noChange.
Proof.
  intros pod' Hnd Hrep Hcs Hinits. destruct (injected_pod pod ex recs) as [Ecs Eis]. fold pod' in Ecs, Eis.
  change (pl_change (planFor pod' recs' tol)) with (planned (clampRecsToTolerance (podContainers pod') recs' tol) pod').
  assert (Hnames : ∀ l, map c_Name (map (resize_container recs) l) = map c_Name l).
  { intros l. rewrite map_map. apply map_ext, resize_container_name. }
  assert (Hnd' : NoDup (map c_Name (podContainers pod'))).
  { unfold podContainers in *. rewrite Ecs, Eis. rewrite map_app in *. rewrite Hnames. destruct ex; [done|by rewrite Hnames]. }
  assert (Hone : ∀ c, c ∈ podContainers pod → resize_container recs c ∈ podContainers pod' →
    recs' !! c_Name c = recs !! c_Name c →
    container_change (clampRecsToTolerance (podContainers pod') recs' tol) (resize_container recs c) = noChange).
  { intros c Hc Hc' E. rewrite (container_change_own _ _ recs) by (done || by rewrite resize_container_name).
    eapply injected_container_settles; [done|done|reflexivity|]. intros rec. by apply Hrep. }
  apply planned_none. unfold podContainers in *. split.
  - intros c' Hc'. pose proof Hc' as Hin. rewrite Ecs in Hc'. apply list_elem_of_fmap in Hc' as (c & -> & Hc).
    apply Hone; [apply elem_of_app; by left|apply elem_of_app; by left|by apply Hcs].
  - intros c' Hc' Hr. pose proof Hc' as Hin. destruct ex; rewrite Eis in Hc'.
    + unfold container_change. rewrite clampRecs_lookup by (done || (apply elem_of_app; by right)). by rewrite (Hinits c' Hc' Hr).
    + apply list_elem_of_fmap in Hc' as (c & -> & Hc).
      apply Hone; [apply elem_of_app; by right|apply elem_of_app; by right|]. apply Hinits; [done|].
      revert Hr. unfold isRestartableInitContainer, resize_container. destruct (recs !! _); [|done]. by split_cases.
Qed.

(** C6: a pod the webhook sized is one the controller leaves alone: planned from
    the recommendations it was sized by, under whatever tolerance, it has no
    change, so no resize and no recycle follows the admission; and so from all the
    stored object held, unless that holds a sidecar the Policy excludes. *)
Theorem admitted_settles h now pod tol :
  let a := decide_admission h now pod in
  applies (a_reason a) = true →
  NoDup (map c_Name (podContainers pod)) →
  (∀ c rec, c ∈ podContainers pod → a_held a !! c_Name c = Some rec → sizes_representable (c_Resources c) rec) →
  pl_change (planFor (admitted_pod pod (respond a)) (a_recs a) tol) = noChange ∧
  ((∀ c, c ∈ pod_InitContainers pod → isRestartableInitContainer c = true →
      is_Some (a_held a !! c_Name c) → is_Some (a_recs a !! c_Name c)) →
   pl_change (planFor (admitted_pod pod (respond a)) (a_held a) tol) = noChange).
Proof.
  cbn zeta. intros Ha Hnd Hrep. destruct (applies_injection h now pod Ha) as (ex & Hws & Hrecs).
  set (a := decide_admission h now pod) in *. clearbody a.
  change (admitted_pod pod (respond a)) with (foldl apply_patch pod (map patch_of (a_writes a))). rewrite Hws.
  pose proof Hnd as Hdis. unfold podContainers in Hdis. rewrite map_app in Hdis. apply NoDup_app in Hdis as (_ & Hdis & _).
  assert (Hregular : ∀ c, c ∈ pod_Containers pod → a_recs a !! c_Name c = a_held a !! c_Name c).
  { intros c Hc. rewrite Hrecs, Inject_recs, decide_True; [done|]. left. by apply list_elem_of_fmap_2. }
  assert (Hsidecar : ∀ c, c ∈ pod_InitContainers pod → a_recs a !! c_Name c = if ex then None else a_held a !! c_Name c).
  { intros c Hc. assert (Hn : c_Name c ∈ map c_Name (pod_InitContainers pod)) by by apply list_elem_of_fmap_2.
    rewrite Hrecs, Inject_recs. destruct ex; [rewrite decide_False|rewrite decide_True]; [done| |done|by right].
    intros [Hin|[[=] _]]. by apply (Hdis _ Hin). }
  split; [by apply sized_settles; auto|]. intros Hheld. apply sized_settles; [done..|].
  intros c Hc Hr. pose proof (Hsidecar c Hc) as E. specialize (Hheld c Hc Hr). destruct ex; [|done].
  destruct (a_held a !! c_Name c) eqn:Eh; [|done]. destruct Hheld as [? Hx]; [by eexists|]. by rewrite E in Hx.
Qed.
End Settles.

(** *** The owner caches *)
Section Caches.
Context {QO : QuantityOps} {KO : KubeOps} {HA : Hashing}.

(** The handler whose cached reads all fetch. *)
Definition fetching (c : ClusterReads) : ownerCaches :=
  {| podOwners := fetchPodOwner c; annotations := fetchOwnerAnnotations c |}.

(** The reads of the chain without the caches. *)
Definition uncachedReader (h : Handler) : Reader :=
  {| rd_Policies := h_Policies h;
     rd_PodOwner := ResolvePodOwner (h_Client h);
     rd_WorkloadAnnotations := OwnerAnnotations (h_Client h);
     rd_NamespaceAnnotations := NamespaceAnnotations (h_Client h) |}.

Lemma cacheable_index ann k :
  k = PolicyAnnotation ∨ k = OptOutAnnotation → cacheableOwnerAnnotations ann !! k = ann !! k.
Proof.
  intros Hk. unfold cacheableOwnerAnnotations. cbn [foldl].
  destruct (ann !! PolicyAnnotation) eqn:E1, (ann !! OptOutAnnotation) eqn:E2; destruct Hk as [-> | ->];
    by rewrite ?lookup_insert_eq, ?lookup_insert_ne, ?lookup_insert_eq, ?lookup_empty, ?E1, ?E2 by done.
Qed.

(** The two keys kept are all a level's decision reads. *)
Lemma cacheable_decision ann : level_decision (cacheableOwnerAnnotations ann) = level_decision ann.
Proof. unfold level_decision, index. by rewrite !cacheable_index by auto. Qed.

(** C26: the caches lose nothing a decision needs: with the two annotations they
    keep of an owner and the owner they resolve by kind and name, an admission
    whose cached answers are what fetching answers is governed exactly as by
    reading the owner chain in full. *)
Theorem cached_decision h pod :
  h_owners h = fetching (h_Client h) →
  Decide (SubjectPod pod) (admissionReader h) = Decide (SubjectPod pod) (uncachedReader h).
Proof.
  intros Hc. apply Decide_same.
  - done.
  - intros p _. cbn. unfold reader_PodOwner, ResolvePodOwner. rewrite Hc. by destruct (GetControllerOf _).
  - intros kind name. cbn [admissionReader uncachedReader rd_WorkloadAnnotations]. unfold reader_WorkloadAnnotations, OwnerAnnotations, same_annotations.
    destruct (ownerKinds !! kind) eqn:Ek; [|done]. rewrite Hc. cbn [fetching annotations].
    unfold fetchOwnerAnnotations, OwnerAnnotations. cbn [wk_Namespace wk_Kind wk_Name].
    rewrite Ek. destruct (get_object_annotations _ _ _ _) as [a|e]; [by rewrite cacheable_decision|].
    by destruct (IsNotFound e).
  - cbn. unfold same_annotations. by destruct (NamespaceAnnotations _ _).
Qed.
End Caches.

(** ** At a concrete input *)
Section Sample.
#[local] Existing Instance nano_quantity.
#[local] Existing Instance nano_quantity_laws.
#[local] Existing Instance simple_kube.
#[local] Existing Instance simple_kube_laws.
#[local] Existing Instance plain_hashing.

#[local] Abbreviation bare_pod := (sample_bare_pod (pod_Containers Match.sample_pod)).

Definition stored_wlr : WorkloadRecommendation :=
  sample_stored {| ObservedAt := hour; wlr_Outcome := OutcomeComputed; ComputedBy := "frugal"; wlr_Departed := false;
    ServableUntil := 2 * hour; wlr_Containers := Match.sample_recs; wlr_Trace := ∅; ObservedResources := ∅ |}.

Definition sample_handler : Handler :=
  {| h_Client := empty_cluster; h_Get _ := Ok stored_wlr; h_RecommendOnly := false;
     h_Policies := pods_policies;
     h_owners := fetching empty_cluster |}.

Definition sample_admission : admission := decide_admission sample_handler hour bare_pod.

Example sample_injects : a_reason sample_admission = reasonInjected.
Proof. by_running. Qed.

Example sample_patches :
  map Path (Patch (respond sample_admission)) = ["/spec/containers/0/resources"; "/spec/containers/1/resources"].
Proof. by_running. Qed.

Lemma admission_patches_witness :
  length (Patch (fst (admitDecoded sample_handler hour false bare_pod))) = 2%nat ∧
  ∃ g, Decide (SubjectPod bare_pod) (admissionReader sample_handler) = Ok g ∧ is_Some (d_Policy g).
Proof.
  assert (Hlen : length (Patch (fst (admitDecoded sample_handler hour false bare_pod))) = 2%nat) by by_running.
  split; [exact Hlen|].
  assert (Hne : Patch (fst (admitDecoded sample_handler hour false bare_pod)) ≠ [])
    by (revert Hlen; generalize (Patch (fst (admitDecoded sample_handler hour false bare_pod))); by intros [|]).
  destruct (proj1 (admission_patches sample_handler hour bare_pod _) (conj eq_refl Hne)) as (g & p & w & Hg & Hp & _).
  exists g. split; [exact Hg|]. by exists p.
Defined.

Lemma sample_held : a_held sample_admission = Match.sample_recs.
Proof. by_running. Qed.

Lemma sample_held_representable c rec :
  c ∈ podContainers bare_pod → a_held sample_admission !! c_Name c = Some rec → sizes_representable (c_Resources c) rec.
Proof.
  rewrite sample_held. intros Hc. unfold Match.sample_recs.
  intros [[_ <-]|[_ [_ <-]%lookup_singleton_Some]]%lookup_insert_Some;
    (apply elem_of_cons in Hc as [->|Hc]; [|apply list_elem_of_singleton in Hc as ->]);
    apply sample_representable; lia.
Qed.

Lemma admitted_settles_witness :
  pl_change (planFor (admitted_pod bare_pod (respond sample_admission)) (a_held sample_admission) sample_tolerance) = noChange.
Proof.
  assert (Ha : applies (a_reason sample_admission) = true) by by_running.
  assert (Hnd : NoDup (map c_Name (podContainers bare_pod))) by by_evaluation.
  apply (admitted_settles sample_handler hour bare_pod sample_tolerance Ha Hnd sample_held_representable).
  by intros c ?%not_elem_of_nil.
Defined.

Lemma cached_decision_witness :
  Decide (SubjectPod bare_pod) (admissionReader sample_handler) =
  Decide (SubjectPod bare_pod) (uncachedReader sample_handler).
Proof. exact (cached_decision sample_handler bare_pod eq_refl). Defined.
End Sample.
