(* ===== verification/Stub.v ===== *)
(** * The stub requests of the webhook ([internal/webhook/stub.go])

    The claims that collapse the requests of one identity, the detached
    goroutines that carry them out, the slots they queue for, and the shutdown
    that drains them: each critical section and each blocking call is a step,
    and every interleaving of them is a run. *)

From stdpp Require Import sets.
From S2P Require Import Prelude GoLang Quantity Kube WlrApi Shards WlrRead WlrWrite Lru Governance Match Webhook.
Local Open Scope Z_scope.

Definition stubRequestDedupTTL : duration := 30 * second.
Definition stubRequestDedupMaxEntries : Z := 4096.
Definition stubRequestMaxInflight : nat := 16.

Section Stub.
Context {QO : QuantityOps} {KO : KubeOps} {HA : Hashing}.

(** [types.NamespacedName.String()] *)
Definition claimKey (id : WorkloadIdentity) : string :=
  let '(ns, name) := WlrRead.keyOf (RefOf id) in (ns +:+ "/" +:+ name)%string.

(** Where a goroutine stands: queued for a slot, holding one before the request
    and after it, and about to leave the wait group. *)
Inductive worker_phase := Queued | Requesting | Requested | Leaving.

Record worker := { wo_request : stubRequest; wo_claim : Z; wo_phase : worker_phase }.

Definition holds_slot (w : worker) : bool :=
  match wo_phase w with Requesting | Requested => true | _ => false end.

(** [sb_writes] is what reached the API server. *)
Record stubs := {
  sb_claims : LRU (K := string) (V := Z);
  sb_claimSeq : Z;
  sb_inflight : nat;
  sb_stopping : bool;
  sb_wg : Z;
  sb_workers : gmap nat worker;
  sb_writes : list write;
}.

Definition newStubClaims : option (LRU (K := string) (V := Z)) := NewLRU stubRequestDedupMaxEntries stubRequestDedupTTL.

(** [initStubStateLocked] of the zero Handler. *)
Definition newStubs (claims : LRU) : stubs :=
  {| sb_claims := claims; sb_claimSeq := 0; sb_inflight := 0; sb_stopping := false; sb_wg := 0; sb_workers := ∅;
     sb_writes := [] |}.

Definition with_claims (s : stubs) (l : LRU) : stubs :=
  {| sb_claims := l; sb_claimSeq := sb_claimSeq s; sb_inflight := sb_inflight s; sb_stopping := sb_stopping s;
     sb_wg := sb_wg s; sb_workers := sb_workers s; sb_writes := sb_writes s |}.

(** A [uint64] counter. *)
Definition nextClaim (s : stubs) : Z := (sb_claimSeq s + 1) mod 2 ^ 64.

(** Under the lock: the claim granted, if any. *)
Definition beginStubRequest (s : stubs) (now : time) (key : string) : option Z * stubs :=
  if sb_stopping s then (None, s)
  else
    let seq := nextClaim s in
    let '(claims, granted) := SetIfAbsent (sb_claims s) now key seq in
    (if granted then Some seq else None,
     {| sb_claims := claims; sb_claimSeq := seq; sb_inflight := sb_inflight s; sb_stopping := false;
        sb_wg := if granted then sb_wg s + 1 else sb_wg s; sb_workers := sb_workers s; sb_writes := sb_writes s |}).

Definition dropStubClaim (s : stubs) (key : string) (claim : Z) : stubs :=
  with_claims s (fst (DeleteIf (sb_claims s) key (λ held, held =? claim))).

(** A worker moves, with the slots then taken. *)
Definition move (s : stubs) (i : nat) (w : worker) (slots : nat) (ws : list write) : stubs :=
  {| sb_claims := sb_claims s; sb_claimSeq := sb_claimSeq s; sb_inflight := slots; sb_stopping := sb_stopping s;
     sb_wg := sb_wg s; sb_workers := <[i := w]> (sb_workers s); sb_writes := sb_writes s ++ ws |}.

Definition at_phase (w : worker) (p : worker_phase) : worker :=
  {| wo_request := wo_request w; wo_claim := wo_claim w; wo_phase := p |}.

(** [requestRecommendation] up to the [go]: [i] is the new goroutine. *)
Definition requestRecommendation (s : stubs) (now : time) (i : nat) (r : stubRequest) : stubs :=
  match beginStubRequest s now (claimKey (sr_identity r)) with
  | (None, s) => s
  | (Some claim, s) =>
      move s i {| wo_request := r; wo_claim := claim; wo_phase := Queued |} (sb_inflight s) []
  end.

(** The wait for a slot ends: the queue's timeout, or the shutdown. *)
Definition giveUp (s : stubs) (i : nat) (w : worker) : stubs :=
  move (dropStubClaim s (claimKey (sr_identity (wo_request w))) (wo_claim w)) i (at_phase w Leaving) (sb_inflight s) [].

(** What a request writes of what the API server answers. *)
Definition requestWrites (c : WlrClient) (r : stubRequest) : list write :=
  snd (Request c (sr_known r) (RefOf (sr_identity r)) (sr_policy r) (sr_observed r)).

(** The deferred [stubWG.Done()]. *)
Definition leave (s : stubs) (i : nat) : stubs :=
  {| sb_claims := sb_claims s; sb_claimSeq := sb_claimSeq s; sb_inflight := sb_inflight s; sb_stopping := sb_stopping s;
     sb_wg := sb_wg s - 1; sb_workers := delete i (sb_workers s); sb_writes := sb_writes s |}.

(** The critical section of [Shutdown]; its wait ends with the wait group. *)
Definition Shutdown (s : stubs) : stubs :=
  {| sb_claims := sb_claims s; sb_claimSeq := sb_claimSeq s; sb_inflight := sb_inflight s; sb_stopping := true;
     sb_wg := sb_wg s; sb_workers := sb_workers s; sb_writes := sb_writes s |}.

(** The steps of the goroutines. A request that panics or is cancelled leaves
    part of its writes. *)
Inductive worker_step : stubs → stubs → Prop :=
  | w_acquire s i w : sb_workers s !! i = Some w → wo_phase w = Queued →
      (sb_inflight s < stubRequestMaxInflight)%nat →
      worker_step s (move s i (at_phase w Requesting) (S (sb_inflight s)) [])
  | w_give_up s i w : sb_workers s !! i = Some w → wo_phase w = Queued → worker_step s (giveUp s i w)
  | w_request s i w c ws : sb_workers s !! i = Some w → wo_phase w = Requesting →
      ws `prefix_of` requestWrites c (wo_request w) →
      worker_step s (move s i (at_phase w Requested) (sb_inflight s) ws)
  | w_release s i w : sb_workers s !! i = Some w → wo_phase w = Requested →
      worker_step s (move s i (at_phase w Leaving) (pred (sb_inflight s)) [])
  | w_leave s i w : sb_workers s !! i = Some w → wo_phase w = Leaving → worker_step s (leave s i).

Inductive stub_step : stubs → stubs → Prop :=
  | s_admission s now i r : sb_workers s !! i = None → stub_step s (requestRecommendation s now i r)
  | s_worker s s' : worker_step s s' → stub_step s s'
  | s_shutdown s : stub_step s (Shutdown s).

Inductive stub_runs (s0 : stubs) : stubs → Prop :=
  | sr_refl : stub_runs s0 s0
  | sr_step s s' : stub_runs s0 s → stub_step s s' → stub_runs s0 s'.
End Stub.

(** ** Facts *)
Section Facts.
Context {QO : QuantityOps} {KO : KubeOps} {HA : Hashing}.

Definition slot_holders (s : stubs) : gmap nat worker := filter (λ p, holds_slot p.2 = true) (sb_workers s).

Record stubs_ok (s : stubs) : Prop := {
  so_claims : lru_ok (sb_claims s) ∧ l_maxEntries (sb_claims s) = stubRequestDedupMaxEntries ∧
    l_ttl (sb_claims s) = stubRequestDedupTTL;
  so_wg : sb_wg s = Z.of_nat (size (sb_workers s));
  so_slots : sb_inflight s = size (slot_holders s);
  so_bound : (sb_inflight s ≤ stubRequestMaxInflight)%nat;
  so_writes : Forall keeps_recommendation (sb_writes s);
}.

Lemma newStubs_ok l : newStubClaims = Some l → stubs_ok (newStubs l).
Proof.
  intros Hl. destruct (NewLRU_ok _ _ _ Hl) as [Hok _]. injection Hl as <-.
  split; cbn; try done. unfold stubRequestMaxInflight. lia.
Qed.

Lemma stub_holders_insert (m : gmap nat worker) i w :
  size (filter (λ p, holds_slot p.2 = true) (<[i := w]> m)) =
  ((if holds_slot w then 1 else 0) + size (filter (λ p, holds_slot p.2 = true) (delete i m)))%nat.
Proof.
  rewrite map_filter_insert. destruct (holds_slot w) eqn:E; cbn.
  - rewrite decide_True by done. rewrite map_filter_delete, <-insert_delete_eq, map_size_insert_None by apply lookup_delete_eq. done.
  - rewrite decide_False by (cbn; congruence). done.
Qed.

Definition slot_of (w : worker) : nat := if holds_slot w then 1 else 0.

Lemma holders_split (m : gmap nat worker) i w :
  m !! i = Some w →
  size (filter (λ p, holds_slot p.2 = true) m) =
  (slot_of w + size (filter (λ p, holds_slot p.2 = true) (delete i m)))%nat.
Proof. intros Hi. rewrite <-(insert_id m i w) at 1 by done. apply stub_holders_insert. Qed.

Lemma worker_move_ok s i w w' slots ws :
  stubs_ok s → sb_workers s !! i = Some w → (slots + slot_of w = sb_inflight s + slot_of w')%nat →
  (slots ≤ stubRequestMaxInflight)%nat → Forall keeps_recommendation ws → stubs_ok (move s i w' slots ws).
Proof.
  intros [Hc Hwg Hs Hb Hw] Hi Hsl Hle Hws. split; cbn [move sb_claims sb_wg sb_workers sb_inflight sb_writes]; try done.
  - by rewrite map_size_insert, Hi.
  - unfold slot_holders. cbn [sb_workers move]. rewrite stub_holders_insert. unfold slot_holders in Hs.
    rewrite (holders_split _ i w Hi) in Hs. unfold slot_of in *. lia.
  - by apply Forall_app.
Qed.

Lemma claims_ok s l o :
  stubs_ok s → l = fst (lru_do (sb_claims s) o) → stubs_ok (with_claims s l).
Proof.
  intros [(Hok & Hn & Ht) Hwg Hs Hb Hw] ->. split; try done. cbn [sb_claims with_claims].
  destruct (lru_do_fields (sb_claims s) o) as [-> ->]. destruct (lru_do_spec (sb_claims s) o Hok) as [? _]. done.
Qed.

Lemma dropStubClaim_ok s key claim : stubs_ok s → stubs_ok (dropStubClaim s key claim).
Proof.
  intros Hs. apply (claims_ok s _ (OpDeleteIf key (λ held, held =? claim)) Hs).
  cbn [lru_do]. by destruct (DeleteIf _ _ _).
Qed.

(** What a request of a claim does to the claims. *)
Definition claim_op (s : stubs) (now : time) (key : string) : lru_op := OpSetIfAbsent now key (nextClaim s).

Lemma begin_claims s now key :
  sb_stopping s = false →
  sb_claims (snd (beginStubRequest s now key)) = fst (lru_do (sb_claims s) (claim_op s now key)) ∧
  (fst (beginStubRequest s now key) = if snd (SetIfAbsent (sb_claims s) now key (nextClaim s)) then Some (nextClaim s) else None).
Proof. intros Hs. unfold beginStubRequest. rewrite Hs. cbn. by destruct (SetIfAbsent _ _ _ _) as [? []]. Qed.

Lemma request_ok s now i r : stubs_ok s → sb_workers s !! i = None → stubs_ok (requestRecommendation s now i r).
Proof.
  intros Hok Hi. unfold requestRecommendation, beginStubRequest. destruct (sb_stopping s) eqn:Est; [done|].
  set (key := claimKey _). destruct (SetIfAbsent (sb_claims s) now key (nextClaim s)) as [l granted] eqn:E.
  assert (Hl : stubs_ok (with_claims s l)).
  { apply (claims_ok s l (claim_op s now key) Hok). unfold claim_op. cbn [lru_do]. by rewrite E. }
  destruct Hl as [Hc Hwg Hs Hb Hw]. cbn in Hc, Hwg, Hs, Hb, Hw. destruct granted; [|by split].
  split; cbn [move sb_claims sb_wg sb_workers sb_inflight sb_writes]; try done.
  - rewrite map_size_insert, Hi. lia.
  - unfold slot_holders. cbn [sb_workers move]. rewrite stub_holders_insert. cbn [holds_slot wo_phase].
    by rewrite delete_id.
  - by rewrite app_nil_r.
Qed.

Lemma worker_step_ok s s' : stubs_ok s → worker_step s s' → stubs_ok s'.
Proof.
  intros Hok Hst. pose proof (so_bound _ Hok) as Hb. pose proof (so_slots _ Hok) as Hsl.
  destruct Hst as [s i w Hi Hp Hf|s i w Hi Hp|s i w c ws Hi Hp Hws|s i w Hi Hp|s i w Hi Hp].
  - apply (worker_move_ok s i w); try done. unfold slot_of, holds_slot. rewrite Hp. cbn. lia.
  - apply (worker_move_ok _ i w); [by apply dropStubClaim_ok|done| |done|done]. unfold slot_of, holds_slot. rewrite Hp. done.
  - apply (worker_move_ok s i w); [done|done| |done|].
    + unfold slot_of, holds_slot. by rewrite Hp.
    + pose proof (Request_keeps c (sr_known (wo_request w)) (RefOf (sr_identity (wo_request w)))
        (sr_policy (wo_request w)) (sr_observed (wo_request w))) as H.
      destruct Hws as [k Hk]. unfold requestWrites in Hk. rewrite Hk in H. by apply Forall_app in H as [? _].
  - unfold slot_holders in Hsl. rewrite (holders_split _ i w Hi) in Hsl. unfold slot_of, holds_slot in Hsl. rewrite Hp in Hsl.
    apply (worker_move_ok s i w); [done|done| |lia|done]. unfold slot_of, holds_slot. rewrite Hp. cbn. lia.
  - destruct Hok as [Hc Hwg Hs _ Hw]. split; cbn [leave sb_claims sb_wg sb_workers sb_inflight sb_writes]; try done.
    + rewrite Hwg, map_size_delete, Hi. pose proof (map_size_non_empty_iff (sb_workers s)) as Hne.
      assert (size (sb_workers s) ≠ 0%nat) by (intros H0%map_size_empty_iff; by rewrite H0, lookup_empty in Hi). lia.
    + unfold slot_holders in *. cbn [sb_workers leave]. rewrite (holders_split _ i w Hi) in Hs.
      unfold slot_of in Hs. unfold holds_slot at 1 in Hs. rewrite Hp in Hs. exact Hs.
Qed.

Lemma stub_step_ok s s' : stubs_ok s → stub_step s s' → stubs_ok s'.
Proof.
  intros Hok Hstep. destruct Hstep as [s1 now i r Hi|s1 s2 Hst|s1]; [by apply request_ok|by eapply worker_step_ok|].
  destruct Hok. by split.
Qed.

Lemma stub_runs_ok s0 s : stubs_ok s0 → stub_runs s0 s → stubs_ok s.
Proof. intros H0. induction 1 as [|s s' _ IH Hst]; [done|by eapply stub_step_ok]. Qed.

(** C24: however admissions, writes, panics, timeouts and a shutdown interleave,
    the wait group counts the goroutines alive, no more than sixteen write at
    once, the slots taken are those of the goroutines that hold one, and no
    write of a stub request touches a Recommendation. *)
Theorem stub_invariant l s :
  newStubClaims = Some l → stub_runs (newStubs l) s →
  sb_wg s = Z.of_nat (size (sb_workers s)) ∧
  sb_inflight s = size (slot_holders s) ∧ (sb_inflight s ≤ stubRequestMaxInflight)%nat ∧
  Forall keeps_recommendation (sb_writes s).
Proof. intros Hl Hr. by destruct (stub_runs_ok _ _ (newStubs_ok l Hl) Hr). Qed.

(** *** Draining *)

(** The steps a goroutine has left, at most. *)
Definition steps_left (w : worker) : nat :=
  match wo_phase w with Queued => 4 | Requesting => 3 | Requested => 2 | Leaving => 1 end.

Definition remaining (s : stubs) : nat := map_fold (λ _ w n, (steps_left w + n)%nat) 0%nat (sb_workers s).

Lemma remaining_delete (m : gmap nat worker) i w :
  m !! i = Some w →
  map_fold (λ _ w n, (steps_left w + n)%nat) 0%nat m =
  (steps_left w + map_fold (λ _ w n, (steps_left w + n)%nat) 0%nat (delete i m))%nat.
Proof. intros Hi. apply (map_fold_delete_L (λ (_ : nat) w n, (steps_left w + n)%nat)); [intros; lia|done]. Qed.

Lemma remaining_move s i w w' slots ws :
  sb_workers s !! i = Some w → (steps_left w' < steps_left w)%nat →
  (remaining (move s i w' slots ws) < remaining s)%nat.
Proof.
  intros Hi Hlt. unfold remaining. cbn [sb_workers move]. rewrite (remaining_delete (sb_workers s) i w Hi).
  rewrite (remaining_delete _ i w') by apply lookup_insert_eq. rewrite delete_insert_eq. lia.
Qed.

Lemma worker_step_remaining s s' : worker_step s s' → (remaining s' < remaining s)%nat ∧ sb_stopping s' = sb_stopping s.
Proof.
  intros [s1 i w Hi Hp Hf|s1 i w Hi Hp|s1 i w c ws Hi Hp Hws|s1 i w Hi Hp|s1 i w Hi Hp]; (split; [|done]).
  1,3,4: apply (remaining_move s1 i w); [done|]; unfold steps_left; by rewrite Hp; cbn; lia.
  - apply (remaining_move (dropStubClaim s1 _ _) i w); [done|]. unfold steps_left. rewrite Hp. cbn. lia.
  - unfold remaining. cbn [sb_workers leave]. rewrite (remaining_delete (sb_workers s1) i w Hi).
    unfold steps_left. rewrite Hp. lia.
Qed.

(** Once it stops, an admission starts nothing. *)
Lemma stopped_request s now i r : sb_stopping s = true → requestRecommendation s now i r = s.
Proof. intros Hs. unfold requestRecommendation, beginStubRequest. by rewrite Hs. Qed.

Lemma stopped_step s s' :
  sb_stopping s = true → stub_step s s' → sb_stopping s' = true ∧ (s' = s ∨ (remaining s' < remaining s)%nat).
Proof.
  intros Hs Hstep. destruct Hstep as [s1 now i r Hi|s1 s2 Hst|s1].
  - rewrite stopped_request by done. auto.
  - destruct (worker_step_remaining _ _ Hst) as [? Hst']. rewrite Hst'. auto.
  - split; [done|left]. destruct s1. cbn in *. by subst.
Qed.

(** A goroutine alive can always take a step of its own. *)
Lemma worker_moves (c : WlrClient) s i w : sb_workers s !! i = Some w → ∃ s', worker_step s s'.
Proof.
  intros Hi. destruct (wo_phase w) eqn:Hp.
  - eexists. by apply (w_give_up s i w).
  - eexists. apply (w_request s i w c []); [done..|apply prefix_nil].
  - eexists. by apply (w_release s i w).
  - eexists. by apply (w_leave s i w).
Qed.

(** a shutdown drains: no goroutine starts once it stops, every step that
    changes anything is one of a goroutine that brings it nearer its end, and
    whichever are left one can always move, so the wait group reaches zero
    after at most four steps for each. *)
Theorem shutdown_drains (c : WlrClient) l s :
  newStubClaims = Some l → stub_runs (newStubs l) s → sb_stopping s = true →
  (∀ s', stub_step s s' → sb_stopping s' = true ∧ (s' = s ∨ (remaining s' < remaining s)%nat)) ∧
  (sb_wg s = 0 ∨ ∃ s', worker_step s s') ∧
  ∃ s', stub_runs s s' ∧ sb_wg s' = 0.
Proof.
  intros Hl Hr Hs. pose proof (stub_runs_ok _ _ (newStubs_ok l Hl) Hr) as Hok. clear Hr Hl.
  assert (Hmove : ∀ s, stubs_ok s → sb_wg s = 0 ∨ ∃ s', worker_step s s').
  { intros s1 Hok1. destruct (decide (sb_workers s1 = ∅)) as [He|(i & w & Hi)%map_choose].
    - left. by rewrite (so_wg _ Hok1), He.
    - right. by eapply (worker_moves c). }
  split; [intros s'; by apply stopped_step|]. split; [by apply Hmove|]. clear Hs.
  assert (Hgen : ∀ n s1, remaining s1 = n → stubs_ok s1 → stub_runs s s1 → ∃ s', stub_runs s s' ∧ sb_wg s' = 0).
  { intros n. induction (lt_wf n) as [n _ IH]. intros s1 Hn Hok1 Hr1.
    destruct (Hmove s1 Hok1) as [H0|(s2 & Hst)]; [eauto|]. pose proof (worker_step_remaining _ _ Hst) as [Hlt _].
    apply (IH (remaining s2) ltac:(lia) s2 eq_refl); [by eapply worker_step_ok|].
    eapply sr_step; [exact Hr1|by apply s_worker]. }
  apply (Hgen _ s eq_refl Hok). apply sr_refl.
Qed.
End Facts.

(** *** One request per identity *)
Section Dedup.
Context {QO : QuantityOps} {KO : KubeOps} {HA : Hashing}.

(** A claim as the cache holds it. *)
Definition claim_entry (key : string) (claim : Z) (t : time) : entry (K := string) (V := Z) :=
  {| en_key := key; en_value := claim; en_storedAt := t |}.

(** A claim still held, with only claims of the keys [used] ahead of it. *)
Definition held (used : gset string) (key : string) (claim : Z) (t : time) (s : stubs) : Prop :=
  stubs_ok s ∧ behind used key (claim_entry key claim t) (lru_view (sb_claims s)).

(** A run within the claim's lifetime that does not drop it, with the keys its
    admissions ask for. *)
Inductive quiet_run (key : string) (claim : Z) (t : time) (s0 : stubs) : gset string → stubs → Prop :=
  | q_refl : quiet_run key claim t s0 ∅ s0
  | q_admission used s now i r : quiet_run key claim t s0 used s → sb_workers s !! i = None →
      t ≤ now ≤ t + stubRequestDedupTTL →
      quiet_run key claim t s0 ({[claimKey (sr_identity r)]} ∪ used) (requestRecommendation s now i r)
  | q_worker used s s' : quiet_run key claim t s0 used s → worker_step s s' →
      (∀ i w, s' = giveUp s i w → claimKey (sr_identity (wo_request w)) = key → wo_claim w ≠ claim) →
      quiet_run key claim t s0 used s'
  | q_shutdown used s : quiet_run key claim t s0 used s → quiet_run key claim t s0 used (Shutdown s).

Lemma fresh_claim now key claim t :
  t ≤ now ≤ t + stubRequestDedupTTL → fresh_within stubRequestDedupTTL now (claim_entry key claim t) = true.
Proof.
  intros Hn. unfold fresh_within. cbn [en_storedAt claim_entry]. apply negb_true_iff, Z.ltb_ge.
  unfold time_Sub, stubRequestDedupTTL, int64_min, int64_max, second in *. lia.
Qed.

Lemma held_refused used key claim t s now :
  held used key claim t s → t ≤ now ≤ t + stubRequestDedupTTL →
  fst (beginStubRequest s now key) = None ∧ held used key claim t (snd (beginStubRequest s now key)).
Proof.
  intros [Hok Hb] Hn. unfold beginStubRequest. destruct (sb_stopping s) eqn:Est; [done|].
  destruct (so_claims _ Hok) as (Hl & _ & Ht).
  pose proof (SetIfAbsent_refines (sb_claims s) now key (nextClaim s) Hl) as H.
  pose proof (claims_ok s _ (claim_op s now key) Hok eq_refl) as Hok'. unfold claim_op in Hok'. cbn [lru_do] in Hok'.
  destruct (SetIfAbsent _ _ _ _) as [l granted]. destruct H as (_ & Hg & Hv).
  rewrite (behind_find _ _ _ _ Hb), Ht, fresh_claim in Hg by done. subst granted. cbn [fst snd negb] in *.
  split; [done|]. split; [by destruct Hok'; split|]. cbn [sb_claims]. rewrite Hv. unfold spec_touch.
  rewrite (behind_find _ _ _ _ Hb). exists [], (spec_without key (lru_view (sb_claims s))). cbn.
  split_and!; [done..|by apply not_elem_of_nil|constructor|by intros ? ?%not_elem_of_nil].
Qed.

(** A request of another identity, or a drop of another claim. *)
Lemma held_other used key claim t s now i r :
  held used key claim t s → claimKey (sr_identity r) ≠ key → sb_workers s !! i = None →
  (size ({[claimKey (sr_identity r)]} ∪ used) < Z.to_nat stubRequestDedupMaxEntries)%nat →
  held ({[claimKey (sr_identity r)]} ∪ used) key claim t (requestRecommendation s now i r).
Proof.
  intros [Hok Hb] Hne Hi Hsz. split; [by apply request_ok|]. destruct (so_claims _ Hok) as (Hl & Hn & _).
  set (k := claimKey (sr_identity r)) in *.
  assert (Hsame : behind ({[k]} ∪ used) key (claim_entry key claim t) (lru_view (sb_claims s)))
    by (eapply behind_more; [|done]; set_solver).
  unfold requestRecommendation, beginStubRequest. destruct (sb_stopping s) eqn:Est; [done|]. fold k.
  pose proof (behind_op used key (claim_entry key claim t) (sb_claims s) (claim_op s now k) Hl Hne) as H.
  unfold claim_op in H. cbn [op_key lru_do] in H. rewrite Hn in H. specialize (H Hsz Hb).
  destruct (SetIfAbsent (sb_claims s) now k (nextClaim s)) as [l []]; exact H.
Qed.

Lemma held_drop used key claim t s k c :
  held used key claim t s → (k = key → c ≠ claim) → held used key claim t (dropStubClaim s k c).
Proof.
  intros [Hok Hb] Hc. split; [by apply dropStubClaim_ok|]. destruct (so_claims _ Hok) as (Hl & _).
  unfold dropStubClaim. cbn [sb_claims with_claims].
  pose proof (DeleteIf_refines (sb_claims s) k (λ held, held =? c) Hl) as H.
  destruct (DeleteIf _ _ _) as [l removed]. destruct H as (_ & Hr & Hv). cbn [fst]. rewrite Hv.
  destruct (decide (k = key)) as [->|Hne].
  - rewrite (behind_find _ _ _ _ Hb) in Hr. cbn in Hr. destruct (Z.eqb_spec claim c); [by destruct (Hc eq_refl)|]. by subst removed.
  - destruct removed; [by apply behind_without|done].
Qed.

Lemma held_worker used key claim t s s' :
  held used key claim t s → worker_step s s' →
  (∀ i w, s' = giveUp s i w → claimKey (sr_identity (wo_request w)) = key → wo_claim w ≠ claim) →
  held used key claim t s'.
Proof.
  intros [Hok Hb] Hst Hd. split; [by eapply worker_step_ok|].
  destruct Hst as [s i w Hi Hp Hf|s i w Hi Hp|s i w c ws Hi Hp Hws|s i w Hi Hp|s i w Hi Hp]; try done.
  by apply (held_drop used key claim t s), (Hd i w eq_refl).
Qed.

Lemma quiet_held key claim t s0 used s :
  held ∅ key claim t s0 → quiet_run key claim t s0 used s →
  (size used < Z.to_nat stubRequestDedupMaxEntries)%nat → held used key claim t s.
Proof.
  intros H0. induction 1 as [|used s now i r Hq IH Hi Hn|used s s' Hq IH Hst Hd|used s Hq IH]; intros Hsz; [done|..].
  - assert (Hu : held used key claim t s).
    { apply IH. eapply Nat.le_lt_trans; [|exact Hsz]. apply subseteq_size. set_solver. }
    destruct (decide (claimKey (sr_identity r) = key)) as [E|Hne]; [|by apply held_other].
    destruct (held_refused used key claim t s now Hu Hn) as [Hr Hh]. unfold requestRecommendation. rewrite E.
    destruct (beginStubRequest s now key) as [o s1]. cbn [fst snd] in *. subst o. destruct Hh as [Hok Hb].
    split; [done|]. eapply behind_more; [|exact Hb]. set_solver.
  - eapply held_worker; [by apply IH|done|done].
  - destruct (IH Hsz) as [Hok Hb]. split; [by destruct Hok; split|done].
Qed.

(** one stub request per identity: from the admission granted a claim, every
    later admission of that identity within thirty seconds is refused one,
    whatever other admissions and goroutines do, unless the claim's own
    goroutine gave up and dropped it or the claims of thousands of other
    identities pushed it out. *)
Theorem one_request_per_ttl l s t i r claim used s' now :
  let key := claimKey (sr_identity r) in
  newStubClaims = Some l → stub_runs (newStubs l) s → sb_workers s !! i = None →
  fst (beginStubRequest s t key) = Some claim →
  quiet_run key claim t (requestRecommendation s t i r) used s' →
  (size used < Z.to_nat stubRequestDedupMaxEntries)%nat → t ≤ now ≤ t + stubRequestDedupTTL →
  fst (beginStubRequest s' now key) = None.
Proof.
  cbn zeta. set (key := claimKey (sr_identity r)). intros Hl Hr Hi Hg Hq Hsz Hn.
  pose proof (stub_runs_ok _ _ (newStubs_ok l Hl) Hr) as Hok.
  apply (held_refused used key claim t); [|done]. eapply quiet_held; [|exact Hq|done].
  split; [by apply request_ok|]. destruct (so_claims _ Hok) as (Hlk & Hmax & _).
  unfold requestRecommendation. fold key. unfold beginStubRequest in *. destruct (sb_stopping s) eqn:Est; [done|].
  pose proof (SetIfAbsent_refines (sb_claims s) t key (nextClaim s) Hlk) as H.
  destruct (SetIfAbsent _ _ _ _) as [l' granted]. destruct granted; [|done]. cbn [fst] in Hg. injection Hg as <-.
  destruct H as (_ & _ & Hv). cbn [move sb_claims]. rewrite Hv. unfold spec_set.
  apply behind_take; [rewrite Hmax, size_empty; unfold stubRequestDedupMaxEntries; lia|].
  exists [], (spec_without key (lru_view (sb_claims s))). cbn.
  split_and!; [done..|by apply not_elem_of_nil|constructor|by intros ? ?%not_elem_of_nil].
Qed.
End Dedup.

(** ** At a concrete input *)
Section Sample.
#[local] Existing Instance nano_quantity.
#[local] Existing Instance simple_kube.
#[local] Existing Instance plain_hashing.

Definition sample_stub (name : string) : stubRequest :=
  {| sr_known := None; sr_identity := Shards.Identity "prod" "Pod" name; sr_policy := "frugal"; sr_observed := ∅ |}.

#[local] Abbreviation claims0 := {| l_maxEntries := stubRequestDedupMaxEntries; l_ttl := stubRequestDedupTTL; order := [];
  heap := ∅; l_entries := ∅; next := 0 |}.

(** Two admissions of two identities, the first being written, then a stop. *)
Definition admitted_two : stubs :=
  requestRecommendation (requestRecommendation (newStubs claims0) 100 0 (sample_stub "web")) 101 1 (sample_stub "db").

Lemma admitted_two_run : stub_runs (newStubs claims0) admitted_two.
Proof.
  unfold admitted_two. eapply sr_step; [eapply sr_step; [apply sr_refl|]|]; apply s_admission; by_running.
Qed.

Lemma stub_invariant_witness : sb_wg admitted_two = 2 ∧ Forall keeps_recommendation (sb_writes admitted_two).
Proof.
  destruct (stub_invariant claims0 admitted_two eq_refl admitted_two_run) as (Hwg & _ & _ & Hw).
  split; [rewrite Hwg; by_running|exact Hw].
Defined.

Lemma shutdown_drains_witness :
  sb_wg (Shutdown admitted_two) = 2 ∧ ∃ s', stub_runs (Shutdown admitted_two) s' ∧ sb_wg s' = 0.
Proof.
  split; [by_running|].
  destruct (shutdown_drains (sample_client []) claims0 (Shutdown admitted_two) eq_refl) as (_ & _ & H);
    [eapply sr_step; [exact admitted_two_run|apply s_shutdown]|by_running|exact H].
Defined.

Lemma one_request_per_ttl_witness : fst (beginStubRequest admitted_two (20 * second) (claimKey (sr_identity (sample_stub "web")))) = None.
Proof.
  apply (one_request_per_ttl claims0 (newStubs claims0) 100 0 (sample_stub "web") 1
    ({[claimKey (sr_identity (sample_stub "db"))]} ∪ ∅) admitted_two (20 * second)).
  - reflexivity.
  - apply sr_refl.
  - by_running.
  - by_running.
  - unfold admitted_two at 1. apply q_admission; [apply q_refl|by_running|unfold stubRequestDedupTTL, second; lia].
  - apply Nat.ltb_lt; by_running.
  - unfold stubRequestDedupTTL, second. lia.
Defined.
End Sample.
