(* ===== verification/Assemble.v ===== *)
(** * From identities to requests ([internal/recommender/assemble.go])

    What the recommender is handed: the Policy's resources with every default
    explicit, an identity's containers, its autoscaler, and its inputs. The
    readers of inputs and of autoscalers are the classes [InputsFetcher] and
    [Autoscalers], the interfaces of Go. *)

From S2P Require Import Prelude GoLang GoFloat Quantity Kube PolicyApi WlrApi Shards Governance Autoscaler.
From S2P Require Import Resources Signals Coordination Limits Compute Inventory.
Local Open Scope Z_scope.

(** ** Defaults *)
Section Defaults.
Context {PL : Platform} {QO : QuantityOps} {PO : PromOps}.

Definition requestsWithDefaults (r : ResourceRequestsConfig) : ResourceRequestsConfig :=
  if KeepRequest r then r
  else
    {| Headroom := Some (default 0 (Headroom r)); KeepRequest := KeepRequest r;
       MaxAllowed := MaxAllowed r; MinAllowed := MinAllowed r;
       Percentile := Some (default defaultPercentile (Percentile r)) |}.

Definition limitsWithDefaults (l : ResourceLimitsConfig) : ResourceLimitsConfig :=
  if String.eqb (st_name (strategyOf l)) stageKeepLimit then
    {| EqualsToRequest := EqualsToRequest l; KeepLimit := true;
       KeepLimitRequestRatio := KeepLimitRequestRatio l; NoLimit := NoLimit l;
       RequestsLimitsRatio := RequestsLimitsRatio l |}
  else l.

Definition resourceWithDefaults (rc : ResourceConfig) : ResourceConfig :=
  {| Window := ResourceWindow (Window rc); rc_Requests := requestsWithDefaults (rc_Requests rc);
     rc_Limits := limitsWithDefaults (rc_Limits rc); rc_DownsizeThreshold := rc_DownsizeThreshold rc |}.

Definition WithDefaults (cfg : ResourcesConfigs) : ResourcesConfigs :=
  {| CPU := resourceWithDefaults (CPU cfg); Memory := resourceWithDefaults (Memory cfg) |}.

(** ** Containers *)

Definition ContainersOf (spec : RightSizingSpec) (id : Inventory.Identity) : list Container :=
  if ExcludeInitContainers spec then Containers id else Containers id ++ InitContainers id.

Definition sizedContainers (spec : RightSizingSpec) (id : Inventory.Identity) (w : WorkloadInputs) :
    list Container :=
  match Containers id, InitContainers id with
  | [], [] => observedContainers w
  | _, _ => ContainersOf spec id
  end.
End Defaults.

(** ** The interfaces Assemble reads through *)

(** One entry per requested identity: its inputs, or why they are unread. *)
Class InputsFetcher {QO : QuantityOps} : Type := {
  FetchInputs : time → ResourcesConfigs → list InputsRequest →
    gmap WorkloadIdentity (result WorkloadInputs);
}.

Class FetcherLaws {QO : QuantityOps} {IF : InputsFetcher} : Prop := {
  FetchInputs_dom at_ cfg reqs id :
    is_Some (FetchInputs at_ cfg reqs !! id) ↔ ∃ r, r ∈ reqs ∧ ir_Identity r = id;
}.

(** The reader's own state is threaded through its calls. *)
Class Autoscalers : Type := {
  as_state : Type;
  ForIdentity : as_state → string → string → list string → as_state * (Group * option error);
}.

(** [NamespacedSnapshot] over a cluster. *)
Definition snapshot_autoscalers {PL : Platform} (c : cluster) : Autoscalers :=
  {| as_state := NamespacedSnapshot; ForIdentity m ns kind ms := Autoscaler.ForIdentity m c ns kind ms |}.

Section Assemble.
Context {PL : Platform} {QO : QuantityOps} {PO : PromOps} {AS : Autoscalers} {IF : InputsFetcher}.

(** A departed identity has no autoscaler. *)
Definition autoscalerOf (st : as_state) (id : Inventory.Identity) : as_state * (Group * option error) :=
  match Contributors id with
  | [] => (st, (noGroup, None))
  | members => ForIdentity st (id_Namespace (Key id)) (id_OwnerKind (Key id)) (map m_Name members)
  end.

(** The identities of one namespace, in order: once a read failed its answer
    stands for the rest. *)
Definition readNext (acc : as_state * option Group * gmap nat Group) (p : nat * Inventory.Identity) :
    as_state * option Group * gmap nat Group :=
  let '(st, failed, groups) := acc in
  match failed with
  | Some g => (st, failed, <[p.1 := g]> groups)
  | None =>
      let '(st, (group, err)) := autoscalerOf st p.2 in
      (st, match err with Some _ => Some group | None => None end, <[p.1 := group]> groups)
  end.

Definition readNamespace (st : as_state) (groups : gmap nat Group) (ids : list (nat * Inventory.Identity)) :
    as_state * gmap nat Group :=
  let '(st, _, groups) := foldl readNext (st, None, groups) ids in (st, groups).

(** Every namespace in the order it first occurs. The goroutines that read
    different namespaces share only the reader, which reads each namespace
    apart; one order is followed here. *)
Definition readAutoscalers (st : as_state) (ids : list Inventory.Identity) : as_state * gmap nat Group :=
  let namespaces := remove_dups (map (λ id, id_Namespace (Key id)) ids) in
  foldl (λ acc ns,
    readNamespace (fst acc) (snd acc)
      (List.filter (λ p, String.eqb (id_Namespace (Key p.2)) ns) (indexed_from 0 ids)))
    (st, ∅) namespaces.

Record Assembled := {
  as_Request : option Request;
  as_Autoscaler : Group;
  as_Err : option error;
}.

Definition assembleOne (spec : RightSizingSpec) (at_ : time)
    (fetched : gmap WorkloadIdentity (result WorkloadInputs)) (groups : gmap nat Group)
    (p : nat * Inventory.Identity) : Assembled :=
  let id := p.2 in
  let group := default noGroup (groups !! p.1) in
  (* the fetcher answers every requested identity *)
  match default (Ok ∅) (fetched !! Key id) with
  | Err e => {| as_Request := None; as_Autoscaler := group; as_Err := Some e |}
  | Ok inputs =>
      let cs := sizedContainers spec id inputs in
      {| as_Request := Some
           {| containers := cs; resources := WithDefaults (rs_ResourcesConfigs spec);
              coordination := rs_AutoscalerCoordination spec; autoInfo := g_Info group;
              inputs := inputs; since := Since id; now := at_;
              fetch := {| ir_Identity := Key id; ir_Containers := Z.of_nat (length cs) |} |};
         as_Autoscaler := group; as_Err := None |}
  end.

Definition inputsRequest (spec : RightSizingSpec) (id : Inventory.Identity) : InputsRequest :=
  {| ir_Identity := Key id; ir_Containers := Z.of_nat (length (ContainersOf spec id)) |}.

(** [at_] is what [now] answers, read once. *)
Definition Assemble (st : as_state) (at_ : time) (spec : RightSizingSpec) (ids : list Inventory.Identity) :
    as_state * list Assembled :=
  let '(st, groups) := readAutoscalers st ids in
  let fetched := FetchInputs at_ (WithDefaults (rs_ResourcesConfigs spec)) (map (inputsRequest spec) ids) in
  (st, map (assembleOne spec at_ fetched groups) (indexed_from 0 ids)).
End Assemble.

(** ** Facts *)
Section Facts.
Context {PL : Platform} {QO : QuantityOps} {PO : PromOps}.

(** Making the default strategy explicit chooses the same one. *)
Lemma strategyOf_defaults l : strategyOf (limitsWithDefaults l) = strategyOf l.
Proof.
  unfold limitsWithDefaults. destruct (String.eqb_spec (st_name (strategyOf l)) stageKeepLimit) as [E|]; [|done].
  unfold strategyOf in *. cbn [List.find limitStrategies chosen KeepLimit] in *.
  destruct (KeepLimit l); [done|]. destruct (NoLimit l); [done|]. destruct (EqualsToRequest l); [done|].
  destruct (RequestsLimitsRatio l); [done|]. by destruct (KeepLimitRequestRatio l).
Qed.

Lemma limitsWithDefaults_ratio l : RequestsLimitsRatio (limitsWithDefaults l) = RequestsLimitsRatio l.
Proof. unfold limitsWithDefaults. by destruct (String.eqb _ _). Qed.

Lemma WithDefaults_idemp cfg : WithDefaults (WithDefaults cfg) = WithDefaults cfg.
Proof.
  assert (H : ∀ rc, resourceWithDefaults (resourceWithDefaults rc) = resourceWithDefaults rc).
  { intros [w [h k mx mn p] l t]. unfold resourceWithDefaults. cbn. f_equal.
    - unfold ResourceWindow. destruct (String.eqb_spec w ""); [done|]. by destruct (String.eqb_spec w "").
    - unfold requestsWithDefaults. cbn. by destruct k.
    - unfold limitsWithDefaults at 1. rewrite strategyOf_defaults.
      unfold limitsWithDefaults. destruct (String.eqb _ _); done. }
  unfold WithDefaults. cbn. by rewrite !H.
Qed.

Definition with_resources_config (req : Request) (cfg : ResourcesConfigs) : Request :=
  {| containers := containers req; resources := cfg; coordination := coordination req;
     autoInfo := autoInfo req; inputs := inputs req; since := since req; now := now req;
     fetch := fetch req |}.

Lemma withHeadroom_default r v h : withHeadroom r v (Some (default 0 h)) = withHeadroom r v h.
Proof. by destruct h. Qed.
(** The request side reads no setting of the Policy. *)
Lemma contributions_config res sc sc' :
  sc_inputs sc = sc_inputs sc' → sc_container sc = sc_container sc' →
  contributionsTo sc res [base; adjuster] = contributionsTo sc' res [base; adjuster] ∧
  ∀ w, stagesOf (contributionsTo sc res [base; adjuster]) sc w =
       stagesOf (contributionsTo sc' res [base; adjuster]) sc' w.
Proof.
  intros Hi Hc. destruct res.
  - rewrite !cpu_contributions, Hi, Hc. split; [done|]. intros w.
    by destruct (inputs_usage _ _ _).
  - rewrite !memory_contributions. assert (oomOf sc = oomOf sc') as Ho by (unfold oomOf; by rewrite Hi, Hc).
    rewrite Hi, Hc, Ho. split; [done|]. intros w.
    destruct (inputs_usage _ _ _), (recent _); cbn; unfold oom_stage; by rewrite ?Ho.
Qed.

Lemma st_limit_defaults b cfg :
  st_limit (strategyOf cfg)
    {| lb_res := lb_res b; lb_request := lb_request b; lb_current := lb_current b;
       lb_cfg := limitsWithDefaults cfg |} =
  st_limit (strategyOf cfg)
    {| lb_res := lb_res b; lb_request := lb_request b; lb_current := lb_current b; lb_cfg := cfg |}.
Proof.
  unfold strategyOf at 1 2. cbn [List.find limitStrategies chosen].
  destruct (KeepLimit cfg); [done|]. destruct (NoLimit cfg); [done|]. destruct (EqualsToRequest cfg); [done|].
  destruct (RequestsLimitsRatio cfg) eqn:E; [cbn; by rewrite limitsWithDefaults_ratio, E|].
  by destruct (KeepLimitRequestRatio cfg).
Qed.

Lemma limitChain_config res sc sc' :
  sc_inputs sc = sc_inputs sc' → sc_container sc = sc_container sc' → sc_request sc = sc_request sc' →
  rc_Limits (sc_config sc) = limitsWithDefaults (rc_Limits (sc_config sc')) →
  limitChain res sc = limitChain res sc'.
Proof.
  intros Hi Hc Hr Hl. unfold limitChain. rewrite !no_limit_adjusters, Hc, Hr, Hl, strategyOf_defaults.
  pose proof (st_limit_defaults
    {| lb_res := res; lb_request := default ZeroQuantity (sc_request sc');
       lb_current := c_Resources (sc_container sc'); lb_cfg := rc_Limits (sc_config sc') |}
    (rc_Limits (sc_config sc'))) as Hs. cbn [lb_res lb_request lb_current] in Hs. rewrite Hs.
  done.
Qed.

Lemma size_defaults res c req :
  size res c (with_resources_config req (WithDefaults (resources req))) = size res c req.
Proof.
  assert (Hcfg : config res (WithDefaults (resources req)) = resourceWithDefaults (config res (resources req)))
    by (by destruct res).
  unfold size. cbn [resources inputs now coordination autoInfo with_resources_config]. rewrite Hcfg.
  set (rc := config res (resources req)).
  destruct (contributions_config res
    {| sc_inputs := inputs req; sc_config := resourceWithDefaults rc; sc_container := c;
       sc_now := now req; sc_request := None |}
    {| sc_inputs := inputs req; sc_config := rc; sc_container := c; sc_now := now req;
       sc_request := None |} eq_refl eq_refl) as [Hcs Hst].
  rewrite Hcs in Hst |- *. destruct (requestOf _) as [v winner]. rewrite !Hst.
  assert (Hk : KeepRequest (rc_Requests (resourceWithDefaults rc)) = KeepRequest (rc_Requests rc))
    by (cbn; unfold requestsWithDefaults; destruct (KeepRequest (rc_Requests rc)) eqn:E; by rewrite ?E).
  rewrite Hk. destruct (negb _ || KeepRequest (rc_Requests rc)) eqn:Eg; [done|].
  apply orb_false_iff in Eg as [_ Eg].
  assert (Hreq : rc_Requests (resourceWithDefaults rc) =
    {| Headroom := Some (default 0 (Headroom (rc_Requests rc))); KeepRequest := KeepRequest (rc_Requests rc);
       MaxAllowed := MaxAllowed (rc_Requests rc); MinAllowed := MinAllowed (rc_Requests rc);
       Percentile := Some (default defaultPercentile (Percentile (rc_Requests rc))) |})
    by (cbn; unfold requestsWithDefaults; by rewrite Eg).
  rewrite Hreq. cbn [Headroom MinAllowed MaxAllowed]. rewrite withHeadroom_default.
  rewrite (coordinate_config _ _ _ _ _ (rc_Requests rc)) by done.
  cbn [sc_inputs sc_config sc_container sc_now].
  rewrite (limitChain_config res _ {| sc_inputs := inputs req; sc_config := rc; sc_container := c;
    sc_now := now req; sc_request := Some (match coordinate (clamp (withHeadroom res v (Headroom (rc_Requests rc)))
      (MinAllowed (rc_Requests rc)) (MaxAllowed (rc_Requests rc))) res (coordination req) (autoInfo req)
      (rc_Requests rc) with Some co => co_value co | None => clamp (withHeadroom res v (Headroom (rc_Requests rc)))
      (MinAllowed (rc_Requests rc)) (MaxAllowed (rc_Requests rc)) end) |}) by done.
  done.
Qed.

(** making the defaults explicit changes no recommendation: Compute answers
    the same under the Policy's resources as written and with every default
    spelled out, as the fetch is given them. *)
Theorem Compute_WithDefaults req :
  Compute (with_resources_config req (WithDefaults (resources req))) = Compute req.
Proof.
  unfold Compute. cbn [containers since now inputs with_resources_config].
  assert (H : ∀ cs st, foldl (computeStep (with_resources_config req (WithDefaults (resources req)))) st cs =
    foldl (computeStep req) st cs).
  { induction cs as [|c cs IH]; intros st; cbn [foldl]; [done|]. rewrite IH. f_equal.
    unfold computeStep, computeContainer. by rewrite !size_defaults. }
  by rewrite H.
Qed.
End Facts.

Section AssembleFacts.
Context {PL : Platform} {QO : QuantityOps} {PO : PromOps} {AS : Autoscalers} {IF : InputsFetcher}
  {FL : FetcherLaws}.

(** every identity is answered, in order: with the Request of its inputs as
    fetched, under the Policy's resources with defaults, as of the one instant
    and shaped by the autoscaler reported beside it; or with the error that
    left its inputs unread, never with neither. *)
Theorem Assemble_answers st at_ spec ids i id :
  ids !! i = Some id →
  ∃ a, snd (Assemble st at_ spec ids) !! i = Some a ∧
    let fetched := FetchInputs at_ (WithDefaults (rs_ResourcesConfigs spec)) (map (inputsRequest spec) ids) in
    match as_Request a, as_Err a with
    | Some req, None =>
        fetched !! Key id = Some (Ok (inputs req)) ∧ now req = at_ ∧ since req = Since id ∧
        resources req = WithDefaults (rs_ResourcesConfigs spec) ∧
        containers req = sizedContainers spec id (inputs req) ∧
        autoInfo req = g_Info (as_Autoscaler a)
    | None, Some e => fetched !! Key id = Some (Err e)
    | _, _ => False
    end.
Proof.
  intros Hid. unfold Assemble. destruct (readAutoscalers st ids) as [st' groups]. cbn [snd].
  rewrite list_lookup_fmap. unfold indexed_from. rewrite list_lookup_imap, Hid. cbn [fmap option_fmap option_map].
  eexists. split; [done|]. unfold assembleOne. cbn [fst snd].
  assert (is_Some (FetchInputs at_ (WithDefaults (rs_ResourcesConfigs spec)) (map (inputsRequest spec) ids)
    !! Key id)) as [f Hf].
  { apply FetchInputs_dom. exists (inputsRequest spec id). split; [|done].
    apply list_elem_of_fmap_2, list_elem_of_lookup. eauto. }
  cbn zeta. cbn [fst snd].
  match goal with |- context [from_option _ _ ?x] => destruct x as [[w|e]|] eqn:E end; cbn.
  - by split_and!.
  - done.
  - discriminate (eq_trans (eq_sym E) Hf).
Qed.

(** A namespace that cannot be read is read once: after the first failure, the
    rest of its identities are answered that failure without a read. *)
Lemma readNext_failed st g groups ids :
  foldl readNext (st, Some g, groups) ids =
  (st, Some g, foldl (λ m p, <[p.1 := g]> m) groups ids).
Proof. revert groups. induction ids as [|p ids IH]; intros groups; cbn; [done|]. by rewrite IH. Qed.
End AssembleFacts.

(** ** At a concrete input *)
Section Sample.
#[local] Existing Instance amd64.
#[local] Existing Instance nano_quantity.
#[local] Existing Instance no_durations.
#[local] Instance no_autoscalers : Autoscalers := snapshot_autoscalers Autoscaler.sample_cluster.

(** A fetcher that reads one container's CPU for every identity but one. *)
#[local] Instance sample_fetcher : InputsFetcher :=
  {| FetchInputs _ _ reqs := list_to_map (map (λ r, (ir_Identity r,
       if String.eqb (id_OwnerName (ir_Identity r)) "lost" then Err (ErrorNew "no shard")
       else Ok (NewInputs []))) reqs) |}.

Lemma sample_fetcher_laws : FetcherLaws.
Proof.
  split. intros at_ cfg reqs id. cbn. rewrite <-elem_of_dom, dom_list_to_map, elem_of_list_to_set, list_elem_of_fmap.
  split; [intros (p & -> & (r & -> & Hr)%list_elem_of_fmap); eauto|].
  intros (r & Hr & <-). eexists. split; [|apply list_elem_of_fmap; eauto]. done.
Qed.

Definition sample_ids : list Inventory.Identity :=
  [ Inventory.newIdentity (Shards.Identity "prod" "Deployment" "web");
    Inventory.newIdentity (Shards.Identity "prod" "Deployment" "lost") ].

Lemma Assemble_answers_witness :
  ∃ a, snd (Assemble (AS := no_autoscalers) NewNamespacedSnapshot 100 (pol_RightSizing (KO := simple_kube) sample_policy) sample_ids) !! 1%nat
         = Some a ∧ as_Request a = None ∧ as_Err a = Some (ErrorNew "no shard").
Proof.
  destruct (Assemble_answers (AS := no_autoscalers) (FL := sample_fetcher_laws) NewNamespacedSnapshot 100
    (pol_RightSizing (KO := simple_kube) sample_policy) sample_ids 1 _ eq_refl) as (a & Ha & Hf).
  exists a. split; [exact Ha|]. cbn zeta in Hf.
  assert (Hl : FetchInputs 100 (WithDefaults (rs_ResourcesConfigs (pol_RightSizing (KO := simple_kube) sample_policy)))
    (map (inputsRequest (pol_RightSizing (KO := simple_kube) sample_policy)) sample_ids)
    !! Shards.Identity "prod" "Deployment" "lost" = Some (Err (ErrorNew "no shard"))) by by_running.
  cbn [Inventory.newIdentity Key] in Hf. rewrite Hl in Hf.
  destruct (as_Request a), (as_Err a); try done; [by destruct Hf|]. by injection Hf as <-.
Defined.
End Sample.
