(* ===== verification/Pass.v ===== *)
(** * One pass of a Policy
    ([pass.go], [recommendation_pass.go], [workload_reconcile.go],
    [workload_target.go], [recommendation_cache.go] of [internal/controller])

    The composition of the components: the snapshot's identities are claimed,
    recommended, recorded, and only then applied, and the pass reports what it
    did with each. [World] is what a pass is run in: the answers of the API
    server and of the clock, and the context. The records of a pass run side by
    side, one per identity, and the applies one per member: each gets its own
    answers, so the theorems hold of every interleaving. The
    Kubernetes events of the applies and the logs are not modelled. *)

From S2P Require Import Prelude GoLang GoFloat Quantity Kube PolicyApi WlrApi Owners Shards Resources Signals.
From S2P Require Import Autoscaler Compute OomTrace Inject Patcher Apply Ledger WlrRead WlrWrite Inventory Assemble.
Local Open Scope Z_scope.

(** ** Targets *)
Section Targets.
Context {QO : QuantityOps} {KO : KubeOps}.

(** The object a member of the inventory holds beside its metadata. *)
Inductive memberObject := PodObject (pod : Pod) | KindObject (o : Object).

Record workloadTarget := {
  wt_Member : Apply.Member;
  wt_Name : string;
  wt_Namespace : string;
}.

Definition target_key (t : workloadTarget) : MemberKey :=
  Ledger.Key (mb_Kind (wt_Member t)) (wt_Namespace t) (wt_Name t).

Context (objectOf : WorkloadIdentity → Inventory.Member → memberObject).

Definition targetFromMember (key : WorkloadIdentity) (m : Inventory.Member) (o : Object) : workloadTarget :=
  {| wt_Member :=
       {| mb_Kind := id_OwnerKind key; mb_Object := o; mb_Pods := []; mb_Containers := m_Containers m;
          mb_InitContainers := m_InitContainers m |};
     wt_Name := m_Name m; wt_Namespace := id_Namespace key |}.

(** The targets before the bare pods', and the pods. *)
Definition addTarget (key : WorkloadIdentity) (policyName : string) (acc : list workloadTarget * list Pod)
    (m : Inventory.Member) : list workloadTarget * list Pod :=
  if negb (String.eqb (m_Policy m) policyName) then acc
  else
    match objectOf key m with
    | PodObject pod => (fst acc, snd acc ++ [pod])
    | KindObject o => (fst acc ++ [targetFromMember key m o], snd acc)
    end.

(** The bare pods' object, the newest of them, is a pod like any other to
    [Apply], which reads the pods. *)
Definition targetsOf (id : Inventory.Identity) (policyName : string) : list workloadTarget :=
  let key := Inventory.Key id in
  let '(targets, pods) := foldl (addTarget key policyName) ([], []) (Members id) in
  if bool_decide (pods = []) then targets
  else
    targets ++
      [{| wt_Member :=
            {| mb_Kind := id_OwnerKind key; mb_Object := OtherObj; mb_Pods := pods;
               mb_Containers := Containers id; mb_InitContainers := InitContainers id |};
          wt_Name := id_OwnerName key; wt_Namespace := id_Namespace key |}].

Record passIdentity := {
  w_id : Inventory.Identity;
  w_run : list workloadTarget;
  w_backedOff : list workloadTarget;
}.

Definition fetched (w : passIdentity) : bool :=
  if Departed (w_id w)
  then negb (bool_decide (Containers (w_id w) = [])) || negb (bool_decide (InitContainers (w_id w) = []))
  else negb (bool_decide (w_run w = [])).

(** [mayRun] is the ledger's [MayRun] at the clock's reading for each. *)
Definition workIdentity (mayRun : MemberKey → bool) (policyName : string) (id : Inventory.Identity) : passIdentity :=
  if Departed id then {| w_id := id; w_run := []; w_backedOff := [] |}
  else
    let targets := targetsOf id policyName in
    {| w_id := id; w_run := List.filter (λ t, mayRun (target_key t)) targets;
       w_backedOff := List.filter (λ t, negb (mayRun (target_key t))) targets |}.

Definition workList (mayRun : MemberKey → bool) (policyName : string) (governed : list Inventory.Identity) :
    list passIdentity :=
  map (workIdentity mayRun policyName) governed.
End Targets.

(** ** Recommending *)
Section Recommend.
Context {PL : Platform} {QO : QuantityOps} {KO : KubeOps} {PO : PromOps} {AS : Autoscalers} {IF : InputsFetcher}.

Record computed := {
  cp_autoscaler : option Info;
  mismatch : bool;
  oomFloors : list Publisher.oomFloor;
}.

Record recommendation := {
  rec_outcome : RecommendationOutcome;
  rec_recs : gmap string ContainerRecommendation;
  rec_traces : gmap string ContainerTrace;
  rec_inputs : option WorkloadInputs;
  rec_autoscalers : Group;
  rec_err : option error;
  rec_computed : computed;
}.

(** [recommendation{}] *)
Definition noVerdict : recommendation :=
  {| rec_outcome := OutcomeUnset; rec_recs := ∅; rec_traces := ∅; rec_inputs := None;
     rec_autoscalers := noGroup; rec_err := None;
     rec_computed := {| cp_autoscaler := None; mismatch := false; oomFloors := [] |} |}.

Definition decisionOf (r : recommendation) (departed : bool) : decision :=
  {| dec_Outcome := rec_outcome r; dec_Recs := rec_recs r; dec_Traces := rec_traces r; dec_Departed := departed |}.

Definition computeIdentity (group : Group) (req : Compute.Request) : recommendation :=
  let out := Compute req in
  let recommended := bool_decide (r_Outcome out = Recommended) in
  {| rec_outcome := Recorded (r_Outcome out);
     rec_recs := if recommended then Recs out else ∅;
     rec_traces := if recommended then Traces out else ∅;
     rec_inputs := Some (inputs req);
     rec_autoscalers := group;
     rec_err := None;
     rec_computed :=
       {| cp_autoscaler := Some (g_Info group); mismatch := negb (bool_decide (Disagreeing group = []));
          oomFloors := if recommended then oomFloorsOf (Traces out) (now req) else [] |} |}.

Definition verdictOf (a : Assembled) : recommendation :=
  match as_Err a, as_Request a with
  | Some e, _ =>
      {| rec_outcome := OutcomeFetchFailed; rec_recs := ∅; rec_traces := ∅; rec_inputs := None;
         rec_autoscalers := as_Autoscaler a; rec_err := Some e; rec_computed := rec_computed noVerdict |}
  | None, Some req => computeIdentity (as_Autoscaler a) req
  | None, None => noVerdict (* Assemble answers an error or a request *)
  end.

(** The verdicts of the fetched identities, in their places. *)
Fixpoint placeVerdicts (work : list passIdentity) (assembled : list Assembled) : list recommendation :=
  match work with
  | [] => []
  | w :: work =>
      if fetched w then
        match assembled with
        | a :: assembled => verdictOf a :: placeVerdicts work assembled
        | [] => noVerdict :: placeVerdicts work []
        end
      else noVerdict :: placeVerdicts work assembled
  end.

Definition recommend (st : as_state) (at_ : time) (policy : Policy) (work : list passIdentity) :
    list recommendation :=
  placeVerdicts work
    (snd (Assemble st at_ (pol_RightSizing policy) (map w_id (List.filter fetched work)))).
End Recommend.

(** ** Claiming, recording, applying *)
Section Pass.
Context {PL : Platform} {QO : QuantityOps} {KO : KubeOps} {PO : PromOps} {AS : Autoscalers} {IF : InputsFetcher}
  {HA : Hashing} {PC : PodClient}.

Record applyResult := {
  ar_Result : Ledger.Result;
  ar_member : workloadTarget;
  ar_suppressed : gmap string Z;
}.

(** What a pass is run in. *)
Record World := {
  (** the API server, as each identity's object is claimed and recorded *)
  claimClient : WorkloadIdentity → WlrClient;
  recordClient : WorkloadIdentity → WlrClient;
  (** the cluster and its state as each member's task starts, and whether the
      context had ended by then *)
  clusterReads : MemberKey → ClusterReads;
  podState : MemberKey → kc_state;
  endedBefore : MemberKey → bool;
  (** whether the context has ended once every task is done *)
  shutdown : bool;
  (** the readings of the clock *)
  now_run : MemberKey → time;
  now_conflicted : time;
  now_fetch : time;
  now_record : time;
  autoscalerState : as_state;
}.

Record reconciler := {
  rc_patcher : patcher;
  rc_RecommendOnly : bool;
  rc_lifetimes : Lifetimes;
  rc_ledger : Ledger;
}.

(** What a pass does, in order: the writes of each claim and record, the calls
    of each member's apply. *)
Inductive effect :=
  | EConflicted (id : WorkloadIdentity) (ws : list write)
  | EClaim (id : WorkloadIdentity) (ws : list write)
  | ERecord (id : WorkloadIdentity) (ws : list write)
  | EApply (id : WorkloadIdentity) (member : MemberKey) (calls : list call).

Context (objectOf : WorkloadIdentity → Inventory.Member → memberObject).
Context (r : reconciler) (wd : World).

(** *** Claim *)

Record claimed := { cm_wlr : option WorkloadRecommendation; cm_err : option error }.

Definition claimOne (policyName : string) (w : passIdentity) : claimed * list effect :=
  let id := w_id w in
  if Departed id then ({| cm_wlr := Recommendation id; cm_err := None |}, [])
  else
    let '(res, ws) :=
      Ensure (claimClient wd (Inventory.Key id)) (RefOf (Inventory.Key id)) policyName
        (Some (BuildObservedResources (Containers id) (InitContainers id))) (rc_lifetimes r) in
    (match res with
     | Ok wlr => {| cm_wlr := Some wlr; cm_err := None |}
     | Err e => {| cm_wlr := None; cm_err := Some e |}
     end, [EClaim (Inventory.Key id) ws]).

(** *** Record *)

Definition recordOne (w : passIdentity) (c : claimed) (rec : recommendation) : option error * list effect :=
  if negb (fetched w) then (None, [])
  else
    match cm_err c with
    | Some e => (Some e, [])
    | None =>
        let '(err, ws) :=
          RecordDecision (recordClient wd (Inventory.Key (w_id w))) (cm_wlr c)
            (decisionOf rec (Departed (w_id w))) (now_record wd) (rc_lifetimes r) in
        (err, [ERecord (Inventory.Key (w_id w)) ws])
    end.

(** *** Apply *)

(** [applied]: the result keyed by its member. *)
Definition applied (t : workloadTarget) (kind : Ledger.ResultKind) (pods : PodCounts) (step : ApplyStep)
    (err : option error) : applyResult :=
  {| ar_Result := {| r_Member := target_key t; r_Kind := kind; r_Pods := pods; r_Step := step; r_Err := err |};
     ar_member := t; ar_suppressed := ∅ |}.

Definition noPods : PodCounts := {| Patcher.Total := 0; Patcher.Stale := 0 |}.

Definition skipped (t : workloadTarget) : applyResult := applied t Skipped noPods StepNone None.

Definition resultOf (t : workloadTarget) (res : ApplyResult) : applyResult :=
  let out :=
    match res_Kind res with
    | ResultFailed => applied t Failed noPods (res_Step res) (res_Err res)
    | ResultIdle => applied t Idle noPods StepNone None
    | _ => if Counted res then applied t Done (res_Pods res) StepNone None
           else applied t Uncounted noPods StepNone None
    end in
  {| ar_Result := ar_Result out; ar_member := ar_member out; ar_suppressed := Suppressed res |}.

(** [Apply] answers, as [Apply_answers] shows. *)
Definition reconcileWorkload (policy : Policy) (t : workloadTarget) (rec : recommendation) :
    applyResult * list call :=
  let key := target_key t in
  if endedBefore wd key then (skipped t, [])
  else
    match rec_err rec with
    | Some e => (applied t Failed noPods StepPrometheus (Some e), [])
    | None =>
        let e := {| e_state := podState wd key; e_calls := [] |} in
        let settings := ApplySettingsFor policy (mb_Kind (wt_Member t)) (rc_RecommendOnly r) in
        let '(e, res) :=
          is_Some_proj (Apply_answers (rc_patcher r) (clusterReads wd key) e (wt_Member t) (rec_recs rec) settings) in
        (resultOf t res, e_calls e)
    end.

Definition applyOne (policy : Policy) (w : passIdentity) (rec : recommendation) (stored : option error) :
    list applyResult * list effect :=
  let id := Inventory.Key (w_id w) in
  let backedOff := map skipped (w_backedOff w) in
  match stored with
  | Some e => (backedOff ++ map (λ t, applied t Failed noPods StepStore (Some e)) (w_run w), [])
  | None =>
      let results := map (λ t, (t, reconcileWorkload policy t rec)) (w_run w) in
      (backedOff ++ map (λ p, fst (snd p)) results,
       map (λ p, EApply id (target_key (fst p)) (snd (snd p))) results)
  end.

Definition leftAlone (results : list applyResult) : list applyResult :=
  map (λ res, if bool_decide (r_Kind (ar_Result res) = Failed) then skipped (ar_member res) else res) results.

(** *** The Conflicted identities *)

Definition conflictedOne (policyName : string) (id : Inventory.Identity) : list effect :=
  if negb (Conflicted id) || negb (contains policyName (MemberPolicies id)) then []
  else
    match Recommendation id with
    | None => []
    | Some wlr =>
        let d := {| dec_Outcome := OutcomeConflicted; dec_Recs := ∅; dec_Traces := ∅; dec_Departed := false |} in
        [EConflicted (Inventory.Key id)
           (snd (RecordDecision (recordClient wd (Inventory.Key id)) (Some wlr) d (now_conflicted wd) (rc_lifetimes r)))]
    end.

Definition recordConflicted (policyName : string) (snap : Snapshot) : list effect :=
  concat (map (conflictedOne policyName) (Identities snap)).

(** *** The report *)

Record identityReport := {
  rp_key : WorkloadIdentity;
  rp_departed : bool;
  rp_fetched : bool;
  rp_outcome : RecommendationOutcome;
  rp_resolved : bool;
  rp_failed : bool;
  rp_members : list applyResult;
  rp_held : gmap string ContainerRecommendation;
  rp_computed : computed;
}.

(** The held Recommendation narrowed to the containers. *)
Definition recommendedOf (held : option (gmap string ContainerRecommendation)) (cs : list Container) :
    gmap string ContainerRecommendation :=
  foldl (λ out c, match default ∅ held !! c_Name c with Some rec => <[c_Name c := rec]> out | None => out end) ∅ cs.

Definition reportOne (policy : Policy) (w : passIdentity) (rec : recommendation) (stored : option error)
    (results : list applyResult) : identityReport :=
  let id := w_id w in
  {| rp_key := Inventory.Key id; rp_departed := Departed id; rp_fetched := fetched w;
     rp_outcome := rec_outcome rec;
     rp_resolved := match rec_inputs rec with Some i => Resolved i | None => false end;
     rp_failed :=
       Departed id && negb (shutdown wd) &&
       (negb (bool_decide (rec_err rec = None)) || negb (bool_decide (stored = None)));
     rp_members := if shutdown wd then leftAlone results else results;
     rp_held :=
       if Departed id then ∅
       else if bool_decide (rec_outcome rec = OutcomeComputed) && bool_decide (stored = None) then rec_recs rec
       else recommendedOf (Held (Recommendation id) (pol_Name policy)) (ContainersOf (pol_RightSizing policy) id);
     rp_computed := rec_computed rec |}.

(** What [runPass] makes of one identity: every step's part. *)
Record passStep := {
  ps_work : passIdentity;
  ps_rec : recommendation;
  ps_claimed : claimed * list effect;
  ps_stored : option error * list effect;
  ps_applied : list applyResult * list effect;
}.

Definition passStepOf (policy : Policy) (p : passIdentity * recommendation) : passStep :=
  let '(w, rec) := p in
  let claim := claimOne (pol_Name policy) w in
  let stored := recordOne w (fst claim) rec in
  {| ps_work := w; ps_rec := rec; ps_claimed := claim; ps_stored := stored;
     ps_applied := applyOne policy w rec (fst stored) |}.

Definition runPass (policy : Policy) (snap : Snapshot) : list identityReport * list effect :=
  let mayRun key := MayRun (now_run wd key) (rc_ledger r) key in
  let work := workList objectOf mayRun (pol_Name policy) (GovernedBy snap (pol_Name policy)) in
  let steps := map (passStepOf policy)
    (zip work (recommend (autoscalerState wd) (now_fetch wd) policy work)) in
  (map (λ s, reportOne policy (ps_work s) (ps_rec s) (fst (ps_stored s)) (fst (ps_applied s))) steps,
   recordConflicted (pol_Name policy) snap ++
   concat (map (λ s, snd (ps_claimed s)) steps) ++
   concat (map (λ s, snd (ps_stored s)) steps) ++
   concat (map (λ s, snd (ps_applied s)) steps)).

(** ** What the report says *)

Definition processed (p : list identityReport) : Z :=
  Z.of_nat (length (List.filter (λ rep,
    (rp_departed rep && rp_fetched rep) ||
    existsb (λ res, negb (bool_decide (r_Kind (ar_Result res) = Skipped))) (rp_members rep)) p)).

Definition results (p : list identityReport) : Ledger.pass :=
  map (λ rep, (rp_key rep, map ar_Result (rp_members rep))) (List.filter (λ rep, negb (rp_departed rep)) p).

Definition failedIdentities (p : list identityReport) (v : Ledger.Verdict) : Z :=
  Z.of_nat (length (List.filter (λ rep,
    rp_failed rep || match v_Identities v !! rp_key rep with Some h => hasFailed h | None => false end) p)).

(** Requested, resolved and failed. *)
Definition coverage (p : list identityReport) : Z * Z * Z :=
  foldl (λ acc rep,
    let '(requested, resolved, failed) := acc in
    if negb (rp_fetched rep) then acc
    else if bool_decide (rp_outcome rep = OutcomeFetchFailed) then (requested + 1, resolved, failed + 1)
    else if rp_resolved rep then (requested + 1, resolved + 1, failed)
    else (requested + 1, resolved, failed)) (0, 0, 0) p.

(** The label a departed identity's refresh is counted under. *)
Definition departedRefresh (stored : option WorkloadRecommendation) (rep : identityReport) : string :=
  if rp_failed rep then "error"
  else if negb (rp_fetched rep) then "no-snapshot"
  else if bool_decide (rp_outcome rep = OutcomeComputed) then "computed"
  else
    match stored with
    | Some wlr => if bool_decide (wlr_Containers (wlr_Status wlr) = ∅) then "nodata" else "retained-empty"
    | None => "nodata"
    end.
End Pass.

(** Where each identity of a snapshot stands. *)
Definition standingIn {QO : QuantityOps} (snap : Snapshot) (key : WorkloadIdentity) : Standing :=
  match Lookup snap key with
  | None => SUngoverned
  | Some id =>
      if Departed id then SDeparted
      else if Conflicted id then SConflicted
      else if negb (String.eqb (id_Policy id) "") then SGoverned
      else SUngoverned
  end.

(** ** Facts *)
Section Facts.
Context {PL : Platform} {QO : QuantityOps} {QL : QuantityLaws} {KO : KubeOps} {PO : PromOps} {AS : Autoscalers}
  {IF : InputsFetcher} {HA : Hashing} {PC : PodClient}.
Context (objectOf : WorkloadIdentity → Inventory.Member → memberObject) (r : reconciler) (wd : World).
Implicit Types (policy : Policy) (snap : Snapshot) (w : passIdentity) (rec : recommendation).

Lemma length_placeVerdicts work assembled : length (placeVerdicts work assembled) = length work.
Proof.
  revert assembled. induction work as [|w work IH]; intros assembled; [done|]. cbn.
  destruct (fetched w); [destruct assembled|]; cbn; by rewrite IH.
Qed.

(** Only a Computed verdict recommends. *)
Lemma verdictOf_computed a : rec_recs (verdictOf a) ≠ ∅ → rec_outcome (verdictOf a) = OutcomeComputed.
Proof.
  unfold verdictOf. destruct (as_Err a); [done|]. destruct (as_Request a) as [req|]; [|done].
  unfold computeIdentity. cbn. case_bool_decide as Ho; [|done]. by rewrite Ho.
Qed.

Lemma placeVerdicts_computed work assembled w rec :
  (w, rec) ∈ zip work (placeVerdicts work assembled) → rec_recs rec ≠ ∅ →
  fetched w = true ∧ rec_outcome rec = OutcomeComputed.
Proof.
  revert assembled. induction work as [|w' work IH]; intros assembled; cbn; [by intros ?%not_elem_of_nil|].
  destruct (fetched w') eqn:Ef; [destruct assembled as [|a assembled]|]; cbn [zip zip_with];
    (intros [[= -> ->]|Hin]%elem_of_cons Hr; [|by eapply IH]); try done.
  split; [done|]. by apply verdictOf_computed.
Qed.

(** Nothing recommended, nothing called. *)
Lemma injectOne_none init l inj : inj_Recs (foldl (injectOne init ∅) inj l) = inj_Recs inj.
Proof.
  revert inj. induction l as [|[n c] l IH]; intros inj; [done|]. cbn [foldl]. rewrite IH.
  unfold injectOne. by rewrite lookup_empty.
Qed.

Lemma Apply_none p c e m s : Apply p c e m ∅ s = Some (e, idle).
Proof.
  unfold Apply, Inject. cbn [negb]. rewrite !injectOne_none. cbn [inj_Recs]. by rewrite bool_decide_true.
Qed.

Lemma is_Some_proj_eq {A} (o : option A) (H : is_Some o) : o = Some (is_Some_proj H).
Proof. destruct o; [done|]. by destruct H. Qed.

(** ** The trace *)

Definition is_apply (x : effect) : Prop := match x with EApply _ _ _ => True | _ => False end.

Lemma recordConflicted_no_apply policy snap x :
  x ∈ recordConflicted r wd (pol_Name policy) snap → ¬ is_apply x.
Proof.
  unfold recordConflicted. rewrite elem_of_concat. intros (l & Hx & (id & -> & _)%list_elem_of_fmap).
  unfold conflictedOne in Hx. destruct (negb _ || _); [by apply not_elem_of_nil in Hx|].
  destruct (Recommendation id); [|by apply not_elem_of_nil in Hx]. apply list_elem_of_singleton in Hx as ->. cbn. tauto.
Qed.

Lemma claimOne_no_apply name w x : x ∈ snd (claimOne r wd name w) → ¬ is_apply x.
Proof.
  unfold claimOne. destruct (Departed _); [by intros ?%not_elem_of_nil|]. destruct (Ensure _ _ _ _ _).
  intros ->%list_elem_of_singleton. cbn. tauto.
Qed.

Lemma recordOne_no_apply w c rec x : x ∈ snd (recordOne r wd w c rec) → ¬ is_apply x.
Proof.
  unfold recordOne. destruct (fetched w); [|by intros ?%not_elem_of_nil]. destruct (cm_err c); [by intros ?%not_elem_of_nil|].
  cbn. destruct (RecordDecision _ _ _ _ _).
  intros ->%list_elem_of_singleton. cbn. tauto.
Qed.

(** The work of a pass, with its verdicts. *)
Definition work_of policy snap : list passIdentity :=
  workList objectOf (λ key, MayRun (now_run wd key) (rc_ledger r) key) (pol_Name policy)
    (GovernedBy snap (pol_Name policy)).

Definition verdicts_of policy snap : list recommendation :=
  recommend (autoscalerState wd) (now_fetch wd) policy (work_of policy snap).

Definition stored_of policy w rec : option error * list effect :=
  recordOne r wd w (fst (claimOne r wd (pol_Name policy) w)) rec.

(** The trace before anything is applied. *)
Definition trace_before policy snap : list effect :=
  let pairs := zip (work_of policy snap) (verdicts_of policy snap) in
  recordConflicted r wd (pol_Name policy) snap ++
  concat (map (λ p, snd (claimOne r wd (pol_Name policy) p.1)) pairs) ++
  concat (map (λ p, snd (stored_of policy p.1 p.2)) pairs).

Definition trace_apply policy snap : list effect :=
  concat (map (λ p, snd (applyOne r wd policy p.1 p.2 (fst (stored_of policy p.1 p.2))))
    (zip (work_of policy snap) (verdicts_of policy snap))).

Lemma runPass_trace policy snap :
  snd (runPass objectOf r wd policy snap) = trace_before policy snap ++ trace_apply policy snap.
Proof.
  unfold runPass, trace_before, trace_apply. cbn [snd]. rewrite !map_map, <-!app_assoc. f_equal.
  fold (work_of policy snap). fold (verdicts_of policy snap).
  f_equal; [|f_equal]; f_equal; apply map_ext; by intros [w rec].
Qed.

Lemma trace_before_no_apply policy snap x : x ∈ trace_before policy snap → ¬ is_apply x.
Proof.
  unfold trace_before. rewrite !elem_of_app, !elem_of_concat.
  intros [Hx|[(l & Hx & (p & -> & _)%list_elem_of_fmap)|(l & Hx & (p & -> & _)%list_elem_of_fmap)]].
  - by eapply recordConflicted_no_apply.
  - by eapply claimOne_no_apply.
  - by eapply recordOne_no_apply.
Qed.

Lemma zip_works policy snap w rec :
  (w, rec) ∈ zip (work_of policy snap) (verdicts_of policy snap) →
  ∃ i, i ∈ GovernedBy snap (pol_Name policy) ∧
    w = workIdentity objectOf (λ key, MayRun (now_run wd key) (rc_ledger r) key) (pol_Name policy) i.
Proof.
  intros Hin%elem_of_zip_l. unfold work_of, workList in Hin. apply list_elem_of_fmap in Hin as (i & -> & Hi). eauto.
Qed.

Lemma in_run policy i t :
  t ∈ w_run (workIdentity objectOf (λ key, MayRun (now_run wd key) (rc_ledger r) key) (pol_Name policy) i) →
  Departed i = false ∧ t ∈ targetsOf objectOf i (pol_Name policy) ∧
  MayRun (now_run wd (target_key t)) (rc_ledger r) (target_key t) = true.
Proof.
  unfold workIdentity. destruct (Departed i); cbn; [by intros ?%not_elem_of_nil|].
  rewrite elem_of_List_filter. tauto.
Qed.

(** What the calls of an apply say of its target's task. *)
Lemma reconcileWorkload_calls policy t rec :
  snd (reconcileWorkload r wd policy t rec) ≠ [] →
  endedBefore wd (target_key t) = false ∧ rec_recs rec ≠ ∅ ∧
  ∃ e' res,
    Apply (rc_patcher r) (clusterReads wd (target_key t)) {| e_state := podState wd (target_key t); e_calls := [] |}
      (wt_Member t) (rec_recs rec) (ApplySettingsFor policy (mb_Kind (wt_Member t)) (rc_RecommendOnly r)) = Some (e', res) ∧
    snd (reconcileWorkload r wd policy t rec) = e_calls e'.
Proof.
  unfold reconcileWorkload. destruct (endedBefore _ _); [done|]. destruct (rec_err rec); [done|].
  match goal with |- context [is_Some_proj ?H] => pose proof (is_Some_proj_eq _ H) as E; destruct (is_Some_proj H) as [e' res] end.
  cbn [snd]. intros Hc. split; [done|]. split.
  - intros Hr. rewrite Hr, Apply_none in E. injection E as <- _. done.
  - exists e', res. split; [exact E|done].
Qed.

(** C9: Whatever a pass does to a pod serves what was stored first. A member's
    resizes and evictions come after the record of its identity's decision: the
    record succeeded, the decision is a computed Recommendation, the object
    recorded serves it Fresh to the webhook, and it is the one applied. Nor is a
    member touched that is backing off or whose task the shutdown overtook. *)
Theorem applies_what_is_stored policy snap id k calls :
  EApply id k calls ∈ snd (runPass objectOf r wd policy snap) → calls ≠ [] →
  ∃ i t wlr d before after ws,
    i ∈ GovernedBy snap (pol_Name policy) ∧ Inventory.Key i = id ∧ Departed i = false ∧
    t ∈ targetsOf objectOf i (pol_Name policy) ∧ target_key t = k ∧
    MayRun (now_run wd k) (rc_ledger r) k = true ∧ endedBefore wd k = false ∧
    snd (runPass objectOf r wd policy snap) = before ++ after ∧
    Forall (λ x, ¬ is_apply x) before ∧ ERecord id ws ∈ before ∧
    RecordDecision (recordClient wd id) (Some wlr) d (now_record wd) (rc_lifetimes r) = (None, ws) ∧
    (let st := statusAfter wlr d (now_record wd) (rc_lifetimes r) in
     map_same recommendationSame (wlr_Containers st) (dec_Recs d) = true ∧
     ∀ u, u < ServableUntil st →
       Read (Some (with_status wlr st)) (spec_Policy (wlr_Spec wlr)) u =
         {| rdg_Verdict := Fresh; rdg_Recs := wlr_Containers st |}) ∧
    ∃ e' res,
      Apply (rc_patcher r) (clusterReads wd k) {| e_state := podState wd k; e_calls := [] |} (wt_Member t)
        (dec_Recs d) (ApplySettingsFor policy (mb_Kind (wt_Member t)) (rc_RecommendOnly r)) = Some (e', res) ∧
      calls = e_calls e'.
Proof.
  rewrite runPass_trace. intros Hin Hc. apply elem_of_app in Hin as [Hin|Hin].
  { by apply trace_before_no_apply in Hin. }
  unfold trace_apply in Hin. apply elem_of_concat in Hin as (l & Hx & ([w rec] & -> & Hin)%list_elem_of_fmap). cbn [fst snd] in Hx.
  destruct (zip_works _ _ _ _ Hin) as (i & Hi & Hw).
  destruct (stored_of policy w rec) as [[err|] sws] eqn:Est; unfold applyOne in Hx; cbn [fst snd] in Hx;
    [by apply not_elem_of_nil in Hx|].
  rewrite map_map in Hx. cbn [fst snd] in Hx. apply list_elem_of_fmap in Hx as (t & [= -> -> ->] & Ht).
  destruct (reconcileWorkload_calls policy t rec Hc) as (Hend & Hr & e' & res & Happ & Hcalls).
  destruct (placeVerdicts_computed _ _ _ _ Hin Hr) as [Hf Ho].
  assert (Hwi : w_id w = i) by (rewrite Hw; unfold workIdentity; by destruct (Departed i)).
  rewrite Hw in Ht. apply in_run in Ht as (Hd & Ht & Hm).
  assert (Hst : ∃ wlr ws, sws = [ERecord (Inventory.Key i) ws] ∧
    RecordDecision (recordClient wd (Inventory.Key i)) (Some wlr) (decisionOf rec false) (now_record wd) (rc_lifetimes r) = (None, ws)).
  { unfold stored_of, recordOne, claimOne in Est. rewrite Hwi, Hd, Hf in Est. cbn [negb] in Est.
    destruct (Ensure _ _ _ _ _) as [[wlr|e] cws]; cbn [cm_err cm_wlr fst] in Est; [|done].
    destruct (RecordDecision _ _ _ _ _) as [err ws] eqn:Erec. injection Est as -> <-. eauto. }
  destruct Hst as (wlr & ws & Hs & Hrec).
  exists i, t, wlr, (decisionOf rec false), (trace_before policy snap), (trace_apply policy snap), ws.
  rewrite Hwi. do 8 (split; [done|]). split; [|split; [|split; [done|split]]].
  - apply Forall_forall, trace_before_no_apply.
  - unfold trace_before. rewrite !elem_of_app. right. right. apply elem_of_concat. exists sws.
    split; [rewrite Hs; by left|]. apply list_elem_of_fmap. exists (w, rec). cbn [fst snd]. by rewrite Est.
  - cbn zeta. destruct (statusAfter_computed wlr (decisionOf rec false) (now_record wd) (rc_lifetimes r) Ho)
      as (H1 & H2 & H3 & _ & H5 & H6).
    split; [done|]. intros u Hu. apply Read_fresh; [done..|by rewrite H6|done].
  - exists e', res. done.
Qed.

(** ** The report *)

Lemma applyOne_members policy w rec stored :
  map (λ x, r_Member (ar_Result x)) (fst (applyOne r wd policy w rec stored)) ≡ₚ
    map target_key (w_backedOff w ++ w_run w).
Proof.
  unfold applyOne. destruct stored as [e|]; cbn [fst]; rewrite !map_app, !map_map; cbn; [done|].
  apply Permutation_app_head, reflexive_eq, map_ext. intros t. unfold reconcileWorkload.
  destruct (endedBefore _ _); [done|]. destruct (rec_err rec); [done|].
  destruct (is_Some_proj _) as [e' res]. cbn. unfold resultOf. by destruct (res_Kind res), (Counted res).
Qed.

Lemma leftAlone_members l :
  Forall (λ x, r_Member (ar_Result x) = target_key (ar_member x)) l →
  map (λ x, r_Member (ar_Result x)) (leftAlone l) = map (λ x, r_Member (ar_Result x)) l.
Proof.
  unfold leftAlone. rewrite map_map. intros Hall. apply map_ext_in. intros x Hx%list_elem_of_In.
  rewrite Forall_forall in Hall. case_bool_decide; [|done]. cbn. symmetry. by apply Hall.
Qed.

Lemma applyOne_keyed policy w rec stored :
  Forall (λ x, r_Member (ar_Result x) = target_key (ar_member x)) (fst (applyOne r wd policy w rec stored)).
Proof.
  apply Forall_forall. unfold applyOne. destruct stored; cbn [fst]; intros x [Hx|Hx]%elem_of_app;
    apply list_elem_of_fmap in Hx as (y & -> & Hy); try done.
  apply list_elem_of_fmap in Hy as (t & -> & _). cbn. unfold reconcileWorkload.
  destruct (endedBefore _ _); [done|]. destruct (rec_err rec); [done|].
  destruct (is_Some_proj _) as [e' res]. cbn. unfold resultOf. by destruct (res_Kind res), (Counted res).
Qed.

Lemma filter_split {A} (f : A → bool) l : List.filter (λ x, negb (f x)) l ++ List.filter f l ≡ₚ l.
Proof.
  induction l as [|x l IH]; [done|]. cbn. destruct (f x); cbn; [|by constructor].
  by rewrite <-Permutation_middle, IH.
Qed.

Definition report_of policy snap : list identityReport := fst (runPass objectOf r wd policy snap).

(** A pass reports every identity its Policy governs once, in their order, and
    exactly one result for each of its live members, backed-off ones included,
    none for a departed one; a pass the shutdown cut short reports no failure. *)
Theorem pass_reports_all policy snap :
  let governed := GovernedBy snap (pol_Name policy) in
  map rp_key (report_of policy snap) = map Inventory.Key governed ∧
  (∀ n i rep, governed !! n = Some i → report_of policy snap !! n = Some rep →
     rp_departed rep = Departed i ∧
     map (λ x, r_Member (ar_Result x)) (rp_members rep) ≡ₚ
       if Departed i then [] else map target_key (targetsOf objectOf i (pol_Name policy))) ∧
  (shutdown wd = true → ∀ rep, rep ∈ report_of policy snap →
     rp_failed rep = false ∧ ∀ res, res ∈ rp_members rep → r_Kind (ar_Result res) ≠ Failed).
Proof.
  cbn zeta. unfold report_of, runPass. cbn [fst]. fold (work_of policy snap). fold (verdicts_of policy snap).
  rewrite !map_map.
  assert (Hlen : length (verdicts_of policy snap) = length (work_of policy snap)) by apply length_placeVerdicts.
  split; [|split].
  - transitivity (map (λ w, Inventory.Key (w_id w)) (map fst (zip (work_of policy snap) (verdicts_of policy snap)))).
    { rewrite map_map. apply map_ext. by intros [w rec]. }
    rewrite (fst_zip (work_of policy snap)) by lia. unfold work_of, workList. rewrite map_map. apply map_ext.
    intros i. unfold workIdentity. by destruct (Departed i).
  - intros n i rep Hi Hrep. rewrite list_lookup_fmap in Hrep.
    destruct (zip _ _ !! n) as [[w rec]|] eqn:Ez; [|done]. injection Hrep as <-.
    apply lookup_zip_Some in Ez as [Hw _]. unfold work_of, workList in Hw. rewrite list_lookup_fmap, Hi in Hw.
    injection Hw as <-. cbn [passStepOf ps_work ps_rec ps_stored ps_applied reportOne rp_departed rp_members].
    set (mayRun := λ key, MayRun _ _ key). set (w := workIdentity _ _ _ _).
    assert (Hwi : w_id w = i) by (unfold w, workIdentity; by destruct (Departed i)).
    rewrite Hwi. split; [done|].
    transitivity (map target_key (w_backedOff w ++ w_run w)).
    + destruct (shutdown wd); [rewrite leftAlone_members by apply applyOne_keyed|]; apply applyOne_members.
    + unfold w, workIdentity. destruct (Departed i); [done|]. cbn [w_backedOff w_run].
      apply Permutation_map, (filter_split (λ t, mayRun (target_key t))).
  - intros Hs rep (p & -> & _)%list_elem_of_fmap. destruct p as [w rec].
    cbn [passStepOf reportOne rp_failed rp_members]. rewrite Hs. split; [by rewrite andb_false_r|].
    intros res (x & -> & _)%list_elem_of_fmap. by case_bool_decide.
Qed.
End Facts.

(** ** At a concrete input *)
Section Sample.
#[local] Existing Instance amd64.
#[local] Existing Instance nano_quantity.
#[local] Existing Instance nano_quantity_laws.
#[local] Existing Instance simple_kube.
#[local] Existing Instance no_durations.
#[local] Existing Instance plain_hashing.
#[local] Existing Instance sample_server.
#[local] Existing Instance no_autoscalers.

(** A bare pod that uses a core, with a fetcher that reads so. *)
#[local] Instance busy_fetcher : InputsFetcher :=
  {| FetchInputs _ _ reqs := list_to_map (map (λ q, (ir_Identity q,
       Ok (NewInputs [WithCPUUsage {[ "app" := f_of_Z 1 ]}]) : result WorkloadInputs)) reqs) |}.

Definition bareIdentity : WorkloadIdentity := Shards.Identity "prod" "Pod" "web".

Definition bareMember : Inventory.Member :=
  {| m_Name := "web-0"; m_Created := 0; m_Policy := "frugal"; m_Containers := pod_Containers Match.sample_pod;
     m_InitContainers := [] |}.

Definition sample_pass_snapshot : Snapshot :=
  {| Identities :=
       [{| Inventory.Key := bareIdentity; Members := [bareMember]; Containers := pod_Containers Match.sample_pod;
           InitContainers := []; Since := 0; id_Policy := "frugal"; Conflicted := false; Recommendation := None |}];
     TakenAt := 10 * hour |}.

Definition sample_pass_policy : Policy :=
  {| pol_Name := "frugal"; pol_UID := "p1"; pol_ResourceVersion := "7";
     pol_Selector := {| Namespaces := ["prod"]; sel_LabelSelector := None |};
     pol_RightSizing :=
       {| rs_Update := {| Types := {| ut_Deployment := None; ut_StatefulSet := None; ut_DaemonSet := None;
                                      ut_CronJob := None; ut_Job := None; ut_ArgoRollout := None;
                                      ut_Pod := Some UpdateModeOngoing |};
                          Eviction := {| IgnoreAutoscalerSafeToEvictAnnotations := false |} |};
          rs_ResourcesConfigs := {| CPU := Governance.sample_resource_config; Memory := Governance.sample_resource_config |};
          rs_AutoscalerCoordination := {| Enabled := false; ReplicaBudgetAnchor := None |};
          ExcludeInitContainers := false; RecommendOnly := false |} |}.

Definition sample_world (ended : bool) : World :=
  {| claimClient _ := sample_client []; recordClient _ := sample_client [];
     clusterReads _ :=
       {| get_replicaset _ _ := Ok []; get_job _ _ := Ok []; get_object_annotations _ _ _ := Ok ∅;
          get_namespace_annotations _ := Ok ∅; list_jobs _ := Ok []; list_pods _ _ := Ok [] |};
     podState _ := 0; endedBefore _ := ended; shutdown := ended; now_run _ := 10 * hour;
     now_conflicted := 10 * hour; now_fetch := 10 * hour; now_record := 10 * hour;
     autoscalerState := NewNamespacedSnapshot |}.

Definition sample_reconciler : reconciler :=
  {| rc_patcher := NewPatcher true []; rc_RecommendOnly := false; rc_lifetimes := sample_lifetimes;
     rc_ledger := newLedger |}.

Definition sample_object (_ : WorkloadIdentity) (_ : Inventory.Member) : memberObject := PodObject Match.sample_pod.

#[local] Abbreviation sample_run ended :=
  (runPass sample_object sample_reconciler (sample_world ended) sample_pass_policy sample_pass_snapshot).

Definition effect_id (x : effect) : string * Z :=
  match x with
  | EConflicted id ws => ("conflicted", Z.of_nat (length ws))
  | EClaim id ws => ("claim", Z.of_nat (length ws))
  | ERecord id ws => ("record", Z.of_nat (length ws))
  | EApply id k calls => ("apply", Z.of_nat (length calls))
  end.

Example sample_trace : map effect_id (snd (sample_run false)) = [("claim", 2); ("record", 1); ("apply", 1)].
Proof. by_running. Qed.

Definition sample_calls : list call :=
  match last (snd (sample_run false)) with Some (EApply _ _ calls) => calls | _ => [] end.

Lemma applies_what_is_stored_witness :
  length sample_calls = 1%nat ∧ ∃ ws, ERecord bareIdentity ws ∈ snd (sample_run false).
Proof.
  assert (Hlen : length sample_calls = 1%nat) by by_running. split; [exact Hlen|].
  assert (Hne : sample_calls ≠ []) by (revert Hlen; generalize sample_calls; by intros [|]).
  assert (Hlast : last (snd (sample_run false)) = Some (EApply bareIdentity (Ledger.Key "Pod" "prod" "web") sample_calls))
    by by_running.
  destruct (applies_what_is_stored (QL := nano_quantity_laws) sample_object sample_reconciler (sample_world false)
    sample_pass_policy sample_pass_snapshot bareIdentity (Ledger.Key "Pod" "prod" "web") sample_calls
    (last_Some_elem_of _ _ Hlast) Hne)
    as (i & t & wlr & d & before & after & ws & _ & _ & _ & _ & _ & _ & _ & Htrace & _ & Hrec & _).
  exists ws. rewrite Htrace. apply elem_of_app. by left.
Defined.

Lemma pass_reports_all_witness :
  map rp_key (report_of sample_object sample_reconciler (sample_world true) sample_pass_policy sample_pass_snapshot)
    = [bareIdentity] ∧
  ∀ rep, rep ∈ report_of sample_object sample_reconciler (sample_world true) sample_pass_policy sample_pass_snapshot →
    rp_failed rep = false.
Proof.
  destruct (pass_reports_all sample_object sample_reconciler (sample_world true) sample_pass_policy sample_pass_snapshot)
    as (Hkeys & _ & Hshut).
  split; [rewrite Hkeys; by_running|]. intros rep Hrep. by apply Hshut.
Defined.
End Sample.
