(* ===== verification/Reconciler.v ===== *)
(** * The reconciler of Policies
    ([policy_controller.go], [status.go], [orphan_reaper.go] and the publication
    of [pass.go], in [internal/controller])

    One [Reconcile] from the Policy the API server answers to the next pass it
    asks for: the finalizer, the snapshot, the pass, the verdict of the ledger,
    the series, the sweep and the Ready condition; the deletion of a Policy; the
    kills the OOM watcher tells of; and the reaper of orphans. [Run] is what one
    reconcile is run in, [state] what reconciles share. Reconciles of several
    Policies are taken one after another; what they share is locked per
    operation, and each operation is of one Policy.

    Finalizers are edited by controller-runtime: [Finalizers] is what is used of
    it, with what it documents. *)

From S2P Require Import Prelude Publisher GoLang GoFloat GoText Quantity Kube PolicyApi WlrApi Owners Shards Governance.
From S2P Require Import Resources Signals Autoscaler Compute Patcher Apply Ledger WlrRead WlrWrite Inventory Assemble Pass.
Local Open Scope Z_scope.

(** [controllerutil] *)
Class Finalizers := {
  ContainsFinalizer : list string → string → bool;
  AddFinalizer : list string → string → list string;
  RemoveFinalizer : list string → string → list string;
}.

Class FinalizersLaws `{Finalizers} := {
  Contains_Add fs f : ContainsFinalizer (AddFinalizer fs f) f = true;
  Contains_Remove fs f : ContainsFinalizer (RemoveFinalizer fs f) f = false;
}.

(** ** Conditions *)

Record Condition := {
  cn_Type : string;
  cn_Status : bool;
  cn_ObservedGeneration : Z;
  cn_LastTransitionTime : time;
  cn_Reason : string;
  cn_Message : string;
}.

Definition with_transition (c : Condition) (t : time) : Condition :=
  {| cn_Type := cn_Type c; cn_Status := cn_Status c; cn_ObservedGeneration := cn_ObservedGeneration c;
     cn_LastTransitionTime := t; cn_Reason := cn_Reason c; cn_Message := cn_Message c |}.

(** The upsert of [setCondition]: the first condition of the type is replaced. *)
Fixpoint upsertCondition (cond : Condition) (cs : list Condition) : list Condition :=
  match cs with
  | [] => [cond]
  | c :: cs =>
      if negb (String.eqb (cn_Type c) (cn_Type cond)) then c :: upsertCondition cond cs
      else
        (if Bool.eqb (cn_Status c) (cn_Status cond) then with_transition cond (cn_LastTransitionTime c) else cond)
        :: cs
  end.

Definition passCondition (processed failed blocked generation : Z) : Condition :=
  if (failed =? 0) && (blocked =? 0) then
    {| cn_Type := "Ready"; cn_Status := true; cn_ObservedGeneration := generation;
       cn_LastTransitionTime := time_zero; cn_Reason := "ReconciliationSucceeded";
       cn_Message := "All " +:+ Itoa processed +:+ " workloads have been processed." |}
  else
    let parts :=
      (if 0 <? failed then [Itoa failed +:+ " of " +:+ Itoa processed +:+ " workloads failed"] else []) ++
      (if 0 <? blocked then ["Blocked workload identities: " +:+ Itoa blocked] else []) in
    {| cn_Type := "Ready"; cn_Status := false; cn_ObservedGeneration := generation;
       cn_LastTransitionTime := time_zero; cn_Reason := "PartialFailure"; cn_Message := String.concat "; " parts |}.

(** ** What a pass publishes *)
Section Publication.
Context {QO : QuantityOps} {KO : KubeOps}.

Definition containerKindRegular : string := "regular".
Definition containerKindInit : string := "init".

(** One container of a member, of the kind its place says. *)
Definition containerSeriesOf (held : gmap string ContainerRecommendation) (kind : string) (c : Container) :
    option Publisher.containerSeries :=
  match held !! c_Name c with
  | Some rec =>
      Some {| Publisher.cs_name := c_Name c; Publisher.cs_kind := kind; Publisher.cs_rec := rec;
              Publisher.cs_template := Requests (c_Resources c) |}
  | None => None
  end.

Definition memberSeriesOf (res : applyResult) (held : gmap string ContainerRecommendation) : Publisher.memberSeries :=
  let t := ar_member res in
  {| Publisher.ms_kind := mb_Kind (wt_Member t); Publisher.ms_name := wt_Name t;
     Publisher.ms_containers :=
       omap (containerSeriesOf held containerKindRegular) (mb_Containers (wt_Member t)) ++
       omap (containerSeriesOf held containerKindInit) (mb_InitContainers (wt_Member t));
     Publisher.ms_suppressed := ar_suppressed res |}.

Definition identitySeriesOf (v : Ledger.Verdict) (rep : identityReport) : Publisher.identitySeries :=
  {| Publisher.is_key := rp_key rep;
     Publisher.is_health := default noHealth (v_Identities v !! rp_key rep);
     Publisher.is_autoscaler := cp_autoscaler (rp_computed rep);
     Publisher.is_mismatch := mismatch (rp_computed rep);
     Publisher.is_oomFloors := oomFloors (rp_computed rep);
     Publisher.is_tooYoung := bool_decide (rp_outcome rep = OutcomeTooYoung);
     Publisher.is_members := map (λ res, memberSeriesOf res (rp_held rep)) (rp_members rep) |}.

Definition publicationOf (p : list identityReport) (v : Ledger.Verdict) : Publisher.publication :=
  let '(requested, resolved, failed) := coverage p in
  {| Publisher.pub_live := Z.of_nat (length (List.filter (λ rep, negb (rp_departed rep)) p));
     Publisher.pub_blocked := blockedIdentities v;
     Publisher.pub_requested := requested; Publisher.pub_resolved := resolved; Publisher.pub_fetchFailed := failed;
     Publisher.pub_identities := map (identitySeriesOf v) p |}.
End Publication.

(** ** One reconcile *)
Section Reconcile.
Context {PL : Platform} {QO : QuantityOps} {KO : KubeOps} {PO : PromOps} {AS : Autoscalers} {IF : InputsFetcher}
  {HA : Hashing} {PC : PodClient} {FN : Finalizers}.
(** [err.Error()] *)
Context (ErrorText : error → string).
Context (objectOf : WorkloadIdentity → Inventory.Member → memberObject).

Record PolicyObject := {
  po_Policy : Policy;
  po_Deleting : bool;
  po_Finalizers : list string;
  po_Generation : Z;
  po_Conditions : list Condition;
}.

Definition finalizerName : string := "k8s.sustain.io/cleanup".

Definition with_finalizers (p : PolicyObject) (fs : list string) : PolicyObject :=
  {| po_Policy := po_Policy p; po_Deleting := po_Deleting p; po_Finalizers := fs;
     po_Generation := po_Generation p; po_Conditions := po_Conditions p |}.

(** [PolicyReconciler]: its settings; [ct_hasInputs] says a fetcher is set. *)
Record controller := {
  ct_patcher : patcher;
  ct_RecommendOnly : bool;
  ct_ReconcileInterval : duration;
  ct_Retention : duration;
  ct_hasInputs : bool;
  ct_hasTriggers : bool;
  ct_WorkloadConcurrencyLimit : Z;
  ct_PolicyConcurrencyLimit : Z;
}.

Definition lifetimes (r : controller) : Lifetimes :=
  {| ReconcileInterval := ct_ReconcileInterval r; Retention := ct_Retention r |}.

Definition applyTuningDefaults (r : controller) : controller :=
  {| ct_patcher := ct_patcher r; ct_RecommendOnly := ct_RecommendOnly r;
     ct_ReconcileInterval := ct_ReconcileInterval r; ct_Retention := ct_Retention r;
     ct_hasInputs := ct_hasInputs r; ct_hasTriggers := ct_hasTriggers r;
     ct_WorkloadConcurrencyLimit :=
       if ct_WorkloadConcurrencyLimit r <=? 0 then 5 else ct_WorkloadConcurrencyLimit r;
     ct_PolicyConcurrencyLimit :=
       if ct_PolicyConcurrencyLimit r <=? 0 then 10 else ct_PolicyConcurrencyLimit r |}.

(** What the reconciles of a controller share. *)
Record state := {
  st_series : Publisher.publisher;
  st_ledger : Ledger;
  st_policies : option PolicyLister;
}.

(** What one reconcile is run in. *)
Record Run := {
  rn_Get : string → result PolicyObject;
  rn_Update : PolicyObject → result PolicyObject;
  rn_StatusUpdate : PolicyObject → option error;
  rn_Cluster : Cluster;
  rn_releaseClient : WlrClient;
  rn_sweepClient : WlrClient;
  rn_World : World;
  (** the clock that dates the snapshot, none when not set; the ledger's, at each
      of its readings; the time of the status write; and how long it all took *)
  rn_clock : option time;
  rn_settle : nat → time;
  rn_requeue : time;
  rn_transition : time;
  rn_took : duration;
}.

(** What a reconcile does, in order. *)
Inductive action :=
  | ARelease (ws : list write)
  | AUpdate (p : PolicyObject)
  | APass (es : list effect)
  | AMemberEvent (o : Object) (ev : Ledger.Event)
  | ASweep (ws : list write)
  | AStatus (p : PolicyObject)
  | AEvent (warning : bool) (reason message : string).

Context (r : controller).

Definition setCondition (rn : Run) (p : PolicyObject) (cond : Condition) : PolicyObject :=
  {| po_Policy := po_Policy p; po_Deleting := po_Deleting p; po_Finalizers := po_Finalizers p;
     po_Generation := po_Generation p;
     po_Conditions := upsertCondition (with_transition cond (rn_transition rn)) (po_Conditions p) |}.

Definition failCondition (rn : Run) (p : PolicyObject) (reason : string) (e : error) : PolicyObject :=
  setCondition rn p
    {| cn_Type := "Ready"; cn_Status := false; cn_ObservedGeneration := po_Generation p;
       cn_LastTransitionTime := time_zero; cn_Reason := reason; cn_Message := ErrorText e |}.

Definition forget (st : state) (policy : string) : state :=
  {| st_series := Publisher.forget (st_series st) policy; st_ledger := Forget (st_ledger st) policy;
     st_policies := st_policies st |}.

Definition with_series (st : state) (s : Publisher.publisher) : state :=
  {| st_series := s; st_ledger := st_ledger st; st_policies := st_policies st |}.

(** The Warnings of [warn]; a member that failed is logged too. *)
Definition warn (report : list identityReport) (events : gmap MemberKey Ledger.Event) : list action :=
  concat (map (λ rep, omap (λ res,
    if bool_decide (r_Kind (ar_Result res) = Failed)
    then AMemberEvent (mb_Object (wt_Member (ar_member res))) <$> events !! target_key (ar_member res)
    else None) (rp_members rep)) report).

(** The branch of a Policy being deleted. *)
Definition cleanup (rn : Run) (st : state) (p : PolicyObject) : state * result duration * list action :=
  if ContainsFinalizer (po_Finalizers p) finalizerName then
    let name := pol_Name (po_Policy p) in
    let '(_, err, ws) := Release (rn_releaseClient rn) name in
    match err with
    | Some e => (st, Err e, [ARelease ws])
    | None =>
        let p := with_finalizers p (RemoveFinalizer (po_Finalizers p) finalizerName) in
        (forget st name,
         match rn_Update rn p with Ok _ => Ok 0 | Err e => Err e end,
         [ARelease ws; AEvent false "Cleanup" "Policy deleted, removing finalizer."; AUpdate p])
    end
  else (st, Ok 0, []).

(** From the snapshot on. *)
Definition cycle (rn : Run) (st : state) (p : PolicyObject) : state * result duration * list action :=
  let policy := po_Policy p in
  let name := pol_Name policy in
  let '(taken, lister) :=
    TakeForPolicy (rn_Cluster rn) policy {| b_Policies := st_policies st; b_Now := rn_clock rn |} in
  let st := {| st_series := st_series st; st_ledger := st_ledger st; st_policies := lister |} in
  match taken with
  | Err e =>
      (with_series st (Publisher.reconciled (st_series st) name "error" (rn_took rn)),
       Ok (RequeueAfterListFailure (rn_requeue rn) (st_ledger st) name (ct_ReconcileInterval r)),
       [AStatus (failCondition rn p "ListFailed" e); AEvent true "ListFailed" (ErrorText e)])
  | Ok snap =>
      let '(report, effects) :=
        runPass objectOf
          {| rc_patcher := ct_patcher r; rc_RecommendOnly := ct_RecommendOnly r;
             rc_lifetimes := lifetimes r; rc_ledger := st_ledger st |}
          (rn_World rn) policy snap in
      let '(ledger, verdict) := Settle (rn_settle rn) (st_ledger st) name (results report) in
      let failed := failedIdentities report verdict in
      let blocked := blockedIdentities verdict in
      let series := Publisher.publish (st_series st) name (publicationOf report verdict) in
      let '(_, _, swept) :=
        Sweep (rn_sweepClient rn) name (standingIn snap) (TakenAt snap) (lifetimes r) in
      let cond := passCondition (processed report) failed blocked (po_Generation p) in
      let result := if cn_Status cond then "success" else "error" in
      ({| st_series := Publisher.reconciled series name result (rn_took rn); st_ledger := ledger;
          st_policies := st_policies st |},
       Ok (RequeueAfter (rn_requeue rn) ledger name (ct_ReconcileInterval r)),
       APass effects :: warn report (v_Events verdict) ++
       [ASweep swept; AStatus (setCondition rn p cond);
        AEvent (negb (cn_Status cond)) (cn_Reason cond) (cn_Message cond)])
  end.

Definition errNoInputs : error := ErrorNew "recommendation inputs fetcher not configured".
Definition errNoReconcileClock : error := ErrorNew "clock not configured".

(** The answer is when to reconcile again, zero for not before an event. *)
Definition Reconcile (rn : Run) (st : state) (name : string) : state * result duration * list action :=
  if negb (ct_hasInputs r) then (st, Err errNoInputs, [])
  else if bool_decide (rn_clock rn = None) then (st, Err errNoReconcileClock, [])
  else
    match rn_Get rn name with
    | Err e => if IsNotFound e then (forget st name, Ok 0, []) else (st, Err e, [])
    | Ok p =>
        if po_Deleting p then cleanup rn st p
        else if ContainsFinalizer (po_Finalizers p) finalizerName then cycle rn st p
        else
          let p := with_finalizers p (AddFinalizer (po_Finalizers p) finalizerName) in
          match rn_Update rn p with
          | Err e => (st, Err e, [AUpdate p])
          | Ok p' => let '(st, answer, acts) := cycle rn st p' in (st, answer, AUpdate p :: acts)
          end
    end.

(** ** Triggers *)

(** [ObserveOOM]; [sent] says the trigger found room before the context ended. *)
Definition ObserveOOM (st : state) (policy : string) (id : WorkloadIdentity) (container : string) (sent : bool) :
    state * option string :=
  (with_series st (Publisher.observedOOM (st_series st) policy id container),
   if ct_hasTriggers r && sent then Some policy else None).

(** The requests a trigger enqueues. *)
Definition enqueueTrigger (name : option string) : list string :=
  match name with
  | None => []
  | Some name => if String.eqb name "" then [] else [name]
  end.

(** ** The reaper *)

Definition reapInterval (interval : duration) : duration := if interval <=? 0 then 10 * minute else interval.

(** [orphanReaper.Start] over what its select receives, until the context is done. *)
Inductive reaperEvent := ReaperTick (c : WlrClient) | ReaperDone.

Fixpoint reaping (evs : list reaperEvent) : list (list write) :=
  match evs with
  | [] | ReaperDone :: _ => []
  | ReaperTick c :: evs => snd (Reap c) :: reaping evs
  end.

Definition Start (first : WlrClient) (evs : list reaperEvent) : list (list write) :=
  snd (Reap first) :: reaping evs.
End Reconcile.

(** ** Conditions, one per type *)
Section Conditions.
Implicit Types (c cond : Condition) (cs : list Condition).

Definition conditionOf (type : string) cs : option Condition :=
  List.find (λ c, String.eqb (cn_Type c) type) cs.

Definition others (type : string) cs : list Condition :=
  List.filter (λ c, negb (String.eqb (cn_Type c) type)) cs.

(** When the status of a condition last changed, once the new one is written. *)
Definition transition cond cs : time :=
  match conditionOf (cn_Type cond) cs with
  | Some c => if Bool.eqb (cn_Status c) (cn_Status cond) then cn_LastTransitionTime c else cn_LastTransitionTime cond
  | None => cn_LastTransitionTime cond
  end.

Lemma upsertCondition_spec cond cs :
  conditionOf (cn_Type cond) (upsertCondition cond cs) = Some (with_transition cond (transition cond cs)).
Proof.
  unfold transition, conditionOf.
  assert (Hid : with_transition cond (cn_LastTransitionTime cond) = cond) by by destruct cond.
  induction cs as [|c cs IH]; cbn [upsertCondition List.find].
  { by rewrite String.eqb_refl, Hid. }
  destruct (String.eqb (cn_Type c) (cn_Type cond)) eqn:E; cbn [negb List.find].
  - destruct (Bool.eqb _ _); cbn [cn_Type with_transition]; by rewrite String.eqb_refl, ?Hid.
  - by rewrite E.
Qed.

Lemma upsertCondition_others cond cs :
  NoDup (map cn_Type cs) → others (cn_Type cond) (upsertCondition cond cs) = others (cn_Type cond) cs.
Proof.
  unfold others. induction cs as [|c cs IH]; cbn [upsertCondition List.filter map].
  { by rewrite String.eqb_refl. }
  intros [_ Hnd]%NoDup_cons. destruct (String.eqb (cn_Type c) (cn_Type cond)) eqn:E; cbn [negb List.filter].
  - destruct (Bool.eqb _ _); cbn [cn_Type with_transition]; by rewrite String.eqb_refl.
  - rewrite E. cbn. by rewrite IH.
Qed.
End Conditions.

(** ** Facts *)
Section Facts.
Context {PL : Platform} {QO : QuantityOps} {KO : KubeOps} {PO : PromOps} {AS : Autoscalers} {IF : InputsFetcher}
  {HA : Hashing} {PC : PodClient} {FN : Finalizers} {FL : FinalizersLaws}.
Context (ErrorText : error → string).
Context (objectOf : WorkloadIdentity → Inventory.Member → memberObject) (r : controller).
Implicit Types (rn : Run) (st : state) (name : string) (p : PolicyObject).

Abbreviation reconcile := (Reconcile ErrorText objectOf r).
Abbreviation state_after rn st name := (fst (fst (reconcile rn st name))).
Abbreviation answer rn st name := (snd (fst (reconcile rn st name))).
Abbreviation actions rn st name := (snd (reconcile rn st name)).

(** A reconciler set up, which the API server answers a Policy. *)
Definition answered rn name p : Prop :=
  ct_hasInputs r = true ∧ rn_clock rn ≠ None ∧ rn_Get rn name = Ok p.

Lemma Reconcile_answered rn st name p :
  answered rn name p →
  reconcile rn st name =
    if po_Deleting p then cleanup rn st p
    else if ContainsFinalizer (po_Finalizers p) finalizerName then cycle ErrorText objectOf r rn st p
    else
      let p := with_finalizers p (AddFinalizer (po_Finalizers p) finalizerName) in
      match rn_Update rn p with
      | Err e => (st, Err e, [AUpdate p])
      | Ok p' => let '(st, answer, acts) := cycle ErrorText objectOf r rn st p' in (st, answer, AUpdate p :: acts)
      end.
Proof. intros (Hi & Hc & Hg). unfold Reconcile. by rewrite Hi, bool_decide_false, Hg. Qed.

(** ** Deletion *)

(** What the state knows of a Policy. *)
Definition forgotten st name : Prop :=
  Publisher.policies (st_series st) !! name = None ∧ claims (st_ledger st) !! name = None.

Lemma policies_None (s : Publisher.publisher) name :
  (Publisher.pp_identities <$> Publisher.policies s) !! name = None → Publisher.policies s !! name = None.
Proof. by rewrite lookup_fmap, fmap_None. Qed.

Lemma forget_forgotten st name : forgotten (forget st name) name.
Proof.
  split; cbn; [|apply lookup_delete_eq]. apply policies_None. rewrite Publisher.forget_policies.
  apply lookup_delete_eq.
Qed.

(** C13: A Policy being deleted runs no pass. Its finalizer is only taken off
    once every WorkloadRecommendation listed as its own is deleted or gone, and
    its ledger and series are forgotten; until then it is left as it was, to be
    tried again. *)
Theorem deletion_releases_first rn st name p :
  answered rn name p → po_Deleting p = true → ContainsFinalizer (po_Finalizers p) finalizerName = true →
  let policy := pol_Name (po_Policy p) in
  (∃ e ws, answer rn st name = Err e ∧ state_after rn st name = st ∧ actions rn st name = [ARelease ws] ∧
     snd (fst (Release (rn_releaseClient rn) policy)) = Some e) ∨
  (∃ items p' ev, cl_List (rn_releaseClient rn) (Some policy) = Ok items ∧
     let own := List.filter (λ known, String.eqb (spec_Policy (wlr_Spec known)) policy) items in
     Forall (deleted (rn_releaseClient rn)) own ∧
     actions rn st name = [ARelease (map delete_of own); ev; AUpdate p'] ∧
     ContainsFinalizer (po_Finalizers p') finalizerName = false ∧
     forgotten (state_after rn st name) policy ∧
     (answer rn st name = Ok 0 ∨ ∃ e, rn_Update rn p' = Err e ∧ answer rn st name = Err e)).
Proof.
  intros Ha Hd Hf. cbn zeta. rewrite !(Reconcile_answered _ _ _ p) by done. rewrite Hd. unfold cleanup. rewrite Hf.
  pose proof (Release_deletes (rn_releaseClient rn) (pol_Name (po_Policy p))) as Hrel.
  destruct (Release _ _) as [[n [e|]] ws]; cbn [fst snd] in Hrel |- *; [left; exists e, ws; by split_and!|].
  destruct Hrel as (items & Hl & -> & Hall); [done|]. right.
  eexists items, _, _. split; [done|]. split; [done|]. split; [done|]. split; [apply Contains_Remove|].
  split; [apply forget_forgotten|]. destruct (rn_Update rn _) as [?|e]; [by left|right]. by exists e.
Qed.

(** ** Passes *)

(** A pass is made, and anything of a Policy written but its finalizer, only
    while the API server holds the Policy undeleted and with its finalizer. *)
Lemma cycle_actions rn st p a :
  a ∈ snd (cycle ErrorText objectOf r rn st p) → match a with AUpdate _ | ARelease _ => False | _ => True end.
Proof.
  unfold cycle. destruct (TakeForPolicy _ _ _) as [[snap|e] lister]; cbn [snd].
  2:{ intros [->|[->|Hn]%elem_of_cons]%elem_of_cons; [done|done|]. by apply elem_of_nil in Hn. }
  destruct (runPass _ _ _ _ _) as [report effects]. destruct (Settle _ _ _ _) as [l v].
  destruct (Sweep _ _ _ _ _) as [[? ?] ws]. cbn [snd]. rewrite elem_of_cons, elem_of_app.
  intros [->|[Hw|Ha]]; [done| |].
  - unfold warn in Hw. apply elem_of_concat in Hw as (l' & Hin & Hw). apply list_elem_of_fmap in Hw as (rep & -> & _).
    apply list_elem_of_omap in Hin as (res & _ & Hres). case_bool_decide; [|done].
    by apply fmap_Some in Hres as (ev & _ & ->).
  - do 3 (apply elem_of_cons in Ha as [->|Ha]; [done|]). by apply elem_of_nil in Ha.
Qed.

(** A pass is only ever made of a Policy the API server holds undeleted and
    with its finalizer, read so or written so just before, so the deletion of a
    Policy some pass claimed objects for always goes through its release. *)
Theorem pass_holds_finalizer rn st name es :
  APass es ∈ actions rn st name →
  ∃ p, answered rn name p ∧ po_Deleting p = false ∧
    ((ContainsFinalizer (po_Finalizers p) finalizerName = true ∧
      actions rn st name = snd (cycle ErrorText objectOf r rn st p)) ∨
     (∃ held p', rn_Update rn held = Ok p' ∧ ContainsFinalizer (po_Finalizers held) finalizerName = true ∧
        actions rn st name = AUpdate held :: snd (cycle ErrorText objectOf r rn st p'))).
Proof.
  unfold Reconcile. destruct (ct_hasInputs r) eqn:Hi; cbn [negb snd]; [|by intros ?%elem_of_nil].
  case_bool_decide as Hc; [by intros ?%elem_of_nil|].
  destruct (rn_Get rn name) as [p|e] eqn:Hg; [|destruct (IsNotFound e); by intros ?%elem_of_nil].
  destruct (po_Deleting p) eqn:Hd.
  { unfold cleanup. destruct (ContainsFinalizer _ _); [|by intros ?%elem_of_nil].
    destruct (Release _ _) as [[n [e|]] ws]; cbn [snd]; intros Hin;
      repeat (apply elem_of_cons in Hin as [Hin|Hin]; [done|]); by apply elem_of_nil in Hin. }
  intros Hin. exists p. split; [done|]. split; [done|].
  destruct (ContainsFinalizer _ _) eqn:Hf; [by left|right]. cbn zeta in *.
  destruct (rn_Update rn _) as [p'|e] eqn:Hu; cbn [snd] in *.
  - eexists _, p'. split; [exact Hu|]. split; [apply Contains_Add|]. by destruct (cycle _ _ _ _ _ _) as [[? ?] ?].
  - by apply list_elem_of_singleton in Hin.
Qed.

(** ** What the components hold together *)

(** Every identity the ledger claims members of for a Policy is one the
    publisher exports for it. *)
Definition coherent st : Prop :=
  ∀ name ids, claims (st_ledger st) !! name = Some ids →
    ∃ keys, (Publisher.pp_identities <$> Publisher.policies (st_series st)) !! name = Some keys ∧ dom ids ⊆ keys.

Inductive reachable_state : state → Prop :=
  | reach_start lister :
      reachable_state {| st_series := Publisher.newPublisher; st_ledger := newLedger; st_policies := lister |}
  | reach_reconcile rn st name :
      (∀ i, 0 ≤ rn_settle rn i) → reachable_state st → reachable_state (state_after rn st name)
  | reach_kill st policy id container sent :
      reachable_state st → reachable_state (fst (ObserveOOM r st policy id container sent)).

Record kept st : Prop := {
  kept_series : Publisher.reachable (st_series st);
  kept_ledger : Ledger.reachable (st_ledger st);
  kept_coherent : coherent st;
}.

Lemma forget_kept st name : kept st → kept (forget st name).
Proof.
  intros [Hs Hl Hc]. split; cbn; [by apply Publisher.reach_forget|by apply Ledger.reach_forget|].
  intros n ids. cbn. rewrite Publisher.forget_policies, !lookup_delete_Some. intros [Hne Hn].
  destruct (Hc n ids Hn) as (keys & Hk & Hd). exists keys. by rewrite lookup_delete_ne.
Qed.

(** Adding to what the publisher includes keeps the coherence. *)
Lemma coherent_grows st series :
  coherent st →
  (∀ name keys, (Publisher.pp_identities <$> Publisher.policies (st_series st)) !! name = Some keys →
     ∃ keys', (Publisher.pp_identities <$> Publisher.policies series) !! name = Some keys' ∧ keys ⊆ keys') →
  coherent (with_series st series).
Proof.
  intros Hc Hg name ids Hn. destruct (Hc name ids Hn) as (keys & Hk & Hd).
  destruct (Hg name keys Hk) as (keys' & Hk' & Hs). exists keys'. split; [done|]. by etrans.
Qed.

Lemma reconciled_kept st name result took :
  kept st → kept (with_series st (Publisher.reconciled (st_series st) name result took)).
Proof.
  intros [Hs Hl Hc]. split; [by apply Publisher.reach_reconciled|done|]. apply coherent_grows; [done|].
  intros n keys Hn. rewrite Publisher.reconciled_policies. destruct (decide (n = name)) as [->|Hne].
  - exists keys. rewrite lookup_insert_eq, Hn. done.
  - exists keys. by rewrite lookup_insert_ne.
Qed.

Lemma observed_kept st policy id container sent :
  kept st → kept (fst (ObserveOOM r st policy id container sent)).
Proof.
  intros [Hs Hl Hc]. split; [by apply Publisher.reach_oom|done|]. apply coherent_grows; [done|].
  intros n keys Hn. rewrite Publisher.observedOOM_policies. destruct (decide (n = policy)) as [->|Hne].
  - eexists. rewrite lookup_insert_eq, Hn. split; [done|]. cbn. set_solver.
  - exists keys. by rewrite lookup_insert_ne.
Qed.

(** The identities of a pass, settled and published. *)
Lemma settled_kept st name now report v :
  kept st → NoDup (map rp_key report) → (∀ i, 0 ≤ now i) →
  kept {| st_series := Publisher.publish (st_series st) name (publicationOf report v);
          st_ledger := fst (Settle now (st_ledger st) name (results report)); st_policies := st_policies st |}.
Proof.
  intros [Hs Hl Hc] Hnd Hnow.
  assert (Hpub : map Publisher.is_key (Publisher.pub_identities (publicationOf report v)) = map rp_key report).
  { unfold publicationOf. destruct (coverage report) as [[? ?] ?]. cbn. by rewrite map_map. }
  assert (Hres : map fst (results report) = map rp_key (List.filter (λ rep, negb (rp_departed rep)) report)).
  { unfold results. by rewrite map_map. }
  assert (Hsub : ∀ k, k ∈ map fst (results report) → k ∈ map rp_key report).
  { intros k. rewrite Hres. intros (rep & -> & Hin)%list_elem_of_fmap.
    apply list_elem_of_fmap_2. by apply elem_of_List_filter in Hin as [_ ?]. }
  split.
  - by apply Publisher.reach_publish.
  - apply Ledger.reach_settle; [done| |done]. rewrite Hres. by apply NoDup_map_filter.
  - intros n ids. cbn [st_ledger st_series]. rewrite Settle_claims, Publisher.publish_policies, Hpub.
    destruct (decide (n = name)) as [->|Hne].
    + rewrite !lookup_insert_eq. intros [= <-]. eexists. split; [done|]. rewrite dom_pass_claims, dom_empty_L.
      intros k. rewrite elem_of_union, !elem_of_list_to_set. intros [?%elem_of_empty|Hk]; [done|by apply Hsub].
    + rewrite !lookup_insert_ne by done. apply Hc.
Qed.

Lemma cycle_kept rn st p :
  (∀ i, 0 ≤ rn_settle rn i) → kept st → kept (fst (fst (cycle ErrorText objectOf r rn st p))).
Proof.
  intros Hnow Hst. unfold cycle.
  assert (Hst' : ∀ lister, kept {| st_series := st_series st; st_ledger := st_ledger st; st_policies := lister |})
    by (intros lister; destruct Hst; by split).
  pose proof (TakeForPolicy_distinct (rn_Cluster rn) (po_Policy p)
    {| b_Policies := st_policies st; b_Now := rn_clock rn |}) as Htaken.
  destruct (TakeForPolicy _ _ _) as [[snap|e] lister]; cbn [fst snd st_ledger] in Htaken |- *.
  2:{ by apply reconciled_kept. }
  set (pr := {| rc_patcher := _ |}).
  assert (Hkeys : NoDup (map rp_key (fst (runPass objectOf pr (rn_World rn) (po_Policy p) snap)))).
  { destruct (pass_reports_all objectOf pr (rn_World rn) (po_Policy p) snap) as [Hk _].
    unfold report_of in Hk. rewrite Hk. by apply NoDup_map_filter, Htaken. }
  destruct (runPass _ _ _ _ _) as [report effects]. cbn [fst] in Hkeys.
  set (name := pol_Name _).
  pose proof (settled_kept _ name (rn_settle rn) report (snd (Settle (rn_settle rn) (st_ledger st) name (results report)))
    (Hst' lister) Hkeys Hnow) as Hset. cbn [st_series st_ledger st_policies] in Hset.
  destruct (Settle _ _ _ _) as [l v]. cbn [fst snd] in Hset.
  destruct (Sweep _ _ _ _ _) as [[? ?] ws]. cbn [fst]. exact (reconciled_kept _ name _ _ Hset).
Qed.

(** C12: Whatever Policies are reconciled, deleted and told of kills, the series
    of the publisher and the entries of the ledger stay among the states their
    own invariants hold of, and the two agree: what the ledger remembers for a
    Policy is of identities the publisher exports for it. *)
Theorem controller_invariant st :
  reachable_state st →
  Publisher.reachable (st_series st) ∧ Ledger.reachable (st_ledger st) ∧
  ∀ name ids, claims (st_ledger st) !! name = Some ids →
    ∃ pol, Publisher.policies (st_series st) !! name = Some pol ∧ dom ids ⊆ Publisher.pp_identities pol.
Proof.
  intros Hst. assert (Hk : kept st).
  { induction Hst as [lister|rn st name Hnow _ IH|st policy id c sent _ IH].
    - split; [apply Publisher.reach_new|apply Ledger.reach_new|]. intros n ids Hn. cbn in Hn.
      by rewrite lookup_empty in Hn.
    - unfold Reconcile. destruct (negb _); [done|]. case_bool_decide; [done|].
      destruct (rn_Get rn name) as [p|e]; [|by destruct (IsNotFound e); [apply forget_kept|]].
      destruct (po_Deleting p).
      { unfold cleanup. destruct (ContainsFinalizer _ _); [|done].
        destruct (Release _ _) as [[n [e|]] ws]; [done|]. by apply forget_kept. }
      destruct (ContainsFinalizer _ _); [by apply cycle_kept|].
      destruct (rn_Update rn _) as [p'|e]; [|done].
      pose proof (cycle_kept rn st p' Hnow IH). by destruct (cycle _ _ _ _ _ _) as [[? ?] ?].
    - by apply observed_kept. }
  destruct Hk as [Hs Hl Hc]. split_and!; [done|done|]. intros name ids Hn.
  destruct (Hc name ids Hn) as (keys & (pol & <- & Hpol)%lookup_fmap_Some & Hd). by exists pol.
Qed.

(** ** The Ready condition *)

(** What a pass made of Policy [p] over [snap]: its report and its verdict. *)
Definition passOf rn st p snap : list identityReport * Ledger.Verdict :=
  let report := fst (runPass objectOf
    {| rc_patcher := ct_patcher r; rc_RecommendOnly := ct_RecommendOnly r; rc_lifetimes := lifetimes r;
       rc_ledger := st_ledger st |} (rn_World rn) (po_Policy p) snap) in
  (report, snd (Settle (rn_settle rn) (st_ledger st) (pol_Name (po_Policy p)) (results report))).

(** No identity of a pass failed and none is Blocked. *)
Definition all_well (report : list identityReport) (v : Ledger.Verdict) : Prop :=
  (∀ rep, rep ∈ report → rp_failed rep = false ∧
     ∀ h, v_Identities v !! rp_key rep = Some h → hasFailed h = false) ∧
  (∀ id h, v_Identities v !! id = Some h → Blocked h = false).

Lemma no_matches {A} (f : A → bool) l : (Z.of_nat (length (List.filter f l)) =? 0) = true ↔ ∀ x, x ∈ l → f x = false.
Proof.
  rewrite Z.eqb_eq. induction l as [|x l IH]; cbn; [split; [by intros _ x Hx%elem_of_nil|done]|].
  destruct (f x) eqn:E; cbn [length].
  - split; [lia|]. intros H. specialize (H x (list_elem_of_here _ _)). congruence.
  - rewrite IH. split; [|by intros H y Hy; apply H; right]. by intros H y [->|Hy]%elem_of_cons; [|apply H].
Qed.

Lemma all_well_counts report v :
  (failedIdentities report v =? 0) && (blockedIdentities v =? 0) = true ↔ all_well report v.
Proof.
  unfold failedIdentities, blockedIdentities, all_well. rewrite andb_true_iff, !no_matches. apply Morphisms_Prop.and_iff_morphism.
  - split; intros H rep Hrep; specialize (H rep Hrep).
    + apply orb_false_iff in H as [Hf Hv]. split; [done|]. intros h Hh. by rewrite Hh in Hv.
    + destruct H as [-> Hv]. cbn. destruct (v_Identities v !! _) as [h|]; [by apply Hv|done].
  - split; intros H.
    + intros id h Hh. by apply (H (id, h)), elem_of_map_to_list.
    + intros [id h] Hin%elem_of_map_to_list. by apply (H id).
Qed.

Lemma passCondition_status processed failed blocked generation :
  cn_Status (passCondition processed failed blocked generation) = (failed =? 0) && (blocked =? 0).
Proof. unfold passCondition. by destruct (_ && _). Qed.

Definition is_status (a : action) : bool := match a with AStatus _ => true | _ => false end.

Lemma warn_no_status report evs : List.filter is_status (warn report evs) = [].
Proof.
  unfold warn. induction report as [|rep report IH]; cbn; [done|]. rewrite List.filter_app, IH, app_nil_r.
  induction (rp_members rep) as [|res l IHl]; cbn; [done|]. case_bool_decide; [|done].
  by destruct (evs !! _).
Qed.

(** The policy a reconcile takes its snapshot for: the one read, or what the API
    server answered to adding the finalizer. *)
Definition passes rn name p : Prop :=
  ∃ read, answered rn name read ∧ po_Deleting read = false ∧
    if ContainsFinalizer (po_Finalizers read) finalizerName then p = read
    else rn_Update rn (with_finalizers read (AddFinalizer (po_Finalizers read) finalizerName)) = Ok p.

Lemma Reconcile_passes rn st name p :
  passes rn name p →
  ∃ before, Forall (λ a, ∃ q, a = AUpdate q) before ∧
    actions rn st name = before ++ snd (cycle ErrorText objectOf r rn st p).
Proof.
  intros (read & Ha & Hd & Hp). rewrite !(Reconcile_answered _ _ _ read), !Hd by done.
  destruct (ContainsFinalizer _ _); [subst p; by exists []|]. cbv zeta. rewrite Hp.
  destruct (cycle _ _ _ _ _ _) as [[st' answer] acts]. eexists [_]. split; [|done]. constructor; [by eexists|constructor].
Qed.

(** What the actions [acts] of a reconcile of [p] say: one status, with the Ready
    condition [cond], and a closing event of it. *)
Definition reports rn st p (acts : list action) : Prop :=
  ∃ p' cond reason message,
    List.filter is_status acts = [AStatus p'] ∧
    last acts = Some (AEvent (negb (cn_Status cond)) reason message) ∧
    conditionOf "Ready" (po_Conditions p') = Some cond ∧
    others "Ready" (po_Conditions p') = others "Ready" (po_Conditions p) ∧
    cn_ObservedGeneration cond = po_Generation p ∧
    (cn_Status cond = true ↔
       ∃ snap, fst (TakeForPolicy (rn_Cluster rn) (po_Policy p)
                      {| b_Policies := st_policies st; b_Now := rn_clock rn |}) = Ok snap ∧
         all_well (fst (passOf rn st p snap)) (snd (passOf rn st p snap))) ∧
    cn_LastTransitionTime cond =
      match conditionOf "Ready" (po_Conditions p) with
      | Some c => if Bool.eqb (cn_Status c) (cn_Status cond) then cn_LastTransitionTime c else rn_transition rn
      | None => rn_transition rn
      end.

Lemma cycle_reports rn st p :
  NoDup (map cn_Type (po_Conditions p)) → reports rn st p (snd (cycle ErrorText objectOf r rn st p)).
Proof.
  intros Hnd. unfold reports, cycle.
  destruct (TakeForPolicy _ _ _) as [[snap|e] lister]; cbn [fst snd st_ledger].
  - destruct (runPass _ _ _ _ _) as [report effects] eqn:Er. destruct (Settle _ _ _ _) as [l v] eqn:Es.
    assert (HP : passOf rn st p snap = (report, v)) by (unfold passOf; rewrite Er; cbn [fst]; by rewrite Es).
    destruct (Sweep _ _ _ _ _) as [[? ?] ws]. cbn [fst snd].
    set (cond := passCondition _ _ _ _).
    assert (HT : cn_Type cond = "Ready") by (unfold cond, passCondition; by destruct (_ && _)).
    eexists _, (with_transition cond (transition (with_transition cond (rn_transition rn)) (po_Conditions p))), _, _.
    split_and!.
    + cbn. rewrite List.filter_app, warn_no_status. reflexivity.
    + cbn [cn_Status with_transition]. by rewrite app_comm_cons, last_app.
    + cbn [po_Conditions setCondition]. rewrite <-HT. apply (upsertCondition_spec (with_transition cond _)).
    + cbn [po_Conditions setCondition]. rewrite <-HT. by apply (upsertCondition_others (with_transition cond _)).
    + unfold cond, passCondition. by destruct (_ && _).
    + cbn [cn_Status with_transition]. unfold cond. rewrite passCondition_status, all_well_counts.
      split; [intros Hw; exists snap; split; [done|]; by rewrite HP|]. intros (snap' & [= <-] & Hw). by rewrite HP in Hw.
    + cbn [cn_LastTransitionTime cn_Status with_transition transition cn_Type]. unfold transition.
      cbn [cn_LastTransitionTime cn_Status with_transition cn_Type]. by rewrite HT.
  - set (c := {| cn_Type := "Ready"; cn_Status := false; cn_ObservedGeneration := po_Generation p;
       cn_LastTransitionTime := rn_transition rn; cn_Reason := "ListFailed"; cn_Message := ErrorText e |}).
    exists (failCondition ErrorText rn p "ListFailed" e), (with_transition c (transition c (po_Conditions p))).
    eexists _, _. split_and!; try reflexivity.
    + apply (upsertCondition_spec c).
    + by apply (upsertCondition_others c).
    + split; [done|]. by intros (snap & ? & _).
Qed.

(** C14: Every reconcile that reaches its snapshot, the first too, which adds the
    finalizer before it, writes one status. Its Ready
    condition is of the generation seen, true exactly when the snapshot was taken
    and the pass left no identity failed and none Blocked; it keeps the time of
    its last transition while its status stands, the other conditions stand, and
    the closing event is a Warning exactly when it is not true. *)
Theorem Ready_reports rn st name p :
  passes rn name p → NoDup (map cn_Type (po_Conditions p)) →
  ∃ p' cond reason message,
    List.filter is_status (actions rn st name) = [AStatus p'] ∧
    last (actions rn st name) = Some (AEvent (negb (cn_Status cond)) reason message) ∧
    conditionOf "Ready" (po_Conditions p') = Some cond ∧
    others "Ready" (po_Conditions p') = others "Ready" (po_Conditions p) ∧
    cn_ObservedGeneration cond = po_Generation p ∧
    (cn_Status cond = true ↔
       ∃ snap, fst (TakeForPolicy (rn_Cluster rn) (po_Policy p)
                      {| b_Policies := st_policies st; b_Now := rn_clock rn |}) = Ok snap ∧
         all_well (fst (passOf rn st p snap)) (snd (passOf rn st p snap))) ∧
    cn_LastTransitionTime cond =
      match conditionOf "Ready" (po_Conditions p) with
      | Some c => if Bool.eqb (cn_Status c) (cn_Status cond) then cn_LastTransitionTime c else rn_transition rn
      | None => rn_transition rn
      end.
Proof.
  intros Hp Hnd. destruct (Reconcile_passes rn st name p Hp) as (before & Hb & ->).
  destruct (cycle_reports rn st p Hnd) as (p' & cond & reason & message & H1 & H2 & H3).
  exists p', cond, reason, message. split; [|split; [by rewrite last_app, H2|exact H3]].
  rewrite List.filter_app, H1. clear -Hb. induction Hb as [|a before [q ->] _ IH]; [done|exact IH].
Qed.
End Facts.

(** ** At a concrete input *)
Section Sample.
#[local] Existing Instance amd64.
#[local] Existing Instance nano_quantity.
#[local] Existing Instance nano_quantity_laws.
#[local] Existing Instance simple_kube.
#[local] Existing Instance no_durations.
#[local] Existing Instance plain_hashing.
#[local] Existing Instance sample_server.
#[local] Existing Instance no_autoscalers.

#[local] Instance silent_fetcher : InputsFetcher := {| FetchInputs _ _ _ := ∅ |}.

Definition list_finalizers : Finalizers := {|
  ContainsFinalizer fs f := bool_decide (f ∈ fs);
  AddFinalizer fs f := if bool_decide (f ∈ fs) then fs else fs ++ [f];
  RemoveFinalizer fs f := List.filter (λ g, negb (String.eqb g f)) fs;
|}.
#[local] Existing Instance list_finalizers.

#[local] Instance list_finalizers_laws : FinalizersLaws.
Proof.
  split; intros fs f; cbn.
  - apply bool_decide_eq_true. case_bool_decide; [done|]. apply elem_of_app. right. by left.
  - apply bool_decide_eq_false. intros [H%negb_true_iff _]%elem_of_List_filter. by rewrite String.eqb_refl in H.
Qed.

(** A namespace opted into the Policy, with one pod; [err] says its pods cannot
    be listed. The fetcher answers nothing of the pod's identity. *)
Definition sample_policies_cluster (err : bool) : Cluster :=
  {| list_workloads _ _ := Ok []; list_pods_in _ := if err then Err (ErrorNew "timeout") else Ok [sample_bare_pod (pod_Containers Match.sample_pod)];
     list_recommendations _ := Ok []; list_policies := Ok [sample_pass_policy]; list_namespaces := Ok [("prod", {[PolicyAnnotation := "frugal"]})];
     get_namespace _ := Ok {[PolicyAnnotation := "frugal"]} |}.

Definition sample_controller : controller :=
  {| ct_patcher := NewPatcher true []; ct_RecommendOnly := false; ct_ReconcileInterval := 5 * minute;
     ct_Retention := DefaultRetention; ct_hasInputs := true; ct_hasTriggers := true;
     ct_WorkloadConcurrencyLimit := 5; ct_PolicyConcurrencyLimit := 10 |}.

(** Ready since an hour. *)
Definition sample_policy_object (deleting : bool) (fs : list string) : PolicyObject :=
  {| po_Policy := sample_pass_policy; po_Deleting := deleting; po_Finalizers := fs; po_Generation := 3;
     po_Conditions := [{| cn_Type := "Ready"; cn_Status := true; cn_ObservedGeneration := 2;
       cn_LastTransitionTime := 9 * hour; cn_Reason := "ReconciliationSucceeded"; cn_Message := "" |}] |}.

Definition sample_reconcile (p : PolicyObject) (err : bool) : Run :=
  {| rn_Get _ := Ok p; rn_Update := Ok; rn_StatusUpdate _ := None; rn_Cluster := sample_policies_cluster err;
     rn_releaseClient := sample_client [sample_departed]; rn_sweepClient := sample_client [];
     rn_World := sample_world false; rn_clock := Some (10 * hour); rn_settle _ := 10 * hour; rn_requeue := 10 * hour;
     rn_transition := 10 * hour; rn_took := 2 * second |}.

Definition sample_state : state :=
  {| st_series := Publisher.newPublisher; st_ledger := newLedger;
     st_policies := Some (NewPolicyLister ["kube-system"]) |}.

Definition silent_text (_ : error) : string := "".

#[local] Abbreviation sample_actions p err :=
  (snd (Reconcile silent_text sample_object sample_controller (sample_reconcile p err) sample_state "frugal")).

Definition sample_kind (a : action) : string :=
  match a with
  | ARelease _ => "release" | AUpdate _ => "update" | APass _ => "pass" | AMemberEvent _ _ => "member"
  | ASweep _ => "sweep" | AStatus _ => "status" | AEvent w reason _ => if w then "!" +:+ reason else reason
  end.

Example sample_cycle : map sample_kind (sample_actions (sample_policy_object false []) false) =
  ["update"; "pass"; "sweep"; "status"; "ReconciliationSucceeded"].
Proof. by_running. Qed.
Example sample_list_failure : map sample_kind (sample_actions (sample_policy_object false [finalizerName]) true) =
  ["status"; "!ListFailed"].
Proof. by_running. Qed.

Lemma sample_answered p err : answered sample_controller (sample_reconcile p err) "frugal" p.
Proof. by repeat split. Qed.

Lemma deletion_releases_first_witness :
  map sample_kind (sample_actions (sample_policy_object true [finalizerName]) false) = ["release"; "Cleanup"; "update"].
Proof.
  assert (Ha : snd (fst (Reconcile silent_text sample_object sample_controller
    (sample_reconcile (sample_policy_object true [finalizerName]) false) sample_state "frugal")) = Ok 0) by by_running.
  destruct (deletion_releases_first silent_text sample_object sample_controller
    (sample_reconcile (sample_policy_object true [finalizerName]) false) sample_state "frugal"
    (sample_policy_object true [finalizerName])) as [(e & ws & He & _)|(items & p' & ev & _ & _ & Hacts & _)].
  - apply sample_answered.
  - done.
  - by_evaluation.
  - by rewrite Ha in He.
  - by_running.
Defined.

Definition sample_effects : list effect :=
  match List.find (λ a, match a with APass _ => true | _ => false end)
          (sample_actions (sample_policy_object false []) false) with
  | Some (APass es) => es
  | _ => []
  end.

(** The pass of a Policy never seen before comes after its finalizer is written. *)
Lemma pass_holds_finalizer_witness :
  ∃ held, last (map po_Finalizers [held]) = Some [finalizerName] ∧
    AUpdate held ∈ sample_actions (sample_policy_object false []) false.
Proof.
  assert (Hin : (sample_actions (sample_policy_object false []) false) !! 1%nat = Some (APass sample_effects))
    by by_running.
  destruct (pass_holds_finalizer silent_text sample_object sample_controller
    (sample_reconcile (sample_policy_object false []) false) sample_state "frugal" sample_effects
    (list_elem_of_lookup_2 _ _ _ Hin)) as (p & (_ & _ & Hget) & _ & _).
  exists (with_finalizers (sample_policy_object false []) [finalizerName]). split; [done|].
  apply (list_elem_of_lookup_2 _ 0). by_running.
Defined.

Lemma controller_invariant_witness :
  let st := fst (ObserveOOM sample_controller
    (fst (fst (Reconcile silent_text sample_object sample_controller
      (sample_reconcile (sample_policy_object false []) false) sample_state "frugal")))
    "frugal" bareIdentity "app" true) in
  is_Some (claims (st_ledger st) !! "frugal") ∧
  ∃ pol, Publisher.policies (st_series st) !! "frugal" = Some pol ∧ bareIdentity ∈ Publisher.pp_identities pol.
Proof.
  set (st := fst (ObserveOOM _ _ _ _ _ _)). cbn zeta.
  destruct (controller_invariant silent_text sample_object sample_controller st) as (_ & _ & H).
  { apply reach_kill, reach_reconcile; [done|]. apply reach_start. }
  assert (Hd : default [] (elements ∘ dom <$> claims (st_ledger st) !! "frugal") = [bareIdentity]) by by_running.
  destruct (claims (st_ledger st) !! "frugal") as [ids|] eqn:Hc; [|done]. split; [by eexists|].
  destruct (H "frugal" ids Hc) as (pol & Hpol & Hin). exists pol. split; [done|]. apply Hin.
  apply elem_of_elements. cbn in Hd. rewrite Hd. by left.
Defined.

(** Its pods could not be listed: the condition turns, dated now. *)
Lemma Ready_reports_witness :
  ∃ p' cond,
    sample_actions (sample_policy_object false [finalizerName]) true = [AStatus p'; AEvent true "ListFailed" ""] ∧
    conditionOf "Ready" (po_Conditions p') = Some cond ∧ cn_Status cond = false ∧
    cn_LastTransitionTime cond = 10 * hour.
Proof.
  set (acts := sample_actions _ _).
  destruct (Ready_reports silent_text sample_object sample_controller
    (sample_reconcile (sample_policy_object false [finalizerName]) true) sample_state "frugal"
    (sample_policy_object false [finalizerName])) as (p' & cond & reason & message & Hst & Hlast & Hcond & _ & _ & _ & Hlt).
  - eexists. split; [apply sample_answered|]. by split.
  - apply NoDup_singleton.
  - fold acts in Hst, Hlast.
    set (x := failCondition silent_text (sample_reconcile (sample_policy_object false [finalizerName]) true)
      (sample_policy_object false [finalizerName]) "ListFailed" (ErrorNew "timeout")).
    assert (Hx : acts = [AStatus x; AEvent true "ListFailed" ""]) by by_running.
    clearbody x acts. rewrite Hx in Hst, Hlast. cbn in Hst, Hlast. injection Hst as ->.
    injection Hlast as Hneg _ _. exists p', cond. rewrite Hx. split; [done|]. split; [done|].
    destruct (cn_Status cond) eqn:Hs; [done|]. split; [done|]. exact Hlt.
Defined.
End Sample.
