(* ===== verification/History.v ===== *)
(** * Recommendation history ([internal/recommender/history.go])

    The instants a history is read at, and what the chain computes at each of
    them. A [History] is the list of its points. Reading one is the second
    method of Go's [InputsFetcher], the class [HistoryFetcher] here. *)

From S2P Require Import Prelude GoLang GoFloat Quantity Kube PolicyApi WlrApi Shards Autoscaler Resources.
From S2P Require Import Signals Coordination Limits Compute Inventory Assemble.
Local Open Scope Z_scope.

(** ** Spans *)

Definition maxHistoryPoints : Z := 300.

Record Span := { Start : time; End : time; Step : duration }.

Definition SpanOf (start end_ : time) (hint : duration) : Span :=
  let unit := Z.max hint second in
  let d := time_Sub end_ start in
  let units :=
    if 0 <? d then
      let finest := Z.quot (wrap64 (d + (maxHistoryPoints - 2))) (maxHistoryPoints - 1) in
      Z.max (Z.quot (wrap64 (wrap64 (finest + unit) - 1)) unit) 1
    else 1 in
  let step := wrap64 (units * unit) in
  let steps := Z.max (Z.quot d step) 0 in
  {| Start := time_Add end_ (wrap64 (wrap64 (- steps) * step)); End := end_; Step := step |}.

(** A zero [Step], which divides by zero, is none [SpanOf] builds. *)
Definition instants (s : Span) : Z := wrap64 (Z.quot (time_Sub (End s) (Start s)) (Step s) + 1).

Definition instant (s : Span) (i : Z) : time := time_Add (Start s) (wrap64 (i * Step s)).

Definition index (s : Span) (t : time) : Z * bool :=
  let i := Z.quot (wrap64 (time_Sub t (Start s) + Z.quot (Step s) 2)) (Step s) in
  (i, negb (t <? time_Add (Start s) (wrap64 (Z.quot (wrap64 (- Step s)) 2))) && (i <? instants s)).

(** ** Histories *)
Section History.
Context {PL : Platform} {QO : QuantityOps} {PO : PromOps}.

Record HistoryPoint := { hp_At : time; hp_Inputs : WorkloadInputs }.

Abbreviation History := (list HistoryPoint).

Record ResourceRange := {
  rr_Usage : list TimeValue;
  rr_Request : list TimeValue;
  rr_Limit : list TimeValue;
}.

Definition noRange : ResourceRange := {| rr_Usage := []; rr_Request := []; rr_Limit := [] |}.

(** [ContainerRange], keyed by the resource. *)
Abbreviation ContainerRange := (gmap string ResourceRange).

Record RangeResult := {
  rg_Containers : gmap string ContainerRange;
  rg_history : option History;
}.

(** One point at [at_] when there is a value. *)
Definition point (at_ : time) (v : option float64) : list TimeValue :=
  match v with Some v => [{| tv_Timestamp := at_; tv_Value := v |}] | None => [] end.

Definition update (r : RangeResult) (name : string) (res : resourceKind)
    (f : ResourceRange → ResourceRange) : RangeResult :=
  let c := default ∅ (rg_Containers r !! name) in
  let rr := default noRange (c !! resource_name res) in
  {| rg_Containers := <[name := <[resource_name res := f rr]> c]> (rg_Containers r);
     rg_history := rg_history r |}.

(** [ResourceRange.add] *)
Definition add (res : resourceKind) (c : Container) (req : Request) (rr : ResourceRange) : ResourceRange :=
  let usage := rr_Usage rr ++ point (now req) (inputs_usage (inputs req) (c_Name c) res) in
  match fst (size res c req) with
  | None => {| rr_Usage := usage; rr_Request := rr_Request rr; rr_Limit := rr_Limit rr |}
  | Some sized =>
      {| rr_Usage := usage;
         rr_Request := rr_Request rr ++ point (now req) (Some (value res (sz_request sized)));
         rr_Limit := rr_Limit rr ++ point (now req) (value res <$> l_value (sz_limit sized)) |}
  end.

(** The request as of a point. *)
Definition at_point (req : Request) (p : HistoryPoint) : Request :=
  {| containers := containers req; resources := resources req; coordination := coordination req;
     autoInfo := autoInfo req; inputs := hp_Inputs p; since := since req; now := hp_At p;
     fetch := fetch req |}.

Definition rangePoint (req : Request) (out : RangeResult) (p : HistoryPoint) : RangeResult :=
  foldl (λ out c, foldl (λ out res, update out (c_Name c) res (add res c (at_point req p))) out resourceKinds)
    out (containers req).

Definition computeRange (req : Request) (h : option History) : RangeResult :=
  let out := {| rg_Containers := ∅; rg_history := h |} in
  match h with None => out | Some points => foldl (rangePoint req) out points end.

(** One history for each identity asked for. *)
Class HistoryFetcher : Type := {
  FetchHistory : Span → ResourcesConfigs → list InputsRequest →
    gmap WorkloadIdentity (result History);
}.

Definition ComputeRange {HF : HistoryFetcher} (req : Request) (span : Span) : result RangeResult :=
  match FetchHistory span (resources req) [fetch req] !! ir_Identity (fetch req) with
  | Some (Err e) => Err e
  | Some (Ok h) => Ok (computeRange req (Some h))
  | None => Ok (computeRange req None)
  end.

Definition readPoint (cfg : ResourcesConfigs) (spec : RightSizingSpec) (id : Inventory.Identity)
    (out : RangeResult) (p : HistoryPoint) : RangeResult :=
  foldl (λ out c,
    foldl (λ out res,
      match inputs_usage (hp_Inputs p) (c_Name c) res with
      | Some v =>
          if KeepRequest (rc_Requests (config res cfg)) then out
          else update out (c_Name c) res (λ rr,
            {| rr_Usage := rr_Usage rr ++ point (hp_At p) (Some v);
               rr_Request := rr_Request rr; rr_Limit := rr_Limit rr |})
      | None => out
      end) out resourceKinds)
    out (sizedContainers spec id (hp_Inputs p)).

(** [None] is the nil history of a fetcher that answers another identity than
    the one asked for, whose points cannot be read. *)
Definition ReadRange {HF : HistoryFetcher} (spec : RightSizingSpec) (id : Inventory.Identity) (span : Span) :
    option (result RangeResult) :=
  let cfg := WithDefaults (rs_ResourcesConfigs spec) in
  let req := {| ir_Identity := Key id; ir_Containers := Z.of_nat (length (ContainersOf spec id)) |} in
  match FetchHistory span cfg [req] !! Key id with
  | Some (Err e) => Some (Err e)
  | Some (Ok points) =>
      Some (Ok (foldl (readPoint cfg spec id) {| rg_Containers := ∅; rg_history := Some points |} points))
  | None => None
  end.

(** ** The kills of a history *)

Record OOMKill := { ok_Timestamp : time; ok_Container : string }.

Definition killsAt (p : HistoryPoint) : list OOMKill :=
  let ooms := oomOfInputs (hp_Inputs p) oomName in
  concat (map (λ n,
    let kills := default f_zero (KillsInStep <$> ooms !! n) in
    replicate (Z.to_nat (int64_of_float (math_Round kills)))
      {| ok_Timestamp := hp_At p; ok_Container := n |})
    (sort_by String.compare ((map_to_list ooms).*1))).

Definition OOMKills (r : RangeResult) : list OOMKill :=
  match rg_history r with None => [] | Some points => concat (map killsAt points) end.
End History.

(** ** Facts *)
Section SpanFacts.

(** A range and a step hint short of the width of a Duration. *)
Definition readable (start end_ : time) (hint : duration) : Prop :=
  - 2 ^ 61 ≤ end_ - start ≤ 2 ^ 61 ∧ hint ≤ 2 ^ 61.

(** The step as a number of units. *)
Definition spanUnits (start end_ : time) (hint : duration) : Z :=
  let unit := Z.max hint second in
  if 0 <? end_ - start then Z.max (((end_ - start + 298) / 299 + unit - 1) / unit) 1 else 1.

Lemma quot_wrap a b : 0 ≤ a → 0 < b → int64_range a → Z.quot (wrap64 a) b = a / b.
Proof. intros. rewrite wrap64_id by done. by rewrite Z.quot_div_nonneg. Qed.

Lemma spanUnits_bounds start end_ hint :
  readable start end_ hint →
  1 ≤ spanUnits start end_ hint ∧ 0 < spanUnits start end_ hint * Z.max hint second ≤ 2 ^ 62 ∧
  end_ - start ≤ 299 * (spanUnits start end_ hint * Z.max hint second) ∧
  (∀ j, 1 ≤ j → j < spanUnits start end_ hint → 299 * (j * Z.max hint second) < end_ - start).
Proof.
  intros [Hd Hh]. unfold spanUnits. assert (Hu : 1 ≤ Z.max hint second ≤ 2 ^ 61) by (unfold second; lia).
  set (u := Z.max hint second) in *. set (d := end_ - start) in *.
  destruct (Z.ltb_spec 0 d) as [Hp|Hp].
  - set (f := (d + 298) / 299).
    assert (Hf : 299 * f ≤ d + 298 < 299 * f + 299)
      by (unfold f; pose proof (Z.div_mod (d + 298) 299); pose proof (Z.mod_pos_bound (d + 298) 299); lia).
    set (k := (f + u - 1) / u).
    assert (Hk : u * k ≤ f + u - 1 < u * k + u)
      by (unfold k; pose proof (Z.div_mod (f + u - 1) u); pose proof (Z.mod_pos_bound (f + u - 1) u); lia).
    destruct (Z.max_spec k 1) as [[? ->]|[? ->]]; split_and!; nia.
  - split_and!; nia.
Qed.

Lemma SpanOf_eq start end_ hint :
  readable start end_ hint →
  SpanOf start end_ hint =
  {| Start := end_ - Z.max ((end_ - start) / (spanUnits start end_ hint * Z.max hint second)) 0 *
                (spanUnits start end_ hint * Z.max hint second);
     End := end_; Step := spanUnits start end_ hint * Z.max hint second |}.
Proof.
  intros Hr. pose proof (spanUnits_bounds _ _ _ Hr) as (H1 & H2 & _ & _). destruct Hr as [Hd Hh].
  unfold SpanOf. rewrite time_Sub_exact by (unfold int64_range, int64_min, int64_max; lia).
  assert (Hu : 1 ≤ Z.max hint second ≤ 2 ^ 61) by (unfold second; lia).
  assert (Hunits : (if 0 <? end_ - start
     then Z.max (Z.quot (wrap64 (wrap64 (Z.quot (wrap64 (end_ - start + (maxHistoryPoints - 2)))
            (maxHistoryPoints - 1) + Z.max hint second) - 1)) (Z.max hint second)) 1
     else 1) = spanUnits start end_ hint).
  { unfold spanUnits, maxHistoryPoints. destruct (Z.ltb_spec 0 (end_ - start)) as [Hp|]; [|done].
    assert (0 ≤ (end_ - start + 298) / 299 ≤ 2 ^ 61)
      by (split; [apply Z.div_pos; lia|apply Z.div_le_upper_bound; lia]).
    rewrite (quot_wrap (end_ - start + (300 - 2))) by (unfold int64_range, int64_min, int64_max; lia).
    replace (end_ - start + (300 - 2)) with (end_ - start + 298) by lia. change (300 - 1) with 299.
    rewrite (wrap64_id (_ + Z.max hint second)) by (unfold int64_range, int64_min, int64_max; lia).
    rewrite quot_wrap by (unfold int64_range, int64_min, int64_max; lia). done. }
  cbn zeta. rewrite Hunits. set (k := spanUnits start end_ hint) in *. set (u := Z.max hint second) in *.
  rewrite (wrap64_id (k * u)) by (unfold int64_range, int64_min, int64_max; lia).
  assert (Hsteps : Z.max (Z.quot (end_ - start) (k * u)) 0 = Z.max ((end_ - start) / (k * u)) 0).
  { destruct (Z.le_ge_cases 0 (end_ - start)); [by rewrite Z.quot_div_nonneg by lia|].
    pose proof (Z.quot_opp_l (- (end_ - start)) (k * u) ltac:(lia)) as Hq. rewrite Z.opp_involutive in Hq.
    pose proof (Z.quot_pos (- (end_ - start)) (k * u)).
    pose proof (Z.div_le_upper_bound (end_ - start) (k * u) 0). lia. }
  rewrite Hsteps. set (n := Z.max _ 0).
  assert (Hn : 0 ≤ n ∧ n * (k * u) ≤ 2 ^ 61).
  { unfold n. pose proof (Z.mul_div_le (end_ - start) (k * u)). split; [lia|].
    destruct (Z.max_spec ((end_ - start) / (k * u)) 0) as [[_ ->]|[_ ->]]; lia. }
  rewrite (wrap64_id (- n)) by (unfold int64_range, int64_min, int64_max; nia).
  rewrite (wrap64_id (- n * (k * u))) by (unfold int64_range, int64_min, int64_max; nia).
  unfold time_Add. f_equal. lia.
Qed.

(** the span of a range ends at its end and reads it back towards its
    start, past which it never goes by a step or more, at one to 300 instants;
    its step is a whole number of hints, or of seconds, and any shorter one of
    them would leave 299 steps short of the range. *)
Theorem SpanOf_bounds start end_ hint :
  readable start end_ hint → start ≤ end_ →
  let s := SpanOf start end_ hint in
  End s = end_ ∧ start ≤ Start s < start + Step s ∧ 1 ≤ instants s ≤ maxHistoryPoints ∧
  ∃ k, 1 ≤ k ∧ Step s = k * Z.max hint second ∧
    ∀ j, 1 ≤ j < k → 299 * (j * Z.max hint second) < end_ - start.
Proof.
  intros Hr Hle. pose proof (spanUnits_bounds _ _ _ Hr) as (H1 & H2 & H3 & H4). cbn zeta.
  unfold instants. rewrite SpanOf_eq by done. cbn [Start End Step].
  set (st := spanUnits start end_ hint * Z.max hint second) in *.
  assert (Hn : 0 ≤ (end_ - start) / st ≤ 299)
    by (split; [apply Z.div_pos; lia|apply Z.div_le_upper_bound; lia]).
  rewrite (Z.max_l ((end_ - start) / st)) by lia.
  pose proof (Z.div_mod (end_ - start) st ltac:(lia)). pose proof (Z.mod_pos_bound (end_ - start) st ltac:(lia)).
  destruct Hr as [Hd Hh].
  rewrite time_Sub_exact by (unfold int64_range, int64_min, int64_max; nia).
  replace (end_ - (end_ - (end_ - start) / st * st)) with ((end_ - start) / st * st) by lia.
  rewrite Z.quot_mul by lia. rewrite wrap64_id by (unfold int64_range, int64_min, int64_max; lia).
  unfold maxHistoryPoints. split_and!; try lia.
  exists (spanUnits start end_ hint). split_and!; [lia|done|]. intros j [? ?]. by apply H4.
Qed.

(** A span of whole steps, inside the width of a Duration. *)
Definition regular (s : Span) (n : Z) : Prop :=
  0 < Step s ∧ 0 ≤ n ∧ End s = Start s + n * Step s ∧ (n + 2) * Step s ≤ int64_max.

Lemma SpanOf_regular start end_ hint :
  readable start end_ hint → ∃ n, regular (SpanOf start end_ hint) n.
Proof.
  intros Hr. pose proof (spanUnits_bounds _ _ _ Hr) as (H1 & H2 & H3 & H4).
  rewrite SpanOf_eq by done.
  assert (Hst : spanUnits start end_ hint * Z.max hint second ≤ 2 ^ 61 + 2 ^ 54).
  { clear H2 H3 H4. unfold spanUnits in *. destruct Hr as [Hd Hh].
    assert (Hu : 1 ≤ Z.max hint second ≤ 2 ^ 61) by (unfold second; lia).
    set (u := Z.max hint second) in *. destruct (Z.ltb_spec 0 (end_ - start)); [|lia].
    pose proof (Z.mul_div_le (((end_ - start + 298) / 299 + u - 1)) u).
    assert ((end_ - start + 298) / 299 ≤ 2 ^ 53) by (apply Z.div_le_upper_bound; lia).
    destruct (Z.max_spec (((end_ - start + 298) / 299 + u - 1) / u) 1) as [[_ ->]|[_ ->]]; nia. }
  set (st := spanUnits start end_ hint * Z.max hint second) in *.
  exists (Z.max ((end_ - start) / st) 0). destruct Hr as [Hd Hh]. unfold regular, int64_max. cbn [Start End Step].
  split_and!; [lia|lia|lia|].
  pose proof (Z.mul_div_le (end_ - start) st).
  destruct (Z.max_spec ((end_ - start) / st) 0) as [[_ ->]|[_ ->]]; nia.
Qed.

Lemma regular_instants s n : regular s n → instants s = n + 1.
Proof.
  intros (Hp & Hn & He & Hb). unfold int64_max in Hb. unfold instants. rewrite He.
  rewrite time_Sub_exact by (unfold int64_range, int64_min, int64_max; nia).
  replace (Start s + n * Step s - Start s) with (n * Step s) by lia. rewrite Z.quot_mul by lia.
  apply wrap64_id. unfold int64_range, int64_min, int64_max. nia.
Qed.

Lemma regular_instant s n i : regular s n → 0 ≤ i ≤ n → instant s i = Start s + i * Step s.
Proof.
  intros (Hp & Hn & He & Hb) Hi. unfold int64_max in Hb. unfold instant, time_Add.
  rewrite wrap64_id; [done|]. unfold int64_range, int64_min, int64_max. nia.
Qed.

(** the instants of a span and their numbers agree: a time within half a
    step of the span is given the number of the instant nearest it, so that an
    instant is given its own, and any other time none. *)
Theorem index_nearest s n t :
  regular s n →
  t - Start s ≤ 2 ^ 62 →
  let '(i, ok) := index s t in
  ok = bool_decide (Start s - Step s / 2 ≤ t ∧ t < End s + (Step s - Step s / 2)) ∧
  (ok = true → 0 ≤ i < instants s ∧ instant s i - Step s / 2 ≤ t < instant s i + (Step s - Step s / 2)).
Proof.
  intros Hreg Ht. pose proof (regular_instants _ _ Hreg) as Hi. unfold index. rewrite Hi.
  pose proof (regular_instant s n) as Hinst. specialize (Hinst).
  destruct (Hreg) as (Hp & Hn & He & Hb). unfold int64_max in Hb.
  pose proof (Z.div_mod (Step s) 2 ltac:(lia)) as Hh. pose proof (Z.mod_pos_bound (Step s) 2 ltac:(lia)).
  rewrite (wrap64_id (- Step s)) by (unfold int64_range, int64_min, int64_max; nia).
  rewrite Z.quot_opp_l, (Z.quot_div_nonneg (Step s)) by lia.
  rewrite (wrap64_id (- (Step s / 2))) by (unfold int64_range, int64_min, int64_max; nia).
  unfold time_Add. destruct (Z.ltb_spec t (Start s + - (Step s / 2))) as [Hlt|Hge]; cbn [negb andb].
  { split; [|done]. symmetry. apply bool_decide_eq_false. lia. }
  rewrite time_Sub_exact by (unfold int64_range, int64_min, int64_max; nia).
  rewrite (wrap64_id (t - Start s + Step s / 2)) by (unfold int64_range, int64_min, int64_max; nia).
  rewrite Z.quot_div_nonneg by lia. set (i := (t - Start s + Step s / 2) / Step s).
  pose proof (Z.div_mod (t - Start s + Step s / 2) (Step s) ltac:(lia)) as Hd. fold i in Hd.
  pose proof (Z.mod_pos_bound (t - Start s + Step s / 2) (Step s) ltac:(lia)).
  destruct (Z.ltb_spec i (n + 1)) as [Hin|Hout].
  - split; [symmetry; apply bool_decide_eq_true; nia|]. intros _.
    assert (0 ≤ i ≤ n) by nia. rewrite Hinst by done. nia.
  - split; [|done]. symmetry. apply bool_decide_eq_false. nia.
Qed.
End SpanFacts.

(** The step is not always the finest that reads 300 instants or fewer: 299.5
    seconds at a second's hint are read every two seconds, though their last
    299 seconds are 300 instants a second apart. *)
Example SpanOf_not_finest :
  let s := SpanOf 0 (299 * second + 500000000) second in
  Step s = 2 * second ∧ instants s = 150 ∧
  instants {| Start := End s - 299 * second; End := End s; Step := second |} = maxHistoryPoints.
Proof. by vm_compute. Qed.

Section RangeFacts.
Context {PL : Platform} {QO : QuantityOps} {PO : PromOps}.

(** The series of a resource of a container. *)
Definition series (r : RangeResult) (name : string) (res : resourceKind) : option ResourceRange :=
  rg_Containers r !! name ≫= λ c, c !! resource_name res.

Lemma resource_name_inj r1 r2 : resource_name r1 = resource_name r2 → r1 = r2.
Proof. by destruct r1, r2. Qed.

Lemma series_update r n res f n' res' :
  series (update r n res f) n' res' =
  if decide (n = n' ∧ res = res') then Some (f (default noRange (series r n res))) else series r n' res'.
Proof.
  unfold series, update. cbn [rg_Containers]. rewrite lookup_insert.
  destruct (decide (n = n')) as [->|Hn].
  - cbn [mbind option_bind]. rewrite lookup_insert. destruct (rg_Containers r !! n') as [c|] eqn:E; cbn.
    + destruct (decide (res = res')) as [->|Hres].
      * rewrite !decide_True by done. done.
      * rewrite !decide_False; [done|naive_solver|]. by intros ?%resource_name_inj.
    + rewrite lookup_empty. destruct (decide (res = res')) as [->|Hres].
      * rewrite !decide_True by done. done.
      * rewrite !decide_False; [by rewrite lookup_empty|naive_solver|]. by intros ?%resource_name_inj.
  - rewrite decide_False; [done|naive_solver].
Qed.

Definition addBoth (req : Request) (p : HistoryPoint) (out : RangeResult) (c : Container) : RangeResult :=
  foldl (λ out res, update out (c_Name c) res (add res c (at_point req p))) out resourceKinds.

Lemma series_addBoth req p out c n res :
  series (addBoth req p out c) n res =
  if decide (c_Name c = n) then Some (add res c (at_point req p) (default noRange (series out n res)))
  else series out n res.
Proof.
  unfold addBoth. cbn [resourceKinds foldl]. rewrite !series_update.
  destruct (decide (c_Name c = n)) as [->|Hn].
  - destruct res.
    + rewrite decide_False by naive_solver. by rewrite decide_True.
    + rewrite decide_True by done. rewrite decide_False by naive_solver. done.
  - by rewrite !decide_False by naive_solver.
Qed.

Lemma series_rangePoint req p out c res :
  NoDup (map c_Name (containers req)) → c ∈ containers req →
  series (rangePoint req out p) (c_Name c) res =
  Some (add res c (at_point req p) (default noRange (series out (c_Name c) res))).
Proof.
  unfold rangePoint. fold (addBoth req p).
  assert (Hskip : ∀ cs out, c_Name c ∉ map c_Name cs →
    series (foldl (addBoth req p) out cs) (c_Name c) res = series out (c_Name c) res).
  { induction cs as [|c' cs IH]; intros out' Hn; cbn [foldl]; [done|]. apply not_elem_of_cons in Hn as [Hne Hn].
    rewrite IH by done. rewrite series_addBoth. by rewrite decide_False by done. }
  revert out. generalize (containers req). intros cs. induction cs as [|c' cs IH]; intros out Hnd Hin; cbn [foldl].
  { by apply not_elem_of_nil in Hin. }
  apply NoDup_cons in Hnd as [Hc' Hnd]. apply elem_of_cons in Hin as [<-|Hin].
  - rewrite Hskip by done. rewrite series_addBoth. by rewrite decide_True.
  - rewrite IH by done. rewrite series_addBoth. rewrite decide_False; [done|].
    intros Heq. apply Hc'. rewrite Heq. apply list_elem_of_fmap. eauto.
Qed.

(** The request Compute would recommend for a container as of a point, and the
    limit it would leave the container with where it sizes the resource. *)
Definition computedRequest (req : Request) (c : Container) (res : resourceKind) (p : HistoryPoint) : option Quantity :=
  Recs (Compute (at_point req p)) !! c_Name c ≫= recommended_request res.

Definition computedLimit (req : Request) (c : Container) (res : resourceKind) (p : HistoryPoint) : option Quantity :=
  Recs (Compute (at_point req p)) !! c_Name c ≫= λ rec,
    match recommended_request res rec with Some _ => recommended_limit res c rec | None => None end.

Lemma computed_size req c res p :
  NoDup (map c_Name (containers req)) → c ∈ containers req →
  computedRequest req c res p = sz_request <$> fst (size res c (at_point req p)) ∧
  computedLimit req c res p = fst (size res c (at_point req p)) ≫= λ s, l_value (sz_limit s).
Proof.
  intros Hnd Hc. unfold computedRequest, computedLimit.
  destruct (Recs (Compute (at_point req p)) !! c_Name c) as [rec|] eqn:E; cbn [mbind option_bind].
  - apply Compute_Recs in E as (c' & Hc' & Hn & Hr); [|done].
    assert (c' = c) as -> by (eapply NoDup_map_inj; [exact Hnd|done..]).
    destruct (computeContainer c (at_point req p)) as [[rec' tr]|] eqn:Hcc; [|done]. injection Hr as ->.
    destruct (computeContainer_Some _ _ _ _ Hcc res) as [-> ->]. split; [done|].
    destruct (fst (size res c (at_point req p))) as [s|] eqn:Es; [|done]. cbn.
    apply size_Some in Es as (_ & _ & _ & ->). apply applied_limit_value.
  - assert (Hnone : computeContainer c (at_point req p) = None).
    { destruct (computeContainer c (at_point req p)) as [[rec tr]|] eqn:Hcc; [|done].
      assert (Recs (Compute (at_point req p)) !! c_Name c = Some rec) as H; [|by rewrite E in H].
      apply Compute_Recs; [done|]. exists c. by rewrite Hcc. }
    assert (Hs : fst (size res c (at_point req p)) = None); [|by rewrite Hs].
    unfold computeContainer in Hnone.
    pose proof (size_spec cpuResource c (at_point req p)) as [Hj1 Hs1].
    pose proof (size_spec memoryResource c (at_point req p)) as [Hj2 Hs2].
    destruct (size cpuResource c _) as [s1 b1] eqn:E1, (size memoryResource c _) as [s2 b2] eqn:E2.
    cbn [fst snd] in *. destruct (negb b1 && negb b2) eqn:Eb; [|done]. bool_props. subst.
    destruct res; rewrite ?E1, ?E2; cbn [fst]; [destruct s1 as [s|]|destruct s2 as [s|]]; try done.
    + destruct Hs1 as [Hj _]. congruence.
    + destruct Hs2 as [Hj _]. congruence.
Qed.

Lemma add_computed req c res p rr :
  NoDup (map c_Name (containers req)) → c ∈ containers req →
  add res c (at_point req p) rr = {|
    rr_Usage := rr_Usage rr ++ point (hp_At p) (inputs_usage (hp_Inputs p) (c_Name c) res);
    rr_Request := rr_Request rr ++ point (hp_At p) (value res <$> computedRequest req c res p);
    rr_Limit := rr_Limit rr ++ point (hp_At p) (value res <$> computedLimit req c res p) |}.
Proof.
  intros Hnd Hc. destruct (computed_size req c res p Hnd Hc) as [-> ->]. unfold add. cbn [now at_point inputs].
  destruct (fst (size res c (at_point req p))) as [s|]; cbn; [done|]. by rewrite !app_nil_r.
Qed.

(** The series after some points, from whatever was there before them. *)
Definition replayed (req : Request) (c : Container) (res : resourceKind) (points : list HistoryPoint)
    (rr : ResourceRange) : ResourceRange := {|
  rr_Usage := rr_Usage rr ++ concat (map (λ p, point (hp_At p) (inputs_usage (hp_Inputs p) (c_Name c) res)) points);
  rr_Request := rr_Request rr ++ concat (map (λ p, point (hp_At p) (value res <$> computedRequest req c res p)) points);
  rr_Limit := rr_Limit rr ++ concat (map (λ p, point (hp_At p) (value res <$> computedLimit req c res p)) points) |}.

Lemma series_points req points out c res :
  NoDup (map c_Name (containers req)) → c ∈ containers req → is_Some (series out (c_Name c) res) ∨ points ≠ [] →
  series (foldl (rangePoint req) out points) (c_Name c) res =
  Some (replayed req c res points (default noRange (series out (c_Name c) res))).
Proof.
  intros Hnd Hc. revert out. induction points as [|p points IH]; intros out Hor; cbn [foldl].
  - destruct Hor as [[rr ->]|?]; [|done]. unfold replayed. cbn. by rewrite !app_nil_r; destruct rr.
  - rewrite IH; [|left; rewrite series_rangePoint by done; eauto]. rewrite series_rangePoint by done.
    cbn [from_option id]. rewrite add_computed by done. unfold replayed.
    cbn [map concat rr_Usage rr_Request rr_Limit]. by rewrite !app_assoc.
Qed.

(** the chart of a history is Compute replayed: at each point, a
    container's usage is what its signal read there, its request the one
    Compute would have recommended as of it, and its limit the one that would
    have left the container with, in the order of the points. *)
Theorem computeRange_replays req points c res :
  NoDup (map c_Name (containers req)) → c ∈ containers req → points ≠ [] →
  series (computeRange req (Some points)) (c_Name c) res = Some {|
    rr_Usage := concat (map (λ p, point (hp_At p) (inputs_usage (hp_Inputs p) (c_Name c) res)) points);
    rr_Request := concat (map (λ p, point (hp_At p) (value res <$> computedRequest req c res p)) points);
    rr_Limit := concat (map (λ p, point (hp_At p) (value res <$> computedLimit req c res p)) points) |}.
Proof. intros Hnd Hc Hne. unfold computeRange. rewrite series_points; [done..|by right]. Qed.
End RangeFacts.

(** ** At a concrete input *)
Section Sample.
#[local] Existing Instance amd64.
#[local] Existing Instance nano_quantity.
#[local] Existing Instance nano_quantity_laws.
#[local] Existing Instance no_durations.

Lemma SpanOf_bounds_witness :
  let s := SpanOf 0 hour minute in
  End s = hour ∧ Start s = 0 ∧ 1 ≤ instants s ≤ 300.
Proof.
  destruct (SpanOf_bounds 0 hour minute) as (H1 & _ & H3 & _).
  - unfold readable, hour, minute, second. lia.
  - vm_compute. discriminate.
  - split; [exact H1|]. split; [by_running|exact H3].
Defined.

Lemma index_nearest_witness :
  index {| Start := 0; End := 600; Step := 60 |} 89 = (1, true) ∧
  instant {| Start := 0; End := 600; Step := 60 |} 1 - 30 ≤ 89 < instant {| Start := 0; End := 600; Step := 60 |} 1 + 30.
Proof.
  split; [by_running|].
  pose proof (index_nearest {| Start := 0; End := 600; Step := 60 |} 10 89) as H.
  destruct H as [_ H]; [repeat split; vm_compute; (done || discriminate)|vm_compute; discriminate|].
  exact (proj2 (H eq_refl)).
Defined.

Definition sample_points : list HistoryPoint :=
  [{| hp_At := 10 ^ 18; hp_Inputs := inputs sample_request |};
   {| hp_At := 10 ^ 18 + minute; hp_Inputs := NewInputs [] |}].

(** The second point has nothing to size from. *)
Lemma computeRange_replays_witness :
  ∃ rr, series (computeRange sample_request (Some sample_points)) "app" cpuResource = Some rr ∧
    map tv_Timestamp (rr_Request rr) = [10 ^ 18].
Proof.
  pose proof (computeRange_replays sample_request sample_points sample_container cpuResource) as H.
  eexists. split; [apply H; [apply NoDup_singleton|by left|done]|]. by_running.
Defined.
End Sample.
