(* ===== verification/OomCache.v ===== *)
(** * The cache of OOM kills ([internal/oomwatch/cache.go])

    The store the Pod watcher writes and the recommender reads. Every operation
    holds the lock but [ByWorkload], which reads, releases it, and then deletes
    what it found stale: the two halves are two steps here, which others may
    come between. Clocks and the ticks of the sweeper are arguments. The callback
    that observes the size is not modelled. *)

From S2P Require Import Prelude GoLang Shards Signals.
From stdpp Require Import sets.
Local Open Scope Z_scope.

Definition defaultTTL : duration := 30 * minute.
Definition defaultMaxEntries : Z := 5000.
Definition minSweepInterval : duration := 30 * second.

Record CacheKey := OOMKey { k_Identity : WorkloadIdentity; k_Container : string }.

#[export] Instance CacheKey_eq_dec : EqDecision CacheKey.
Proof. solve_decision. Defined.

#[export] Instance CacheKey_countable : Countable CacheKey.
Proof. apply (inj_countable' (λ k, (k_Identity k, k_Container k)) (λ '(i, c), OOMKey i c)). by intros []. Defined.

Record resolvedEventKey := ResolvedKey {
  rk_PodUID : string;
  rk_Container : string;
  rk_RestartCount : Z;
  rk_TerminatedAt : time;
}.

#[export] Instance resolvedEventKey_eq_dec : EqDecision resolvedEventKey.
Proof. solve_decision. Defined.

#[export] Instance resolvedEventKey_countable : Countable resolvedEventKey.
Proof.
  apply (inj_countable' (λ k, (rk_PodUID k, rk_Container k, rk_RestartCount k, rk_TerminatedAt k))
    (λ '(p, c, n, t), ResolvedKey p c n t)). by intros [].
Defined.

Record Cache := {
  ttl : duration;
  maxEntries : Z;
  entries : gmap CacheKey OOMRecord;
  byWorkload : gmap WorkloadIdentity (gset string);
  resolved : gmap resolvedEventKey time;
}.

Definition NewCacheWithLimit (t : duration) (n : Z) : Cache :=
  {| ttl := if t <=? 0 then defaultTTL else t;
     maxEntries := if n <=? 0 then defaultMaxEntries else n;
     entries := ∅; byWorkload := ∅; resolved := ∅ |}.

Definition NewCache (t : duration) : Cache := NewCacheWithLimit t defaultMaxEntries.

(** ** The index *)

Definition addIndexLocked (c : Cache) (key : CacheKey) : Cache :=
  let set := default ∅ (byWorkload c !! k_Identity key) in
  {| ttl := ttl c; maxEntries := maxEntries c; entries := entries c;
     byWorkload := <[k_Identity key := {[k_Container key]} ∪ set]> (byWorkload c); resolved := resolved c |}.

Definition removeIndexLocked (c : Cache) (key : CacheKey) : Cache :=
  match byWorkload c !! k_Identity key with
  | None => c
  | Some set =>
      let set := set ∖ {[k_Container key]} in
      {| ttl := ttl c; maxEntries := maxEntries c; entries := entries c;
         byWorkload := if decide (set = ∅) then delete (k_Identity key) (byWorkload c)
                       else <[k_Identity key := set]> (byWorkload c);
         resolved := resolved c |}
  end.

Definition with_entries (c : Cache) (es : gmap CacheKey OOMRecord) : Cache :=
  {| ttl := ttl c; maxEntries := maxEntries c; entries := es; byWorkload := byWorkload c; resolved := resolved c |}.

Definition with_resolved (c : Cache) (rs : gmap resolvedEventKey time) : Cache :=
  {| ttl := ttl c; maxEntries := maxEntries c; entries := entries c; byWorkload := byWorkload c; resolved := rs |}.

Definition deleteEntryLocked (c : Cache) (key : CacheKey) : Cache :=
  removeIndexLocked (with_entries c (delete key (entries c))) key.

Definition deleteIfStaleLocked (now : time) (c : Cache) (key : CacheKey) : Cache :=
  match entries c !! key with
  | None => c
  | Some entry => if ttl c <? time_Sub now (or_ObservedAt entry) then deleteEntryLocked c key else c
  end.

(** ** Eviction *)

(** The first of the oldest in the order the map is ranged over; Go leaves that
    order open, and one is followed here. *)
Definition oldest {K} (l : list (K * time)) : option (K * time) :=
  foldl (λ o p, match o with
                | None => Some p
                | Some q => if time_Before p.2 q.2 then Some p else o
                end) None l.

Definition evictOldestLocked (c : Cache) : Cache :=
  match oldest (map (λ p, (p.1, or_ObservedAt p.2)) (map_to_list (entries c))) with
  | None => c
  | Some (key, _) => deleteEntryLocked c key
  end.

Definition evictOldestResolvedLocked (c : Cache) : Cache :=
  match oldest (map_to_list (resolved c)) with
  | None => c
  | Some (key, _) => with_resolved c (delete key (resolved c))
  end.

(** ** Operations *)

Definition laterOf (a b : time) : time := if time_After b a then b else a.

Definition newerThan (a b : OOMRecord) : bool :=
  if or_TerminatedAt a =? or_TerminatedAt b then or_RestartCount b <? or_RestartCount a
  else time_After (or_TerminatedAt a) (or_TerminatedAt b).

(** A record with another limit and another observation. *)
Definition with_anchor (r : OOMRecord) (limit : Z) (observed : time) : OOMRecord :=
  {| or_Container := or_Container r; or_PolicyName := or_PolicyName r; or_ObservedAt := observed;
     or_TerminatedAt := or_TerminatedAt r; or_RestartCount := or_RestartCount r; or_PodName := or_PodName r;
     or_PodUID := or_PodUID r; or_OOMLimitBytes := limit |}.

Definition sameKill (a b : OOMRecord) : bool :=
  (or_RestartCount a =? or_RestartCount b) && (or_TerminatedAt a =? or_TerminatedAt b).

(** [Cache.Record] *)
Definition RecordOOM (c : Cache) (key : CacheKey) (record : OOMRecord) : Cache * bool :=
  match entries c !! key with
  | Some existing =>
      if sameKill existing record then
        (if or_OOMLimitBytes existing <? or_OOMLimitBytes record
         then with_entries c (<[key := with_anchor existing (or_OOMLimitBytes record) (or_ObservedAt existing)]> (entries c))
         else c, false)
      else
        let merged := if newerThan record existing then record else existing in
        let merged := with_anchor merged (Z.max (or_OOMLimitBytes record) (or_OOMLimitBytes existing))
                        (laterOf (or_ObservedAt record) (or_ObservedAt existing)) in
        (addIndexLocked (with_entries c (<[key := merged]> (entries c))) key, true)
  | None =>
      let c := if maxEntries c <=? Z.of_nat (size (entries c)) then evictOldestLocked c else c in
      (addIndexLocked (with_entries c (<[key := record]> (entries c))) key, true)
  end.

Definition alreadyResolvedAt (c : Cache) (now : time) (key : resolvedEventKey) : bool :=
  match resolved c !! key with
  | Some at_ => negb (ttl c <? time_Sub now at_)
  | None => false
  end.

Definition markResolvedAt (c : Cache) (now : time) (key : resolvedEventKey) : Cache :=
  let c :=
    if bool_decide (resolved c !! key = None) && (maxEntries c <=? Z.of_nat (size (resolved c)))
    then evictOldestResolvedLocked c else c in
  with_resolved c (<[key := now]> (resolved c)).

(** What [ByWorkload] reads under the read lock: the fresh records by
    container, and the keys to look at again. *)
Definition byWorkloadRead (c : Cache) (now : time) (id : WorkloadIdentity) :
    gmap string OOMRecord * list CacheKey :=
  foldl (λ acc container,
    match entries c !! OOMKey id container with
    | None => acc
    | Some entry =>
        if ttl c <? time_Sub now (or_ObservedAt entry) then (fst acc, snd acc ++ [OOMKey id container])
        else (<[container := entry]> (fst acc), snd acc)
    end) (∅, []) (elements (default ∅ (byWorkload c !! id))).

(** What it does of them under the write lock. *)
Definition byWorkloadEvict (c : Cache) (now : time) (stale : list CacheKey) : Cache :=
  foldl (deleteIfStaleLocked now) c stale.

(** [Cache.ByWorkload] with nothing between its halves. *)
Definition ByWorkload (c : Cache) (now : time) (id : WorkloadIdentity) : Cache * gmap string OOMRecord :=
  let '(out, stale) := byWorkloadRead c now id in (byWorkloadEvict c now stale, out).

Definition Size (c : Cache) : Z := Z.of_nat (size (entries c)).

Definition sweep (c : Cache) (now : time) : Cache :=
  let c := foldl (deleteIfStaleLocked now) c (map fst (map_to_list (entries c))) in
  with_resolved c (filter (λ p, negb (ttl c <? time_Sub now p.2)) (resolved c)).

(** [AlreadyResolved] and [MarkResolved] are of the clock's instant, as the sweeps
    of [Run] are of the ticker's: [started] when an earlier call runs already. *)
Definition sweepInterval (c : Cache) : duration := Z.max (Z.quot (ttl c) 2) minSweepInterval.

Definition Run (started : bool) (c : Cache) (ticks : list time) : Cache := if started then c else foldl sweep c ticks.

(** What the cache may do, in any order: [stale] is whatever some earlier read
    found. *)
Inductive cache_step : Cache → Cache → Prop :=
  | step_record c key record : cache_step c (fst (RecordOOM c key record))
  | step_mark c now key : cache_step c (markResolvedAt c now key)
  | step_evict c now stale : cache_step c (byWorkloadEvict c now stale)
  | step_sweep c now : cache_step c (sweep c now).

Inductive reachable (c0 : Cache) : Cache → Prop :=
  | reachable_new : reachable c0 c0
  | reachable_step c c' : reachable c0 c → cache_step c c' → reachable c0 c'.

(** ** Facts *)

Definition indexed (c : Cache) (key : CacheKey) : Prop :=
  k_Container key ∈ default ∅ (byWorkload c !! k_Identity key).

(** The index holds exactly the keys of the entries, no set of it is empty,
    and neither map outgrows the limit. *)
Record well_formed (c : Cache) : Prop := {
  wf_index key : indexed c key ↔ is_Some (entries c !! key);
  wf_nonempty id set : byWorkload c !! id = Some set → set ≠ ∅;
  wf_entries : Z.of_nat (size (entries c)) ≤ maxEntries c;
  wf_resolved : Z.of_nat (size (resolved c)) ≤ maxEntries c;
  wf_max : 0 < maxEntries c;
  wf_ttl : 0 < ttl c;
}.

Lemma NewCache_wf t n : well_formed (NewCacheWithLimit t n).
Proof.
  unfold NewCacheWithLimit, defaultMaxEntries, defaultTTL, minute, second.
  split; cbn [entries resolved maxEntries ttl byWorkload]; rewrite ?map_size_empty.
  - intros key. unfold indexed. cbn [byWorkload entries]. rewrite !lookup_empty. cbn. split; [set_solver|by intros []].
  - intros id set. by rewrite lookup_empty.
  - destruct (Z.leb_spec n 0); lia.
  - destruct (Z.leb_spec n 0); lia.
  - destruct (Z.leb_spec n 0); lia.
  - destruct (Z.leb_spec t 0); lia.
Qed.

Lemma addIndex_wf c key record c' :
  c' = addIndexLocked (with_entries c (<[key := record]> (entries c))) key →
  Z.of_nat (size (<[key := record]> (entries c))) ≤ maxEntries c → well_formed c → well_formed c'.
Proof.
  intros -> Hsz [Hix Hne He Hr Hm Ht].
  split; cbn [addIndexLocked with_entries entries resolved maxEntries ttl byWorkload]; try done.
  - intros k. specialize (Hix k). unfold indexed in *. cbn [byWorkload entries with_entries addIndexLocked].
    rewrite !lookup_insert. destruct k as [i n], key as [i' n']. cbn [k_Identity k_Container] in *.
    destruct (decide (OOMKey i' n' = OOMKey i n)) as [[= -> ->]|Hk].
    + rewrite decide_True by done. cbn [from_option id]. split; [eauto|set_solver].
    + rewrite <-Hix. destruct (decide (i' = i)) as [->|]; [|done]. cbn [from_option id].
      rewrite elem_of_union, elem_of_singleton. naive_solver.
  - intros i set. rewrite lookup_insert. case_decide; [|by apply Hne]. intros [= <-]. set_solver.
Qed.

Lemma delete_wf c key : well_formed c → well_formed (deleteEntryLocked c key).
Proof.
  intros [Hix Hne He Hr Hm Ht]. unfold deleteEntryLocked, removeIndexLocked. cbn [byWorkload with_entries].
  assert (Hsz : Z.of_nat (size (delete key (entries c))) ≤ maxEntries c).
  { pose proof (size_delete_le key (entries c)). lia. }
  destruct (byWorkload c !! k_Identity key) as [set|] eqn:E.
  - split; cbn [with_entries entries resolved maxEntries ttl byWorkload]; try done.
    + intros k. specialize (Hix k). unfold indexed in *. cbn [byWorkload entries]. rewrite lookup_delete.
      destruct k as [i n], key as [i' n']. cbn [k_Identity k_Container] in *.
      destruct (decide (i' = i)) as [->|Hi].
      * rewrite E in Hix. cbn [from_option id] in Hix.
        assert (Hl : default ∅ ((if decide (set ∖ {[n']} = ∅) then delete i (byWorkload c)
          else <[i := set ∖ {[n']}]> (byWorkload c)) !! i) = set ∖ {[n']}).
        { case_decide as Hd; [by rewrite lookup_delete_eq, Hd|by rewrite lookup_insert_eq]. }
        rewrite Hl, elem_of_difference, elem_of_singleton, Hix.
        destruct (decide (OOMKey i n' = OOMKey i n)) as [[= ->]|Hk]; [|naive_solver].
        split; [naive_solver|by intros []].
      * rewrite (decide_False (P := OOMKey i' n' = OOMKey i n)) by congruence. rewrite <-Hix.
        destruct (decide (set ∖ _ = ∅)); [by rewrite lookup_delete_ne|by rewrite lookup_insert_ne].
    + intros i s. destruct (decide (set ∖ _ = ∅)) as [Hd|Hd].
      * rewrite lookup_delete. destruct (decide (k_Identity key = i)); [done|apply Hne].
      * rewrite lookup_insert. destruct (decide (k_Identity key = i)); [by intros [= <-]|apply Hne].
  - split; cbn [with_entries entries resolved maxEntries ttl byWorkload]; try done.
    intros k. specialize (Hix k). unfold indexed in *. cbn [byWorkload entries with_entries]. rewrite lookup_delete.
    destruct (decide (key = k)) as [->|]; [|done]. rewrite E. cbn. split; [set_solver|by intros []].
Qed.

Lemma oldest_spec {K} (l : list (K * time)) :
  match oldest l with
  | None => l = []
  | Some p => p ∈ l ∧ ∀ q, q ∈ l → p.2 ≤ q.2
  end.
Proof.
  unfold oldest. induction l as [|p l IH] using rev_ind; [done|]. rewrite foldl_app. cbn [foldl].
  destruct (foldl _ None l) as [q|].
  - destruct IH as [Hq Hmin]. unfold time_Before.
    assert (Hor : ∀ q', q' ∈ l ++ [p] → q.2 ≤ q'.2 ∨ q' = p)
      by (intros q' [?|?%list_elem_of_singleton]%elem_of_app; [left; by apply Hmin|by right]).
    destruct (Z.ltb_spec p.2 q.2); (split; [apply elem_of_app|]).
    + right. by left.
    + intros q' [?| ->]%Hor; lia.
    + by left.
    + intros q' [?| ->]%Hor; lia.
  - subst. cbn. split; [by left|]. by intros q ->%list_elem_of_singleton.
Qed.

(** Eviction drops one of the entries observed the longest ago. *)
Lemma evictOldest_spec c :
  evictOldestLocked c = c ∧ entries c = ∅ ∨
  ∃ key e, entries c !! key = Some e ∧ evictOldestLocked c = deleteEntryLocked c key ∧
    ∀ key' e', entries c !! key' = Some e' → or_ObservedAt e ≤ or_ObservedAt e'.
Proof.
  unfold evictOldestLocked. pose proof (oldest_spec (map (λ p, (p.1, or_ObservedAt p.2)) (map_to_list (entries c)))) as H.
  destruct (oldest _) as [[key t]|].
  - right. destruct H as [Hin Hmin]. apply list_elem_of_fmap in Hin as ([k e] & [= -> ->] & Hin%elem_of_map_to_list).
    exists k, e. split_and!; [done..|]. intros key' e' He'%elem_of_map_to_list.
    apply (Hmin (key', or_ObservedAt e')). apply list_elem_of_fmap. by exists (key', e').
  - left. split; [done|]. apply map_to_list_empty_iff. by destruct (map_to_list (entries c)).
Qed.

Lemma deleteEntry_entries c key : entries (deleteEntryLocked c key) = delete key (entries c).
Proof. unfold deleteEntryLocked, removeIndexLocked. cbn. by destruct (byWorkload c !! k_Identity key). Qed.

Lemma deleteEntry_fields c key :
  maxEntries (deleteEntryLocked c key) = maxEntries c ∧ ttl (deleteEntryLocked c key) = ttl c ∧
  resolved (deleteEntryLocked c key) = resolved c.
Proof. unfold deleteEntryLocked, removeIndexLocked. cbn. by destruct (byWorkload c !! k_Identity key). Qed.

Lemma with_entries_wf c key r : is_Some (entries c !! key) → well_formed c →
  well_formed (with_entries c (<[key := r]> (entries c))).
Proof.
  intros [e He] [Hix Hne Hen Hr Hm Ht]. split; cbn [with_entries entries resolved maxEntries ttl byWorkload]; try done.
  - intros k. specialize (Hix k). unfold indexed in *. cbn [byWorkload with_entries]. rewrite lookup_insert.
    destruct (decide (key = k)) as [->|]; [|done]. rewrite Hix, He. split; eauto.
  - by rewrite size_insert_old by (by rewrite He).
Qed.

Lemma RecordOOM_wf c key record : well_formed c → well_formed (fst (RecordOOM c key record)).
Proof.
  intros Hwf. unfold RecordOOM. destruct (entries c !! key) as [e|] eqn:E.
  - destruct (sameKill e record); cbn [fst].
    + destruct (or_OOMLimitBytes e <? _); [|done]. apply with_entries_wf; [by rewrite E|done].
    + eapply addIndex_wf; [done| |done]. rewrite size_insert_old by (by rewrite E). apply Hwf.
  - cbn [fst]. destruct (Z.leb_spec (maxEntries c) (Z.of_nat (size (entries c)))) as [Hfull|Hroom].
    + destruct (evictOldest_spec c) as [[-> Hemp]|(k & e & Hk & -> & _)].
      { rewrite Hemp, map_size_empty in Hfull. pose proof (wf_max _ Hwf). lia. }
      eapply addIndex_wf; [done| |by apply delete_wf].
      rewrite deleteEntry_entries. destruct (deleteEntry_fields c k) as (-> & _ & _).
      pose proof (wf_entries _ Hwf). pose proof (size_insert_le key record (delete k (entries c))).
      pose proof (size_delete_lt k (entries c) ltac:(by rewrite Hk)). lia.
    + eapply addIndex_wf; [done| |done]. pose proof (size_insert_le key record (entries c)). lia.
Qed.

Lemma with_resolved_wf c rs :
  Z.of_nat (size rs) ≤ maxEntries c → well_formed c → well_formed (with_resolved c rs).
Proof. intros Hsz [Hix Hne He Hr Hm Ht]. by split. Qed.

Lemma markResolvedAt_wf c now key : well_formed c → well_formed (markResolvedAt c now key).
Proof.
  intros Hwf. unfold markResolvedAt. pose proof (wf_resolved _ Hwf) as Hr. pose proof (wf_max _ Hwf) as Hm.
  destruct (bool_decide (resolved c !! key = None)) eqn:Hnew; cbn [andb]; bool_props.
  - destruct (Z.leb_spec (maxEntries c) (Z.of_nat (size (resolved c)))) as [Hfull|Hroom].
    + unfold evictOldestResolvedLocked. pose proof (oldest_spec (map_to_list (resolved c))) as Ho.
      destruct (oldest _) as [[k t]|].
      * destruct Ho as [Hk%elem_of_map_to_list _]. apply with_resolved_wf; cbn [resolved with_resolved maxEntries].
        -- pose proof (size_insert_le key now (delete k (resolved c))).
           pose proof (size_delete_lt k (resolved c) ltac:(by rewrite Hk)). lia.
        -- apply with_resolved_wf; [|done]. pose proof (size_delete_le k (resolved c)). lia.
      * apply map_to_list_empty_iff in Ho. rewrite Ho, map_size_empty in Hfull. lia.
    + apply with_resolved_wf; [|done]. pose proof (size_insert_le key now (resolved c)). lia.
  - apply with_resolved_wf; [|done]. rewrite size_insert_old; [done|]. by apply not_eq_None_Some.
Qed.

Lemma deleteIfStale_wf now c key : well_formed c → well_formed (deleteIfStaleLocked now c key).
Proof.
  intros Hwf. unfold deleteIfStaleLocked. destruct (entries c !! key) as [e|]; [|done].
  destruct (ttl c <? _); [by apply delete_wf|done].
Qed.

Lemma byWorkloadEvict_wf c now stale : well_formed c → well_formed (byWorkloadEvict c now stale).
Proof.
  unfold byWorkloadEvict. revert c. induction stale as [|k stale IH]; intros c Hwf; cbn [foldl]; [done|].
  by apply IH, deleteIfStale_wf.
Qed.

(** What deleting the stale ones of some keys leaves. *)
Lemma byWorkloadEvict_spec c now stale :
  ttl (byWorkloadEvict c now stale) = ttl c ∧ maxEntries (byWorkloadEvict c now stale) = maxEntries c ∧
  resolved (byWorkloadEvict c now stale) = resolved c ∧
  ∀ key, entries (byWorkloadEvict c now stale) !! key =
    match entries c !! key with
    | Some e => if bool_decide (key ∈ stale) && (ttl c <? time_Sub now (or_ObservedAt e)) then None else Some e
    | None => None
    end.
Proof.
  unfold byWorkloadEvict. revert c. induction stale as [|k stale IH]; intros c; cbn [foldl].
  { split_and!; [done..|]. intros key. destruct (entries c !! key); [|done].
    by rewrite bool_decide_eq_false_2 by apply not_elem_of_nil. }
  destruct (IH (deleteIfStaleLocked now c k)) as (-> & -> & -> & He). clear IH.
  assert (Hf : ttl (deleteIfStaleLocked now c k) = ttl c ∧ maxEntries (deleteIfStaleLocked now c k) = maxEntries c ∧
    resolved (deleteIfStaleLocked now c k) = resolved c).
  { unfold deleteIfStaleLocked. destruct (entries c !! k) as [e|]; [|done]. destruct (ttl c <? _); [|done].
    by destruct (deleteEntry_fields c k) as (-> & -> & ->). }
  destruct Hf as (Ht & -> & ->). rewrite Ht in *. split_and!; [done..|]. intros key. rewrite He.
  assert (Hk : entries (deleteIfStaleLocked now c k) !! key =
    match entries c !! key with
    | Some e => if bool_decide (key = k) && (ttl c <? time_Sub now (or_ObservedAt e)) then None else Some e
    | None => None end).
  { unfold deleteIfStaleLocked. destruct (entries c !! k) as [e|] eqn:Ek.
    - destruct (ttl c <? _) eqn:Es; rewrite ?deleteEntry_entries, ?lookup_delete.
      + destruct (decide (k = key)) as [<-|Hne]; [by rewrite Ek, bool_decide_eq_true_2, Es by done|].
        destruct (entries c !! key); [|done]. by rewrite bool_decide_eq_false_2 by congruence.
      + destruct (entries c !! key) as [e'|] eqn:E'; [|done]. case_bool_decide as Heq; [|done].
        subst. rewrite E' in Ek. injection Ek as ->. by rewrite Es.
    - destruct (entries c !! key) eqn:E'; [|done]. rewrite bool_decide_eq_false_2; [done|]. congruence. }
  rewrite Hk. destruct (entries c !! key) as [e|]; [|done].
  assert (Hb : bool_decide (key ∈ k :: stale) = bool_decide (key = k) || bool_decide (key ∈ stale))
    by (rewrite <-bool_decide_or; apply bool_decide_ext, elem_of_cons).
  rewrite Hb. destruct (bool_decide (key = k)); cbn [andb orb]; [|done].
  destruct (ttl c <? time_Sub now (or_ObservedAt e)) eqn:Es; [done|]. by rewrite Es, andb_false_r.
Qed.

Lemma sweep_wf c now : well_formed c → well_formed (sweep c now).
Proof.
  intros Hwf. unfold sweep. fold (byWorkloadEvict c now (map fst (map_to_list (entries c)))).
  apply with_resolved_wf; [|by apply byWorkloadEvict_wf].
  destruct (byWorkloadEvict_spec c now (map fst (map_to_list (entries c)))) as (-> & -> & -> & _).
  pose proof (wf_resolved _ Hwf).
  match goal with |- context [size (filter ?P ?m)] => pose proof (map_size_filter P m) end. lia.
Qed.

(** A sweep drops what is older than the lifetime by its tick, kill or mark, and
    nothing else. *)
Lemma sweep_spec c now :
  ttl (sweep c now) = ttl c ∧
  (∀ key e, entries (sweep c now) !! key = Some e ↔ entries c !! key = Some e ∧ time_Sub now (or_ObservedAt e) ≤ ttl c) ∧
  (∀ key t, resolved (sweep c now) !! key = Some t ↔ resolved c !! key = Some t ∧ time_Sub now t ≤ ttl c).
Proof.
  unfold sweep. fold (byWorkloadEvict c now (map fst (map_to_list (entries c)))).
  destruct (byWorkloadEvict_spec c now (map fst (map_to_list (entries c)))) as (Ht & _ & Hr & He).
  cbn [ttl entries resolved with_resolved]. rewrite Ht, Hr. split_and!; [done| |].
  - intros key e. rewrite He. destruct (entries c !! key) as [e'|] eqn:Ee; [|naive_solver].
    rewrite bool_decide_eq_true_2 by (apply list_elem_of_fmap; exists (key, e'); by rewrite elem_of_map_to_list). cbn [andb].
    destruct (Z.ltb_spec (ttl c) (time_Sub now (or_ObservedAt e'))); split; [done|intros [[= ->] ?]; lia| |naive_solver].
    intros [= <-]. split; [done|lia].
  - intros key t. rewrite map_lookup_filter_Some. cbn. destruct (Z.ltb_spec (ttl c) (time_Sub now t)); cbn; split; intros [? ?]; split; done || lia.
Qed.

(** The ticker never gets an interval it would panic at, and after any ticks the
    cache is what one sweep at the latest of them leaves. *)
Theorem Run_spec c ticks key e :
  0 < sweepInterval c ∧
  (entries (Run false c ticks) !! key = Some e ↔
     entries c !! key = Some e ∧ Forall (λ now, time_Sub now (or_ObservedAt e) ≤ ttl c) ticks).
Proof.
  split; [unfold sweepInterval, minSweepInterval, second; lia|]. unfold Run. revert c.
  induction ticks as [|now ticks IH]; intros c; cbn [foldl].
  { split; [intros H; by split; [|constructor]|by intros [H _]]. }
  destruct (sweep_spec c now) as (Ht & He & _). rewrite IH, He, Ht, Forall_cons. tauto.
Qed.

(** whatever happens to a cache, in any order, the index names exactly the
    entries held, and neither the entries nor the resolved kills outgrow the
    limit the cache was made with. *)
Theorem reachable_well_formed t n c :
  reachable (NewCacheWithLimit t n) c → well_formed c.
Proof.
  induction 1 as [|c c' _ IH Hstep]; [apply NewCache_wf|].
  destruct Hstep; [by apply RecordOOM_wf|by apply markResolvedAt_wf|by apply byWorkloadEvict_wf|by apply sweep_wf].
Qed.

(** *** What is recorded *)

(** The order of two observations of one container's kills. *)
Definition stamp_le (a b : OOMRecord) : Prop :=
  or_TerminatedAt a < or_TerminatedAt b ∨
  or_TerminatedAt a = or_TerminatedAt b ∧ or_RestartCount a ≤ or_RestartCount b.

Lemma newerThan_spec a b : newerThan a b = true ↔ ¬ stamp_le a b.
Proof.
  unfold newerThan, stamp_le, time_After.
  destruct (Z.eqb_spec (or_TerminatedAt a) (or_TerminatedAt b)).
  - rewrite Z.ltb_lt. lia.
  - rewrite Z.ltb_lt. lia.
Qed.

(** What the slot of a key holds once [record] is merged into [e]. *)
Definition mergeOOM (e record : OOMRecord) : OOMRecord :=
  if sameKill e record then with_anchor e (Z.max (or_OOMLimitBytes e) (or_OOMLimitBytes record)) (or_ObservedAt e)
  else with_anchor (if newerThan record e then record else e)
         (Z.max (or_OOMLimitBytes e) (or_OOMLimitBytes record)) (Z.max (or_ObservedAt e) (or_ObservedAt record)).

Lemma with_anchor_id r : with_anchor r (or_OOMLimitBytes r) (or_ObservedAt r) = r.
Proof. by destruct r. Qed.

Lemma RecordOOM_existing c key record e :
  entries c !! key = Some e →
  entries (fst (RecordOOM c key record)) = <[key := mergeOOM e record]> (entries c) ∧
  snd (RecordOOM c key record) = negb (sameKill e record).
Proof.
  intros E. unfold RecordOOM, mergeOOM. rewrite E. destruct (sameKill e record); cbn [fst snd negb]; (split; [|done]).
  - destruct (Z.ltb_spec (or_OOMLimitBytes e) (or_OOMLimitBytes record)).
    + cbn [entries with_entries]. by rewrite Z.max_r by lia.
    + rewrite Z.max_l by lia. by rewrite with_anchor_id, insert_id.
  - cbn [addIndexLocked entries with_entries]. f_equal. f_equal; [lia|].
    unfold laterOf, time_After. destruct (Z.ltb_spec (or_ObservedAt record) (or_ObservedAt e)); lia.
Qed.

Lemma mergeOOM_spec e record :
  or_OOMLimitBytes (mergeOOM e record) = Z.max (or_OOMLimitBytes e) (or_OOMLimitBytes record) ∧
  stamp_le e (mergeOOM e record) ∧ stamp_le record (mergeOOM e record) ∧
  (stamp_le (mergeOOM e record) e ∨ stamp_le (mergeOOM e record) record) ∧
  or_ObservedAt (mergeOOM e record) =
    (if sameKill e record then or_ObservedAt e else Z.max (or_ObservedAt e) (or_ObservedAt record)).
Proof.
  unfold mergeOOM. destruct (sameKill e record) eqn:Hs.
  - unfold sameKill in Hs. bool_props. unfold stamp_le, with_anchor; cbn. split_and!; try done; lia.
  - pose proof (newerThan_spec record e) as Hn. destruct (newerThan record e).
    + destruct Hn as [Hn _]. specialize (Hn eq_refl). unfold stamp_le, with_anchor in *; cbn. split_and!; try done; lia.
    + destruct Hn as [_ Hn]. unfold stamp_le, with_anchor in *; cbn. split_and!; try done; lia.
Qed.

(** a kill recorded for a container is merged, never overwritten by what
    reaches the cache out of order: the limit kept is the larger, the kill
    named the later, the entry's age that of the later observation; and it is
    reported as new unless it is the very kill the entry names. *)
Theorem RecordOOM_merges c key record e :
  entries c !! key = Some e →
  ∃ e', entries (fst (RecordOOM c key record)) = <[key := e']> (entries c) ∧
    or_OOMLimitBytes e' = Z.max (or_OOMLimitBytes e) (or_OOMLimitBytes record) ∧
    stamp_le e e' ∧ stamp_le record e' ∧ (stamp_le e' e ∨ stamp_le e' record) ∧
    or_ObservedAt e' = (if sameKill e record then or_ObservedAt e else Z.max (or_ObservedAt e) (or_ObservedAt record)) ∧
    snd (RecordOOM c key record) = negb (sameKill e record).
Proof.
  intros E. destruct (RecordOOM_existing _ _ record _ E) as [-> ->]. exists (mergeOOM e record).
  destruct (mergeOOM_spec e record) as (? & ? & ? & ? & ?). by split_and!.
Qed.

(** Observations of one container's kills, one after the other. *)
Definition recordAll (c : Cache) (key : CacheKey) (l : list OOMRecord) : Cache :=
  foldl (λ c r, fst (RecordOOM c key r)) c l.

Lemma recordAll_existing c key l e :
  entries c !! key = Some e →
  entries (recordAll c key l) !! key = Some (foldl mergeOOM e l).
Proof.
  unfold recordAll. revert c e. induction l as [|r l IH]; intros c e E; cbn [foldl]; [done|].
  apply IH. destruct (RecordOOM_existing _ _ r _ E) as [-> _]. by rewrite lookup_insert_eq.
Qed.

Lemma stamp_le_trans a b c : stamp_le a b → stamp_le b c → stamp_le a c.
Proof. unfold stamp_le. lia. Qed.

Lemma foldl_merge_spec l e :
  or_OOMLimitBytes (foldl mergeOOM e l) = foldr Z.max (or_OOMLimitBytes e) (map or_OOMLimitBytes l) ∧
  (∀ r, r ∈ e :: l → stamp_le r (foldl mergeOOM e l)) ∧
  (∃ r, r ∈ e :: l ∧ stamp_le (foldl mergeOOM e l) r).
Proof.
  revert e. induction l as [|x l IH]; intros e; cbn [foldl map foldr].
  { split_and!; [done|by intros r ->%list_elem_of_singleton; unfold stamp_le; lia|].
    exists e. split; [by left|]. unfold stamp_le; lia. }
  destruct (IH (mergeOOM e x)) as (Hl & Hub & (r & Hr & Hle)).
  destruct (mergeOOM_spec e x) as (Hm & He & Hx & Hor & _). split_and!.
  - rewrite Hl, Hm. clear. induction (map or_OOMLimitBytes l); cbn [foldr]; lia.
  - assert (Hmm : stamp_le (mergeOOM e x) (foldl mergeOOM (mergeOOM e x) l)) by (apply Hub; by left).
    intros r' [->|[->|Hr']%elem_of_cons]%elem_of_cons; [by eapply stamp_le_trans..|apply Hub; by right].
  - apply elem_of_cons in Hr as [->|Hr]; [|exists r; split; [by right; right|done]].
    destruct Hor as [Ho|Ho]; [exists e|exists x]; (split; [|by eapply stamp_le_trans]);
      [by left|by right; left].
Qed.

(** a container's kills may be observed in any order: however the pods'
    reconciles interleave, the entry ends with the largest limit a container
    was killed at, as the latest kill's. *)
Theorem recordAll_order_free c key l l' e :
  entries c !! key = Some e → l ≡ₚ l' →
  ∃ r r', entries (recordAll c key l) !! key = Some r ∧ entries (recordAll c key l') !! key = Some r' ∧
    or_OOMLimitBytes r = or_OOMLimitBytes r' ∧
    or_TerminatedAt r = or_TerminatedAt r' ∧ or_RestartCount r = or_RestartCount r' ∧
    (∀ x, x ∈ e :: l → or_OOMLimitBytes x ≤ or_OOMLimitBytes r ∧ stamp_le x r).
Proof.
  intros E Hp. exists (foldl mergeOOM e l), (foldl mergeOOM e l').
  split; [by apply recordAll_existing|]. split; [by apply recordAll_existing|].
  destruct (foldl_merge_spec l e) as (Hl & Hub & (r & Hr & Hle)).
  destruct (foldl_merge_spec l' e) as (Hl' & Hub' & (r' & Hr' & Hle')).
  assert (stamp_le (foldl mergeOOM e l) (foldl mergeOOM e l') ∧ stamp_le (foldl mergeOOM e l') (foldl mergeOOM e l)) as Hs.
  { split; [eapply stamp_le_trans; [exact Hle|apply Hub']|eapply stamp_le_trans; [exact Hle'|apply Hub]];
      [by rewrite <-Hp|by rewrite Hp]. }
  unfold stamp_le in Hs. split_and!; [|lia|lia|].
  - rewrite Hl, Hl'. clear -Hp. induction Hp; cbn [map foldr]; lia.
  - intros x Hx. split; [|by apply Hub]. rewrite Hl. apply elem_of_cons in Hx as [->|Hx].
    + clear. induction (map or_OOMLimitBytes l); cbn; lia.
    + clear -Hx. induction l as [|y l IH]; [by apply not_elem_of_nil in Hx|]. cbn.
      apply elem_of_cons in Hx as [->|Hx]; [lia|]. specialize (IH Hx). lia.
Qed.

(** *** What is read *)

Lemma byWorkloadRead_spec c now id :
  let '(out, stale) := byWorkloadRead c now id in
  (∀ n r, out !! n = Some r ↔
     n ∈ elements (default ∅ (byWorkload c !! id)) ∧ entries c !! OOMKey id n = Some r ∧
     (ttl c <? time_Sub now (or_ObservedAt r)) = false) ∧
  (∀ key, key ∈ stale → ∃ e, entries c !! key = Some e ∧ (ttl c <? time_Sub now (or_ObservedAt e)) = true).
Proof.
  unfold byWorkloadRead.
  induction (elements _) as [|x l IH] using rev_ind; cbn [foldl].
  { split; [|by intros ? ?%not_elem_of_nil]. intros n r. rewrite lookup_empty. split; [done|].
    by intros [?%not_elem_of_nil _]. }
  rewrite foldl_app. destruct (foldl _ _ l) as [out stale]. destruct IH as [Hout Hst]. cbn [foldl fst snd].
  destruct (entries c !! OOMKey id x) as [e|] eqn:E; [destruct (ttl c <? time_Sub now (or_ObservedAt e)) eqn:Es|].
  - split.
    + intros n r. rewrite Hout, elem_of_app, list_elem_of_singleton. split; [naive_solver|].
      intros ([?| ->] & Hr & Hf); [done|]. congruence.
    + intros k [Hk| ->%list_elem_of_singleton]%elem_of_app; [by apply Hst|eauto].
  - split; [|done]. intros n r. rewrite lookup_insert, elem_of_app, list_elem_of_singleton.
    destruct (decide (x = n)) as [->|Hne]; [|rewrite Hout; naive_solver]. rewrite E. naive_solver.
  - split; [|done]. intros n r. rewrite Hout, elem_of_app, list_elem_of_singleton. split; [naive_solver|].
    intros ([?| ->] & Hr & Hf); [done|]. congruence.
Qed.

(** what the recommender reads of an identity is every record of its
    containers no older than the cache keeps them, and no other, and no read
    loses a record another would still be given. *)
Theorem ByWorkload_fresh c now id n r :
  well_formed c →
  (snd (ByWorkload c now id) !! n = Some r ↔
     entries c !! OOMKey id n = Some r ∧ time_Sub now (or_ObservedAt r) ≤ ttl c) ∧
  (∀ key e, entries c !! key = Some e → time_Sub now (or_ObservedAt e) ≤ ttl c →
     entries (fst (ByWorkload c now id)) !! key = Some e).
Proof.
  intros Hwf. unfold ByWorkload. pose proof (byWorkloadRead_spec c now id) as H.
  destruct (byWorkloadRead c now id) as [out stale]. destruct H as [Hout Hst]. cbn [fst snd]. split.
  - rewrite Hout, Z.ltb_ge, elem_of_elements. split; [naive_solver|]. intros [He Hf]. split_and!; [|done..].
    apply (wf_index _ Hwf (OOMKey id n)). by rewrite He.
  - intros key e He Hf. destruct (byWorkloadEvict_spec c now stale) as (_ & _ & _ & Hev). rewrite Hev, He.
    destruct (Z.ltb_spec (ttl c) (time_Sub now (or_ObservedAt e))); [lia|]. by rewrite andb_false_r.
Qed.

(** A kill marked resolved is so until it is older than the cache keeps marks,
    or the cache is full of other kills. *)
Lemma markResolved_read c t now key :
  ttl (markResolvedAt c t key) = ttl c ∧
  (alreadyResolvedAt (markResolvedAt c t key) now key = true ↔ time_Sub now t ≤ ttl c).
Proof.
  unfold alreadyResolvedAt, markResolvedAt. cbn [resolved with_resolved ttl]. rewrite lookup_insert_eq.
  assert (Ht : ∀ b : bool, ttl (if b then evictOldestResolvedLocked c else c) = ttl c).
  { intros []; [|done]. unfold evictOldestResolvedLocked. by destruct (oldest _) as [[]|]. }
  rewrite Ht. split; [done|]. rewrite negb_true_iff, Z.ltb_ge. done.
Qed.

(** ** At a concrete input *)

Definition sample_key : CacheKey := OOMKey (Identity "prod" "Deployment" "web") "app".

Definition sample_kill (restarts : Z) (terminated : time) (limit : Z) : OOMRecord :=
  {| or_Container := "app"; or_PolicyName := "frugal"; or_ObservedAt := terminated + 1; or_TerminatedAt := terminated;
     or_RestartCount := restarts; or_PodName := "web-0"; or_PodUID := "u"; or_OOMLimitBytes := limit |}.

Definition sample_cache : Cache := fst (RecordOOM (NewCacheWithLimit minute 2) sample_key (sample_kill 1 100 500)).

Lemma sample_reached : reachable (NewCacheWithLimit minute 2) sample_cache.
Proof. eapply reachable_step; [apply reachable_new|apply step_record]. Qed.

Lemma reachable_well_formed_witness : well_formed sample_cache.
Proof. exact (reachable_well_formed minute 2 sample_cache sample_reached). Defined.

Lemma recordAll_order_free_witness :
  ∃ r r', entries (recordAll sample_cache sample_key [sample_kill 3 300 200; sample_kill 2 200 800]) !! sample_key = Some r ∧
    entries (recordAll sample_cache sample_key [sample_kill 2 200 800; sample_kill 3 300 200]) !! sample_key = Some r' ∧
    or_OOMLimitBytes r = or_OOMLimitBytes r' ∧ or_RestartCount r = or_RestartCount r'.
Proof.
  destruct (recordAll_order_free sample_cache sample_key [sample_kill 3 300 200; sample_kill 2 200 800]
    [sample_kill 2 200 800; sample_kill 3 300 200] (sample_kill 1 100 500)) as (r & r' & H1 & H2 & H3 & _ & H4 & _).
  - by_running.
  - apply Permutation_swap.
  - exists r, r'. by repeat split.
Defined.

Lemma ByWorkload_fresh_witness :
  snd (ByWorkload sample_cache (101 + minute) (Identity "prod" "Deployment" "web")) !! "app" = Some (sample_kill 1 100 500) ∧
  snd (ByWorkload sample_cache (102 + minute) (Identity "prod" "Deployment" "web")) !! "app" = None.
Proof.
  assert (Hwf : well_formed sample_cache) by apply RecordOOM_wf, NewCache_wf. split.
  - apply (proj1 (ByWorkload_fresh sample_cache (101 + minute) (Identity "prod" "Deployment" "web") "app"
      (sample_kill 1 100 500) Hwf)). split; [by_running|]. vm_compute. discriminate.
  - apply eq_None_not_Some. intros [r Hr].
    apply (proj1 (ByWorkload_fresh _ _ _ _ _ Hwf)) in Hr as [Hr Hle].
    assert (Hk : entries sample_cache !! OOMKey (Identity "prod" "Deployment" "web") "app" = Some (sample_kill 1 100 500))
      by by_running.
    rewrite Hk in Hr. injection Hr as <-. vm_compute in Hle. by destruct Hle.
Defined.
