(* ===== verification/Watcher.v ===== *)
(** * The watcher of OOM kills ([internal/oomwatch/watcher.go])

    What kills a pod's status shows, the limit a container was killed at, who
    governs the pod, and the pass that records each new kill in [OomCache] and
    tells the Policy's controller. The reads of the pass and its instants are
    arguments; each loop of the pass over the cache reads the clock once. *)

From S2P Require Import Prelude GoLang Quantity Kube PolicyApi Owners Shards Signals Governance OomCache.
From stdpp Require Import sets.
Local Open Scope Z_scope.

Definition oomKilledReason : string := "OOMKilled".
Definition minOwnerRetry : duration := 5 * second.
Definition RestartPolicyNever : string := "Never".

Section Watcher.
Context {QO : QuantityOps} {KO : KubeOps}.
(** [Quantity.AsInt64]: none when it does not fit. *)
Context (AsInt64 : Quantity → option Z).

Record Terminated := { tm_Reason : string; tm_FinishedAt : time }.

(** What the watcher reads of a container's status. *)
Record watchedStatus := {
  ws_Name : string;
  ws_RestartCount : Z;
  ws_LastTerminated : option Terminated;
  ws_Terminated : option Terminated;
  ws_Resources : option ResourceRequirements;
}.

Record watchedPod := {
  wp_Pod : Pod;
  wp_RestartPolicy : string;
  wp_Statuses : list watchedStatus;
}.

Record oomKill := {
  ok_Container : string;
  ok_Restarted : bool;
  ok_RestartCount : Z;
  ok_TerminatedAt : time;
  ok_LimitBytes : Z;
}.

Definition isOOMKill (term : option Terminated) : bool :=
  match term with Some t => String.eqb (tm_Reason t) oomKilledReason | None => false end.

Definition memLimitBytes (limits : ResourceList) : Z :=
  let q := rl_Memory limits in
  if IsZero q then 0 else default 0 (AsInt64 q).

(** The status the kubelet applied wins, with or without a memory limit. *)
Definition containerMemLimitBytes (pod : watchedPod) (container : string) : Z :=
  match List.find (λ cs, String.eqb (ws_Name cs) container && bool_decide (is_Some (ws_Resources cs))) (wp_Statuses pod) with
  | Some cs => memLimitBytes (match ws_Resources cs with Some r => Limits r | None => ∅ end)
  | None =>
      match List.find (λ c, String.eqb (c_Name c) container) (pod_Containers (wp_Pod pod)) with
      | Some c => memLimitBytes (Limits (c_Resources c))
      | None => 0
      end
  end.

(** The kill one container's status shows. *)
Definition oomKillOf (pod : watchedPod) (cs : watchedStatus) : option oomKill :=
  let never := String.eqb (wp_RestartPolicy pod) RestartPolicyNever in
  let '(term, restarted) :=
    if negb (isOOMKill (ws_LastTerminated cs)) && never then (ws_Terminated cs, false)
    else (ws_LastTerminated cs, true) in
  match term with
  | Some t =>
      if isOOMKill (Some t)
      then Some {| ok_Container := ws_Name cs; ok_Restarted := restarted; ok_RestartCount := ws_RestartCount cs;
                   ok_TerminatedAt := tm_FinishedAt t; ok_LimitBytes := containerMemLimitBytes pod (ws_Name cs) |}
      else None
  | None => None
  end.

Definition oomKills (pod : watchedPod) : list oomKill := omap (oomKillOf pod) (wp_Statuses pod).

(** ** The events admitted *)

Inductive podEvent := EventCreate (pod : option watchedPod) | EventUpdate (new : option watchedPod)
  | EventDelete (pod : option watchedPod) | EventGeneric (pod : option watchedPod).

Definition admits (obj : option watchedPod) : bool :=
  match obj with
  | None => false
  | Some pod =>
      bool_decide (is_Some (pod_Annotations (wp_Pod pod) !! PolicyAnnotation)) ||
      bool_decide (oomKills pod ≠ [])
  end.

Definition admitPodEvent (e : podEvent) : bool :=
  match e with
  | EventCreate o | EventUpdate o | EventGeneric o => admits o
  | EventDelete _ => false
  end.

(** ** The retries of an owner chain that could not be read *)

Definition newestKill (kills : list oomKill) : time :=
  foldl (λ newest k, if time_After (ok_TerminatedAt k) newest then ok_TerminatedAt k else newest) time_zero kills.

(** A [Window] of zero is the cache's TTL. *)
Definition windowOf (window : duration) : duration := if window =? 0 then defaultTTL else window.

Definition ownerRetryAfter (window : duration) (now : time) (kills : list oomKill) : duration :=
  let window := windowOf window in
  let age := time_Sub now (newestKill kills) in
  if window <=? age then 0 else Z.min (Z.max age minOwnerRetry) (wrap64 (window - age)).

(** ** The reader of a pass *)

Definition errOwnerUnresolved : error := Sentinel "errOwnerUnresolved".

Definition podReader (c : ClusterReads) (policies : result Policies) : Reader :=
  {| rd_Policies := policies;
     rd_PodOwner pod :=
       match ResolvePodOwner c pod with
       | Err e => Err (Errorf "" [errOwnerUnresolved; e])
       | Ok o => Ok o
       end;
     rd_WorkloadAnnotations := OwnerAnnotations c;
     rd_NamespaceAnnotations := NamespaceAnnotations c |}.

(** ** A pass *)

Record pass := {
  ps_get : result watchedPod;
  ps_reads : ClusterReads;
  ps_policies : result Policies;
  ps_seen : time;
  ps_retry : time;
  ps_mark : time;
  ps_now : time;
}.

Record outcome := { oc_RequeueAfter : duration; oc_err : option error }.

Definition finished : outcome := {| oc_RequeueAfter := 0; oc_err := None |}.

Definition resolvedKey (pod : watchedPod) (k : oomKill) : resolvedEventKey :=
  ResolvedKey (pod_UID (wp_Pod pod)) (ok_Container k) (ok_RestartCount k) (ok_TerminatedAt k).

Definition unresolved (c : Cache) (now : time) (pod : watchedPod) : list oomKill :=
  List.filter (λ k, negb (alreadyResolvedAt c now (resolvedKey pod k))) (oomKills pod).

Definition markAll (now : time) (pod : watchedPod) (c : Cache) : Cache :=
  foldl (λ c k, markResolvedAt c now (resolvedKey pod k)) c (oomKills pod).

Definition recordOf (pod : watchedPod) (policy : string) (now : time) (k : oomKill) : OOMRecord :=
  {| or_Container := ok_Container k; or_PolicyName := policy; or_ObservedAt := now;
     or_TerminatedAt := ok_TerminatedAt k; or_RestartCount := ok_RestartCount k;
     or_PodName := pod_Name (wp_Pod pod); or_PodUID := pod_UID (wp_Pod pod); or_OOMLimitBytes := ok_LimitBytes k |}.

(** One kill recorded: the controller is told of it when it is new. *)
Definition recordKill (pod : watchedPod) (id : WorkloadIdentity) (policy : string) (now : time)
    (st : Cache * list (CacheKey * OOMRecord)) (k : oomKill) : Cache * list (CacheKey * OOMRecord) :=
  let key := OOMKey id (ok_Container k) in
  let record := recordOf pod policy now k in
  let '(c, isNew) := RecordOOM (fst st) key record in
  (c, if isNew then snd st ++ [(key, record)] else snd st).

(** The outcome, the cache and what the handler is told. *)
Definition Reconcile (window : duration) (w : pass) (c : Cache) :
    outcome * Cache * list (CacheKey * OOMRecord) :=
  match ps_get w with
  | Err e => ({| oc_RequeueAfter := 0; oc_err := if IsNotFound e then None else Some e |}, c, [])
  | Ok pod =>
      if bool_decide (oomKills pod = []) then (finished, c, [])
      else
        let open := unresolved c (ps_seen w) pod in
        if bool_decide (open = []) then (finished, c, [])
        else
          match Decide (SubjectPod (wp_Pod pod)) (podReader (ps_reads w) (ps_policies w)) with
          | Err e =>
              if errors_Is e "errOwnerUnresolved"
              then ({| oc_RequeueAfter := ownerRetryAfter window (ps_retry w) open; oc_err := None |}, c, [])
              else ({| oc_RequeueAfter := 0; oc_err := Some e |}, c, [])
          | Ok decision =>
              let c := markAll (ps_mark w) pod c in
              if negb (Governed decision) then (finished, c, [])
              else
                let '(c, told) := foldl (recordKill pod (d_Identity decision) (PolicyName decision) (ps_now w))
                                    (c, []) (oomKills pod) in
                (finished, c, told)
          end
  end.
End Watcher.

(** ** Facts *)

(** *** The retries *)
Section Retries.

(** Passes that find the owner chain unreadable: each comes no sooner than the
    one before it asked for. *)
Definition retried (window : duration) (kills : list oomKill) (n : nat) (at_ : nat → time) : Prop :=
  ∀ i, (i < n)%nat → 0 < ownerRetryAfter window (at_ i) kills ∧
    at_ i + ownerRetryAfter window (at_ i) kills ≤ at_ (S i).

Definition age (kills : list oomKill) (now : time) : duration := time_Sub now (newestKill kills).

Lemma ownerRetryAfter_bounds window now kills :
  0 ≤ age kills now → 0 < window < 2 ^ 60 → age kills now < window →
  0 < ownerRetryAfter window now kills ∧
  (age kills now + ownerRetryAfter window now kills = window ∨
   2 * age kills now ≤ age kills now + ownerRetryAfter window now kills ∧
   minOwnerRetry ≤ age kills now + ownerRetryAfter window now kills ≤ window).
Proof.
  intros Ha Hw Hlt. unfold ownerRetryAfter, windowOf. destruct (Z.eqb_spec window 0); [lia|].
  fold (age kills now). rewrite wrap64_id by (unfold int64_range, int64_min, int64_max; lia).
  destruct (Z.leb_spec window (age kills now)); [lia|]. unfold minOwnerRetry, second. lia.
Qed.

Lemma ownerRetryAfter_over window now kills :
  0 < window → 0 < ownerRetryAfter window now kills → age kills now < window.
Proof.
  intros Hw. unfold ownerRetryAfter, windowOf. destruct (Z.eqb_spec window 0); [lia|]. fold (age kills now).
  destruct (Z.leb_spec window (age kills now)); [done|lia].
Qed.

Lemma time_Sub_later now later newest d :
  0 ≤ d → 0 ≤ time_Sub now newest → time_Sub now newest + d ≤ int64_max → now + d ≤ later →
  time_Sub now newest + d ≤ time_Sub later newest.
Proof. unfold time_Sub, int64_min, int64_max. lia. Qed.

Lemma retried_ages window kills n at_ :
  0 < window < 2 ^ 60 → 0 ≤ age kills (at_ 0%nat) → retried window kills n at_ →
  ∀ i, (S i < n)%nat → minOwnerRetry * 2 ^ Z.of_nat i ≤ age kills (at_ (S i)) ∧ age kills (at_ (S i)) < window.
Proof.
  intros Hw H0 Hr.
  assert (Hstep : ∀ i, (S i < n)%nat → 0 ≤ age kills (at_ i) →
    2 * age kills (at_ i) ≤ age kills (at_ (S i)) ∧ minOwnerRetry ≤ age kills (at_ (S i)) < window).
  { intros i Hi Ha. destruct (Hr i ltac:(lia)) as [Hpos Hle]. destruct (Hr (S i) Hi) as [Hpos' _].
    pose proof (ownerRetryAfter_over window _ kills ltac:(lia) Hpos) as Hlt.
    pose proof (ownerRetryAfter_over window _ kills ltac:(lia) Hpos') as Hlt'.
    destruct (ownerRetryAfter_bounds window (at_ i) kills Ha Hw Hlt) as (_ & Hb).
    pose proof (time_Sub_later (at_ i) (at_ (S i)) (newestKill kills) (ownerRetryAfter window (at_ i) kills)) as Hl.
    fold (age kills (at_ i)) (age kills (at_ (S i))) in Hl. unfold int64_max in Hl. lia. }
  intros i. induction i as [|i IH]; intros Hi.
  - destruct (Hstep 0%nat Hi H0). cbn. lia.
  - destruct (IH ltac:(lia)) as [Hge _]. rewrite Nat2Z.inj_succ, Z.pow_succ_r by lia.
    assert (0 < minOwnerRetry * 2 ^ Z.of_nat i).
    { unfold minOwnerRetry, second. pose proof (Z.pow_pos_nonneg 2 (Z.of_nat i)). lia. }
    destruct (Hstep (S i) Hi ltac:(lia)). lia.
Qed.

(** the retries of a kill whose owner chain cannot be read end: each waits
    at least as long as the kill has, so they number at most the logarithm of
    the window, ten for half an hour, and none is asked for past it. *)
Theorem owner_retries_end window kills n at_ :
  0 < window < 2 ^ 60 → 0 ≤ age kills (at_ 0%nat) → retried window kills n at_ →
  (2 ≤ n)%nat → minOwnerRetry * 2 ^ Z.of_nat (n - 2) < window.
Proof.
  intros Hw H0 Hr Hn. destruct (retried_ages window kills n at_ Hw H0 Hr (n - 2)%nat ltac:(lia)) as [Hge Hlt]. lia.
Qed.
End Retries.

(** *** A pass *)
Section Pass.
Context {QO : QuantityOps} {KO : KubeOps} (AsInt64 : Quantity → option Z).
Implicit Types (c : Cache) (pod : watchedPod).

(** The slot of a key holds a kill or a later one, at no smaller a limit. *)
Definition covers c (key : CacheKey) (record : OOMRecord) : Prop :=
  ∃ r, entries c !! key = Some r ∧ or_OOMLimitBytes record ≤ or_OOMLimitBytes r ∧ stamp_le record r.

Lemma RecordOOM_room c key record :
  Z.of_nat (size (entries c)) < maxEntries c →
  entries (fst (RecordOOM c key record)) =
    <[key := match entries c !! key with Some e => mergeOOM e record | None => record end]> (entries c) ∧
  maxEntries (fst (RecordOOM c key record)) = maxEntries c ∧ ttl (fst (RecordOOM c key record)) = ttl c ∧
  resolved (fst (RecordOOM c key record)) = resolved c.
Proof.
  intros Hroom. destruct (entries c !! key) as [e|] eqn:E.
  - destruct (RecordOOM_existing c key record e E) as [-> _]. split; [done|]. unfold RecordOOM. rewrite E.
    destruct (sameKill e record); [|done]. by destruct (_ <? _).
  - unfold RecordOOM. rewrite E. destruct (Z.leb_spec (maxEntries c) (Z.of_nat (size (entries c)))); [lia|done].
Qed.

Lemma RecordOOM_covers c key record :
  Z.of_nat (size (entries c)) < maxEntries c →
  covers (fst (RecordOOM c key record)) key record ∧
  ∀ key' record', covers c key' record' → covers (fst (RecordOOM c key record)) key' record'.
Proof.
  intros Hroom. destruct (RecordOOM_room c key record Hroom) as (He & _). unfold covers. rewrite He. split.
  - rewrite lookup_insert_eq. destruct (entries c !! key) as [e|] eqn:E.
    + destruct (mergeOOM_spec e record) as (Hl & _ & Hs & _). eexists. split; [done|]. rewrite Hl. split; [lia|done].
    + eexists. split; [done|]. split; [lia|]. unfold stamp_le. lia.
  - intros key' record' (r & Hr & Hl & Hs). rewrite lookup_insert. destruct (decide (key = key')) as [<-|]; [|eauto].
    rewrite Hr. destruct (mergeOOM_spec r record) as (Hl' & Hs' & _). eexists. split; [done|]. rewrite Hl'.
    split; [lia|by eapply stamp_le_trans].
Qed.

Lemma recordKill_fold pod id policy now l st :
  Z.of_nat (size (entries (fst st))) + Z.of_nat (length l) ≤ maxEntries (fst st) →
  let st' := foldl (recordKill pod id policy now) st l in
  (∀ k, k ∈ l → covers (fst st') (OOMKey id (ok_Container k)) (recordOf pod policy now k)) ∧
  (∀ key record, covers (fst st) key record → covers (fst st') key record) ∧
  resolved (fst st') = resolved (fst st) ∧ ttl (fst st') = ttl (fst st) ∧
  (∀ x, x ∈ snd st' → x ∈ snd st ∨ ∃ k, k ∈ l ∧ x = (OOMKey id (ok_Container k), recordOf pod policy now k)).
Proof.
  revert st. induction l as [|k l IH]; intros [c told] Hroom; cbn [foldl fst snd length] in *.
  { split_and!; try done; [by intros k ?%not_elem_of_nil|auto]. }
  unfold recordKill at 2 4 6 8 10. cbn [fst snd].
  assert (Hlt : Z.of_nat (size (entries c)) < maxEntries c) by lia.
  destruct (RecordOOM_room c (OOMKey id (ok_Container k)) (recordOf pod policy now k) Hlt) as (He & Hm & Ht & Hr).
  destruct (RecordOOM_covers c (OOMKey id (ok_Container k)) (recordOf pod policy now k) Hlt) as [Hc Hk].
  destruct (RecordOOM c _ _) as [c1 new]. cbn [fst] in *.
  destruct (IH (c1, if new then told ++ [(OOMKey id (ok_Container k), recordOf pod policy now k)] else told))
    as (H1 & H2 & H3 & H4 & H5).
  { cbn [fst]. rewrite He, Hm. pose proof (size_insert_le (OOMKey id (ok_Container k))
      (match entries c !! OOMKey id (ok_Container k) with Some e => mergeOOM e (recordOf pod policy now k)
       | None => recordOf pod policy now k end) (entries c)). lia. }
  cbn [fst snd] in *. split_and!.
  - intros k' [->|Hin]%elem_of_cons; [by apply H2|by apply H1].
  - intros key record Hcov. by apply H2, Hk.
  - congruence.
  - congruence.
  - intros x [Hx|(k' & Hin & ->)]%H5; [|right; exists k'; split; [by right|done]].
    destruct new; [|by left]. apply elem_of_app in Hx as [?| ->%list_elem_of_singleton]; [by left|].
    right. exists k. split; [by left|done].
Qed.

Lemma markResolvedAt_room c now key :
  Z.of_nat (size (resolved c)) < maxEntries c →
  resolved (markResolvedAt c now key) = <[key := now]> (resolved c) ∧
  maxEntries (markResolvedAt c now key) = maxEntries c ∧ ttl (markResolvedAt c now key) = ttl c ∧
  entries (markResolvedAt c now key) = entries c.
Proof.
  intros Hroom. unfold markResolvedAt. destruct (Z.leb_spec (maxEntries c) (Z.of_nat (size (resolved c)))); [lia|].
  by rewrite andb_false_r.
Qed.

Lemma markAll_fold pod now l c :
  Z.of_nat (size (resolved c)) + Z.of_nat (length l) ≤ maxEntries c →
  let c' := foldl (λ c k, markResolvedAt c now (resolvedKey pod k)) c l in
  (∀ k, k ∈ l → resolved c' !! resolvedKey pod k = Some now) ∧
  (∀ key, resolved c !! key = Some now → resolved c' !! key = Some now) ∧
  maxEntries c' = maxEntries c ∧ ttl c' = ttl c ∧ entries c' = entries c.
Proof.
  revert c. induction l as [|k l IH]; intros c Hroom; cbn [foldl length] in *.
  { split_and!; try done. by intros k ?%not_elem_of_nil. }
  destruct (markResolvedAt_room c now (resolvedKey pod k) ltac:(lia)) as (Hr & Hm & Ht & He).
  destruct (IH (markResolvedAt c now (resolvedKey pod k))) as (H1 & H2 & H3 & H4 & H5).
  { rewrite Hr, Hm. pose proof (size_insert_le (resolvedKey pod k) now (resolved c)). lia. }
  split_and!; [| |congruence..].
  - intros k' [->|Hin]%elem_of_cons; [|by apply H1]. apply H2. by rewrite Hr, lookup_insert_eq.
  - intros key Hkey. apply H2. rewrite Hr, lookup_insert. by case_decide.
Qed.

(** Nothing of a pod is unresolved when every kill of it was marked. *)
Lemma unresolved_none c pod now t :
  (∀ k, k ∈ oomKills AsInt64 pod → resolved c !! resolvedKey pod k = Some t) → time_Sub now t ≤ ttl c →
  unresolved AsInt64 c now pod = [].
Proof.
  intros Hm Ht. unfold unresolved. induction (oomKills AsInt64 pod) as [|k l IH]; [done|]. cbn [List.filter].
  unfold alreadyResolvedAt at 1. rewrite (Hm k) by by left. destruct (Z.ltb_spec (ttl c) (time_Sub now t)); [lia|].
  cbn [negb]. apply IH. intros k' Hk'. apply Hm. by right.
Qed.

(** C22: a kill is recorded once. With room for the pod's kills in the cache, a
    pass that could read who governs the pod leaves every kill it shows there,
    under the identity and the Policy of the decision, tells the controller of no
    other, and no pass over the same kills within the cache's ttl of it reads or
    records anything. A pass that could not read changes nothing, so the kill is
    still there to find. *)
Theorem kill_recorded_once window w c pod :
  ps_get w = Ok pod → unresolved AsInt64 c (ps_seen w) pod ≠ [] →
  Z.of_nat (size (entries c)) + Z.of_nat (length (oomKills AsInt64 pod)) ≤ maxEntries c →
  Z.of_nat (size (resolved c)) + Z.of_nat (length (oomKills AsInt64 pod)) ≤ maxEntries c →
  let '(o, c', told) := Reconcile AsInt64 window w c in
  match Decide (SubjectPod (wp_Pod pod)) (podReader (ps_reads w) (ps_policies w)) with
  | Err _ => c' = c ∧ told = []
  | Ok d =>
      o = finished ∧
      (Governed d = true → ∀ k, k ∈ oomKills AsInt64 pod →
         covers c' (OOMKey (d_Identity d) (ok_Container k)) (recordOf pod (PolicyName d) (ps_now w) k)) ∧
      (∀ x, x ∈ told → Governed d = true ∧ ∃ k, k ∈ oomKills AsInt64 pod ∧
         x = (OOMKey (d_Identity d) (ok_Container k), recordOf pod (PolicyName d) (ps_now w) k)) ∧
      ∀ w', ps_get w' = Ok pod → time_Sub (ps_seen w') (ps_mark w) ≤ ttl c →
        Reconcile AsInt64 window w' c' = (finished, c', [])
  end.
Proof.
  intros Hg Hu He Hr. unfold Reconcile at 1. rewrite Hg.
  assert (Hk : oomKills AsInt64 pod ≠ []) by (intros E; apply Hu; unfold unresolved; by rewrite E).
  rewrite !bool_decide_false by done.
  destruct (Decide _ _) as [d|e]; [|by destruct (errors_Is e _)].
  destruct (markAll_fold pod (ps_mark w) (oomKills AsInt64 pod) c Hr) as (Hm & _ & Hmax & Httl & Hent).
  fold (markAll AsInt64 (ps_mark w) pod c) in *. set (c1 := markAll AsInt64 (ps_mark w) pod c) in *.
  assert (Hagain : ∀ c', resolved c' = resolved c1 → ttl c' = ttl c → ∀ w', ps_get w' = Ok pod →
    time_Sub (ps_seen w') (ps_mark w) ≤ ttl c → Reconcile AsInt64 window w' c' = (finished, c', [])).
  { intros c' Hres Ht w' Hg' Hle. unfold Reconcile. rewrite Hg', bool_decide_false by done.
    rewrite (unresolved_none c' pod (ps_seen w') (ps_mark w)); [by rewrite bool_decide_true| |by rewrite Ht].
    intros k Hin. rewrite Hres. by apply Hm. }
  destruct (Governed d); cbn [negb].
  - destruct (recordKill_fold pod (d_Identity d) (PolicyName d) (ps_now w) (oomKills AsInt64 pod) (c1, []))
      as (H1 & _ & H3 & H4 & H5); [cbn [fst]; rewrite Hent, Hmax; exact He|].
    destruct (foldl _ (c1, []) _) as [c2 told]. cbn [fst snd] in *. split_and!; [done|by intros _|..].
    + intros x [?%not_elem_of_nil|Hx]%H5; done.
    + apply Hagain; [done|congruence].
  - split_and!; [done|done|by intros x ?%not_elem_of_nil|by apply Hagain].
Qed.
End Pass.

(** ** At a concrete input *)
Section Sample.
#[local] Existing Instance nano_quantity.
#[local] Existing Instance simple_kube.

Definition whole_units (q : Quantity) : option Z :=
  if nq_nano q mod 10 ^ 9 =? 0 then Some (nq_nano q / 10 ^ 9) else None.

(** A container killed a minute ago at half a gibibyte, and restarted since. *)
Definition killed_pod : watchedPod :=
  {| wp_Pod := sample_bare_pod [];
     wp_RestartPolicy := "Always";
     wp_Statuses := [{| ws_Name := "app"; ws_RestartCount := 3;
       ws_LastTerminated := Some {| tm_Reason := "OOMKilled"; tm_FinishedAt := hour |}; ws_Terminated := None;
       ws_Resources := Some {| Requests := ∅; Limits := {[ ResourceMemory := NQ (2 ^ 29 * 10 ^ 9) BinarySI ]} |} |}] |}.

Definition sample_watch : pass :=
  {| ps_get := Ok killed_pod; ps_reads := empty_cluster; ps_policies := pods_policies;
     ps_seen := hour + minute; ps_retry := hour + minute; ps_mark := hour + minute; ps_now := hour + minute |}.

Definition watched_kill : oomKill :=
  {| ok_Container := "app"; ok_Restarted := true; ok_RestartCount := 3; ok_TerminatedAt := hour; ok_LimitBytes := 2 ^ 29 |}.

Example watched_kills : oomKills whole_units killed_pod = [watched_kill].
Proof. by_running. Qed.

Definition watched_decision : Governance.Decision :=
  match Decide (SubjectPod (wp_Pod killed_pod)) (podReader (ps_reads sample_watch) (ps_policies sample_watch)) with
  | Ok d => d
  | Err _ => noDecision
  end.

Example watched_unresolved :
  length (unresolved whole_units (NewCacheWithLimit minute 2) (hour + minute) killed_pod) = 1%nat.
Proof. by_running. Qed.

#[local] Abbreviation sample_result := (Reconcile whole_units 0 sample_watch (NewCacheWithLimit minute 2)).

Lemma kill_recorded_once_witness :
  length (snd sample_result) = 1%nat ∧
  Reconcile whole_units 0 sample_watch (snd (fst sample_result)) = (finished, snd (fst sample_result), []).
Proof.
  split; [by_running|].
  assert (Hd : Decide (SubjectPod (wp_Pod killed_pod)) (podReader (ps_reads sample_watch) (ps_policies sample_watch)) = Ok watched_decision)
    by by_running.
  pose proof (kill_recorded_once whole_units 0 sample_watch (NewCacheWithLimit minute 2) killed_pod eq_refl) as H.
  assert (Hopen : unresolved whole_units (NewCacheWithLimit minute 2) (ps_seen sample_watch) killed_pod ≠ [])
    by (intros E; pose proof watched_unresolved as Hlen; cbn [ps_seen sample_watch] in E; rewrite E in Hlen; by vm_compute in Hlen).
  specialize (H Hopen). rewrite watched_kills in H. specialize (H ltac:(by_evaluation) ltac:(by_evaluation)).
  destruct sample_result as [[o c'] told]. rewrite Hd in H. cbn [fst snd].
  refine (proj2 (proj2 (proj2 H)) sample_watch eq_refl _). by_evaluation.
Defined.

(** Retries at five, ten and twenty seconds after a kill. *)
Definition sample_instants (i : nat) : time := hour + 5 * second * 2 ^ Z.of_nat i.

Lemma owner_retries_end_witness : minOwnerRetry * 2 ^ Z.of_nat 0 < minute.
Proof.
  apply (owner_retries_end minute [watched_kill] 2 sample_instants).
  - unfold minute, second. lia.
  - by_evaluation.
  - intros [|[|i]] Hi; [| |lia]; by_evaluation.
  - lia.
Defined.
End Sample.
