(* ===== verification/PromInputs.v ===== *)
(** * Inputs read from Prometheus ([internal/recommender/prom_inputs.go])

    Every signal is read in sharded batch queries, a failed shard retried once
    and then read one identity at a time. A query is identified by its signal,
    its settings, its shard and its instant; its text is in [PromQL], and the
    client that answers it is the class [Prom]. The goroutines share nothing but
    the answers they apply under one lock; one order is followed here. *)

From S2P Require Import Prelude GoLang Quantity PolicyApi Kube Shards Resources Signals Compute Assemble.
Local Open Scope Z_scope.

Section PromInputs.
Context {PL : Platform} {QO : QuantityOps} {PO : PromOps}.

(** The client and its context: an answer and the state after it, and whether
    the context is done. *)
Class Prom : Type := {
  p_state : Type;
  QueryShard : p_state → signal → ResourcesConfigs → Shard → time →
    p_state * result (list ShardSample);
  cancelled : p_state → bool;
}.

(** ** One signal over its shards *)
Section Shards.
Context {PR : Prom} {A B : Type} (query : p_state → Shard → p_state * result A) (apply : Shard → A → B → B).

(** What running the shards changes: the client, the answers applied, and the
    identities whose query failed on its own. *)
Record shardRun := {
  sr_state : p_state;
  sr_applied : B;
  sr_errs : gmap WorkloadIdentity error;
}.

(** One shard, retried once unless the context is done. *)
Definition run (st : p_state) (shard : Shard) : p_state * result A :=
  match query st shard with
  | (st, Ok a) => (st, Ok a)
  | (st, Err e) => if cancelled st then (st, Err e) else query st shard
  end.

Definition fail (r : shardRun) (id : WorkloadIdentity) (e : error) : shardRun :=
  {| sr_state := sr_state r; sr_applied := sr_applied r; sr_errs := <[id := e]> (sr_errs r) |}.

Definition applied (r : shardRun) (st : p_state) (shard : Shard) (a : A) : shardRun :=
  {| sr_state := st; sr_applied := apply shard a (sr_applied r); sr_errs := sr_errs r |}.

Definition moved (r : shardRun) (st : p_state) : shardRun :=
  {| sr_state := st; sr_applied := sr_applied r; sr_errs := sr_errs r |}.

Definition single (id : WorkloadIdentity) : Shard :=
  {| sh_Namespace := id_Namespace id; sh_OwnerKind := id_OwnerKind id; sh_Names := [id_OwnerName id] |}.

Definition runSingle (r : shardRun) (id : WorkloadIdentity) : shardRun :=
  match run (sr_state r) (single id) with
  | (st, Ok a) => applied r st (single id) a
  | (st, Err e) => fail (moved r st) id e
  end.

Definition runShard (r : shardRun) (shard : Shard) : shardRun :=
  match run (sr_state r) shard with
  | (st, Ok a) => applied r st shard a
  | (st, Err e) =>
      if bool_decide (length (sh_Names shard) = 1%nat) || cancelled st
      then foldl (λ r id, fail r id e) (moved r st) (Identities shard)
      else foldl runSingle (moved r st) (Identities shard)
  end.

Definition eachShard (st : p_state) (b : B) (shards : list Shard) : shardRun :=
  foldl runShard {| sr_state := st; sr_applied := b; sr_errs := ∅ |} shards.
End Shards.

(** ** Planning *)

Definition sizedFirst (acc : gset WorkloadIdentity * list ShardCandidate * list ShardCandidate)
    (r : InputsRequest) : gset WorkloadIdentity * list ShardCandidate * list ShardCandidate :=
  let '(seen, sized, unsized) := acc in
  if decide (ir_Identity r ∈ seen) then acc
  else
    let c := {| sc_Identity := ir_Identity r; sc_Containers := ir_Containers r |} in
    let seen := {[ir_Identity r]} ∪ seen in
    if 0 <? ir_Containers r then (seen, sized ++ [c], unsized) else (seen, sized, unsized ++ [c]).

Definition collectShards (samplesPerContainer maxSamples : Z) (acc : list Shard * list WorkloadIdentity)
    (cands : list ShardCandidate) : list Shard * list WorkloadIdentity :=
  let '(s, d) := BuildShards cands samplesPerContainer maxSamples in
  (fst acc ++ s, snd acc ++ map sc_Identity d).

Definition plan (reqs : list InputsRequest) (samplesPerContainer maxSamples : Z) :
    list Shard * list WorkloadIdentity :=
  let '(_, sized, unsized) := foldl sizedFirst (∅, [], []) reqs in
  foldl (collectShards samplesPerContainer maxSamples) ([], []) (sized :: map (λ c, [c]) unsized).

(** ** Every signal *)
Context {PR : Prom}.

Record signalRun (B : Type) := {
  sg_state : p_state;
  sg_applied : B;
  sg_failed : gmap WorkloadIdentity error;
}.
Arguments sg_state {B}.
Arguments sg_applied {B}.
Arguments sg_failed {B}.

(** The first failure of a required signal stays. *)
Definition failRequired (s : signal) (failed errs : gmap WorkloadIdentity error) : gmap WorkloadIdentity error :=
  if required s then failed ∪ ((λ e, Errorf (sig_name s +:+ " inputs") [e]) <$> errs) else failed.

Definition fetchSignal {A B} (cfg : ResourcesConfigs) (reqs : list InputsRequest) (points maxSamples : Z)
    (read : signal → p_state → Shard → p_state * result A) (apply : signal → Shard → A → B → B)
    (r : signalRun B) (s : signal) : signalRun B :=
  let '(shards, _) := plan reqs (wrap64 (samplesPerContainer s cfg * points)) maxSamples in
  let run := eachShard (read s) (apply s) (sg_state r) (sg_applied r) shards in
  {| sg_state := sr_state run; sg_applied := sr_applied run;
     sg_failed := failRequired s (sg_failed r) (sr_errs run) |}.

Definition fetchSignals {A B} (cfg : ResourcesConfigs) (reqs : list InputsRequest) (points maxSamples : Z)
    (read : signal → p_state → Shard → p_state * result A) (apply : signal → Shard → A → B → B)
    (st : p_state) (b : B) : signalRun B :=
  foldl (fetchSignal cfg reqs points maxSamples read apply)
    {| sg_state := st; sg_applied := b; sg_failed := ∅ |} signals.

(** The samples of one identity, in the answer's order. *)
Definition samplesOf (id : WorkloadIdentity) (xs : list ShardSample) : list ShardSample :=
  List.filter (λ x, bool_decide (ss_Identity x = id)) xs.

(** A shard's answer sets the signal's values of each of its identities. *)
Definition applyShard (s : signal) (shard : Shard) (xs : list ShardSample)
    (inputs : gmap WorkloadIdentity WorkloadInputs) : gmap WorkloadIdentity WorkloadInputs :=
  foldl (λ m id, alter (λ w, set_values w s (collect s (samplesOf id xs))) id m) inputs (Identities shard).

Definition startInputs (reqs : list InputsRequest) : gmap WorkloadIdentity WorkloadInputs :=
  foldl (λ m r, <[ir_Identity r := emptyInputs]> m) ∅ reqs.

(** [PromInputs.FetchInputs], with the client after it. *)
Definition PromFetchInputs (maxSamples : Z) (st : p_state) (at_ : time) (cfg : ResourcesConfigs)
    (reqs : list InputsRequest) : p_state * gmap WorkloadIdentity (result WorkloadInputs) :=
  let r := fetchSignals cfg reqs 1 maxSamples (λ s st shard, QueryShard st s cfg shard at_) applyShard
             st (startInputs reqs) in
  (sg_state r,
   map_imap (λ id w, match sg_failed r !! id with Some e => Some (Err e) | None => Some (Ok w) end)
     (sg_applied r)).

Definition prom_fetcher (maxSamples : Z) (st : p_state) : InputsFetcher :=
  {| FetchInputs at_ cfg reqs := snd (PromFetchInputs maxSamples st at_ cfg reqs) |}.
End PromInputs.

(** ** Facts *)
Section Facts.
Context {PL : Platform} {QO : QuantityOps} {PO : PromOps} {PR : Prom}.

(** *** Planning *)

(** Every identity asked for, once, in the order asked. *)
Lemma sizedFirst_fold reqs acc :
  (∀ id, id ∈ acc.1.1 ↔ id ∈ map sc_Identity (acc.1.2 ++ acc.2)) →
  let '(seen, sized, unsized) := foldl sizedFirst acc reqs in
  (∀ id, id ∈ map sc_Identity (sized ++ unsized) ↔
     id ∈ map sc_Identity (acc.1.2 ++ acc.2) ∨ id ∈ map ir_Identity reqs).
Proof.
  revert acc. induction reqs as [|r reqs IH]; intros [[seen sized] unsized] Hseen; cbn [foldl].
  { intros id. split; [by left|]. by intros [?|?%not_elem_of_nil]. }
  cbn [fst snd] in *.
  assert (Hstep : ∀ id, id ∈ (sizedFirst (seen, sized, unsized) r).1.1 ↔
      id ∈ map sc_Identity ((sizedFirst (seen, sized, unsized) r).1.2 ++ (sizedFirst (seen, sized, unsized) r).2)).
  { intros id. unfold sizedFirst. destruct (decide (ir_Identity r ∈ seen)); [apply Hseen|].
    destruct (0 <? ir_Containers r); cbn [fst snd]; rewrite elem_of_union, elem_of_singleton, Hseen, !map_app,
      ?elem_of_app; cbn [map sc_Identity]; rewrite ?list_elem_of_singleton; tauto. }
  specialize (IH (sizedFirst (seen, sized, unsized) r) Hstep).
  destruct (foldl sizedFirst _ reqs) as [[seen' sized'] unsized']. intros id. rewrite IH. clear IH.
  cbn [map]. rewrite elem_of_cons. unfold sizedFirst.
  destruct (decide (ir_Identity r ∈ seen)) as [Hr|Hr]; cbn [fst snd].
  - split; [tauto|]. intros [?|[->|?]]; [by left|left; by apply Hseen|by right].
  - destruct (0 <? ir_Containers r); cbn [fst snd]; rewrite !map_app, ?elem_of_app; cbn [map sc_Identity];
      rewrite ?list_elem_of_singleton; tauto.
Qed.

Lemma collectShards_fold spc ms cands acc :
  let '(shards, dropped) := foldl (collectShards spc ms) acc cands in
  ∀ id, (id ∈ concat (map Identities shards) ↔
     id ∈ concat (map Identities acc.1) ∨ (id ∈ map sc_Identity (concat cands) ∧ malformed id = false)).
Proof.
  revert acc. induction cands as [|c cands IH]; intros acc; cbn [foldl concat map].
  { destruct acc. intros id. cbn. split; [by left|]. by intros [?|[?%not_elem_of_nil _]]. }
  specialize (IH (collectShards spc ms acc c)).
  destruct (foldl _ _ cands) as [shards dropped]. intros id. rewrite IH. unfold collectShards.
  pose proof (BuildShards_perm c spc ms) as Hp. destruct (BuildShards c spc ms) as [s d].
  destruct Hp as [Hp _]. cbn [fst].
  rewrite map_app, concat_app, elem_of_app, Hp, map_app, elem_of_app.
  assert (Hv : id ∈ map sc_Identity (filter valid c) ↔ id ∈ map sc_Identity c ∧ malformed id = false).
  { rewrite !list_elem_of_fmap. setoid_rewrite list_elem_of_filter. unfold valid.
    split.
    - intros (x & -> & Hx & ?). split; [eauto|]. by destruct (malformed (sc_Identity x)).
    - intros [(x & -> & Hx) Hm]. exists x. split_and!; [done| |done]. by rewrite Hm. }
  rewrite Hv. tauto.
Qed.

(** A shard is planned for every well-formed identity asked for, and for no
    other. *)
Lemma plan_covers reqs spc ms id :
  id ∈ concat (map Identities (fst (plan reqs spc ms))) ↔
  id ∈ map ir_Identity reqs ∧ malformed id = false.
Proof.
  unfold plan. pose proof (sizedFirst_fold reqs (∅, [], [])) as H.
  destruct (foldl sizedFirst _ reqs) as [[seen sized] unsized].
  pose proof (collectShards_fold spc ms (sized :: map (λ c, [c]) unsized) ([], [])) as Hc.
  destruct (foldl _ _ _) as [shards dropped]. cbn [fst] in *. rewrite Hc.
  assert (Hcat : concat (sized :: map (λ c, [c]) unsized) = sized ++ unsized).
  { cbn [concat]. f_equal. clear. induction unsized as [|c l IH]; [done|]. cbn [map concat app]. by rewrite IH. }
  rewrite Hcat, (H ltac:(set_solver)). cbn. set_solver.
Qed.

(** *** One signal over its shards *)
Section Each.
Context {A B : Type} (query : p_state → Shard → p_state * result A) (apply : Shard → A → B → B).

(** The failure of an identity is that of a query for it alone, or of one that
    covered it and ended with the context done. *)
Definition failsAlone (id : WorkloadIdentity) (e : error) : Prop :=
  (∃ st st', query st (single id) = (st', Err e)) ∨
  (∃ st st' shard, query st shard = (st', Err e) ∧ id ∈ Identities shard ∧ cancelled st' = true).

Lemma Identities_alone shard id : id ∈ Identities shard → length (sh_Names shard) = 1%nat → shard = single id.
Proof.
  destruct shard as [ns kind [|name [|]]]; [done| |done]. unfold Identities, single. cbn.
  by intros ->%list_elem_of_singleton _.
Qed.

(** [I] holds of what is applied throughout, and [R id] from the answer that
    covers [id] on. *)
Context (D : WorkloadIdentity → Prop) (I : B → Prop) (R : WorkloadIdentity → B → Prop).
Hypothesis apply_ok : ∀ st st' shard a b, query st shard = (st', Ok a) → (∀ id, id ∈ Identities shard → D id) →
  I b → I (apply shard a b) ∧ (∀ id, R id b ∨ id ∈ Identities shard → R id (apply shard a b)).

Lemma run_result st shard :
  ∃ st0, query st0 shard = run query st shard.
Proof.
  unfold run. destruct (query st shard) as [st' [a|e]] eqn:E; [eauto|]. destruct (cancelled st'); eauto.
Qed.

(** What a run of shards guarantees of the identities [ids] it covers. *)
Definition reached (r : shardRun) (ids : list WorkloadIdentity) : Prop :=
  I (sr_applied r) ∧ (∀ id, id ∈ ids → R id (sr_applied r) ∨ is_Some (sr_errs r !! id)) ∧
  (∀ id e, sr_errs r !! id = Some e → failsAlone id e).

Lemma reached_moved r st ids : reached r ids → reached (moved r st) ids.
Proof. done. Qed.

Lemma reached_fail r ids id e : failsAlone id e → reached r ids → reached (fail r id e) (ids ++ [id]).
Proof.
  intros Hf (HI & HR & HE). split_and!; [done| |].
  - intros id'. rewrite elem_of_app, list_elem_of_singleton. cbn [sr_errs sr_applied fail].
    intros [Hin | ->]; [|right; rewrite lookup_insert_eq; eauto].
    destruct (HR _ Hin) as [?|?]; [by left|]. right. rewrite lookup_insert. by case_decide.
  - intros id' e'. cbn [sr_errs fail]. rewrite lookup_insert. case_decide; [by intros [= <-]; subst|apply HE].
Qed.

Lemma reached_applied r ids st st' shard a :
  query st shard = (st', Ok a) → (∀ id, id ∈ Identities shard → D id) → reached r ids →
  reached (applied apply r st' shard a) (ids ++ Identities shard).
Proof.
  intros Hq HD (HI & HR & HE). destruct (apply_ok _ _ _ _ _ Hq HD HI) as [HI' HR']. split_and!; [done| |done].
  intros id. rewrite elem_of_app. cbn [sr_applied sr_errs applied].
  intros [Hin|Hin]; [|left; by apply HR'; right]. destruct (HR _ Hin) as [?|?]; [left; apply HR'; by left|by right].
Qed.

Lemma Identities_single id : Identities (single id) = [id].
Proof. by destruct id. Qed.

Lemma reached_single r ids id : D id → reached r ids → reached (runSingle query apply r id) (ids ++ [id]).
Proof.
  intros HD Hr. unfold runSingle. destruct (run_result (sr_state r) (single id)) as [st0 H].
  destruct (run query (sr_state r) (single id)) as [st' [a|e]].
  - rewrite <-(Identities_single id) at 1. eapply reached_applied; [done| |done].
    rewrite Identities_single. by intros ? ->%list_elem_of_singleton.
  - apply reached_fail; [|by apply reached_moved]. left. by exists st0, st'.
Qed.

Lemma reached_fold (f : shardRun → WorkloadIdentity → shardRun) (P : WorkloadIdentity → Prop) l r ids :
  (∀ r ids id, P id → reached r ids → reached (f r id) (ids ++ [id])) →
  (∀ id, id ∈ l → P id) → reached r ids → reached (foldl f r l) (ids ++ l).
Proof.
  intros Hf. revert r ids. induction l as [|id l IH]; intros r ids HP Hr; cbn [foldl].
  - by rewrite app_nil_r.
  - rewrite (cons_middle id ids l), app_assoc. apply IH; [by intros; apply HP; right|].
    apply Hf; [by apply HP; left|done].
Qed.

Lemma reached_shard r ids shard :
  (∀ id, id ∈ Identities shard → D id) → reached r ids →
  reached (runShard query apply r shard) (ids ++ Identities shard).
Proof.
  intros HD Hr. unfold runShard. destruct (run_result (sr_state r) shard) as [st0 H].
  destruct (run query (sr_state r) shard) as [st' [a|e]]; [by eapply reached_applied|].
  destruct (bool_decide _ || cancelled st') eqn:Ec.
  - apply (reached_fold _ (λ id, id ∈ Identities shard)); [|done|by apply reached_moved].
    intros r' ids' id Hid Hr'. apply reached_fail; [|done].
    apply orb_true_iff in Ec as [Hl%bool_decide_eq_true|Hl]; [left|right; by exists st0, st', shard].
    exists st0, st'. by rewrite <-(Identities_alone shard id).
  - apply (reached_fold _ D); [|done|by apply reached_moved]. intros r' ids' id. apply reached_single.
Qed.

(** Every identity of the shards is either answered or failed alone: a shard
    that fails as a whole denies no identity its own query. *)
Lemma eachShard_reached st b shards :
  (∀ id, id ∈ concat (map Identities shards) → D id) → I b →
  reached (eachShard query apply st b shards) (concat (map Identities shards)).
Proof.
  intros HD HI. unfold eachShard. rewrite <-(app_nil_l (concat _)).
  assert (Hr : reached {| sr_state := st; sr_applied := b; sr_errs := ∅ |} []).
  { split_and!; [done|by intros ? ?%not_elem_of_nil|intros ? ?; cbn; by rewrite lookup_empty]. }
  revert HD Hr. generalize {| sr_state := st; sr_applied := b; sr_errs := ∅ |} ([] : list WorkloadIdentity).
  induction shards as [|sh shards IH]; intros r ids HD Hr; cbn [foldl map concat]; [by rewrite app_nil_r|].
  rewrite app_assoc. apply IH; [intros; apply HD; cbn; set_solver|].
  apply reached_shard; [intros; apply HD; cbn; set_solver|done].
Qed.
End Each.

(** *** What is applied *)

Lemma applyShard_lookup s shard xs m id :
  applyShard s shard xs m !! id =
  if decide (id ∈ Identities shard) then (λ w, set_values w s (collect s (samplesOf id xs))) <$> m !! id
  else m !! id.
Proof.
  unfold applyShard. generalize (Identities shard). intros l. revert m.
  induction l as [|i l IH]; intros m; cbn [foldl].
  { by rewrite decide_False by apply not_elem_of_nil. }
  rewrite IH, lookup_alter. destruct (decide (i = id)) as [->|Hne].
  - rewrite (decide_True (P := id ∈ id :: l)) by by left. destruct (decide (id ∈ l)); [|done].
    rewrite <-option_fmap_compose. destruct (m !! id); [|done]. cbn. unfold set_values.
    by rewrite insert_insert_eq.
  - destruct (decide (id ∈ l)) as [Hl|Hl].
    + by rewrite decide_True by by right.
    + rewrite decide_False; [done|]. by intros [->|?]%elem_of_cons.
Qed.

Lemma emptyInputs_lookup s : s ∈ signals → emptyInputs !! sig_name s = Some (collect s []).
Proof. unfold signals. rewrite !elem_of_cons. intros [->|[->|[->|[]%not_elem_of_nil]]]; vm_compute; reflexivity. Qed.

Lemma signals_distinct : NoDup (map sig_name signals).
Proof. apply (bool_decide_unpack _). vm_compute. done. Qed.
Definition read_at (cfg : ResourcesConfigs) (at_ : time) (s : signal) (st : p_state) (shard : Shard) :=
  QueryShard st s cfg shard at_.

(** *** Reading every signal

    [read] answers a shard, [samples] are those of an identity in an answer, and
    [look] is the inputs kept of an identity: an answer sets the signal's values
    of each identity of its shard, from its samples, and no others. *)
Section Reading.
Context {A B : Type} (read : signal → p_state → Shard → p_state * result A) (apply : signal → Shard → A → B → B).
Context (samples : A → WorkloadIdentity → list ShardSample) (look : B → WorkloadIdentity → option WorkloadInputs).
Hypothesis apply_look : ∀ s st st' shard a b id, read s st shard = (st', Ok a) →
  look (apply s shard a b) id =
    if decide (id ∈ Identities shard) then (λ w, set_values w s (collect s (samples a id))) <$> look b id
    else look b id.

(** [xs] are the samples of [id] in an answer of the client to a query of the
    signal that covers it. *)
Definition answered (s : signal) (id : WorkloadIdentity) (xs : list ShardSample) : Prop :=
  ∃ st st' shard a, read s st shard = (st', Ok a) ∧ id ∈ Identities shard ∧ xs = samples a id.

(** The signal's values of an identity as read. *)
Definition read_values (s : signal) (id : WorkloadIdentity) (w : WorkloadInputs) : Prop :=
  ∃ xs, answered s id xs ∧ w !! sig_name s = Some (collect s xs).

(** What the inputs hold of a signal: what the client answered, or the
    signal's empty values, with the reason. *)
Definition settled (s : signal) (failed : gmap WorkloadIdentity error) (id : WorkloadIdentity) (w : WorkloadInputs) : Prop :=
  read_values s id w ∨
  w !! sig_name s = Some (collect s []) ∧
  (malformed id = true ∨ (∃ e, failsAlone (read s) id e) ∧ (required s = true → is_Some (failed !! id))).

(** The inputs as they were at the start of the signal, but for its values. *)
Definition framed (s : signal) (b0 b : B) : Prop :=
  ∀ id, match look b0 id, look b id with
        | Some w0, Some w => (∀ n, n ≠ sig_name s → w !! n = w0 !! n) ∧
            (read_values s id w ∨ w !! sig_name s = w0 !! sig_name s)
        | None, None => True
        | _, _ => False
        end.

Lemma framed_refl s b : framed s b b.
Proof. intros id. destruct (look b id); [|done]. split; [done|by right]. Qed.

Lemma apply_framed s b0 st st' shard a b :
  read s st shard = (st', Ok a) → (∀ id, id ∈ Identities shard → is_Some (look b0 id)) → framed s b0 b →
  framed s b0 (apply s shard a b) ∧
  ∀ id, (∃ w, look b id = Some w ∧ read_values s id w) ∨ id ∈ Identities shard →
    ∃ w, look (apply s shard a b) id = Some w ∧ read_values s id w.
Proof.
  intros Hq HD HI.
  assert (Hset : ∀ id w, id ∈ Identities shard → read_values s id (set_values w s (collect s (samples a id)))).
  { intros id w Hin. exists (samples a id). unfold set_values. rewrite lookup_insert_eq. split; [|done].
    exists st, st', shard, a. by split_and!. }
  split.
  - intros id. specialize (HI id). rewrite (apply_look _ _ _ _ _ _ _ Hq). destruct (decide (id ∈ _)) as [Hin|]; [|done].
    destruct (look b0 id) as [w0|], (look b id) as [w|]; cbn; try done. destruct HI as [Hn _]. split; [|left; by apply Hset].
    intros n Hne. unfold set_values. rewrite lookup_insert_ne by done. by apply Hn.
  - intros id Hor. rewrite (apply_look _ _ _ _ _ _ _ Hq). destruct (decide (id ∈ _)) as [Hin|Hnin].
    + specialize (HI id). destruct (HD _ Hin) as [w0 Hw0]. rewrite Hw0 in HI.
      destruct (look b id) as [w|]; [|done]. cbn. eexists. split; [done|]. by apply Hset.
    + by destruct Hor.
Qed.

(** One signal, then every signal. *)
Context (cfg : ResourcesConfigs) (reqs : list InputsRequest) (points maxSamples : Z).

Definition covers (b : B) : Prop := ∀ id, is_Some (look b id) ↔ id ∈ map ir_Identity reqs.

(** Why an identity may have failed. *)
Definition requiredFailure (s : signal) (id : WorkloadIdentity) (e : error) : Prop :=
  required s = true ∧ ∃ e', failsAlone (read s) id e' ∧ e = Errorf (sig_name s +:+ " inputs") [e'].

Definition step (r : signalRun B) (s : signal) := fetchSignal cfg reqs points maxSamples read apply r s.

Lemma framed_covers s b0 b : framed s b0 b → covers b0 → covers b.
Proof.
  intros HF HC id. rewrite <-(HC id). specialize (HF id).
  destruct (look b0 id), (look b id); try done; by split; intros [].
Qed.

Lemma failRequired_Some s failed errs id e :
  failRequired s failed errs !! id = Some e ↔
  failed !! id = Some e ∨
  failed !! id = None ∧ required s = true ∧
  ∃ e', errs !! id = Some e' ∧ e = Errorf (sig_name s +:+ " inputs") [e'].
Proof.
  unfold failRequired. destruct (required s); [|naive_solver].
  rewrite lookup_union_Some_raw, lookup_fmap, fmap_Some. naive_solver.
Qed.

Lemma step_settled r s :
  covers (sg_applied _ r) → (∀ id w, look (sg_applied _ r) id = Some w → w !! sig_name s = Some (collect s [])) →
  framed s (sg_applied _ r) (sg_applied _ (step r s)) ∧
  (∀ id w, look (sg_applied _ (step r s)) id = Some w → settled s (sg_failed _ (step r s)) id w) ∧
  (∀ id e, sg_failed _ r !! id = Some e → sg_failed _ (step r s) !! id = Some e) ∧
  (∀ id e, sg_failed _ (step r s) !! id = Some e → sg_failed _ r !! id = Some e ∨ requiredFailure s id e).
Proof.
  intros HC HE. unfold step, fetchSignal.
  pose proof (plan_covers reqs (wrap64 (samplesPerContainer s cfg * points)) maxSamples) as Hplan.
  destruct (plan _ _ _) as [shards dropped]. cbn [fst] in Hplan.
  destruct (eachShard_reached (read s) (apply s) (λ id, is_Some (look (sg_applied _ r) id))
    (framed s (sg_applied _ r)) (λ id b, ∃ w, look b id = Some w ∧ read_values s id w)
    ltac:(intros; by eapply apply_framed) (sg_state _ r) (sg_applied _ r) shards) as (HI & HR & HF).
  { intros id [Hin _]%Hplan. by apply HC. }
  { apply framed_refl. }
  cbn [sg_applied sg_failed]. split_and!; [done| | |].
  - intros id w Hw. assert (Hid : id ∈ map ir_Identity reqs).
    { apply (framed_covers _ _ _ HI HC). rewrite Hw. eauto. }
    pose proof (HI id) as Hfr. rewrite Hw in Hfr. destruct (look (sg_applied _ r) id) as [w0|] eqn:Hw0; [|done].
    destruct Hfr as [_ [?|Heq]]; [by left|]. rewrite (HE _ _ Hw0) in Heq.
    destruct (malformed id) eqn:Hm; [right; by split; [|left]|].
    destruct (HR id) as [(w' & Hw' & Hr)|[e He]]; [by apply Hplan| |].
    + rewrite Hw in Hw'. injection Hw' as <-. by left.
    + right. split; [done|]. right. split; [exists e; by apply HF|]. intros Hreq.
      destruct (sg_failed _ r !! id) as [e0|] eqn:E0.
      * exists e0. apply failRequired_Some. by left.
      * eexists. apply failRequired_Some. right. split_and!; [done|done|]. eauto.
  - intros id e He. apply failRequired_Some. by left.
  - intros id e [?|(_ & Hreq & e' & He' & ->)]%failRequired_Some; [by left|]. right. split; [done|].
    exists e'. split; [by apply HF|done].
Qed.

Lemma settled_more s (f f' : gmap WorkloadIdentity error) id w w' :
  (∀ id e, f !! id = Some e → f' !! id = Some e) → w' !! sig_name s = w !! sig_name s →
  settled s f id w → settled s f' id w'.
Proof.
  intros Hf Hw. unfold settled, read_values. rewrite Hw.
  intros [?|(? & [?|[? Hreq]])]; [by left|right; by split; [|left]|].
  right. split; [done|]. right. split; [done|]. intros [e He]%Hreq. exists e. by apply Hf.
Qed.

Lemma steps_settled ss r :
  NoDup (map sig_name ss) → covers (sg_applied _ r) →
  (∀ s id w, s ∈ ss → look (sg_applied _ r) id = Some w → w !! sig_name s = Some (collect s [])) →
  covers (sg_applied _ (foldl step r ss)) ∧
  (∀ id w, look (sg_applied _ (foldl step r ss)) id = Some w →
     (∃ w0, look (sg_applied _ r) id = Some w0 ∧ ∀ n, n ∉ map sig_name ss → w !! n = w0 !! n) ∧
     ∀ s, s ∈ ss → settled s (sg_failed _ (foldl step r ss)) id w) ∧
  (∀ id e, sg_failed _ r !! id = Some e → sg_failed _ (foldl step r ss) !! id = Some e) ∧
  (∀ id e, sg_failed _ (foldl step r ss) !! id = Some e →
     sg_failed _ r !! id = Some e ∨ ∃ s, s ∈ ss ∧ requiredFailure s id e).
Proof.
  revert r. induction ss as [|s ss IH]; intros r Hnd HC HE; cbn [foldl map] in *.
  { split_and!; [done| |done|by left]. intros id w Hw. split; [by exists w|]. by intros ? ?%not_elem_of_nil. }
  apply NoDup_cons in Hnd as [Hs Hnd].
  destruct (step_settled r s HC) as (Hfr & Hset & Hup & Hdown); [intros; eapply HE; [by left|done]|].
  destruct (IH (step r s) Hnd) as (HC' & Hset' & Hup' & Hdown').
  - by eapply framed_covers.
  - intros s' id w Hs' Hw. specialize (Hfr id). rewrite Hw in Hfr.
    destruct (look (sg_applied _ r) id) as [w0|] eqn:Hw0; [|done]. destruct Hfr as [Hn _].
    rewrite Hn; [eapply HE; [by right|done]|]. intros Heq. apply Hs. rewrite <-Heq. apply list_elem_of_fmap. eauto.
  - split_and!; [done| |by eauto|].
    + intros id w Hw. destruct (Hset' id w Hw) as [(w1 & Hw1 & Hn1) Hss]. split.
      * pose proof (Hfr id) as Hfi. rewrite Hw1 in Hfi. destruct (look (sg_applied _ r) id) as [w0|]; [|done].
        exists w0. split; [done|]. intros n [Hne Hni]%not_elem_of_cons. rewrite Hn1 by done. by apply Hfi.
      * intros s' [->|Hs']%elem_of_cons; [|by apply Hss].
        eapply settled_more; [apply Hup'| |by apply Hset]. by apply Hn1.
    + intros id e [?|(s' & ? & ?)]%Hdown'; [|right; exists s'; split; [by right|done]].
      destruct (Hdown id e) as [?|?]; [done|by left|right; exists s; split; [by left|done]].
Qed.

(** The inputs and the failures once every signal has run. *)
Lemma fetchSignals_settled st b0 :
  covers b0 → (∀ id w, look b0 id = Some w → w = emptyInputs) →
  let r := fetchSignals cfg reqs points maxSamples read apply st b0 in
  covers (sg_applied _ r) ∧
  (∀ id w, look (sg_applied _ r) id = Some w → ∀ s, s ∈ signals → settled s (sg_failed _ r) id w) ∧
  (∀ id e, sg_failed _ r !! id = Some e → ∃ s, s ∈ signals ∧ requiredFailure s id e).
Proof.
  intros HC0 HE0. unfold fetchSignals.
  change (fetchSignal cfg reqs points maxSamples read apply) with step.
  destruct (steps_settled signals {| sg_state := st; sg_applied := b0; sg_failed := ∅ |} signals_distinct)
    as (HC & Hset & _ & Hdown); [done|intros s id w Hs Hw; rewrite (HE0 id w Hw); by apply emptyInputs_lookup|].
  split_and!; [done|intros id w Hw; by apply Hset|].
  intros id e He. destruct (Hdown id e He) as [Hn|?]; [|done]. cbn [sg_failed] in Hn. by rewrite lookup_empty in Hn.
Qed.

(** What every answer keeps holds at the end. *)
Lemma fetchSignals_keeps (I : B → Prop) st b0 :
  (∀ s st st' shard a b, read s st shard = (st', Ok a) → I b → I (apply s shard a b)) → I b0 →
  I (sg_applied _ (fetchSignals cfg reqs points maxSamples read apply st b0)).
Proof.
  intros HI H0. unfold fetchSignals.
  assert (H : ∀ ss r, I (sg_applied _ r) →
    I (sg_applied _ (foldl (fetchSignal cfg reqs points maxSamples read apply) r ss))); [|by apply H].
  induction ss as [|s ss IH]; intros r Hr; [done|]. cbn [foldl]. apply IH.
  unfold fetchSignal. destruct (plan reqs _ maxSamples) as [shards dropped]. cbn [sg_applied].
  destruct (eachShard_reached (read s) (apply s) (λ _, True) I (λ _ _, True)
    ltac:(intros st1 st2 shard a b Hq _ Hb; split; [by eapply HI|done]) (sg_state _ r) (sg_applied _ r) shards) as (Hk & _);
    [done|done|exact Hk].
Qed.
End Reading.

Lemma startInputs_lookup l (m : gmap WorkloadIdentity WorkloadInputs) id :
  foldl (λ m r, <[ir_Identity r := emptyInputs]> m) m l !! id =
  if decide (id ∈ map ir_Identity l) then Some emptyInputs else m !! id.
Proof.
  revert m. induction l as [|r l IH]; intros m; cbn [foldl map].
  { by rewrite decide_False by apply not_elem_of_nil. }
  rewrite IH, lookup_insert. destruct (decide (id ∈ map ir_Identity l)) as [Hin|Hnin].
  - by rewrite decide_True by by right.
  - destruct (decide (ir_Identity r = id)) as [->|Hne].
    + by rewrite decide_True by by left.
    + rewrite decide_False; [done|]. by intros [?|?]%elem_of_cons.
Qed.

Lemma startInputs_covers reqs :
  covers (λ b id, b !! id) reqs (startInputs reqs) ∧
  ∀ id w, startInputs reqs !! id = Some w → w = emptyInputs.
Proof.
  unfold covers, startInputs. split; intros id; rewrite startInputs_lookup, lookup_empty.
  - case_decide; [done|]. split; [by intros []|done].
  - intros w. case_decide; [by intros [= ->]|done].
Qed.

Lemma fetched_settled maxSamples st at_ cfg reqs :
  let r := fetchSignals cfg reqs 1 maxSamples (read_at cfg at_) applyShard st (startInputs reqs) in
  covers (λ b id, b !! id) reqs (sg_applied _ r) ∧
  (∀ id w, sg_applied _ r !! id = Some w → ∀ s, s ∈ signals →
     settled (read_at cfg at_) (flip samplesOf) s (sg_failed _ r) id w) ∧
  (∀ id e, sg_failed _ r !! id = Some e → ∃ s, s ∈ signals ∧ requiredFailure (read_at cfg at_) s id e).
Proof.
  destruct (startInputs_covers reqs) as [HC HE].
  apply (fetchSignals_settled (read_at cfg at_) applyShard (flip samplesOf) (λ b id, b !! id)); [|done..].
  intros s st1 st2 shard a b id _. apply applyShard_lookup.
Qed.
End Facts.

Section FetchFacts.
Context {PL : Platform} {QO : QuantityOps} {PO : PromOps} {PR : Prom}.

(** C29: the inputs of an identity asked for are either, signal by signal, the
    values of its own samples in an answer of the client, or an error a required
    signal failed with. It fails, and a best-effort signal is left empty, only
    when the signal's query for the identity alone failed, or one that covered
    it did with the context done; and a signal is empty too for an identity no
    query can name. So while the context lasts no shard's failure denies its
    other identities their inputs. *)
Theorem FetchInputs_settles maxSamples st at_ cfg reqs id :
  id ∈ map ir_Identity reqs →
  match snd (PromFetchInputs maxSamples st at_ cfg reqs) !! id with
  | Some (Ok w) => ∀ s, s ∈ signals →
      read_values (read_at cfg at_) (flip samplesOf) s id w ∨
      w !! sig_name s = Some (collect s []) ∧
      (malformed id = true ∨ required s = false ∧ ∃ e, failsAlone (read_at cfg at_ s) id e)
  | Some (Err e) => ∃ s, s ∈ signals ∧ requiredFailure (read_at cfg at_) s id e
  | None => False
  end.
Proof.
  intros Hid. destruct (fetched_settled maxSamples st at_ cfg reqs) as (HC & Hset & Hfail).
  unfold PromFetchInputs. cbn [snd].
  change (λ s st shard, QueryShard st s cfg shard at_) with (read_at cfg at_). rewrite map_lookup_imap.
  destruct (proj2 (HC id) Hid) as [w Hw]. revert Hw Hset Hfail.
  generalize (fetchSignals cfg reqs 1 maxSamples (read_at cfg at_) applyShard st (startInputs reqs)).
  intros r Hw Hset Hfail. rewrite Hw. cbn [option_bind mbind].
  destruct (sg_failed _ r !! id) as [e|] eqn:E; [by apply Hfail|].
  intros s Hs. destruct (Hset id w Hw s Hs) as [?|[? Hwhy]]; [by left|]. right. split; [done|].
  destruct Hwhy as [?|[? Hreq]]; [by left|]. right. destruct (required s); [|by split].
  destruct (Hreq eq_refl) as [? He]. by rewrite E in He.
Qed.

(** the reader of Prometheus keeps the promise of the interface Assemble
    reads through: it answers the identities asked for, each once, and no
    other. *)
Theorem prom_fetcher_laws maxSamples st : FetcherLaws (IF := prom_fetcher maxSamples st).
Proof.
  constructor. intros at_ cfg reqs id. cbn [FetchInputs prom_fetcher].
  destruct (fetched_settled maxSamples st at_ cfg reqs) as (HC & _ & _).
  unfold PromFetchInputs. cbn [snd].
  change (λ s st shard, QueryShard st s cfg shard at_) with (read_at cfg at_).
  rewrite map_lookup_imap. specialize (HC id). revert HC.
  generalize (fetchSignals cfg reqs 1 maxSamples (read_at cfg at_) applyShard st (startInputs reqs)). intros r HC.
  rewrite list_elem_of_fmap in HC. transitivity (is_Some (sg_applied _ r !! id)); [|rewrite HC; naive_solver].
  destruct (sg_applied _ r !! id) as [w|]; cbn; [|done]. split; [eauto|]. intros _. destruct (_ !! id); eauto.
Qed.
End FetchFacts.

(** ** At a concrete input *)
Section Sample.
#[local] Existing Instance amd64.
#[local] Existing Instance nano_quantity.
#[local] Existing Instance no_durations.

(** A client that answers memory usage and fails everything else. *)
#[local] Instance sample_prom : Prom :=
  {| p_state := unit;
     QueryShard st s _ _ _ :=
       (st, if String.eqb (sig_name s) ResourceMemory then Ok [] else Err (ErrorNew "timeout"));
     cancelled _ := false |}.

Definition sample_inputs_request : InputsRequest :=
  {| ir_Identity := Identity "prod" "Deployment" "web"; ir_Containers := 1 |}.

Definition sample_resources : ResourcesConfigs := {| CPU := sample_config; Memory := sample_config |}.

Lemma FetchInputs_settles_witness :
  ∃ e s, s ∈ signals ∧ requiredFailure (read_at sample_resources 100) s (Identity "prod" "Deployment" "web") e.
Proof.
  pose proof (FetchInputs_settles 25000 tt 100 sample_resources [sample_inputs_request]
    (Identity "prod" "Deployment" "web") ltac:(by left)) as H.
  match type of H with match ?o with _ => _ end =>
    assert (Hn : match o with Some (Err _) => true | _ => false end = true) by by_running;
    revert H Hn; generalize o; intros [[w|e]|] H Hn
  end; [discriminate Hn| |discriminate Hn].
  destruct H as (s & Hs & He). exists e, s. split; [exact Hs|exact He].
Defined.
End Sample.
