(* ===== verification/Params.v ===== *)
(** * Reading the parameters of the dashboard's requests
    ([validate.go], [paginateRange] of [identities.go] and the patterns of
    [handlers_simulate.go], in [internal/dashboard])

    Pages, sorts, filters, windows, steps and absolute ranges, from the query of
    a URL, which is the value of each name, empty for one not given. A refusal
    is the field it is about; its message is not modelled. *)

From Stdlib Require Import Ascii.
From S2P Require Import Prelude GoLang GoText Quantity Kube PolicyApi Resources Signals.
Local Open Scope Z_scope.

(** [paramError] *)
Inductive paramError := BadParam (field : string).

(** What a parser answers. *)
Definition parsed (A : Type) : Type := A + paramError.

Definition query : Type := string → string.

(** ** Enumerations *)

Definition parseEnumParam (q : query) (name : string) (allowed : list string) : parsed string :=
  let v := q name in
  if String.eqb v "" then inl ""
  else if contains v allowed then inl v
  else inr (BadParam name).

Definition parseBoolParam (q : query) (name : string) : parsed (option bool) :=
  let s := q name in
  if String.eqb s "" then inl None
  else if String.eqb s "true" then inl (Some true)
  else if String.eqb s "false" then inl (Some false)
  else inr (BadParam name).

(** [strings.CutPrefix(v, "-")] *)
Definition cutMinus (v : string) : string * bool :=
  match v with
  | String c v' => if Ascii.eqb c "-" then (v', true) else (v, false)
  | EmptyString => (v, false)
  end.

Definition parseSortParam (q : query) (allowed : list string) (defaultKey : string) : parsed (string * bool) :=
  let v := q "sort" in
  if String.eqb v "" then inl (defaultKey, false)
  else
    let '(key, desc) := cutMinus v in
    if contains key allowed then inl (key, desc) else inr (BadParam "sort").

(** ** Pages *)

(** One number of [parsePageParams], no more than [most] when it is given. *)
Definition parsePage (q : query) (name : string) (default : Z) (most : option Z) : parsed Z :=
  let s := q name in
  if String.eqb s "" then inl default
  else
    match Atoi s with
    | None => inr (BadParam name)
    | Some n =>
        if (n <? 1) || match most with Some m => m <? n | None => false end then inr (BadParam name) else inl n
    end.

Definition parsePageParams (q : query) (defaultSize maxSize : Z) : parsed (Z * Z) :=
  match parsePage q "page" 1 None with
  | inr e => inr e
  | inl page =>
      match parsePage q "pageSize" defaultSize (Some maxSize) with
      | inr e => inr e
      | inl pageSize => inl (page, pageSize)
      end
  end.

(** Go's [int] is 64 bits wide and wraps around. *)
Definition paginateRange (total page pageSize : Z) : Z * Z :=
  let start := Z.min (wrap64 (wrap64 (page - 1) * pageSize)) total in
  (start, Z.min (wrap64 (start + pageSize)) total).

(** [rows[start:end]] of a slice no longer than its array: [None] is a panic. *)
Definition slice {A} (rows : list A) (start end_ : Z) : option (list A) :=
  if (0 <=? start) && (start <=? end_) && (end_ <=? Z.of_nat (length rows))
  then Some (take (Z.to_nat (end_ - start)) (drop (Z.to_nat start) rows))
  else None.

(** The items of a page. *)
Definition pageItems {A} (rows : list A) (page pageSize : Z) : option (list A) :=
  let '(start, end_) := paginateRange (Z.of_nat (length rows)) page pageSize in
  slice rows start end_.

(** ** Durations *)

Definition digit (c : ascii) : bool := let n := N_of_ascii c in (48 <=? n)%N && (n <=? 57)%N.

(** [^([0-9]+(units))+$] over the rest of a text; [inDigits] says a number has
    begun. [sub] lets an [s] be a unit and follow an [m]. *)
Fixpoint durations (sub inDigits : bool) (s : string) : bool :=
  match s with
  | EmptyString => negb inDigits
  | String c s' =>
      if digit c then durations sub true s'
      else if negb inDigits then false
      else if Ascii.eqb c "m" then
        match s' with
        | String c' s'' => if sub && Ascii.eqb c' "s" then durations sub false s'' else durations sub false s'
        | EmptyString => true
        end
      else if Ascii.eqb c "h" || Ascii.eqb c "d" || Ascii.eqb c "w" || Ascii.eqb c "y" || (sub && Ascii.eqb c "s")
      then durations sub false s'
      else false
  end.

Definition windowPattern (s : string) : bool := negb (String.eqb s "") && durations false false s.
Definition stepPattern (s : string) : bool := negb (String.eqb s "") && durations true false s.

Example window_pattern : map windowPattern ["168h"; "1d12h"; ""; "5"; "h"; "30s"; "5ms"] =
  [true; true; false; false; false; false; false].
Proof. reflexivity. Qed.
Example step_pattern : map stepPattern ["30s"; "5ms"; "5m30s"; "5mm"; "s"] = [true; true; true; false; false].
Proof. reflexivity. Qed.

Section Ranges.
Context {PO : PromOps}.

Record TimeRange := { tr_Start : time; tr_End : time }.

Definition TimeRangeFromWindow (window : string) (now : time) : option TimeRange :=
  match ParseDuration window with
  | None => None
  | Some d => Some {| tr_Start := time_Add now (wrap64 (- d)); tr_End := now |}
  end.

Definition ParseStep (step : string) : option duration := ParseDuration step.

Definition parseDurationParam (q : query) (def : string) : parsed string :=
  let v := q "window" in
  if String.eqb v "" then inl def
  else if windowPattern v then inl v else inr (BadParam "window").

Definition parseStepParam (q : query) (def : duration) : parsed duration :=
  let v := q "step" in
  if String.eqb v "" then inl def
  else
    match ParseStep v with
    | Some step => if stepPattern v then inl step else inr (BadParam "step")
    | None => inr (BadParam "step")
    end.

Definition maxSpanSeconds : Z := 366 * 24 * 60 * 60.

(** [Time.Unix] and [time.Unix(sec, 0)] *)
Definition unixOf (t : time) : Z := t / second - unixToZero.
Definition time_Unix (sec : Z) : time := wrap64 (sec + unixToZero) * second.

Definition validateAbsoluteRange (from to_ : Z) (now : time) : option paramError :=
  if to_ <=? from then Some (BadParam "from")
  else if unixOf (time_Add now hour) <? to_ then Some (BadParam "to")
  else if maxSpanSeconds <? wrap64 (to_ - from) then Some (BadParam "from")
  else None.

Definition parseTimeRange (q : query) (defWindow : string) (now : time) : parsed TimeRange :=
  let fromStr := q "from" in
  let toStr := q "to" in
  if String.eqb fromStr "" && String.eqb toStr "" then
    match parseDurationParam q defWindow with
    | inr e => inr e
    | inl window =>
        match TimeRangeFromWindow window now with
        | Some tr => inl tr
        | None => inr (BadParam "window")
        end
    end
  else if String.eqb fromStr "" then inr (BadParam "from")
  else if String.eqb toStr "" then inr (BadParam "to")
  else
    match ParseInt fromStr 64, ParseInt toStr 64 with
    | None, _ => inr (BadParam "from")
    | _, None => inr (BadParam "to")
    | Some from, Some to_ =>
        match validateAbsoluteRange from to_ now with
        | Some e => inr e
        | None => inl {| tr_Start := time_Unix from; tr_End := time_Unix to_ |}
        end
    end.
End Ranges.

(** ** Pages cover the rows *)
Section Pages.
Context {A : Type}.
Implicit Types (rows : list A) (q : query).

(** Within a machine word, a page is the rows from its place on. *)
Lemma pageItems_spec rows page size :
  1 ≤ page → 1 ≤ size → Z.of_nat (length rows) + size < 2 ^ 63 → (page - 1) * size < 2 ^ 63 →
  pageItems rows page size = Some (take (Z.to_nat size) (drop (Z.to_nat ((page - 1) * size)) rows)).
Proof.
  intros Hp Hs Hlen Hoff. unfold pageItems, paginateRange.
  assert (page - 1 ≤ (page - 1) * size) by nia. assert (0 ≤ (page - 1) * size) by nia.
  assert (Hm : int64_min = - 2 ^ 63 ∧ int64_max = 2 ^ 63 - 1) by done.
  rewrite (wrap64_id (page - 1)), (wrap64_id ((page - 1) * size)) by (unfold int64_range; lia).
  set (n := Z.of_nat (length rows)) in *. set (start := Z.min ((page - 1) * size) n).
  rewrite wrap64_id by (unfold int64_range; lia). unfold slice. fold n.
  rewrite (proj2 (Z.leb_le 0 start)), (proj2 (Z.leb_le start _)), (proj2 (Z.leb_le _ n)) by lia. cbn [andb].
  f_equal. destruct (Z.le_gt_cases ((page - 1) * size) n).
  - replace start with ((page - 1) * size) by lia. destruct (Z.le_gt_cases ((page - 1) * size + size) n).
    + f_equal. lia.
    + rewrite !take_ge; [done| |]; rewrite length_drop; lia.
  - rewrite !drop_ge by lia. by rewrite !take_nil.
Qed.

(** The pages of a size, one after the other. *)
Definition pages rows (size : Z) (n : nat) : list (option (list A)) :=
  map (λ i, pageItems rows (Z.of_nat i) size) (seq 1 n).

Lemma pages_take rows size n :
  1 ≤ size → Z.of_nat (length rows) + size < 2 ^ 63 → Z.of_nat n * size < 2 ^ 63 →
  ∃ items, pages rows size n = map Some items ∧ concat items = take (n * Z.to_nat size) rows.
Proof.
  intros Hs Hlen. induction n as [|n IH]; intros Hn; [by exists []|].
  destruct IH as (items & Hp & Hc); [nia|].
  exists (items ++ [take (Z.to_nat size) (drop (n * Z.to_nat size) rows)]). unfold pages in *. split.
  - rewrite seq_S, !map_app, Hp. cbn [map]. f_equal. rewrite pageItems_spec by nia. do 4 f_equal. nia.
  - rewrite concat_app, Hc. cbn [concat]. rewrite app_nil_r.
    replace (S n * Z.to_nat size)%nat with (n * Z.to_nat size + Z.to_nat size)%nat by lia.
    by rewrite take_take_drop.
Qed.
(** The numbers the parser lets through. *)
Lemma parsePage_positive q name default most n :
  1 ≤ default → (∀ m, most = Some m → default ≤ m) → parsePage q name default most = inl n →
  1 ≤ n < 2 ^ 63 ∨ n = default.
Proof.
  intros Hd Hm. unfold parsePage. destruct (String.eqb _ _); [intros [= ->]; by right|].
  destruct (Atoi (q name)) as [z|] eqn:E; [|done]. destruct (_ || _) eqn:Ho; [done|]. intros [= <-].
  apply ParseInt_range in E. bool_props. left. lia.
Qed.

Lemma parsePage_most q name default m n :
  default ≤ m → parsePage q name default (Some m) = inl n → n ≤ m.
Proof.
  intros Hd. unfold parsePage. destruct (String.eqb _ _); [by intros [= <-]|].
  destruct (Atoi (q name)) as [z|]; [|done]. destruct (_ || _) eqn:Ho; [done|]. intros [= <-]. bool_props. lia.
Qed.

(** How many pages show the rows. *)
Definition pageCount rows (size : Z) : nat := Z.to_nat ((Z.of_nat (length rows) + size - 1) / size).

Lemma parsePageParams_bounds q page size : parsePageParams q 50 200 = inl (page, size) → 1 ≤ page ∧ 1 ≤ size ≤ 200.
Proof.
  intros Hq. unfold parsePageParams in Hq.
  destruct (parsePage q "page" 1 None) as [page'|] eqn:Ep; [|done].
  destruct (parsePage q "pageSize" 50 (Some 200)) as [size'|] eqn:Es; [|done]. injection Hq as <- <-.
  assert (Hmax : size' ≤ 200) by (by apply (parsePage_most q "pageSize" 50)).
  apply parsePage_positive in Ep; [|lia|done]. apply parsePage_positive in Es; [|lia|intros m [= <-]; lia]. lia.
Qed.

(** A page let through is within a machine word. *)
Lemma pageItems_request q page size rows :
  parsePageParams q 50 200 = inl (page, size) → Z.of_nat (length rows) < 2 ^ 62 → (page - 1) * size < 2 ^ 63 →
  pageItems rows page size = Some (take (Z.to_nat size) (drop (Z.to_nat ((page - 1) * size)) rows)) ∧
  1 ≤ page ∧ 1 ≤ size ≤ 200.
Proof.
  intros Hq Hlen Hoff. apply parsePageParams_bounds in Hq as [? ?]. split; [|done]. apply pageItems_spec; lia.
Qed.

(** Whatever page and size a request is let through with, the pages of that
    size show every row once, in order; and its page is the rows at its place
    as long as that place fits a machine word. *)
Theorem pages_cover q page size rows :
  parsePageParams q 50 200 = inl (page, size) → Z.of_nat (length rows) < 2 ^ 62 →
  (∃ items, pages rows size (pageCount rows size) = map Some items ∧ concat items = rows) ∧
  ((page - 1) * size < 2 ^ 63 →
   pageItems rows page size = Some (take (Z.to_nat size) (drop (Z.to_nat ((page - 1) * size)) rows))).
Proof.
  intros Hq Hlen. pose proof (parsePageParams_bounds q page size Hq) as [Hp1 Hs1].
  split; [|intros Hoff; by apply (pageItems_request q)].
  set (n := Z.of_nat (length rows)) in *.
  assert (Hc : n ≤ (n + size - 1) / size * size < n + size).
  { pose proof (Z.div_mod (n + size - 1) size ltac:(lia)). pose proof (Z.mod_pos_bound (n + size - 1) size ltac:(lia)). lia. }
  assert (0 ≤ (n + size - 1) / size) by (apply Z.div_pos; lia).
  destruct (pages_take rows size (pageCount rows size)) as (items & Hp & Hitems);
    [lia|fold n; lia|unfold pageCount; fold n; lia|].
  exists items. split; [done|]. rewrite Hitems. apply take_ge. unfold pageCount. fold n. nia.
Qed.

(** A page so far out that its place wraps around is a negative slice bound. *)
Example page_overflows : ∀ rows : list A,
  paginateRange (Z.of_nat (length rows)) 184467440737095518 50 = (- 9223372036854775766, - 9223372036854775716).
Proof.
  intros rows. unfold paginateRange. change (wrap64 (wrap64 (184467440737095518 - 1) * 50)) with (- 9223372036854775766).
  rewrite (Z.min_l (- 9223372036854775766)) by lia.
  change (wrap64 (- 9223372036854775766 + 50)) with (- 9223372036854775716). f_equal. lia.
Qed.
End Pages.

(** The request that asks for it is let through, and its slice panics. *)
Example page_panics :
  let q name := if String.eqb name "page" then "184467440737095518" else "" in
  parsePageParams q 50 200 = inl (184467440737095518, 50) ∧
  pageItems [1; 2; 3] 184467440737095518 50 = None.
Proof. by vm_compute. Qed.

(** ** Absolute ranges *)
Section Absolute.
Context {PO : PromOps}.
Implicit Types (q : query).

Lemma parseTimeRange_absolute q def now tr :
  parseTimeRange q def now = inl tr → q "from" ≠ "" ∨ q "to" ≠ "" →
  ∃ from to_, ParseInt (q "from") 64 = Some from ∧ ParseInt (q "to") 64 = Some to_ ∧
    from < to_ ≤ unixOf (time_Add now hour) ∧ wrap64 (to_ - from) ≤ maxSpanSeconds ∧
    tr = {| tr_Start := time_Unix from; tr_End := time_Unix to_ |}.
Proof.
  unfold parseTimeRange. intros H Hq.
  destruct (String.eqb_spec (q "from") "") as [Hf|Hf], (String.eqb_spec (q "to") "") as [Ht|Ht]; cbn [andb] in H;
    try done; [by destruct Hq|].
  destruct (ParseInt (q "from") 64) as [from|]; [|done]. destruct (ParseInt (q "to") 64) as [to_|]; [|done].
  unfold validateAbsoluteRange in H. destruct (Z.leb_spec to_ from); [done|].
  destruct (Z.ltb_spec (unixOf (time_Add now hour)) to_); [done|].
  destruct (Z.ltb_spec maxSpanSeconds (wrap64 (to_ - from))); [done|]. injection H as <-.
  exists from, to_. split_and!; done || lia.
Qed.

(** An absolute range a request is let through with, of dates since 1970,
    is not empty, spans 366 days at most and ends within the hour. *)
Theorem range_bounded q def now tr from :
  parseTimeRange q def now = inl tr → ParseInt (q "from") 64 = Some from → 0 ≤ from →
  time_Add now hour < 2 ^ 63 * second →
  tr_Start tr < tr_End tr ≤ time_Add now hour ∧ tr_End tr - tr_Start tr ≤ maxSpanSeconds * second.
Proof.
  intros H Hfrom H0 Hnow.
  destruct (parseTimeRange_absolute q def now tr H) as (from' & to_ & E & _ & Hto & Hspan & ->).
  { left. intros Ee. by rewrite Ee in Hfrom. }
  rewrite Hfrom in E. injection E as <-. cbn [tr_Start tr_End].
  assert (Hm : int64_min = - 2 ^ 63 ∧ int64_max = 2 ^ 63 - 1) by done. unfold unixOf, unixToZero in *.
  set (t := time_Add now hour) in *.
  assert (Hfit : t / second < 2 ^ 63) by (apply Z.div_lt_upper_bound; [done|lia]).
  pose proof (Z.mul_div_le t second ltac:(done)) as Hdown.
  rewrite wrap64_id in Hspan by (unfold int64_range; lia).
  assert (Hu : ∀ s, 0 ≤ s ≤ t / second - 62135596800 → time_Unix s = (s + 62135596800) * second).
  { intros s Hs. unfold time_Unix, unixToZero. rewrite wrap64_id; [done|]. unfold int64_range. lia. }
  rewrite !Hu in * by lia. unfold second in *. lia.
Qed.
End Absolute.

(** ** At concrete inputs *)
Section Sample.
#[local] Instance hours_only : PromOps := {| ParseDuration s := if String.eqb s "168h" then Some (168 * hour) else None |}.

Definition sample_now : time := (unixToZero + 1709210096) * second.

Definition sample_query (from to_ : string) : query :=
  λ name, if String.eqb name "from" then from else if String.eqb name "to" then to_ else "".

(** A span that wraps around passes the guard: the range starts before the year
    one and is not refused. *)
Example range_guard_wraps :
  parseTimeRange (sample_query "-9223372036854775808" "0") "168h" sample_now =
  inl {| tr_Start := time_Unix (- 9223372036854775808); tr_End := time_Unix 0 |}.
Proof. by_running. Qed.

Definition third_page : query := λ name, if String.eqb name "page" then "3" else if String.eqb name "pageSize" then "2" else "".

Lemma pages_cover_witness : pageItems [1; 2; 3; 4; 5] 3 2 = Some [5].
Proof. destruct (pages_cover third_page 3 2 [1; 2; 3; 4; 5]) as [_ H]; [done|done|]. rewrite H by done. done. Defined.

Lemma range_bounded_witness :
  match parseTimeRange (sample_query "1709000000" "1709210000") "168h" sample_now with
  | inl tr => tr_Start tr < tr_End tr
  | inr _ => False
  end.
Proof.
  set (tr := {| tr_Start := time_Unix 1709000000; tr_End := time_Unix 1709210000 |}).
  assert (Hp : parseTimeRange (sample_query "1709000000" "1709210000") "168h" sample_now = inl tr) by by_running.
  rewrite Hp. apply (range_bounded _ _ _ _ 1709000000 Hp); [by_running|by_evaluation..].
Defined.
End Sample.
