(* ===== verification/PromQL.v ===== *)
(** * The queries' texts
    ([client.go] and [shard.go] of [internal/prometheus], the queries of
    [signal_usage.go] and [signal_oom.go] of [internal/recommender], and those of
    [health_prometheus.go] and [handlers_workload_metrics.go] of
    [internal/dashboard])

    A selector quotes what it selects twice: a name as a literal of a regular
    expression, and the expression as a string of PromQL. [readSelector] reads
    one back as PromQL and RE2 document it, and a query is shown to select
    exactly the series of the identities it is for, whatever their names hold.
    On ASCII, which the names of Kubernetes are. *)

From Stdlib Require Import Ascii.
From S2P Require Import Prelude GoLang GoFloat GoText GoStrings Quantity Kube PolicyApi WlrApi Shards Resources Signals Params.
Local Open Scope Z_scope.

(** ** Quoting *)

Abbreviation dquote := "034"%char.
Abbreviation bslash := "\"%char.

Definition hexDigit (n : N) : ascii := ascii_of_N (if (n <? 10)%N then 48 + n else 87 + n).

(** The characters with an escape of their own, and what it is. *)
Definition escapes : list (ascii * ascii) :=
  [(dquote, dquote); (bslash, bslash); ("007", "a"); ("008", "b"); ("012", "f"); ("010", "n"); ("013", "r");
   ("009", "t"); ("011", "v")]%char.

Definition quoteChar (c : ascii) : string :=
  match List.find (λ p, Ascii.eqb p.1 c) escapes with
  | Some p => String bslash (String p.2 "")
  | None =>
      let n := N_of_ascii c in
      if (n <? 32)%N || (n =? 127)%N
      then String bslash (String "x" (String (hexDigit (n / 16)) (String (hexDigit (n mod 16)) "")))
      else String c ""
  end.

Fixpoint quoteChars (s : string) : string :=
  match s with EmptyString => "" | String c s => quoteChar c +:+ quoteChars s end.

(** [%q]: [strconv.Quote] *)
Definition Quote (s : string) : string := String dquote (quoteChars s +:+ String dquote "").

(** [\.+*?()|[]{}^$] *)
Definition metaChars : list ascii :=
  [bslash; "."; "+"; "*"; "?"; "("; ")"; "|"; "["; "]"; "{"; "}"; "^"; "$"]%char.
Definition isMeta (c : ascii) : bool := contains c metaChars.

(** [regexp.QuoteMeta] *)
Fixpoint QuoteMeta (s : string) : string :=
  match s with
  | EmptyString => ""
  | String c s => if isMeta c then String bslash (String c (QuoteMeta s)) else String c (QuoteMeta s)
  end.

(** ** Selectors *)

Definition literalAlternation (values : list string) : string := String.concat "|" (map QuoteMeta values).

Definition Selector (s : Shard) : string :=
  "{namespace=" +:+ Quote (sh_Namespace s) +:+ ",owner_kind=" +:+ Quote (sh_OwnerKind s) +:+
  ",owner_name=~" +:+ Quote (literalAlternation (sh_Names s)) +:+ "}".

Definition MetricsSelector (s : Shard) (metrics : list string) : string :=
  "{__name__=~" +:+ Quote (literalAlternation metrics) +:+ ",namespace=" +:+ Quote (sh_Namespace s) +:+
  ",owner_kind=" +:+ Quote (sh_OwnerKind s) +:+ ",owner_name=~" +:+ Quote (literalAlternation (sh_Names s)) +:+ "}".

Definition WorkloadSelector (id : WorkloadIdentity) : string :=
  "{namespace=" +:+ Quote (id_Namespace id) +:+ ",owner_kind=" +:+ Quote (id_OwnerKind id) +:+
  ",owner_name=" +:+ Quote (id_OwnerName id) +:+ "}".

(** ** Queries *)

Definition QuantileOverTime (quantile : float64) (rule selector window : string) : string :=
  "quantile_over_time(" +:+ FormatFloat_f 2 quantile +:+ ", " +:+ rule +:+ selector +:+ "[" +:+ window +:+ "])".

Section Usage.
Context {QO : QuantityOps}.

(** [usage.query] *)
Definition usage_rule (r : resourceKind) : string :=
  match r with cpuResource => MetricWorkloadMaxPodCPUCores | memoryResource => MetricWorkloadMaxPodMemoryBytes end.

Definition usage_query (r : resourceKind) (cfg : ResourcesConfigs) (shard : Shard) : string :=
  QuantileOverTime (PercentileQuantile (Percentile (rc_Requests (config r cfg)))) (usage_rule r) (Selector shard)
    (usage_window r cfg).
End Usage.

(** [oomFloor.query] *)
Definition oom_query (shard : Shard) : string := MetricsSelector shard oomRules.

(** [step] is the text of [model.Duration]. *)
Definition OOMKillsPerStep (selector step : string) : string :=
  "label_replace(sum by (namespace, owner_kind, owner_name, container) (sum_over_time(" +:+ MetricContainerOOMKills +:+
  selector +:+ "[" +:+ step +:+ "])), " +:+ Quote "__name__" +:+ ", " +:+ Quote MetricContainerOOMKills +:+ ", " +:+
  Quote "" +:+ ", " +:+ Quote "" +:+ ")".

(** [oomFloor.historyQuery] *)
Definition oom_historyQuery (shard : Shard) (step : string) : string := OOMKillsPerStep (Selector shard) step.

(** [perContainer] *)
Definition perContainer (agg rule : string) (key : WorkloadIdentity) : string :=
  agg +:+ " by (container) (" +:+ rule +:+ WorkloadSelector key +:+ ")".

(** One health query, of one identity. *)
Definition identityLabels : list string := ["namespace"; "owner_kind"; "owner_name"].
Definition healthQuery (agg metric filter : string) (extra : list string) (key : WorkloadIdentity) : string :=
  agg +:+ " by (" +:+ String.concat ", " (identityLabels ++ extra) +:+ ") (" +:+ metric +:+ WorkloadSelector key +:+
  filter +:+ ")".

(** ** Reading a selector *)

Definition unescape (c : ascii) : option ascii := fst <$> List.find (λ p, Ascii.eqb p.2 c) escapes.

Definition hexValue (c : ascii) : option N :=
  let n := N_of_ascii c in
  if (48 <=? n)%N && (n <=? 57)%N then Some (n - 48)%N
  else if (97 <=? n)%N && (n <=? 102)%N then Some (n - 87)%N
  else None.

Definition prepend (c : ascii) (r : option (string * string)) : option (string * string) :=
  match r with Some (v, rest) => Some (String c v, rest) | None => None end.

(** A string of PromQL after its opening quote, and what follows it. *)
Fixpoint readText (s : string) : option (string * string) :=
  match s with
  | EmptyString => None
  | String c s1 =>
      if Ascii.eqb c dquote then Some ("", s1)
      else if Ascii.eqb c "010" then None
      else if Ascii.eqb c bslash then
        match s1 with
        | EmptyString => None
        | String e s2 =>
            match unescape e with
            | Some d => prepend d (readText s2)
            | None =>
                if Ascii.eqb e "x" then
                  match s2 with
                  | String h (String l s3) =>
                      match hexValue h, hexValue l with
                      | Some h, Some l => prepend (ascii_of_N (16 * h + l)) (readText s3)
                      | _, _ => None
                      end
                  | _ => None
                  end
                else None
            end
        end
      else prepend c (readText s1)
  end.

Definition prependFirst (c : ascii) (r : option (list string)) : option (list string) :=
  match r with Some (v :: vs) => Some (String c v :: vs) | _ => None end.

(** The literals of a regular expression that is an alternation of literals, and
    nothing else of one. *)
Fixpoint readAlternation (s : string) : option (list string) :=
  match s with
  | EmptyString => Some [""]
  | String c s1 =>
      if Ascii.eqb c "|" then cons "" <$> readAlternation s1
      else if Ascii.eqb c bslash then
        match s1 with
        | String d s2 => if isMeta d then prependFirst d (readAlternation s2) else None
        | EmptyString => None
        end
      else if isMeta c then None
      else prependFirst c (readAlternation s1)
  end.

Inductive matchOp := Equals | Among.
Record matcher := { m_label : string; m_op : matchOp; m_value : string }.

(** The operator of a matcher, [=] already read. *)
Definition readOp (s : string) : matchOp * string :=
  match s with
  | String c r => if Ascii.eqb c "~" then (Among, r) else (Equals, s)
  | EmptyString => (Equals, s)
  end.

(** One matcher, and what follows it. *)
Definition readMatcher (s : string) : option (matcher * string) :=
  match Cut "=" s with
  | (label, Some rest) =>
      let '(op, rest) := readOp rest in
      match rest with
      | String q rest =>
          if Ascii.eqb q dquote then
            match readText rest with
            | Some (v, rest) => Some ({| m_label := label; m_op := op; m_value := v |}, rest)
            | None => None
            end
          else None
      | EmptyString => None
      end
  | (_, None) => None
  end.

(** The matchers up to the closing brace, and what follows it. *)
Fixpoint readMatchers (fuel : nat) (s : string) : option (list matcher * string) :=
  match fuel with
  | O => None
  | S fuel =>
      match readMatcher s with
      | Some (m, String c rest) =>
          if Ascii.eqb c "}" then Some ([m], rest)
          else if Ascii.eqb c ","
          then match readMatchers fuel rest with Some (ms, rest) => Some (m :: ms, rest) | None => None end
          else None
      | _ => None
      end
  end.

(** A query's one selector: what is before it, its matchers and what is after.
    Each matcher is at least one character of the text. *)
Definition readSelector (q : string) : option (string * list matcher * string) :=
  match Cut "{" q with
  | (before, Some rest) =>
      match readMatchers (S (String.length rest)) rest with
      | Some (ms, after) => Some (before, ms, after)
      | None => None
      end
  | _ => None
  end.

Definition selects1 (labels : strmap) (m : matcher) : bool :=
  match m_op m with
  | Equals => String.eqb (index labels (m_label m)) (m_value m)
  | Among => match readAlternation (m_value m) with Some vs => contains (index labels (m_label m)) vs | None => false end
  end.

(** Whether a series is selected, by its labels; a missing one is empty. *)
Definition selects (ms : list matcher) (labels : strmap) : bool := forallb (selects1 labels) ms.

(** ** What is read is what was quoted *)

Definition isASCII (c : ascii) : bool := (N_of_ascii c <? 128)%N.
Fixpoint ascii_text (s : string) : bool :=
  match s with EmptyString => true | String c s => isASCII c && ascii_text s end.

Lemma readText_quoteChar c t : isASCII c = true → readText (quoteChar c +:+ t) = prepend c (readText t).
Proof. destruct c as [[] [] [] [] [] [] [] []]; intros H; try discriminate H; reflexivity. Qed.

Lemma readText_quoteChars s rest :
  ascii_text s = true → readText (quoteChars s +:+ String dquote rest) = Some (s, rest).
Proof.
  induction s as [|c s IH]; intros H; [done|]. cbn [ascii_text] in H. apply andb_true_iff in H as [Hc Hs].
  cbn [quoteChars]. by rewrite append_assoc, readText_quoteChar, IH by done.
Qed.

Lemma ascii_text_app s t : ascii_text (s +:+ t) = ascii_text s && ascii_text t.
Proof.
  induction s as [|c s IH]; [done|]. change (String c s +:+ t) with (String c (s +:+ t)). cbn [ascii_text].
  by rewrite IH, andb_assoc.
Qed.

Lemma ascii_text_QuoteMeta s : ascii_text s = true → ascii_text (QuoteMeta s) = true.
Proof.
  induction s as [|c s IH]; [done|]. cbn [ascii_text QuoteMeta]. intros [Hc Hs]%andb_true_iff.
  destruct (isMeta c); cbn [ascii_text]; rewrite Hc, IH by done; done.
Qed.

Lemma ascii_text_alternation vs :
  Forall (λ v, ascii_text v = true) vs → ascii_text (literalAlternation vs) = true.
Proof.
  unfold literalAlternation. induction 1 as [|v vs Hv _ IH]; [done|]. destruct vs as [|v' vs].
  { by apply ascii_text_QuoteMeta. }
  change (map QuoteMeta (v :: v' :: vs)) with (QuoteMeta v :: map QuoteMeta (v' :: vs)).
  rewrite concat_cons, !ascii_text_app, ascii_text_QuoteMeta, IH by done. done.
Qed.

(** One quoted literal, before what ends it. *)
Lemma readAlternation_QuoteMeta c v t :
  readAlternation (QuoteMeta (String c v) +:+ t) = prependFirst c (readAlternation (QuoteMeta v +:+ t)).
Proof.
  cbn [QuoteMeta]. destruct (isMeta c) eqn:Em.
  - change (String bslash (String c (QuoteMeta v)) +:+ t) with (String bslash (String c (QuoteMeta v +:+ t))).
    cbn [readAlternation]. change (Ascii.eqb bslash "|") with false. change (Ascii.eqb bslash bslash) with true.
    cbn match. by rewrite Em.
  - change (String c (QuoteMeta v) +:+ t) with (String c (QuoteMeta v +:+ t)). cbn [readAlternation].
    destruct (Ascii.eqb_spec c "|"); [by subst|]. destruct (Ascii.eqb_spec c bslash); [by subst|]. by rewrite Em.
Qed.

Lemma readAlternation_last v : readAlternation (QuoteMeta v) = Some [v].
Proof.
  rewrite <-(append_nil_r (QuoteMeta v)). induction v as [|c v IH]; [done|]. by rewrite readAlternation_QuoteMeta, IH.
Qed.

Lemma readAlternation_more v t :
  readAlternation (QuoteMeta v +:+ String "|" t) = cons v <$> readAlternation t.
Proof.
  induction v as [|c v IH]; [done|]. rewrite readAlternation_QuoteMeta, IH. by destruct (readAlternation t).
Qed.

Lemma readAlternation_literal vs : vs ≠ [] → readAlternation (literalAlternation vs) = Some vs.
Proof.
  unfold literalAlternation. induction vs as [|v vs IH]; [done|]. intros _. destruct vs as [|v' vs].
  { apply readAlternation_last. }
  change (map QuoteMeta (v :: v' :: vs)) with (QuoteMeta v :: map QuoteMeta (v' :: vs)). rewrite concat_cons by done.
  change (QuoteMeta v +:+ "|" +:+ ?t) with (QuoteMeta v +:+ String "|" t). by rewrite readAlternation_more, IH.
Qed.

(** *** Matchers *)

Definition opText (o : matchOp) : string := match o with Equals => "" | Among => "~" end.

(** The text of a list of matchers, the closing brace included. *)
Fixpoint matchersText (ms : list matcher) : string :=
  match ms with
  | [] => ""
  | m :: ms =>
      m_label m +:+ "=" +:+ opText (m_op m) +:+ Quote (m_value m) +:+
      match ms with [] => "}" | _ => "," +:+ matchersText ms end
  end.

Definition plain_matcher (m : matcher) : Prop := whole "=" (m_label m) ∧ ascii_text (m_value m) = true.

Lemma readMatcher_text m tail :
  plain_matcher m →
  readMatcher (m_label m +:+ "=" +:+ opText (m_op m) +:+ Quote (m_value m) +:+ tail) = Some (m, tail).
Proof.
  intros [Hl Hv]. unfold readMatcher. change ("=" +:+ ?t) with (String "=" t). rewrite Cut_whole by done.
  assert (Hop : readOp (opText (m_op m) +:+ Quote (m_value m) +:+ tail) = (m_op m, Quote (m_value m) +:+ tail))
    by (by destruct (m_op m)).
  rewrite Hop. unfold Quote.
  change (String dquote (quoteChars (m_value m) +:+ String dquote "") +:+ tail)
    with (String dquote ((quoteChars (m_value m) +:+ String dquote "") +:+ tail)).
  rewrite append_assoc. change (String dquote "" +:+ tail) with (String dquote tail).
  rewrite readText_quoteChars by done. by destruct m.
Qed.

Lemma readMatchers_text ms fuel rest :
  ms ≠ [] → Forall plain_matcher ms → (length ms ≤ fuel)%nat → readMatchers fuel (matchersText ms +:+ rest) = Some (ms, rest).
Proof.
  intros Hne Hms. revert fuel. induction Hms as [|m ms Hm Hms IH]; [done|]. intros fuel Hf.
  destruct fuel as [|fuel]; [cbn in Hf; lia|]. cbn [length] in Hf. cbn [matchersText readMatchers].
  rewrite !append_assoc, readMatcher_text by done. destruct ms as [|m' ms]; [done|].
  change (("," +:+ matchersText (m' :: ms)) +:+ rest) with (String "," (matchersText (m' :: ms) +:+ rest)).
  cbn match. change (Ascii.eqb "," "}") with false. cbn match. rewrite IH by (done || lia). done.
Qed.

Lemma matchersText_length ms : (length ms ≤ String.length (matchersText ms))%nat.
Proof.
  induction ms as [|m ms IH]; [done|]. cbn [matchersText length]. rewrite !length_append.
  change (String.length "=") with 1%nat. destruct ms as [|m' ms]; [cbn [length]; lia|].
  rewrite length_append. change (String.length ",") with 1%nat. lia.
Qed.

(** A query with one selector is read back as what it was made of. *)
Lemma readSelector_text before ms after :
  whole "{" before → ms ≠ [] → Forall plain_matcher ms →
  readSelector (before +:+ "{" +:+ matchersText ms +:+ after) = Some (before, ms, after).
Proof.
  intros Hb Hne Hms. unfold readSelector. change ("{" +:+ ?t) with (String "{" t). rewrite Cut_whole by done.
  rewrite readMatchers_text; [done..|]. rewrite length_append. pose proof (matchersText_length ms). lia.
Qed.

Lemma readSelector_whole ms :
  ms ≠ [] → Forall plain_matcher ms → readSelector ("{" +:+ matchersText ms) = Some ("", ms, "").
Proof. intros Hne Hms. rewrite <-(readSelector_text "" ms "") by done. by rewrite append_nil_r. Qed.

(** ** A query is of its identities *)

(** What [attribute] reads of a series. *)
Definition seriesIdentity (labels : strmap) : WorkloadIdentity :=
  Shards.Identity (index labels "namespace") (index labels "owner_kind") (index labels "owner_name").

(** A shard of ASCII names, at least one. *)
Definition textual (sh : Shard) : Prop :=
  ascii_text (sh_Namespace sh) = true ∧ ascii_text (sh_OwnerKind sh) = true ∧
  Forall (λ n, ascii_text n = true) (sh_Names sh) ∧ sh_Names sh ≠ [].

Definition equals (label v : string) : matcher := {| m_label := label; m_op := Equals; m_value := v |}.
Definition among (label : string) (vs : list string) : matcher :=
  {| m_label := label; m_op := Among; m_value := literalAlternation vs |}.

Definition shardMatchers (sh : Shard) : list matcher :=
  [equals "namespace" (sh_Namespace sh); equals "owner_kind" (sh_OwnerKind sh); among "owner_name" (sh_Names sh)].

Lemma Selector_matchers sh : Selector sh = "{" +:+ matchersText (shardMatchers sh).
Proof. reflexivity. Qed.

Lemma MetricsSelector_matchers sh metrics :
  MetricsSelector sh metrics = "{" +:+ matchersText (among "__name__" metrics :: shardMatchers sh).
Proof. reflexivity. Qed.

Lemma shardMatchers_plain sh : textual sh → Forall plain_matcher (shardMatchers sh).
Proof.
  intros (Hns & Hk & Hn & _). repeat constructor; cbn; try done. by apply ascii_text_alternation.
Qed.

Lemma selects_among labels label vs ms :
  vs ≠ [] → selects (among label vs :: ms) labels = true ↔ index labels label ∈ vs ∧ selects ms labels = true.
Proof.
  intros Hvs. unfold selects. cbn [forallb]. rewrite andb_true_iff. unfold selects1 at 1. cbn [m_op among m_value m_label].
  rewrite readAlternation_literal by done. unfold contains. by rewrite bool_decide_eq_true.
Qed.

Lemma selects_equals labels label v ms :
  selects (equals label v :: ms) labels = true ↔ index labels label = v ∧ selects ms labels = true.
Proof.
  unfold selects. cbn [forallb]. rewrite andb_true_iff. unfold selects1 at 1. cbn [m_op equals m_value m_label].
  by rewrite String.eqb_eq.
Qed.

Lemma selects_shard sh labels :
  sh_Names sh ≠ [] → selects (shardMatchers sh) labels = true ↔ seriesIdentity labels ∈ Shards.Identities sh.
Proof.
  intros Hne. unfold shardMatchers. rewrite !selects_equals, selects_among by done. unfold Shards.Identities, seriesIdentity.
  rewrite list_elem_of_fmap. split.
  - intros (<- & <- & Hin & _). by eexists.
  - by intros (n & [= -> -> ->] & Hin).
Qed.

(** *** Percentiles *)

(** The text of hundredths. *)
Definition hundredths : Z → string := fixed_text 2.

Definition quantile_exact (p : Z) : bool :=
  String.eqb (FormatFloat_f 2 (PercentileQuantile (Some p))) (hundredths p) &&
  bool_decide (Split "{" (hundredths p) = [hundredths p]).

Lemma quantiles_exact : forallb quantile_exact (seqZ 1 100) = true.
Proof. by vm_compute. Qed.

(** The percentiles the API server lets through. *)
Definition askable (p : option Z) : Prop := ∀ x, p = Some x → 1 ≤ x ≤ 100.

Lemma quantile_text p :
  askable p →
  FormatFloat_f 2 (PercentileQuantile p) = hundredths (default defaultPercentile p) ∧
  whole "{" (hundredths (default defaultPercentile p)).
Proof.
  intros Hp.
  assert (H : ∀ x, 1 ≤ x ≤ 100 → FormatFloat_f 2 (PercentileQuantile (Some x)) = hundredths x ∧ whole "{" (hundredths x)).
  { intros x Hx. pose proof quantiles_exact as Hall. rewrite forallb_forall in Hall.
    specialize (Hall x). rewrite <-list_elem_of_In, elem_of_seqZ in Hall.
    specialize (Hall ltac:(lia)). unfold quantile_exact in Hall.
    apply andb_true_iff in Hall as [H1%String.eqb_eq H2%bool_decide_eq_true]. done. }
  destruct p as [x|]; [by apply H, Hp|]. apply (H defaultPercentile). by unfold defaultPercentile.
Qed.

Section Exact.
Context {QO : QuantityOps}.

(** C16: A shard's queries are of its identities and of nothing else, whatever their
    names hold: read back as PromQL reads strings and RE2 literals, each selects
    exactly the series labelled as an identity of the shard, and the OOM rules'
    only those rules'; the usage of a resource is asked for at the percentile set,
    to the hundredth, of that resource's rule over the window set. *)
Theorem shard_queries_exact r cfg sh step :
  textual sh → askable (Percentile (rc_Requests (config r cfg))) →
  (∃ ms,
     readSelector (usage_query r cfg sh) =
       Some ("quantile_over_time(" +:+ hundredths (default defaultPercentile (Percentile (rc_Requests (config r cfg)))) +:+
               ", " +:+ usage_rule r, ms, "[" +:+ usage_window r cfg +:+ "])") ∧
     ∀ labels, selects ms labels = true ↔ seriesIdentity labels ∈ Shards.Identities sh) ∧
  (∃ ms,
     readSelector (oom_query sh) = Some ("", ms, "") ∧
     ∀ labels, selects ms labels = true ↔ index labels "__name__" ∈ oomRules ∧ seriesIdentity labels ∈ Shards.Identities sh) ∧
  (∃ before ms after,
     readSelector (oom_historyQuery sh step) = Some (before, ms, after) ∧
     ∀ labels, selects ms labels = true ↔ seriesIdentity labels ∈ Shards.Identities sh).
Proof.
  intros Hsh Hp. pose proof (shardMatchers_plain sh Hsh) as Hplain. pose proof (proj2 (proj2 (proj2 Hsh))) as Hne.
  split_and!.
  - exists (shardMatchers sh). split; [|intros; by apply selects_shard]. unfold usage_query, QuantileOverTime.
    destruct (quantile_text _ Hp) as [-> Hw]. rewrite Selector_matchers.
    rewrite <-(readSelector_text _ (shardMatchers sh)); [by rewrite !append_assoc| |done|done].
    apply whole_append; [done|]. apply whole_append; [done|]. by destruct r.
  - exists (among "__name__" oomRules :: shardMatchers sh). split; [|intros; by rewrite selects_among, selects_shard].
    unfold oom_query. rewrite MetricsSelector_matchers. apply readSelector_whole; [done|]. by constructor.
  - eexists _, (shardMatchers sh), _. split; [|intros; by apply selects_shard].
    unfold oom_historyQuery, OOMKillsPerStep. rewrite Selector_matchers, (append_assoc "{").
    rewrite <-(append_assoc _ MetricContainerOOMKills). by apply readSelector_text.
Qed.
End Exact.

(** *** The dashboard's *)

Definition identityMatchers (key : WorkloadIdentity) : list matcher :=
  [equals "namespace" (id_Namespace key); equals "owner_kind" (id_OwnerKind key); equals "owner_name" (id_OwnerName key)].

Lemma WorkloadSelector_matchers key : WorkloadSelector key = "{" +:+ matchersText (identityMatchers key).
Proof. reflexivity. Qed.

Lemma selects_identity key labels : selects (identityMatchers key) labels = true ↔ seriesIdentity labels = key.
Proof.
  unfold identityMatchers, seriesIdentity. rewrite !selects_equals. destruct key as [ns kind name]. cbn. split.
  - by intros (-> & -> & -> & _).
  - by intros [= -> -> ->].
Qed.

(** What a request asks for of an identity, named as the request pleases, is read
    of that identity's series. *)
Theorem identity_queries_exact agg rule key :
  ascii_text (id_Namespace key) = true → ascii_text (id_OwnerKind key) = true → ascii_text (id_OwnerName key) = true →
  whole "{" agg → whole "{" rule →
  ∃ ms, readSelector (perContainer agg rule key) = Some (agg +:+ " by (container) (" +:+ rule, ms, ")") ∧
  ∀ labels, selects ms labels = true ↔ seriesIdentity labels = key.
Proof.
  intros Hns Hk Hn Ha Hr. exists (identityMatchers key). split; [|intros; apply selects_identity].
  unfold perContainer. rewrite WorkloadSelector_matchers.
  rewrite <-(readSelector_text _ (identityMatchers key)); [by rewrite !append_assoc| |done|by repeat constructor].
  apply whole_append; [done|]. by apply whole_append.
Qed.

(** ** At concrete inputs *)

(** A name that closes its string, and one that is a regular expression. *)
Definition hostile_shard : Shard :=
  {| sh_Namespace := "prod"; sh_OwnerKind := "Deployment";
     sh_Names := ["web.api"; String dquote "} or {a=~.*"; "a|b"] |}.

Example Selector_text : literalAlternation ["web.api"; "a|b"] = "web\.api|a\|b".
Proof. done. Qed.

Example quantile_95 : FormatFloat_f 2 (PercentileQuantile None) = "0.95".
Proof. by_running. Qed.

Definition default_resource : @ResourceConfig nano_quantity :=
  {| Window := ""; rc_Requests := {| Headroom := None; KeepRequest := false; MaxAllowed := None; MinAllowed := None;
       Percentile := Some 99 |};
     rc_Limits := {| EqualsToRequest := false; KeepLimit := false; KeepLimitRequestRatio := false; NoLimit := false;
       RequestsLimitsRatio := None |}; rc_DownsizeThreshold := None |}.

(** The hostile names are selected, and nothing they would have widened the query
    to. *)
Lemma shard_queries_exact_witness :
  ∃ ms, readSelector (usage_query cpuResource {| CPU := default_resource; Memory := default_resource |} hostile_shard) =
    Some ("quantile_over_time(0.99, k8s_sustain:workload_max_pod_cpu:cores", ms, "[168h])") ∧
  selects ms {["namespace" := "prod"; "owner_kind" := "Deployment"; "owner_name" := "a|b"]} = true ∧
  selects ms {["namespace" := "prod"; "owner_kind" := "Deployment"; "owner_name" := "a"]} = false.
Proof.
  destruct (shard_queries_exact cpuResource {| CPU := default_resource; Memory := default_resource |} hostile_shard "5m")
    as [(ms & Hr & Hms) _].
  - split_and!; [done|done|by repeat constructor|done].
  - by intros x [= <-].
  - exists ms. split; [exact Hr|]. split; [apply Hms; by apply (bool_decide_eq_true_1 (_ ∈ _))|].
    apply not_true_iff_false. rewrite Hms. by apply (bool_decide_eq_false_1 (_ ∈ _)).
Defined.
