(* ===== verification/Queries.v ===== *)
(** * What a query of Prometheus answers its caller
    (the readers of [client.go], in [internal/prometheus])

    The shapes a result comes in, and how each reader of the dashboard unpacks
    it: a number, a series, a value or a series per label. Running the query is
    in [Client]; here its answer is an argument. *)

From S2P Require Import Prelude GoLang Quantity Kube Shards.
Local Open Scope Z_scope.

(** [model.Value]: samples and series keep their labels. *)
Inductive value :=
  | Vector (samples : list (strmap * float64))
  | Scalar (v : float64)
  | Matrix (series : list (strmap * list TimeValue))
  | Text.

Definition ErrCircuitOpen : string := "ErrCircuitOpen".

(** An open breaker is passed through for the caller to tell. *)
Definition wrapQueryErr (prefix : string) (e : error) : error :=
  if errors_Is e ErrCircuitOpen then e else Errorf prefix [e].

Definition Ping (answer : result value) : option error :=
  match answer with
  | Ok _ => None
  | Err e => Some (if errors_Is e ErrCircuitOpen then e else Errorf "prometheus unreachable" [e])
  end.

Definition QueryInstant (answer : result value) : result float64 :=
  match answer with
  | Err e => Err (wrapQueryErr "instant query" e)
  | Ok (Vector ((_, v) :: _)) => Ok v
  | Ok (Scalar v) => Ok v
  | Ok _ => Ok f_zero
  end.

(** [execRange]'s last step. *)
Definition matrixOf (answer : result value) : result (list (strmap * list TimeValue)) :=
  match answer with
  | Err e => Err e
  | Ok (Matrix m) => Ok m
  | Ok _ => Err (ErrorNew "unexpected prometheus result type")
  end.

(** The first series; a nil slice when there is none. *)
Definition QueryRange (answer : result value) : result (list TimeValue) :=
  match matrixOf answer with
  | Err e => Err (wrapQueryErr "range query" e)
  | Ok [] => Ok []
  | Ok ((_, points) :: _) => Ok points
  end.

Definition QueryRangeByLabel (answer : result value) (label : string) : result (gmap string (list TimeValue)) :=
  match matrixOf answer with
  | Err e => Err (wrapQueryErr "range query" e)
  | Ok m =>
      Ok (foldl (λ out s, let v := index (fst s) label in
                          if String.eqb v "" then out else <[v := snd s]> out) ∅ m)
  end.

(** The values of the labels, none when one is missing or empty. *)
Fixpoint labelsOf (metric : strmap) (labels : list string) : option (list string) :=
  match labels with
  | [] => Some []
  | l :: labels =>
      let v := index metric l in
      if String.eqb v "" then None else cons v <$> labelsOf metric labels
  end.

Definition byLabels (labels : list string) (out : gmap string float64) (s : strmap * float64) : gmap string float64 :=
  match labelsOf (fst s) labels with
  | None => out
  | Some parts => <[String.concat "|" parts := snd s]> out
  end.

Definition QueryByLabels (answer : result value) (labels : list string) : result (gmap string float64) :=
  match answer with
  | Err e => Err (wrapQueryErr "by-labels query" e)
  | Ok (Vector vec) => Ok (foldl (byLabels labels) ∅ vec)
  | Ok _ => Ok ∅
  end.

Definition QueryByLabel (answer : result value) (label : string) : result (gmap string float64) :=
  QueryByLabels answer [label].

(** ** Facts *)

(** A key is joined from the labels of a sample, and holds that sample's value. *)
Lemma byLabels_lookup labels vec out key v :
  foldl (byLabels labels) out vec !! key = Some v →
  out !! key = Some v ∨ ∃ s parts, s ∈ vec ∧ labelsOf (fst s) labels = Some parts ∧ key = String.concat "|" parts ∧ v = snd s.
Proof.
  revert out. induction vec as [|s vec IH]; intros out; cbn [foldl]; [by left|].
  intros [H|(s' & parts & Hin & H)]%IH.
  - unfold byLabels in H. destruct (labelsOf (fst s) labels) as [parts|] eqn:E; [|by left].
    apply lookup_insert_Some in H as [[<- <-]|[_ H]]; [right|by left].
    exists s, parts. split; [by left|done].
  - right. exists s', parts. split; [by right|done].
Qed.
