(* ===== verification/Board.v ===== *)
(** * The board: what the dashboard shows of each identity
    ([health.go], [health_prometheus.go], [board.go], [identities.go] and
    [handlers_workloads.go], in [internal/dashboard])

    The health read from Prometheus for each identity, the one Risk state it is
    classified to, and the rows of the lists, filtered, sorted and paged. JSON and
    the HTTP exchange are not modelled; what Prometheus and the inventory answer
    are arguments. *)

From Stdlib Require Import Ascii SpecFloat.
From stdpp Require Import sets.
From S2P Require Import Prelude GoLang GoFloat GoText GoStrings Quantity Kube PolicyApi WlrApi Owners Shards.
From S2P Require Import Signals Coordination Compute Inventory Params Queries.
Local Open Scope Z_scope.

(** ** Health *)

Record blockedSignal := { bl_Reason : string; bl_Attempts : Z }.

Record identityHealth := {
  ih_Conflicted : bool;
  ih_OOM24h : Z;
  ih_Blocked : option blockedSignal;
  ih_StalePods : Z;
  ih_TotalPods : Z;
  ih_AutoscalerPresent : bool;
}.

(** [identityHealth{}] *)
Definition noSignal : identityHealth :=
  {| ih_Conflicted := false; ih_OOM24h := 0; ih_Blocked := None; ih_StalePods := 0; ih_TotalPods := 0;
     ih_AutoscalerPresent := false |}.

Inductive riskState := riskSafe | riskDrifted | riskAtRisk | riskBlocked | riskConflicted.

#[export] Instance riskState_eq_dec : EqDecision riskState.
Proof. solve_decision. Defined.

Definition riskText (r : riskState) : string :=
  match r with
  | riskSafe => "safe" | riskDrifted => "drifted" | riskAtRisk => "at-risk"
  | riskBlocked => "blocked" | riskConflicted => "conflicted"
  end.

Definition riskStates : list string := map riskText [riskSafe; riskDrifted; riskAtRisk; riskBlocked; riskConflicted].

Definition riskStateOf (h : identityHealth) : riskState :=
  if ih_Conflicted h then riskConflicted
  else if bool_decide (is_Some (ih_Blocked h)) then riskBlocked
  else if 0 <? ih_OOM24h h then riskAtRisk
  else if 0 <? ih_StalePods h then riskDrifted
  else riskSafe.

(** ** Health read from Prometheus *)

Abbreviation healths := (gmap WorkloadIdentity identityHealth).

Section Health.
Context {PL : Platform}.

Definition workloadKey (namespace kind name : string) : string := namespace +:+ "|" +:+ kind +:+ "|" +:+ name.

(** The queries' answers, each a map by identity labels, the blocked one by the
    reason too. *)
Record healthReads := {
  hr_oom : result (gmap string float64);
  hr_stale : result (gmap string float64);
  hr_total : result (gmap string float64);
  hr_blocked : result (gmap string float64);
  hr_attempts : result (gmap string float64);
  hr_autoscaler : result (gmap string float64);
}.

(** A failed query answers a nil map. *)
Definition readMap (r : result (gmap string float64)) : gmap string float64 :=
  match r with Ok m => m | Err _ => ∅ end.

Definition readErrs (rs : list (result (gmap string float64))) : list error :=
  omap (λ r, match r with Err e => Some e | Ok _ => None end) rs.

(** The identity of a key with [extra] labels after its own. *)
Definition keyedIdentity (extra : nat) (key : string) : option (WorkloadIdentity * list string) :=
  match Split "|" key with
  | ns :: kind :: name :: rest =>
      if bool_decide (length rest = extra) then Some (Shards.Identity ns kind name, rest) else None
  | _ => None
  end.

(** [each]: one answer folded into the identities' health. *)
Definition foldKey (extra : nat) (f : identityHealth → list string → float64 → identityHealth)
    (byID : healths) (p : string * float64) : healths :=
  match keyedIdentity extra p.1 with
  | None => byID
  | Some (id, rest) => <[id := f (default noSignal (byID !! id)) rest p.2]> byID
  end.

(** Go iterates over the map in any order. *)
Definition foldEach (m : gmap string float64) (extra : nat)
    (f : identityHealth → list string → float64 → identityHealth) (byID : healths) : healths :=
  foldl (foldKey extra f) byID (map_to_list m).

Definition set_oom (h : identityHealth) (_ : list string) (v : float64) : identityHealth :=
  {| ih_Conflicted := ih_Conflicted h; ih_OOM24h := int64_of_float v; ih_Blocked := ih_Blocked h;
     ih_StalePods := ih_StalePods h; ih_TotalPods := ih_TotalPods h; ih_AutoscalerPresent := ih_AutoscalerPresent h |}.
Definition set_stale (h : identityHealth) (_ : list string) (v : float64) : identityHealth :=
  {| ih_Conflicted := ih_Conflicted h; ih_OOM24h := ih_OOM24h h; ih_Blocked := ih_Blocked h;
     ih_StalePods := int64_of_float v; ih_TotalPods := ih_TotalPods h; ih_AutoscalerPresent := ih_AutoscalerPresent h |}.
Definition set_total (h : identityHealth) (_ : list string) (v : float64) : identityHealth :=
  {| ih_Conflicted := ih_Conflicted h; ih_OOM24h := ih_OOM24h h; ih_Blocked := ih_Blocked h;
     ih_StalePods := ih_StalePods h; ih_TotalPods := int64_of_float v; ih_AutoscalerPresent := ih_AutoscalerPresent h |}.
Definition with_blocked (h : identityHealth) (b : option blockedSignal) : identityHealth :=
  {| ih_Conflicted := ih_Conflicted h; ih_OOM24h := ih_OOM24h h; ih_Blocked := b;
     ih_StalePods := ih_StalePods h; ih_TotalPods := ih_TotalPods h; ih_AutoscalerPresent := ih_AutoscalerPresent h |}.
Definition set_blocked (h : identityHealth) (rest : list string) (_ : float64) : identityHealth :=
  with_blocked h (Some {| bl_Reason := default "" (head rest); bl_Attempts := 0 |}).
Definition set_autoscaler (h : identityHealth) (_ : list string) (v : float64) : identityHealth :=
  {| ih_Conflicted := ih_Conflicted h; ih_OOM24h := ih_OOM24h h; ih_Blocked := ih_Blocked h;
     ih_StalePods := ih_StalePods h; ih_TotalPods := ih_TotalPods h; ih_AutoscalerPresent := f_gtb v f_zero |}.

Definition withAttempts (attempts : gmap string float64) (id : WorkloadIdentity) (h : identityHealth) : identityHealth :=
  match ih_Blocked h with
  | None => h
  | Some b =>
      let n := default f_zero (attempts !! workloadKey (id_Namespace id) (id_OwnerKind id) (id_OwnerName id)) in
      with_blocked h (Some {| bl_Reason := bl_Reason b; bl_Attempts := int64_of_float n |})
  end.

Definition readHealth (r : healthReads) : healths * option error :=
  let byID := foldEach (readMap (hr_oom r)) 0 set_oom ∅ in
  let byID := foldEach (readMap (hr_stale r)) 0 set_stale byID in
  let byID := foldEach (readMap (hr_total r)) 0 set_total byID in
  let byID := foldEach (readMap (hr_blocked r)) 1 set_blocked byID in
  let byID := foldEach (readMap (hr_autoscaler r)) 0 set_autoscaler byID in
  (map_imap (λ id h, Some (withAttempts (readMap (hr_attempts r)) id h)) byID,
   errors_Join (readErrs [hr_oom r; hr_stale r; hr_total r; hr_blocked r; hr_attempts r; hr_autoscaler r])).

(** [forIdentities]: [reads] is what the queries answer, restricted to one
    identity when it is the only one asked for. *)
Definition forIdentities (reads : option WorkloadIdentity → healthReads) (ids : list WorkloadIdentity) :
    healths * option error :=
  match ids with
  | [] => (∅, None)
  | _ =>
      let '(all, err) := readHealth (reads (match ids with [id] => Some id | _ => None end)) in
      (filter (λ p, p.1 ∈ ids) all, err)
  end.
End Health.

(** *** A key read back *)

(** The key of an identity and the labels after its own. *)
Definition labelKey (id : WorkloadIdentity) (rest : list string) : string :=
  String.concat "|" (id_Namespace id :: id_OwnerKind id :: id_OwnerName id :: rest).

Lemma workloadKey_label id : workloadKey (id_Namespace id) (id_OwnerKind id) (id_OwnerName id) = labelKey id [].
Proof. done. Qed.

Lemma keyedIdentity_key extra key id rest :
  keyedIdentity extra key = Some (id, rest) → key = labelKey id rest ∧ length rest = extra.
Proof.
  unfold keyedIdentity. intros H. pose proof (concat_Split "|" key) as Hk.
  destruct (Split "|" key) as [|ns [|kind [|name r]]]; try done. case_bool_decide as Hl; [|done].
  injection H as <- <-. by rewrite <-Hk.
Qed.

(** A label without a bar. *)
Definition plain (s : string) : Prop := whole "|" s.

Definition plain_identity (id : WorkloadIdentity) : Prop :=
  plain (id_Namespace id) ∧ plain (id_OwnerKind id) ∧ plain (id_OwnerName id).

Lemma keyedIdentity_plain id : plain_identity id → keyedIdentity 0 (labelKey id []) = Some (id, []).
Proof.
  intros (Hn & Hk & Ho). unfold keyedIdentity, labelKey. cbn [String.concat].
  rewrite !Split_join by done. rewrite Ho. by destruct id.
Qed.

Lemma keyedIdentity_reason id reason :
  plain_identity id → plain reason → keyedIdentity 1 (labelKey id [reason]) = Some (id, [reason]).
Proof.
  intros (Hn & Hk & Ho) Hr. unfold keyedIdentity, labelKey. cbn [String.concat].
  rewrite !Split_join by done. rewrite Hr. by destruct id.
Qed.

(** *** What an identity's health is read from *)
Section HealthFacts.
Context {PL : Platform}.
Implicit Types (m : gmap string float64) (byID : healths) (id : WorkloadIdentity) (r : healthReads).

(** The entries of an answer about an identity. *)
Definition entryOf (extra : nat) id (p : string * float64) : option (list string * float64) :=
  match keyedIdentity extra p.1 with
  | Some (id', rest) => if decide (id' = id) then Some (rest, p.2) else None
  | None => None
  end.

Definition entries m (extra : nat) id : list (list string * float64) := omap (entryOf extra id) (map_to_list m).

Definition folded (f : identityHealth → list string → float64 → identityHealth) (h : option identityHealth)
    (es : list (list string * float64)) : option identityHealth :=
  match es with
  | [] => h
  | _ => Some (foldl (λ h e, f h e.1 e.2) (default noSignal h) es)
  end.

Lemma folded_cons f h e es : folded f h (e :: es) = folded f (Some (f (default noSignal h) e.1 e.2)) es.
Proof. by destruct es. Qed.

Lemma foldEach_lookup m extra f byID id :
  foldEach m extra f byID !! id = folded f (byID !! id) (entries m extra id).
Proof.
  unfold foldEach, entries. generalize (map_to_list m). intros ps. revert byID.
  induction ps as [|p ps IH]; intros byID; [done|]. cbn [foldl]. rewrite IH.
  assert (Hc : omap (entryOf extra id) (p :: ps) =
    match entryOf extra id p with Some e => e :: omap (entryOf extra id) ps | None => omap (entryOf extra id) ps end) by done.
  rewrite Hc. unfold foldKey. unfold entryOf at 2. destruct (keyedIdentity extra p.1) as [[id' rest]|]; [|done].
  destruct (decide (id' = id)) as [->|Hne]; [|by rewrite lookup_insert_ne].
  by rewrite lookup_insert_eq, folded_cons.
Qed.

Lemma omap_single {B} (g : string * float64 → option B) k m :
  (∀ p y, g p = Some y → p.1 = k) →
  omap g (map_to_list m) = match m !! k with Some v => option_list (g (k, v)) | None => [] end.
Proof.
  intros Hg.
  assert (Hnone : ∀ m, m !! k = None → omap g (map_to_list m) = []).
  { intros m' Hm. destruct (omap g (map_to_list m')) as [|y ys] eqn:E; [done|]. exfalso.
    assert (Hy : y ∈ omap g (map_to_list m')) by (rewrite E; by left).
    apply list_elem_of_omap in Hy as ([k' v] & Hin%elem_of_map_to_list & Hy). apply Hg in Hy as Hk. cbn in Hk. congruence. }
  destruct (m !! k) as [v|] eqn:Ek; [|by apply Hnone].
  assert (Hp : omap g (map_to_list m) ≡ₚ option_list (g (k, v))).
  { rewrite <-(insert_delete_id m k v) by done. rewrite map_to_list_insert by apply lookup_delete_eq.
    assert (Hc : ∀ l, omap g ((k, v) :: l) = option_list (g (k, v)) ++ omap g l) by (intros l; cbn; by destruct (g (k, v))).
    rewrite Hc, Hnone by apply lookup_delete_eq. by rewrite app_nil_r. }
  destruct (g (k, v)); cbn in Hp |- *; [by apply Permutation_length_1_inv|by apply Permutation_nil].
Qed.

Lemma entries_identity m id :
  plain_identity id →
  entries m 0 id = match m !! labelKey id [] with Some v => [([], v)] | None => [] end.
Proof.
  intros Hid. unfold entries. rewrite (omap_single _ (labelKey id [])).
  - destruct (m !! labelKey id []) as [v|]; [|done]. unfold entryOf. cbn [fst].
    by rewrite keyedIdentity_plain, decide_True.
  - intros p y. unfold entryOf. destruct (keyedIdentity 0 p.1) as [[id' rest]|] eqn:E; [|done].
    apply keyedIdentity_key in E as [-> Hl]. case_decide as Hd; [|done]. subst id'. by destruct rest.
Qed.

Lemma elem_of_reasons m id rest v :
  (rest, v) ∈ entries m 1 id →
  ∃ reason, rest = [reason] ∧ m !! labelKey id [reason] = Some v.
Proof.
  intros ([k v'] & Hin%elem_of_map_to_list & He)%list_elem_of_omap. unfold entryOf in He. cbn [fst snd] in He.
  destruct (keyedIdentity 1 k) as [[id' rest']|] eqn:E; [|done]. case_decide as Hd; [|done]. injection He as -> ->.
  apply keyedIdentity_key in E as [-> Hl]. subst id'. destruct rest as [|reason [|]]; try done. by exists reason.
Qed.

Lemma reasons_elem m id reason v :
  plain_identity id → plain reason → m !! labelKey id [reason] = Some v → ([reason], v) ∈ entries m 1 id.
Proof.
  intros Hid Hr Hm. apply list_elem_of_omap. exists (labelKey id [reason], v).
  split; [by apply elem_of_map_to_list|]. unfold entryOf. cbn [fst].
  by rewrite keyedIdentity_reason, decide_True.
Qed.

Definition signalOf m id : option float64 := m !! labelKey id [].

Lemma folded_signal m f h id :
  plain_identity id →
  folded f h (entries m 0 id) =
  match signalOf m id with Some v => Some (f (default noSignal h) [] v) | None => h end.
Proof. intros Hid. rewrite entries_identity by done. unfold signalOf. by destruct (m !! _). Qed.

(** Whether any signal of an identity was read. *)
Definition signalled r id : Prop :=
  is_Some (signalOf (readMap (hr_oom r)) id) ∨ is_Some (signalOf (readMap (hr_stale r)) id) ∨
  is_Some (signalOf (readMap (hr_total r)) id) ∨ is_Some (signalOf (readMap (hr_autoscaler r)) id) ∨
  entries (readMap (hr_blocked r)) 1 id ≠ [].

Lemma folded_blocked h es :
  folded set_blocked h es =
  match last es with
  | Some e => Some (with_blocked (default noSignal h) (Some {| bl_Reason := default "" (head e.1); bl_Attempts := 0 |}))
  | None => h
  end.
Proof.
  induction es as [|e es IH] using rev_ind; [done|]. rewrite last_snoc.
  assert (Hs : folded set_blocked h (es ++ [e]) = Some (set_blocked (default noSignal (folded set_blocked h es)) e.1 e.2)).
  { unfold folded. destruct es; [done|]. cbn [app]. by rewrite app_comm_cons, foldl_app. }
  rewrite Hs, IH. destruct (last es); done.
Qed.

(** Each signal read on its own. *)
Definition signalsOf r id : identityHealth := {|
  ih_Conflicted := false;
  ih_OOM24h := default 0 (int64_of_float <$> signalOf (readMap (hr_oom r)) id);
  ih_Blocked :=
    (λ e, {| bl_Reason := default "" (head e.1);
             bl_Attempts := int64_of_float (default f_zero (signalOf (readMap (hr_attempts r)) id)) |})
    <$> last (entries (readMap (hr_blocked r)) 1 id);
  ih_StalePods := default 0 (int64_of_float <$> signalOf (readMap (hr_stale r)) id);
  ih_TotalPods := default 0 (int64_of_float <$> signalOf (readMap (hr_total r)) id);
  ih_AutoscalerPresent := match signalOf (readMap (hr_autoscaler r)) id with Some v => f_gtb v f_zero | None => false end
|}.

Lemma readHealth_lookup r id :
  plain_identity id →
  (signalled r id → fst (readHealth r) !! id = Some (signalsOf r id)) ∧
  (¬ signalled r id → fst (readHealth r) !! id = None).
Proof.
  intros Hid. unfold readHealth, signalled, signalsOf. cbn [fst]. rewrite map_lookup_imap, !foldEach_lookup, lookup_empty.
  rewrite folded_blocked, !folded_signal by done.
  rewrite <-last_is_Some. unfold withAttempts. rewrite workloadKey_label.
  change (readMap (hr_attempts r) !! labelKey id []) with (signalOf (readMap (hr_attempts r)) id).
  destruct (signalOf (readMap (hr_oom r)) id), (signalOf (readMap (hr_stale r)) id), (signalOf (readMap (hr_total r)) id),
    (signalOf (readMap (hr_autoscaler r)) id), (last (entries (readMap (hr_blocked r)) 1 id)) as [e|];
    cbn; (split; [intros H|intros H]); try done; try (exfalso; apply H; eauto; fail);
    destruct H as [[? ?]|[[? ?]|[[? ?]|[[? ?]|[? ?]]]]]; done.
Qed.

Lemma readErrs_none (rs : list (result (gmap string float64))) x e : x ∈ rs → x = Err e → errors_Join (readErrs rs) ≠ None.
Proof.
  intros Hin ->. assert (He : e ∈ readErrs rs) by (apply list_elem_of_omap; by exists (Err e)).
  unfold errors_Join. destruct (readErrs rs); [by apply elem_of_nil in He|done].
Qed.

Lemma forIdentities_spec (reads : option WorkloadIdentity → healthReads) ids id :
  id ∈ ids →
  ∃ only, fst (forIdentities reads ids) !! id = fst (readHealth (reads only)) !! id ∧
    snd (forIdentities reads ids) = snd (readHealth (reads only)).
Proof.
  intros Hin. unfold forIdentities. destruct ids as [|id' ids]; [by apply elem_of_nil in Hin|].
  exists (match ids with [] => Some id' | _ => None end).
  destruct ids; destruct (readHealth _) as [all err]; cbn [fst snd]; (split; [|done]);
    rewrite map_lookup_filter; destruct (all !! id); cbn; by rewrite ?option_guard_True.
Qed.

(** the board sees each identity's own signals: its health is each query's
    answer under its key, whatever the other series say and whatever fails, and a
    query that failed is reported. *)
Theorem health_reads (reads : option WorkloadIdentity → healthReads) ids id r :
  id ∈ ids → plain_identity id → (∀ only, reads only = r) →
  (signalled r id → fst (forIdentities reads ids) !! id = Some (signalsOf r id)) ∧
  (¬ signalled r id → fst (forIdentities reads ids) !! id = None) ∧
  (∀ reason v, plain reason → readMap (hr_blocked r) !! labelKey id [reason] = Some v → is_Some (ih_Blocked (signalsOf r id))) ∧
  (∀ e, Err e ∈ [hr_oom r; hr_stale r; hr_total r; hr_blocked r; hr_attempts r; hr_autoscaler r] →
    snd (forIdentities reads ids) ≠ None).
Proof.
  intros Hin Hid Hr. destruct (forIdentities_spec reads ids id Hin) as (only & H & Herr). rewrite Hr in H, Herr.
  rewrite H, Herr. destruct (readHealth_lookup r id Hid) as [H1 H2]. split_and!; [done|done| |].
  - intros reason v Hp Hb. cbn [signalsOf ih_Blocked]. apply fmap_is_Some, last_is_Some.
    pose proof (reasons_elem _ id reason v Hid Hp Hb) as He. intros En. rewrite En in He. by apply elem_of_nil in He.
  - intros e He. by eapply readErrs_none.
Qed.
End HealthFacts.

(** ** Rows *)
Section Rows.
Context {PL : Platform} {QO : QuantityOps} {KO : KubeOps} {PO : PromOps}.

Record coordinationFactors := {
  cf_Enabled : bool;
  cf_CPUOverhead : float64;
  cf_MemoryOverhead : float64;
  cf_CPUReplica : float64;
}.

(** [TracedCoordination]; a fact that is not a number reads zero. *)
Definition TracedCoordination (t : option ResourceTrace) : option (float64 * float64) :=
  match t with
  | None => None
  | Some t =>
      match stageNamed (rt_Request t) stageCoordination with
      | None => None
      | Some st =>
          let read name := default f_zero (ParseFloat (default "" (Facts st !! name))) in
          Some (read factOverheadFactor, read factReplicaFactor)
      end
  end.

Definition f_is_zero (f : float64) : bool := SFeqb f f_zero.

(** One container of [coordinationFactorsOf]. *)
Definition addFactors (out : option coordinationFactors) (tr : ContainerTrace) : option coordinationFactors :=
  let zero := {| cf_Enabled := true; cf_CPUOverhead := f_zero; cf_MemoryOverhead := f_zero; cf_CPUReplica := f_zero |} in
  let out :=
    match TracedCoordination (ct_CPU tr) with
    | None => out
    | Some (overhead, replica) =>
        let o := default zero out in
        Some (if f_is_zero (cf_CPUOverhead o)
              then {| cf_Enabled := true; cf_CPUOverhead := overhead; cf_MemoryOverhead := cf_MemoryOverhead o; cf_CPUReplica := replica |}
              else o)
    end in
  match TracedCoordination (ct_Memory tr) with
  | None => out
  | Some (overhead, _) =>
      let o := default zero out in
      Some (if f_is_zero (cf_MemoryOverhead o)
            then {| cf_Enabled := true; cf_CPUOverhead := cf_CPUOverhead o; cf_MemoryOverhead := overhead; cf_CPUReplica := cf_CPUReplica o |}
            else o)
  end.

Definition coordinationFactorsOf (wlr : option WorkloadRecommendation) : option coordinationFactors :=
  match wlr with
  | None => None
  | Some w =>
      let trace := wlr_Trace (wlr_Status w) in
      foldl (λ out name, match trace !! name with Some tr => addFactors out tr | None => out end) None
        (sort_by String.compare (map fst (map_to_list trace)))
  end.

Record identityStatus := {
  st_id : Inventory.Identity;
  st_health : identityHealth;
  st_risk : riskState;
  st_coordination : option coordinationFactors;
}.

Definition with_conflict (h : identityHealth) (c : bool) : identityHealth :=
  {| ih_Conflicted := c; ih_OOM24h := ih_OOM24h h; ih_Blocked := ih_Blocked h; ih_StalePods := ih_StalePods h;
     ih_TotalPods := ih_TotalPods h; ih_AutoscalerPresent := ih_AutoscalerPresent h |}.

Definition statusOf (health : healths) (id : Inventory.Identity) : identityStatus :=
  let h := with_conflict (default noSignal (health !! Inventory.Key id)) (Conflicted id) in
  {| st_id := id; st_health := h; st_risk := riskStateOf h;
     st_coordination := coordinationFactorsOf (Recommendation id) |}.

(** [health] is what [forIdentities] answers of the identities' keys. *)
Definition board (health : list WorkloadIdentity → healths * option error) (ids : list Inventory.Identity) :
    list identityStatus * option error :=
  let '(h, err) := health (map Inventory.Key ids) in
  (map (statusOf h) ids, err).

Definition conflictingPolicies (id : Inventory.Identity) : list string :=
  if Conflicted id then MemberPolicies id else [].

Record containerStatus := {
  cs_Name : string;
  cs_Init : bool;
  cs_CPURequest : string;
  cs_CPULimit : string;
  cs_MemoryRequest : string;
  cs_MemoryLimit : string;
}.

(** Empty for a quantity missing or zero. *)
Definition shown (q : Quantity) : string := if IsZero q then "" else QString q.

Definition containerStatusFor (init : bool) (c : Container) : containerStatus :=
  let r := c_Resources c in
  {| cs_Name := c_Name c; cs_Init := init; cs_CPURequest := shown (rl_Cpu (Requests r));
     cs_CPULimit := shown (rl_Cpu (Limits r)); cs_MemoryRequest := shown (rl_Memory (Requests r));
     cs_MemoryLimit := shown (rl_Memory (Limits r)) |}.

Definition containerStatuses (cs inits : list Container) : list containerStatus :=
  map (containerStatusFor false) cs ++ map (containerStatusFor true) inits.

Record workloadRow := {
  w_Namespace : string;
  w_Kind : string;
  w_Name : string;
  w_Containers : list containerStatus;
  w_RiskState : riskState;
  w_StalePods : Z;
  w_TotalPods : Z;
  w_AutoscalerPresent : bool;
  w_CoordinationFactors : option coordinationFactors;
  w_Departed : bool;
  w_LastSeenAt : string;
}.

Definition rowFor (st : identityStatus) : workloadRow :=
  let id := st_id st in
  {| w_Namespace := id_Namespace (Inventory.Key id); w_Kind := id_OwnerKind (Inventory.Key id);
     w_Name := id_OwnerName (Inventory.Key id);
     w_Containers := containerStatuses (Containers id) (InitContainers id);
     w_RiskState := st_risk st; w_StalePods := ih_StalePods (st_health st); w_TotalPods := ih_TotalPods (st_health st);
     w_AutoscalerPresent := ih_AutoscalerPresent (st_health st); w_CoordinationFactors := st_coordination st;
     w_Departed := Departed id;
     w_LastSeenAt :=
       match Recommendation id with
       | Some wlr =>
           if Departed id && negb (time_IsZero (ObservedAt (wlr_Status wlr)))
           then FormatRFC3339 (ObservedAt (wlr_Status wlr)) else ""
       | None => ""
       end |}.

(** ** The Workloads list *)

Record allWorkloadSummary := {
  aw_row : workloadRow;
  aw_Automated : bool;
  aw_PolicyName : string;
  aw_ConflictingPolicies : list string;
}.

Definition summaryFor (st : identityStatus) : allWorkloadSummary :=
  {| aw_row := rowFor st; aw_Automated := negb (String.eqb (id_Policy (st_id st)) "");
     aw_PolicyName := id_Policy (st_id st); aw_ConflictingPolicies := conflictingPolicies (st_id st) |}.

Record allWorkloadFilters := {
  f_namespace : string;
  f_kind : string;
  f_search : string;
  f_automated : option bool;
  f_departed : option bool;
  f_risk : string;
  f_autoscaler : string;
  f_sortKey : string;
  f_sortDesc : bool;
  f_page : Z;
  f_pageSize : Z;
}.

Definition policyWorkloadSortKeys : list string := ["name"; "namespace"; "kind"; "stalePods"].
Definition allWorkloadSortKeys : list string := policyWorkloadSortKeys ++ ["policyName"].

Definition bind_parsed {A B} (r : parsed A) (k : A → parsed B) : parsed B :=
  match r with inr e => inr e | inl a => k a end.

Definition parseAllWorkloadFilters (q : query) : parsed allWorkloadFilters :=
  bind_parsed (parseEnumParam q "kind" SupportedKinds) (λ kind,
  bind_parsed (parseBoolParam q "automated") (λ automated,
  bind_parsed (parseBoolParam q "departed") (λ departed,
  bind_parsed (parseEnumParam q "risk" riskStates) (λ risk,
  bind_parsed (parseEnumParam q "autoscaler" ["has-autoscaler"; "no-autoscaler"]) (λ autoscaler,
  bind_parsed (parseSortParam q allWorkloadSortKeys "name") (λ sort,
  bind_parsed (parsePageParams q 50 200) (λ page,
  inl {| f_namespace := q "namespace"; f_kind := kind; f_search := ToLower (q "search");
         f_automated := automated; f_departed := departed; f_risk := risk; f_autoscaler := autoscaler;
         f_sortKey := sort.1; f_sortDesc := sort.2; f_page := page.1; f_pageSize := page.2 |}))))))).

Definition nameMatches (w : workloadRow) (needle : string) : bool := containsText (ToLower (w_Name w)) needle.

(** A filter of text keeps every row when it is empty. *)
Definition onText (want : string) (keep : allWorkloadSummary → bool) (l : list allWorkloadSummary) :=
  if String.eqb want "" then l else List.filter keep l.

Definition applyAllWorkloadFilters (l : list allWorkloadSummary) (f : allWorkloadFilters) : list allWorkloadSummary :=
  let l := onText (f_namespace f) (λ w, String.eqb (w_Namespace (aw_row w)) (f_namespace f)) l in
  let l := onText (f_kind f) (λ w, String.eqb (w_Kind (aw_row w)) (f_kind f)) l in
  let l := match f_automated f with Some b => List.filter (λ w, Bool.eqb (aw_Automated w) b) l | None => l end in
  let l := match f_departed f with Some b => List.filter (λ w, Bool.eqb (w_Departed (aw_row w)) b) l | None => l end in
  let l := onText (f_search f) (λ w, nameMatches (aw_row w) (f_search f)) l in
  let l := onText (f_risk f) (λ w, String.eqb (riskText (w_RiskState (aw_row w))) (f_risk f)) l in
  onText (f_autoscaler f)
    (λ w, Bool.eqb (w_AutoscalerPresent (aw_row w)) (String.eqb (f_autoscaler f) "has-autoscaler")) l.

Definition rowOrder (key : string) (a b : workloadRow) : comparison :=
  if String.eqb key "namespace" then String.compare (w_Namespace a) (w_Namespace b)
  else if String.eqb key "kind" then String.compare (w_Kind a) (w_Kind b)
  else if String.eqb key "stalePods" then Z.compare (w_StalePods a) (w_StalePods b)
  else String.compare (w_Name a) (w_Name b).

Definition allWorkloadOrder (key : string) (a b : allWorkloadSummary) : comparison :=
  if String.eqb key "policyName" then String.compare (aw_PolicyName a) (aw_PolicyName b)
  else rowOrder key (aw_row a) (aw_row b).

(** The comparison of [sortWorkloads]. *)
Definition rowCompare {T} (rowOf : T → workloadRow) (primary : T → T → comparison) (desc : bool) (a b : T) : comparison :=
  let ra := rowOf a in
  let rb := rowOf b in
  let c := cmp_or (primary a b)
    (cmp_or (String.compare (w_Name ra) (w_Name rb))
      (cmp_or (String.compare (w_Namespace ra) (w_Namespace rb)) (String.compare (w_Kind ra) (w_Kind rb)))) in
  if desc then CompOpp c else c.

Definition sortWorkloads {T} (items : list T) (rowOf : T → workloadRow) (primary : T → T → comparison) (desc : bool) :
    list T := sort_by (rowCompare rowOf primary desc) items.

Record workloadCounts := { wc_Total : Z; wc_Automated : Z; wc_Manual : Z; wc_Conflicted : Z }.

Definition countOne (c : workloadCounts) (w : allWorkloadSummary) : workloadCounts :=
  if aw_Automated w
  then {| wc_Total := wc_Total c; wc_Automated := wc_Automated c + 1; wc_Manual := wc_Manual c; wc_Conflicted := wc_Conflicted c |}
  else if bool_decide (w_RiskState (aw_row w) = riskConflicted)
  then {| wc_Total := wc_Total c; wc_Automated := wc_Automated c; wc_Manual := wc_Manual c; wc_Conflicted := wc_Conflicted c + 1 |}
  else {| wc_Total := wc_Total c; wc_Automated := wc_Automated c; wc_Manual := wc_Manual c + 1; wc_Conflicted := wc_Conflicted c |}.

Definition countAllWorkloads (l : list allWorkloadSummary) : workloadCounts :=
  foldl countOne {| wc_Total := Z.of_nat (length l); wc_Automated := 0; wc_Manual := 0; wc_Conflicted := 0 |} l.

(** The distinct values, a set: the slice's order is that of Go's map iteration,
    any. *)
Definition uniqueValues {T} (valueOf : T → string) (rows : list T) : gset string :=
  list_to_set (map valueOf rows).

(** What a handler answers: a body, a refused parameter, a failed read, or a
    panic its middleware answers with a 500. *)
Inductive reply (A : Type) :=
  | Answered (a : A)
  | BadRequest (field : string)
  | ReadFailed (e : error)
  | Panicked.
#[global] Arguments Answered {A} a.
#[global] Arguments BadRequest {A} field.
#[global] Arguments ReadFailed {A} e.
#[global] Arguments Panicked {A}.

Record paginatedAllWorkloads := {
  pa_Items : list allWorkloadSummary;
  pa_Total : Z;
  pa_Page : Z;
  pa_PageSize : Z;
  pa_Namespaces : gset string;
  pa_Kinds : gset string;
  pa_Counts : workloadCounts;
}.

(** The listing of [handleAllWorkloads] before its page. *)
Definition listing (statuses : list identityStatus) (f : allWorkloadFilters) : list allWorkloadSummary :=
  sortWorkloads (applyAllWorkloadFilters (map summaryFor statuses) f) aw_row (allWorkloadOrder (f_sortKey f))
    (f_sortDesc f).

(** [ids] is what [clusterIdentities] answers. *)
Definition handleAllWorkloads (health : list WorkloadIdentity → healths * option error)
    (ids : result (list Inventory.Identity)) (q : query) : reply paginatedAllWorkloads :=
  match parseAllWorkloadFilters q with
  | inr (BadParam field) => BadRequest field
  | inl f =>
      match ids with
      | Err e => ReadFailed e
      | Ok ids =>
          let '(statuses, _) := board health ids in
          let all := map summaryFor statuses in
          let l := listing statuses f in
          match pageItems l (f_page f) (f_pageSize f) with
          | None => Panicked
          | Some items =>
              Answered
                {| pa_Items := items; pa_Total := Z.of_nat (length l); pa_Page := f_page f; pa_PageSize := f_pageSize f;
                   pa_Namespaces := uniqueValues (λ w, w_Namespace (aw_row w)) all;
                   pa_Kinds := uniqueValues (λ w, w_Kind (aw_row w)) all;
                   pa_Counts := countAllWorkloads l |}
          end
      end
  end.

(** *** The workloads of a Policy *)

Record paginatedWorkloads := {
  pw_Items : list workloadRow;
  pw_Total : Z;
  pw_Matched : Z;
  pw_Page : Z;
  pw_PageSize : Z;
  pw_Namespaces : gset string;
}.

(** [governed] is what [governedBy] answers of a Policy that could be read. *)
Definition handlePolicyWorkloads (health : list WorkloadIdentity → healths * option error)
    (governed : result (list Inventory.Identity)) (q : query) : reply paginatedWorkloads :=
  match bind_parsed (parseSortParam q policyWorkloadSortKeys "name") (λ sort,
        bind_parsed (parsePageParams q 50 200) (λ page, inl (sort, page))) with
  | inr (BadParam field) => BadRequest field
  | inl (sort, page) =>
      match governed with
      | Err e => ReadFailed e
      | Ok ids =>
          let '(statuses, _) := board health ids in
          let rows := map rowFor statuses in
          let nsFilter := q "namespace" in
          let search := ToLower (q "search") in
          let l := if String.eqb nsFilter "" then rows else List.filter (λ w, String.eqb (w_Namespace w) nsFilter) rows in
          let l := if String.eqb search "" then l else List.filter (λ w, nameMatches w search) l in
          let l := sortWorkloads l id (rowOrder sort.1) sort.2 in
          match pageItems l page.1 page.2 with
          | None => Panicked
          | Some items =>
              Answered
                {| pw_Items := items; pw_Total := Z.of_nat (length l); pw_Matched := Z.of_nat (length rows);
                   pw_Page := page.1; pw_PageSize := page.2; pw_Namespaces := uniqueValues w_Namespace rows |}
          end
      end
  end.
End Rows.

(** *** The list *)
Section RowFacts.
Context {PL : Platform} {QO : QuantityOps} {KO : KubeOps} {PO : PromOps}.
Implicit Types (f : allWorkloadFilters) (q : query) (ids : list Inventory.Identity).

Lemma cmp_reverse_pre {A} (desc : bool) (cmp : A → A → comparison) :
  PreCmp cmp → PreCmp (λ a b, if desc then CompOpp (cmp a b) else cmp a b).
Proof.
  intros H. destruct desc; [|done]. split; unfold cmp_le.
  - intros x y. by rewrite (cmp_antisym cmp x y).
  - intros x y z. rewrite <-!(cmp_antisym cmp). intros H1 H2. by apply (cmp_le_trans cmp z y x).
Qed.

Lemma rowOrder_pre key : PreCmp (rowOrder key).
Proof.
  unfold rowOrder. destruct (String.eqb key "namespace"), (String.eqb key "kind"), (String.eqb key "stalePods"); first [exact (cmp_on_pre w_Namespace _ _)|exact (cmp_on_pre w_Kind _ _)
    |exact (cmp_on_pre w_StalePods _ _)|exact (cmp_on_pre w_Name _ _)].
Qed.

#[export] Instance rowCompare_pre {T} (rowOf : T → workloadRow) (primary : T → T → comparison) desc :
  PreCmp primary → PreCmp (rowCompare rowOf primary desc).
Proof.
  intros Hp. unfold rowCompare. apply (cmp_reverse_pre desc (λ a b, cmp_or _ _)). apply cmp_or_pre; [done|].
  apply cmp_or_pre; [exact (cmp_on_pre (λ a, w_Name (rowOf a)) _ _)|].
  apply cmp_or_pre; [exact (cmp_on_pre (λ a, w_Namespace (rowOf a)) _ _)|exact (cmp_on_pre (λ a, w_Kind (rowOf a)) _ _)].
Qed.

#[export] Instance allWorkloadOrder_pre key : PreCmp (allWorkloadOrder key).
Proof.
  unfold allWorkloadOrder. destruct (String.eqb key "policyName"); [exact (cmp_on_pre aw_PolicyName _ _)|].
  exact (cmp_on_pre aw_row (rowOrder key) (rowOrder_pre key)).
Qed.

Definition rowKey (w : workloadRow) : WorkloadIdentity := Shards.Identity (w_Namespace w) (w_Kind w) (w_Name w).

Lemma rowCompare_eq {T} (rowOf : T → workloadRow) primary desc a b :
  rowCompare rowOf primary desc a b = Eq → rowKey (rowOf a) = rowKey (rowOf b).
Proof.
  unfold rowCompare, rowKey, cmp_or. intros H.
  assert (Hc : String.compare (w_Name (rowOf a)) (w_Name (rowOf b)) = Eq ∧
    String.compare (w_Namespace (rowOf a)) (w_Namespace (rowOf b)) = Eq ∧
    String.compare (w_Kind (rowOf a)) (w_Kind (rowOf b)) = Eq).
  { destruct desc; repeat case_match; try done; by destruct (String.compare (w_Kind _) _). }
  destruct Hc as (->%String.compare_eq_iff & ->%String.compare_eq_iff & ->%String.compare_eq_iff). done.
Qed.

(** A row passes the filters when it passes each that was given. *)
Definition given (want : string) (b : bool) : bool := String.eqb want "" || b.

Definition matches f (w : allWorkloadSummary) : bool :=
  given (f_namespace f) (String.eqb (w_Namespace (aw_row w)) (f_namespace f)) &&
  given (f_kind f) (String.eqb (w_Kind (aw_row w)) (f_kind f)) &&
  match f_automated f with Some b => Bool.eqb (aw_Automated w) b | None => true end &&
  match f_departed f with Some b => Bool.eqb (w_Departed (aw_row w)) b | None => true end &&
  given (f_search f) (nameMatches (aw_row w) (f_search f)) &&
  given (f_risk f) (String.eqb (riskText (w_RiskState (aw_row w))) (f_risk f)) &&
  given (f_autoscaler f) (Bool.eqb (w_AutoscalerPresent (aw_row w)) (String.eqb (f_autoscaler f) "has-autoscaler")).

Lemma filter_true {A} (l : list A) : List.filter (λ _, true) l = l.
Proof. induction l as [|x l IH]; cbn; [done|by rewrite IH]. Qed.

Lemma filter_andb {A} (p1 p2 : A → bool) l : List.filter p2 (List.filter p1 l) = List.filter (λ x, p1 x && p2 x) l.
Proof. induction l as [|x l IH]; cbn; [done|]. destruct (p1 x); cbn; by rewrite IH. Qed.

Lemma onText_filter want keep l : onText want keep l = List.filter (λ w, given want (keep w)) l.
Proof. unfold onText, given. destruct (String.eqb want ""); [by rewrite filter_true|done]. Qed.

Lemma on_bool_filter (o : option bool) (g : allWorkloadSummary → bool) l :
  (match o with Some b => List.filter (λ w, Bool.eqb (g w) b) l | None => l end) =
  List.filter (λ w, match o with Some b => Bool.eqb (g w) b | None => true end) l.
Proof. destruct o; [done|by rewrite filter_true]. Qed.

Lemma applyAllWorkloadFilters_spec l f : applyAllWorkloadFilters l f = List.filter (matches f) l.
Proof.
  unfold applyAllWorkloadFilters. cbv zeta. rewrite !onText_filter.
  rewrite (on_bool_filter (f_automated f) aw_Automated), (on_bool_filter (f_departed f) (λ w, w_Departed (aw_row w))).
  rewrite !filter_andb. apply List.filter_ext. intros w. unfold matches. by rewrite !andb_assoc.
Qed.

Definition counted (c : workloadCounts) : Z := wc_Automated c + wc_Manual c + wc_Conflicted c.

Lemma countOne_fold l c :
  counted (foldl countOne c l) = counted c + Z.of_nat (length l) ∧ wc_Total (foldl countOne c l) = wc_Total c ∧
  wc_Automated (foldl countOne c l) = wc_Automated c + Z.of_nat (length (List.filter aw_Automated l)).
Proof.
  revert c. induction l as [|w l IH]; intros c; [cbn; lia|]. cbn [foldl List.filter]. destruct (IH (countOne c w)) as (H1 & H2 & H3).
  rewrite H1, H2, H3. unfold countOne, counted. destruct (aw_Automated w); [|destruct (bool_decide _)]; cbn; lia.
Qed.

Lemma countAllWorkloads_spec l :
  wc_Total (countAllWorkloads l) = Z.of_nat (length l) ∧ counted (countAllWorkloads l) = Z.of_nat (length l) ∧
  wc_Automated (countAllWorkloads l) = Z.of_nat (length (List.filter aw_Automated l)).
Proof.
  unfold countAllWorkloads. destruct (countOne_fold l {| wc_Total := Z.of_nat (length l); wc_Automated := 0;
    wc_Manual := 0; wc_Conflicted := 0 |}) as (H1 & H2 & H3). by rewrite H1, H2, H3.
Qed.

(** What a request's filters were read as. *)
Lemma parseAll_page q f :
  parseAllWorkloadFilters q = inl f → parsePageParams q 50 200 = inl (f_page f, f_pageSize f) ∧ f_risk f = q "risk".
Proof.
  unfold parseAllWorkloadFilters, bind_parsed.
  destruct (parseEnumParam q "kind" _); [|done]. destruct (parseBoolParam q "automated"); [|done].
  destruct (parseBoolParam q "departed"); [|done]. destruct (parseEnumParam q "risk" _) as [risk|] eqn:Er; [|done].
  destruct (parseEnumParam q "autoscaler" _); [|done]. destruct (parseSortParam _ _ _); [|done].
  destruct (parsePageParams q 50 200) as [[page size]|]; [|done]. intros [= <-]. split; [done|]. cbn.
  unfold parseEnumParam in Er. destruct (String.eqb_spec (q "risk") ""); [congruence|].
  destruct (contains _ _); by simplify_eq.
Qed.

(** The rows a list shows of a board, whatever its order. *)
Definition rowsOf (health : list WorkloadIdentity → healths * option error) ids : list allWorkloadSummary :=
  map summaryFor (fst (board health ids)).

Lemma listing_perm statuses f : listing statuses f ≡ₚ List.filter (matches f) (map summaryFor statuses).
Proof. unfold listing, sortWorkloads. by rewrite sort_by_perm, applyAllWorkloadFilters_spec. Qed.

Lemma board_length health ids : length (fst (board health ids)) = length ids.
Proof. unfold board. destruct (health (map Inventory.Key ids)). cbn. by rewrite length_map. Qed.

Lemma listing_length statuses f : (length (listing statuses f) ≤ length statuses)%nat.
Proof. rewrite listing_perm. etrans; [apply List.filter_length_le|]. by rewrite length_map. Qed.

Lemma handleAll_page health ids q f :
  parseAllWorkloadFilters q = inl f → Z.of_nat (length ids) < 2 ^ 62 → (f_page f - 1) * f_pageSize f < 2 ^ 63 →
  let l := listing (fst (board health ids)) f in
  ∃ p, handleAllWorkloads health (Ok ids) q = Answered p ∧
    pa_Items p = take (Z.to_nat (f_pageSize f)) (drop (Z.to_nat ((f_page f - 1) * f_pageSize f)) l) ∧
    pa_Total p = Z.of_nat (length l) ∧ pa_Counts p = countAllWorkloads l.
Proof.
  intros Hq Hlen Hoff l. unfold handleAllWorkloads. rewrite Hq. unfold l. clear l.
  pose proof (board_length health ids) as Hb. destruct (board health ids) as [statuses err]. cbn [fst] in *.
  destruct (parseAll_page q f Hq) as [Hp _]. pose proof (listing_length statuses f) as Hl.
  destruct (pageItems_request q _ _ (listing statuses f) Hp) as [-> _]; [lia|done|]. eexists. split; [done|]. done.
Qed.

(** The Workloads list answers the page asked for of the rows that pass every
    filter, in the order asked for; its total and the three ways its counts
    split it add up over all of them, not the page's. *)
Theorem list_pages health ids q f :
  parseAllWorkloadFilters q = inl f → Z.of_nat (length ids) < 2 ^ 62 → (f_page f - 1) * f_pageSize f < 2 ^ 63 →
  ∃ p l, handleAllWorkloads health (Ok ids) q = Answered p ∧
    l ≡ₚ List.filter (matches f) (rowsOf health ids) ∧
    StronglySorted (cmp_le (rowCompare aw_row (allWorkloadOrder (f_sortKey f)) (f_sortDesc f))) l ∧
    pa_Items p = take (Z.to_nat (f_pageSize f)) (drop (Z.to_nat ((f_page f - 1) * f_pageSize f)) l) ∧
    pa_Total p = Z.of_nat (length l) ∧ wc_Total (pa_Counts p) = pa_Total p ∧ counted (pa_Counts p) = pa_Total p ∧
    wc_Automated (pa_Counts p) = Z.of_nat (length (List.filter aw_Automated l)).
Proof.
  intros Hq Hlen Hoff. destruct (handleAll_page health ids q f Hq Hlen Hoff) as (p & Hp & Hi & Ht & Hc).
  exists p, (listing (fst (board health ids)) f).
  destruct (countAllWorkloads_spec (listing (fst (board health ids)) f)) as (H1 & H2 & H3).
  rewrite Hc, Ht. split_and!; try done; [apply listing_perm|]. apply sort_by_sorted. apply _.
Qed.

Lemma forIdentities_perm (reads : option WorkloadIdentity → healthReads) keys keys' :
  keys ≡ₚ keys' → forIdentities reads keys = forIdentities reads keys'.
Proof.
  intros Hp. unfold forIdentities.
  assert (Hs : match keys with [id] => Some id | _ => None end = match keys' with [id] => Some id | _ => None end).
  { destruct keys as [|k [|k2 keys]].
    - by apply Permutation_nil in Hp as ->.
    - by apply Permutation_length_1_inv in Hp as ->.
    - apply Permutation_length in Hp. by destruct keys' as [|? [|]]. }
  destruct keys as [|k keys]; [by apply Permutation_nil in Hp as ->|].
  destruct keys' as [|k' keys']; [symmetry in Hp; by apply Permutation_nil in Hp|].
  rewrite Hs. destruct (readHealth _) as [all err]. f_equal. apply map_filter_ext. intros id h _. cbn. by rewrite Hp.
Qed.

Lemma rowsOf_keys health ids :
  map (λ w, rowKey (aw_row w)) (rowsOf health ids) = map Inventory.Key ids.
Proof.
  unfold rowsOf, board. destruct (health (map Inventory.Key ids)). cbn [fst]. rewrite !map_map.
  apply map_ext. intros id. unfold rowKey. cbn. by destruct (Inventory.Key id).
Qed.

Lemma board_perm (health : list WorkloadIdentity → healths * option error) ids ids' :
  health (map Inventory.Key ids) = health (map Inventory.Key ids') → ids ≡ₚ ids' →
  fst (board health ids) ≡ₚ fst (board health ids').
Proof.
  intros Hh Hp. unfold board. rewrite Hh. destruct (health (map Inventory.Key ids')). cbn [fst]. by apply Permutation_map.
Qed.

Lemma listing_stable statuses statuses' f :
  statuses ≡ₚ statuses' → NoDup (map (λ w, rowKey (aw_row w)) (map summaryFor statuses)) →
  listing statuses f = listing statuses' f.
Proof.
  intros Hp Hnd. unfold listing, sortWorkloads. rewrite !applyAllWorkloadFilters_spec. apply (sort_by_unique _); [by apply List_filter_perm, Permutation_map|].
  intros x y [_ Hx]%elem_of_List_filter [_ Hy]%elem_of_List_filter Hc%rowCompare_eq.
  by apply (NoDup_map_inj (λ w, rowKey (aw_row w)) (map summaryFor statuses)).
Qed.

Lemma uniqueValues_perm {T} (g : T → string) l l' : l ≡ₚ l' → uniqueValues g l = uniqueValues g l'.
Proof.
  intros Hp. unfold uniqueValues. apply leibniz_equiv. intros x. rewrite !elem_of_list_to_set. by rewrite Hp.
Qed.

(** Page boundaries are stable: an inventory listed in any order, and its health
    read in any order, is answered by the same reply to every request, the two
    unordered facets taken as sets. *)
Theorem list_stable (reads : option WorkloadIdentity → healthReads) ids ids' q :
  NoDup (map Inventory.Key ids) → ids ≡ₚ ids' →
  handleAllWorkloads (forIdentities reads) (Ok ids) q = handleAllWorkloads (forIdentities reads) (Ok ids') q.
Proof.
  intros Hnd Hp. unfold handleAllWorkloads. destruct (parseAllWorkloadFilters q) as [f|[field]]; [|done].
  pose proof (board_perm (forIdentities reads) ids ids' (forIdentities_perm reads _ _ (Permutation_map Inventory.Key Hp)) Hp) as Hb.
  pose proof (rowsOf_keys (forIdentities reads) ids) as Hk. unfold rowsOf in Hk.
  destruct (board (forIdentities reads) ids) as [st e], (board (forIdentities reads) ids') as [st' e'].
  cbn [fst] in *. rewrite (listing_stable st st' f Hb) by (by rewrite Hk).
  rewrite (uniqueValues_perm _ _ _ (Permutation_map summaryFor Hb)).
  by rewrite (uniqueValues_perm (λ w, w_Kind (aw_row w)) _ _ (Permutation_map summaryFor Hb)).
Qed.
End RowFacts.

(** ** At concrete inputs *)
Section Sample.
#[local] Existing Instance amd64.
#[local] Existing Instance nano_quantity.
#[local] Existing Instance simple_kube.

Definition sample_key (name : string) : WorkloadIdentity := Shards.Identity "prod" "Deployment" name.

Definition sample_one (name policy : string) (conflicted : bool) : Inventory.Identity :=
  {| Inventory.Key := sample_key name; Members := []; Containers := []; InitContainers := []; Since := 0;
     id_Policy := policy; Conflicted := conflicted; Recommendation := None |}.

Definition sample_ids : list Inventory.Identity :=
  [sample_one "web" "frugal" false; sample_one "db" "" false; sample_one "api" "frugal" false; sample_one "job" "" true].

Definition five : float64 := f_of_Z 5.

(** The web retries a patch and was killed; the api was killed; the attempts' query failed. *)
Definition sample_reads (_ : option WorkloadIdentity) : healthReads :=
  {| hr_oom := Ok {["prod|Deployment|web" := five; "prod|Deployment|api" := five]}; hr_stale := Ok ∅; hr_total := Ok ∅;
     hr_blocked := Ok {["prod|Deployment|web|patch" := f_of_Z 1]}; hr_attempts := Err (ErrorNew "timeout"); hr_autoscaler := Ok ∅ |}.

Definition sample_board : list identityStatus := fst (board (forIdentities sample_reads) sample_ids).

Example sample_risks : map st_risk sample_board = [riskBlocked; riskSafe; riskAtRisk; riskConflicted].
Proof. by_running. Qed.

(** A request with one parameter, or none. *)
Definition asking (name v : string) : query := λ n, if String.eqb n name then v else "".

Definition defaults (risk : string) : allWorkloadFilters :=
  {| f_namespace := ""; f_kind := ""; f_search := ""; f_automated := None; f_departed := None; f_risk := risk;
     f_autoscaler := ""; f_sortKey := "name"; f_sortDesc := false; f_page := 1; f_pageSize := 50 |}.

Lemma health_reads_witness :
  fst (forIdentities sample_reads [sample_key "web"; sample_key "db"]) !! sample_key "web" =
    Some (signalsOf (sample_reads None) (sample_key "web")) ∧
  snd (forIdentities sample_reads [sample_key "web"; sample_key "db"]) ≠ None.
Proof.
  destruct (health_reads sample_reads [sample_key "web"; sample_key "db"] (sample_key "web") (sample_reads None))
    as (H1 & _ & _ & H4); [by left|by vm_compute|done|]. split.
  - apply H1. left. exists five. by_running.
  - apply (H4 (ErrorNew "timeout")). by do 4 right; left.
Defined.

Lemma list_pages_witness :
  match handleAllWorkloads (forIdentities sample_reads) (Ok sample_ids) (asking "risk" "blocked") with
  | Answered p => pa_Total p = 1
  | _ => False
  end.
Proof.
  destruct (list_pages (forIdentities sample_reads) sample_ids (asking "risk" "blocked") (defaults "blocked"))
    as (p & l & -> & Hl & _ & _ & -> & _); [by_running|done|done|].
  by rewrite Hl.
Defined.

Lemma list_stable_witness :
  handleAllWorkloads (forIdentities sample_reads) (Ok sample_ids) (asking "sort" "-name") =
  handleAllWorkloads (forIdentities sample_reads) (Ok (reverse sample_ids)) (asking "sort" "-name").
Proof.
  apply list_stable; [by_evaluation|]. by rewrite reverse_Permutation.
Defined.
End Sample.
