(* ===== verification/Overview.v ===== *)
(** * The Overview ([summary_handler.go], in [internal/dashboard])

    One recompute reads the cluster's numbers, the board and the Policies'
    rollups, and counts the reads that failed; [fillRisk] groups the board by
    Risk state. The handler prefers a recent complete answer to a partial one.
    What the queries answer, the identities and their health are arguments. *)

From stdpp Require Import sets.
From S2P Require Import Prelude GoLang Lru Quantity Kube PolicyApi WlrApi Owners Shards Inventory Signals Compute Params Queries Board.
Local Open Scope Z_scope.

#[export] Instance riskState_countable : Countable riskState.
Proof.
  apply (inj_countable riskText (λ s, List.find (λ r, String.eqb (riskText r) s)
    [riskSafe; riskDrifted; riskAtRisk; riskBlocked; riskConflicted])). by intros [].
Defined.

Section Overview.
Context {PL : Platform} {QO : QuantityOps} {KO : KubeOps} {PO : PromOps}.

Record summaryKPI := {
  CPUSavedCores : float64;
  CPUSavedRatio : float64;
  CPUSpark7d : list float64;
  MemSavedBytes : float64;
  MemSavedRatio : float64;
  MemSpark7d : list float64;
  CoordinatedCount : Z;
}.

Record headroomBreakdown := { Used : float64; Idle : float64; Free : float64 }.

Record attentionRow := {
  ar_Namespace : string;
  ar_Kind : string;
  ar_Name : string;
  ar_Signal : string;
  ar_Detail : string;
}.

Record attentionGroup := { ag_Total : Z; ag_Rows : list attentionRow }.

Record policyRollup := {
  pr_Name : string;
  pr_WorkloadCount : Z;
  pr_CPUSavingsCores : float64;
  pr_MemSavingsBytes : float64;
  pr_BlockedCount : Z;
}.

Record summaryResponseV2 := {
  KPI : summaryKPI;
  Headroom : gmap string headroomBreakdown;
  Attention : gmap riskState attentionGroup;
  Policies : list policyRollup;
}.

Definition maxSummaryLastGoodAge : duration := 10 * minute.
Definition summaryCacheKey : string := "summary".

(** ** The board by Risk state *)

(** [attentionSignals]: a blocked identity has its signal. *)
Definition attentionSignals : list (riskState * string * (identityStatus → Z)) :=
  [(riskConflicted, "conflict", λ _, 0);
   (riskBlocked, "blocked", λ st, match ih_Blocked (st_health st) with Some b => bl_Attempts b | None => 0 end);
   (riskAtRisk, "OOM", λ st, ih_OOM24h (st_health st));
   (riskDrifted, "drift", λ st, ih_StalePods (st_health st))].

Definition maxAttentionRows : nat := 10.

Record tally := {
  byState : gmap riskState (list identityStatus);
  blockedByPolicy : gmap string Z;
  coordinated : Z;
}.

Definition tallyOne (t : tally) (st : identityStatus) : tally :=
  {| byState := <[st_risk st := default [] (byState t !! st_risk st) ++ [st]]> (byState t);
     blockedByPolicy :=
       if bool_decide (st_risk st = riskBlocked)
       then let p := id_Policy (st_id st) in <[p := default 0 (blockedByPolicy t !! p) + 1]> (blockedByPolicy t)
       else blockedByPolicy t;
     coordinated := match st_coordination st with Some _ => coordinated t + 1 | None => coordinated t end |}.

Definition worstFirst (severity : identityStatus → Z) (x y : identityStatus) : comparison :=
  cmp_or (severity y ?= severity x) (CompareIdentity (Inventory.Key (st_id x)) (Inventory.Key (st_id y))).

Definition attentionRowOf (signal : string) (st : identityStatus) : attentionRow :=
  let key := Inventory.Key (st_id st) in
  {| ar_Namespace := id_Namespace key; ar_Kind := id_OwnerKind key; ar_Name := id_OwnerName key; ar_Signal := signal;
     ar_Detail := String.concat ", " (conflictingPolicies (st_id st)) |}.

Definition attentionGroupOf (t : tally) (a : riskState * string * (identityStatus → Z)) : attentionGroup :=
  let '(state, signal, severity) := a in
  let group := sort_by (worstFirst severity) (default [] (byState t !! state)) in
  {| ag_Total := Z.of_nat (length group); ag_Rows := map (attentionRowOf signal) (take maxAttentionRows group) |}.

Definition with_blockedCount (t : tally) (p : policyRollup) : policyRollup :=
  {| pr_Name := pr_Name p; pr_WorkloadCount := pr_WorkloadCount p; pr_CPUSavingsCores := pr_CPUSavingsCores p;
     pr_MemSavingsBytes := pr_MemSavingsBytes p; pr_BlockedCount := default 0 (blockedByPolicy t !! pr_Name p) |}.

Definition fillRisk (resp : summaryResponseV2) (statuses : list identityStatus) : summaryResponseV2 :=
  let k := KPI resp in
  let t := foldl tallyOne {| byState := ∅; blockedByPolicy := ∅; coordinated := CoordinatedCount k |} statuses in
  {| KPI := {| CPUSavedCores := CPUSavedCores k; CPUSavedRatio := CPUSavedRatio k; CPUSpark7d := CPUSpark7d k;
               MemSavedBytes := MemSavedBytes k; MemSavedRatio := MemSavedRatio k; MemSpark7d := MemSpark7d k;
               CoordinatedCount := coordinated t |};
     Headroom := Headroom resp;
     Attention := foldl (λ m a, <[a.1.1 := attentionGroupOf t a]> m) (Attention resp) attentionSignals;
     Policies := map (with_blockedCount t) (Policies resp) |}.

(** ** One recompute *)

Definition sparklinePoints (answer : result value) : list float64 * option error :=
  match QueryRange answer with
  | Err e => ([], Some e)
  | Ok pts => (map tv_Value pts, None)
  end.

Definition readHeadroom (answer : result value) : headroomBreakdown * option error :=
  match QueryByLabel answer "segment" with
  | Err e => ({| Used := f_zero; Idle := f_zero; Free := f_zero |}, Some e)
  | Ok bySeg =>
      let seg name := default f_zero (bySeg !! name) in
      ({| Used := seg "used"; Idle := seg "idle"; Free := seg "free" |}, None)
  end.

(** What each read of a recompute answers. *)
Record summaryReads := {
  sr_cpuCores : result value;
  sr_cpuRatio : result value;
  sr_memBytes : result value;
  sr_memRatio : result value;
  sr_cpuSpark : result value;
  sr_memSpark : result value;
  sr_ids : result (list Inventory.Identity);
  sr_health : list WorkloadIdentity → healths * option error;
  sr_cpuHeadroom : result value;
  sr_memHeadroom : result value;
  sr_wlByPolicy : result value;
  sr_cpuByPolicy : result value;
  sr_memByPolicy : result value;
}.

(** A number and its error; zero comes with a failure. *)
Definition number (answer : result value) : float64 * option error :=
  match QueryInstant answer with Ok v => (v, None) | Err e => (f_zero, Some e) end.

Definition byPolicy (answer : result value) : gmap string float64 * option error :=
  match QueryByLabel answer "policy" with Ok m => (m, None) | Err e => (∅, Some e) end.

(** The identities' statuses: none when the inventory cannot be read. *)
Definition readBoard (r : summaryReads) : list identityStatus * option error :=
  match sr_ids r with
  | Err e => ([], Some e)
  | Ok ids => board (sr_health r) ids
  end.

(** The errors recorded, one per failed read. *)
Definition summaryErrs (r : summaryReads) : list error :=
  omap id [(number (sr_cpuCores r)).2; (number (sr_cpuRatio r)).2; (number (sr_memBytes r)).2; (number (sr_memRatio r)).2;
           (sparklinePoints (sr_cpuSpark r)).2; (sparklinePoints (sr_memSpark r)).2; (readBoard r).2;
           (readHeadroom (sr_cpuHeadroom r)).2; (readHeadroom (sr_memHeadroom r)).2;
           (byPolicy (sr_wlByPolicy r)).2; (byPolicy (sr_cpuByPolicy r)).2; (byPolicy (sr_memByPolicy r)).2].

(** The union of the rollups' Policies, sorted. *)
Definition policyNames (wl cpu mem : gmap string float64) : list string :=
  sort_by String.compare (elements (dom wl ∪ dom cpu ∪ dom mem : gset string)).

Definition rollupOf (wl cpu mem : gmap string float64) (name : string) : policyRollup :=
  {| pr_Name := name; pr_WorkloadCount := int64_of_float (default f_zero (wl !! name));
     pr_CPUSavingsCores := default f_zero (cpu !! name); pr_MemSavingsBytes := default f_zero (mem !! name);
     pr_BlockedCount := 0 |}.

Definition computeSummary (r : summaryReads) : summaryResponseV2 * Z :=
  let wl := (byPolicy (sr_wlByPolicy r)).1 in
  let cpu := (byPolicy (sr_cpuByPolicy r)).1 in
  let mem := (byPolicy (sr_memByPolicy r)).1 in
  let resp :=
    {| KPI := {| CPUSavedCores := (number (sr_cpuCores r)).1; CPUSavedRatio := (number (sr_cpuRatio r)).1;
                 CPUSpark7d := (sparklinePoints (sr_cpuSpark r)).1; MemSavedBytes := (number (sr_memBytes r)).1;
                 MemSavedRatio := (number (sr_memRatio r)).1; MemSpark7d := (sparklinePoints (sr_memSpark r)).1;
                 CoordinatedCount := 0 |};
       Headroom := {["cpu" := (readHeadroom (sr_cpuHeadroom r)).1; "memory" := (readHeadroom (sr_memHeadroom r)).1]};
       Attention := ∅;
       Policies := map (rollupOf wl cpu mem) (policyNames wl cpu mem) |} in
  (fillRisk resp (readBoard r).1, Z.of_nat (length (summaryErrs r))).

(** ** What a request is answered *)

(** The errors of a fetch: a partial answer, a panic, or the request's own end. *)
Inductive summaryError :=
  | partialSummary (resp : summaryResponseV2) (failedReads : Z)
  | PanicError
  | Abandoned.

Definition fetchSummary (r : summaryReads) : summaryResponseV2 + summaryError :=
  let '(resp, failedReads) := computeSummary r in
  if 0 <? failedReads then inr (partialSummary resp failedReads) else inl resp.

Inductive summaryReply :=
  | Served (resp : summaryResponseV2)
  | Unavailable
  | Repanicked.

(** A reply, and whether it may be kept for a minute. *)
Definition handleSummary (got : summaryResponseV2 + summaryError) (summarySnapshot : LRU (K := string) (V := summaryResponseV2))
    (now : time) : summaryReply * bool :=
  match got with
  | inl resp => (Served resp, true)
  | inr PanicError => (Repanicked, false)
  | inr err =>
      match LastGoodWithin summarySnapshot now summaryCacheKey maxSummaryLastGoodAge with
      | Some lastGood => (Served lastGood, true)
      | None =>
          match err with
          | partialSummary resp _ => (Served resp, true)
          | _ => (Unavailable, false)
          end
      end
  end.

(** ** The Overview and the lists agree *)

Implicit Types (st : identityStatus) (statuses : list identityStatus) (resp : summaryResponseV2).

Definition of_state (r : riskState) statuses : list identityStatus :=
  List.filter (λ st, bool_decide (st_risk st = r)) statuses.

Definition blocked_under (policy : string) statuses : list identityStatus :=
  List.filter (λ st, bool_decide (st_risk st = riskBlocked ∧ id_Policy (st_id st) = policy)) statuses.

Lemma tally_fold statuses t :
  let t' := foldl tallyOne t statuses in
  (∀ r, default [] (byState t' !! r) = default [] (byState t !! r) ++ of_state r statuses) ∧
  (∀ p, default 0 (blockedByPolicy t' !! p) = default 0 (blockedByPolicy t !! p) + Z.of_nat (length (blocked_under p statuses))).
Proof.
  revert t. induction statuses as [|st statuses IH]; intros t; cbn [foldl of_state blocked_under List.filter length].
  { cbn zeta. split; intros; [by rewrite app_nil_r|lia]. }
  destruct (IH (tallyOne t st)) as [H1 H2]. cbn zeta. split.
  - intros r. rewrite H1. cbn [tallyOne byState]. case_bool_decide as Hr.
    + subst r. by rewrite lookup_insert_eq; cbn; rewrite <-app_assoc.
    + by rewrite lookup_insert_ne.
  - intros p. rewrite H2. cbn [tallyOne blockedByPolicy]. fold (blocked_under p statuses).
    destruct (decide (st_risk st = riskBlocked)) as [Hb|Hb].
    + rewrite bool_decide_true by done. destruct (decide (id_Policy (st_id st) = p)) as [<-|Hp].
      * rewrite lookup_insert_eq, bool_decide_true by done. cbn. lia.
      * rewrite lookup_insert_ne by done. by rewrite bool_decide_false by tauto.
    + by rewrite !bool_decide_false by tauto.
Qed.

(** The severity an attention group ranks by, and the text of its signal. *)
Definition severityOf (r : riskState) : identityStatus → Z :=
  default (λ _, 0) (snd <$> List.find (λ a, bool_decide (a.1.1 = r)) attentionSignals).
Definition signalText (r : riskState) : string :=
  default "" ((λ a, a.1.2) <$> List.find (λ a, bool_decide (a.1.1 = r)) attentionSignals).

Lemma fillRisk_attention resp statuses r :
  r ≠ riskSafe →
  let group := sort_by (worstFirst (severityOf r)) (of_state r statuses) in
  Attention (fillRisk resp statuses) !! r =
  Some {| ag_Total := Z.of_nat (length group); ag_Rows := map (attentionRowOf (signalText r)) (take maxAttentionRows group) |}.
Proof.
  intros Hr group. unfold fillRisk. cbn [Attention].
  pose proof (tally_fold statuses {| byState := ∅; blockedByPolicy := ∅; coordinated := CoordinatedCount (KPI resp) |}) as [Ht _].
  set (t := foldl tallyOne _ statuses) in *. specialize (Ht r). cbn [byState] in Ht. rewrite lookup_empty in Ht.
  change (default [] (byState t !! r) = of_state r statuses) in Ht. unfold group. rewrite <-Ht.
  unfold attentionSignals. cbn [foldl fst].
  destruct r; try done; repeat (rewrite lookup_insert_eq || rewrite lookup_insert_ne by done); done.
Qed.

Lemma fillRisk_policies resp statuses p :
  p ∈ Policies (fillRisk resp statuses) → pr_BlockedCount p = Z.of_nat (length (blocked_under (pr_Name p) statuses)).
Proof.
  unfold fillRisk. cbn [Policies]. intros (p0 & -> & _)%list_elem_of_fmap. cbn [with_blockedCount pr_BlockedCount pr_Name].
  destruct (tally_fold statuses {| byState := ∅; blockedByPolicy := ∅; coordinated := CoordinatedCount (KPI resp) |}) as [_ ->].
  cbn [blockedByPolicy]. by rewrite lookup_empty.
Qed.

#[export] Instance worstFirst_pre severity : PreCmp (worstFirst severity).
Proof.
  apply cmp_or_pre.
  - exact (cmp_desc_pre (λ x y, severity x ?= severity y) (cmp_on_pre severity _ _)).
  - exact (cmp_on_pre (λ st, Inventory.Key (st_id st)) _ _).
Qed.

(** The request for the list of a Risk state. *)
Definition byRisk (r : riskState) : query := λ name, if String.eqb name "risk" then riskText r else "".

Lemma riskText_inj r r' : riskText r = riskText r' → r = r'.
Proof. by destruct r, r'. Qed.

(** What the request for it is read as. *)
Definition riskFilters (r : riskState) : allWorkloadFilters :=
  {| f_namespace := ""; f_kind := ""; f_search := ""; f_automated := None; f_departed := None; f_risk := riskText r;
     f_autoscaler := ""; f_sortKey := "name"; f_sortDesc := false; f_page := 1; f_pageSize := 50 |}.

Lemma parse_byRisk r : parseAllWorkloadFilters (byRisk r) = inl (riskFilters r).
Proof. by destruct r; vm_compute. Qed.

Lemma matches_byRisk r st : matches (riskFilters r) (summaryFor st) = bool_decide (st_risk st = r).
Proof.
  unfold matches, riskFilters, given, onText. cbn [f_namespace f_kind f_search f_automated f_departed f_risk f_autoscaler
    String.eqb orb andb summaryFor aw_row rowFor w_RiskState]. rewrite andb_true_r.
  case_bool_decide as Hr; [by subst; destruct (st_risk st)|].
  destruct (String.eqb_spec (riskText (st_risk st)) (riskText r)) as [He|He]; [|by destruct r].
  by apply riskText_inj in He.
Qed.

Lemma StronglySorted_weaken {A} (R R' : A → A → Prop) l :
  (∀ x y, R x y → R' x y) → StronglySorted R l → StronglySorted R' l.
Proof.
  intros HR. induction 1 as [|x l _ IH Hx]; constructor; [done|].
  eapply Forall_impl; [exact Hx|]. by apply HR.
Qed.

(** How bad an identity is of its Risk state: the retries of a blocked one, the
    kills of one at risk, the stale Pods of a drifted one. *)
Definition badness (r : riskState) st : Z :=
  match r with
  | riskBlocked => match ih_Blocked (st_health st) with Some b => bl_Attempts b | None => 0 end
  | riskAtRisk => ih_OOM24h (st_health st)
  | riskDrifted => ih_StalePods (st_health st)
  | _ => 0
  end.

Definition shownSignal (r : riskState) : string :=
  match r with
  | riskConflicted => "conflict"
  | riskBlocked => "blocked"
  | riskAtRisk => "OOM"
  | riskDrifted => "drift"
  | riskSafe => ""
  end.

(** [x] is listed before [y]: it is worse or, as bad, its identity comes first. *)
Definition listed_before (r : riskState) (x y : identityStatus) : Prop :=
  badness r y < badness r x ∨
  badness r y = badness r x ∧ CompareIdentity (Inventory.Key (st_id x)) (Inventory.Key (st_id y)) ≠ Gt.

Lemma worstFirst_listed r x y : r ≠ riskSafe → cmp_le (worstFirst (severityOf r)) x y → listed_before r x y.
Proof.
  intros Hr. assert (Hs : ∀ st, severityOf r st = badness r st) by (by destruct r).
  unfold cmp_le, worstFirst, cmp_or, listed_before. rewrite !Hs.
  destruct (Z.compare_spec (badness r y) (badness r x)); [by right|by left|done].
Qed.

Lemma listing_byRisk statuses r : listing statuses (riskFilters r) ≡ₚ map summaryFor (of_state r statuses).
Proof.
  rewrite listing_perm. unfold of_state. induction statuses as [|st statuses IH]; [done|].
  cbn [map List.filter]. rewrite matches_byRisk. case_bool_decide; cbn [map]; by rewrite IH.
Qed.

(** C18: The Overview and the Workloads list agree: an attention group's total is
    the list's, asked for that Risk state; its rows name the first ten of the
    same identities, ordered worst first and then by identity, with the state's
    signal and the Policies each is conflicted between; each Policy's count of
    Blocked ones is of those it governs. *)
Theorem overview_agrees (reads : summaryReads) ids r :
  r ≠ riskSafe → sr_ids reads = Ok ids → Z.of_nat (length ids) < 2 ^ 62 →
  let statuses := (board (sr_health reads) ids).1 in
  let resp := (computeSummary reads).1 in
  ∃ g p ranked l, Attention resp !! r = Some g ∧
    handleAllWorkloads (sr_health reads) (Ok ids) (byRisk r) = Answered p ∧
    ag_Total g = pa_Total p ∧ pa_Total p = Z.of_nat (length ranked) ∧
    pa_Items p = take 50 l ∧ l ≡ₚ map summaryFor ranked ∧
    ranked ≡ₚ of_state r statuses ∧ StronglySorted (listed_before r) ranked ∧
    ag_Rows g = map (λ st,
      {| ar_Namespace := id_Namespace (Inventory.Key (st_id st)); ar_Kind := id_OwnerKind (Inventory.Key (st_id st));
         ar_Name := id_OwnerName (Inventory.Key (st_id st)); ar_Signal := shownSignal r;
         ar_Detail := String.concat ", " (conflictingPolicies (st_id st)) |}) (take 10 ranked) ∧
    (∀ pr, pr ∈ Policies resp → pr_BlockedCount pr = Z.of_nat (length (blocked_under (pr_Name pr) statuses))).
Proof.
  intros Hr Hids Hlen statuses resp.
  destruct (handleAll_page (sr_health reads) ids (byRisk r) _ (parse_byRisk r) Hlen) as (p & Hp & Hi & Ht & _);
    [by vm_compute|]. fold statuses in Ht, Hi.
  assert (Hres : ∃ resp0, resp = fillRisk resp0 statuses).
  { unfold resp, computeSummary, readBoard. rewrite Hids. by eexists. }
  destruct Hres as [resp0 ->].
  eexists _, p, (sort_by (worstFirst (severityOf r)) (of_state r statuses)), (listing statuses (riskFilters r)).
  split; [by apply fillRisk_attention|]. cbn [ag_Total ag_Rows].
  assert (Hl : pa_Total p = Z.of_nat (length (sort_by (worstFirst (severityOf r)) (of_state r statuses))))
    by (by rewrite Ht, listing_byRisk, length_map, length_sort_by).
  split_and!; [done|done|done|exact Hi| |apply sort_by_perm| | |by intros; eapply fillRisk_policies].
  - by rewrite listing_byRisk, sort_by_perm.
  - eapply StronglySorted_weaken; [intros x y; by apply worstFirst_listed|]. apply sort_by_sorted. apply _.
  - by destruct r.
Qed.

(** ** What is served *)

(** Every read succeeded. *)
Definition complete (v : summaryResponseV2) : Prop := ∃ r, computeSummary r = (v, 0).

(** What the snapshot holds was fetched whole. *)
Definition holds_complete (c : LRU (K := string) (V := summaryResponseV2)) : Prop :=
  ∀ e, e ∈ lru_view c → complete (en_value e).

Lemma lastGood_complete c now v :
  lru_ok c → holds_complete c → LastGoodWithin c now summaryCacheKey maxSummaryLastGoodAge = Some v →
  complete v ∧ ∃ e, e ∈ lru_view c ∧ en_key e = summaryCacheKey ∧ en_value e = v ∧
    time_Sub now (en_storedAt e) ≤ maxSummaryLastGoodAge.
Proof.
  intros Hok Hc. rewrite LastGoodWithin_refines by done.
  destruct (spec_find _ _) as [e|] eqn:E; [|done]. cbn. unfold fresh_within.
  destruct (Z.ltb_spec maxSummaryLastGoodAge (time_Sub now (en_storedAt e))); [done|]. intros [= <-].
  apply List.find_some in E as [Hin Hk%bool_decide_eq_true]. rewrite <-list_elem_of_In in Hin.
  split; [by apply Hc|]. by exists e.
Qed.

(** A complete answer kept at most ten minutes ago; none was. *)
Definition recent_complete (c : LRU (K := string) (V := summaryResponseV2)) (now : time) v : Prop :=
  complete v ∧ ∃ e, e ∈ lru_view c ∧ en_key e = summaryCacheKey ∧ en_value e = v ∧
    time_Sub now (en_storedAt e) ≤ maxSummaryLastGoodAge.
Definition none_recent (c : LRU (K := string) (V := summaryResponseV2)) (now : time) : Prop :=
  ∀ e, spec_find summaryCacheKey (lru_view c) = Some e → maxSummaryLastGoodAge < time_Sub now (en_storedAt e).

Lemma lastGood_cases c now :
  lru_ok c → holds_complete c →
  match LastGoodWithin c now summaryCacheKey maxSummaryLastGoodAge with
  | Some v => recent_complete c now v
  | None => none_recent c now
  end.
Proof.
  intros Hok Hc. destruct (LastGoodWithin _ _ _ _) as [v|] eqn:El; [by apply lastGood_complete|].
  intros e He. rewrite LastGoodWithin_refines, He in El by done. cbn in El. unfold fresh_within in El.
  by destruct (Z.ltb_spec maxSummaryLastGoodAge (time_Sub now (en_storedAt e))).
Qed.

(** C31: What a request for the Overview gets of each end of its recompute. One
    that finishes is answered: by itself when all its reads succeeded, else by a
    complete answer no older than ten minutes, and by itself, its failed reads
    zeros, only when there is none. One the request did not outlast is answered
    by such a complete answer or, without one, unavailable. One that panicked
    panics again, whatever is kept. Only an answer may be cached. *)
Theorem summary_truest (reads : summaryReads) c now :
  lru_ok c → holds_complete c →
  (∃ v, handleSummary (fetchSummary reads) c now = (Served v, true) ∧
    ((computeSummary reads = (v, 0)) ∨
     (0 < (computeSummary reads).2 ∧ recent_complete c now v) ∨
     (0 < (computeSummary reads).2 ∧ v = (computeSummary reads).1 ∧ none_recent c now))) ∧
  ((∃ v, handleSummary (inr Abandoned) c now = (Served v, true) ∧ recent_complete c now v) ∨
   handleSummary (inr Abandoned) c now = (Unavailable, false) ∧ none_recent c now) ∧
  handleSummary (inr PanicError) c now = (Repanicked, false).
Proof.
  intros Hok Hc. pose proof (lastGood_cases c now Hok Hc) as Hl. split_and!; [| |done].
  - unfold fetchSummary. destruct (computeSummary reads) as [resp failed] eqn:E. cbn [fst snd].
    assert (Hf : 0 ≤ failed) by (unfold computeSummary in E; injection E; lia).
    destruct (Z.ltb_spec 0 failed); unfold handleSummary.
    + destruct (LastGoodWithin c now _ _) as [v|]; eexists; (split; [done|]); right; [by left|by right].
    + exists resp. split; [done|]. left. f_equal. lia.
  - unfold handleSummary. destruct (LastGoodWithin c now _ _) as [v|]; [left|by right]. by exists v.
Qed.
End Overview.

(** ** At concrete inputs *)
Section Sample.
#[local] Existing Instance amd64.
#[local] Existing Instance nano_quantity.
#[local] Existing Instance simple_kube.

(** Every number is one; the cluster has the identities of the board's sample. *)
Definition sample_summary : summaryReads :=
  let one := Ok (Vector [({["policy" := "frugal"; "segment" := "used"]}, five)]) in
  let points := Ok (Matrix []) in
  {| sr_cpuCores := one; sr_cpuRatio := one; sr_memBytes := one; sr_memRatio := one; sr_cpuSpark := points;
     sr_memSpark := points; sr_ids := Ok sample_ids; sr_health := forIdentities sample_reads; sr_cpuHeadroom := one;
     sr_memHeadroom := one; sr_wlByPolicy := one; sr_cpuByPolicy := one; sr_memByPolicy := one |}.

(** The health of the sample's identities came with an error. *)
Example sample_failed : (computeSummary sample_summary).2 = 1.
Proof. by_running. Qed.

Example sample_rollup :
  map (λ p, (pr_Name p, pr_WorkloadCount p, pr_BlockedCount p)) (Policies (computeSummary sample_summary).1) =
  [("frugal", 5, 1)].
Proof. by_running. Qed.

Lemma overview_agrees_witness :
  ag_Total <$> Attention (computeSummary sample_summary).1 !! riskAtRisk = Some 1.
Proof.
  destruct (overview_agrees sample_summary sample_ids riskAtRisk) as (g & p & ranked & l & -> & Hp & Hg & _); [done|done|done|].
  cbn. rewrite Hg.
  assert (Hone : match handleAllWorkloads (sr_health sample_summary) (Ok sample_ids) (byRisk riskAtRisk) with
                 | Answered p => pa_Total p = 1 | _ => False end) by by_evaluation.
  rewrite Hp in Hone. by rewrite Hone.
Defined.

Definition empty_snapshot : LRU (K := string) (V := summaryResponseV2) :=
  {| l_maxEntries := 1; l_ttl := minute; order := []; heap := ∅; l_entries := ∅; next := 0 |}.

Lemma summary_truest_witness :
  handleSummary (fetchSummary sample_summary) empty_snapshot 0 = (Served (computeSummary sample_summary).1, true).
Proof.
  destruct (summary_truest sample_summary empty_snapshot 0) as [(v & Hv & [H|[H|H]]) _].
  - by apply (NewLRU_ok 1 minute).
  - intros e He. by apply elem_of_nil in He.
  - by rewrite Hv, H.
  - destruct H as (_ & _ & e & He & _). by apply elem_of_nil in He.
  - destruct H as (_ & <- & _). done.
Defined.
End Sample.
