(* ===== verification/Charts.v ===== *)
(** * What the dashboard charts of an identity
    ([handlers_workload_metrics.go] and [chartSpan], [stepSeconds],
    [simulationHistory] of [simulate.go], in [internal/dashboard])

    The requests and limits an identity's containers ran with, the usage signal
    its governing Policy reads over a range, and what a Simulation computed over
    it, read at one span. [answers] is what the rule of a metric answers,
    aggregated as the source asks; the texts are in [PromQL]. *)

From S2P Require Import Prelude GoLang Quantity Kube PolicyApi WlrApi Shards Autoscaler Resources Signals Compute Inventory.
From S2P Require Import Assemble History Params Queries Board.
Local Open Scope Z_scope.

Section Charts.
Context {PL : Platform} {QO : QuantityOps} {KO : KubeOps} {PO : PromOps}.

(** [map[string][]TimeValue] *)
Abbreviation ContainerTimeSeries := (gmap string (list TimeValue)).

(** ** Resources *)

Record chartResource := {
  cr_name : resourceKind;
  cr_usage : string;
  cr_request : string;
  cr_limit : string;
}.

Definition chartResources : list chartResource :=
  [{| cr_name := cpuResource; cr_usage := "k8s_sustain:container_cpu_usage_by_workload:rate1m";
      cr_request := "k8s_sustain:container_cpu_requests_by_workload:cores";
      cr_limit := "k8s_sustain:container_cpu_limits_by_workload:cores" |};
   {| cr_name := memoryResource; cr_usage := "k8s_sustain:container_memory_by_workload:bytes";
      cr_request := "k8s_sustain:container_memory_requests_by_workload:bytes";
      cr_limit := "k8s_sustain:container_memory_limits_by_workload:bytes" |}].

(** What the containers of an identity run with. *)
Record containerResources := {
  cr_CPURequest : string;
  cr_CPULimit : string;
  cr_MemoryRequest : string;
  cr_MemoryLimit : string;
}.

Definition containerResourcesOf (id : Inventory.Identity) : option (gmap string containerResources) :=
  match Containers id ++ InitContainers id with
  | [] => None
  | all =>
      Some (foldl (λ m c, <[c_Name c :=
        let s := containerStatusFor false c in
        {| cr_CPURequest := cs_CPURequest s; cr_CPULimit := cs_CPULimit s; cr_MemoryRequest := cs_MemoryRequest s;
           cr_MemoryLimit := cs_MemoryLimit s |}]> m) ∅ all)
  end.

Definition initContainerNamesOf (id : Inventory.Identity) : list string := map c_Name (InitContainers id).

(** ** What ran *)

Record runningResource := { rn_Requests : ContainerTimeSeries; rn_Limits : ContainerTimeSeries }.

Abbreviation runningSeries := (gmap string runningResource).

(** A series that cannot be read is left out. *)
Definition read_series (answer : result value) : ContainerTimeSeries :=
  match QueryRangeByLabel answer "container" with Ok m => m | Err _ => ∅ end.

Definition running (answers : string → result value) : runningSeries :=
  foldl (λ out res, <[resource_name (cr_name res) :=
    {| rn_Requests := read_series (answers (cr_request res)); rn_Limits := read_series (answers (cr_limit res)) |}]> out)
    ∅ chartResources.

(** ** The span of a chart *)

(** Time zones are not modelled: [UTC] keeps the instant. *)
Definition chartSpan (r : TimeRange) (step : duration) : Span := SpanOf (tr_Start r) (tr_End r) step.

Definition stepSeconds (span : Span) : Z := Z.quot (Step span) second.

(** ** The history of a Simulation *)

Record resourceHistory := {
  rh_Usage : list TimeValue;
  rh_RecommendedRequest : list TimeValue;
  rh_RecommendedLimit : list TimeValue;
  rh_RunningRequest : list TimeValue;
  rh_RunningLimit : list TimeValue;
}.

Record simulationHistoryOf := {
  sh_StepSeconds : Z;
  sh_Containers : gmap string (gmap string resourceHistory);
  sh_OOMKills : list OOMKill;
}.

(** A nil map and a map without the key read alike. *)
Definition series_of (m : ContainerTimeSeries) (name : string) : list TimeValue := default [] (m !! name).

Definition resourceHistoryOf (ran : runningSeries) (name : string) (c : gmap string ResourceRange) (res : chartResource) :
    resourceHistory :=
  let computed := default noRange (c !! resource_name (cr_name res)) in
  let r := default {| rn_Requests := ∅; rn_Limits := ∅ |} (ran !! resource_name (cr_name res)) in
  {| rh_Usage := rr_Usage computed; rh_RecommendedRequest := rr_Request computed;
     rh_RecommendedLimit := rr_Limit computed; rh_RunningRequest := series_of (rn_Requests r) name;
     rh_RunningLimit := series_of (rn_Limits r) name |}.

Definition simulationHistory (answers : string → result value) (span : Span) (r : RangeResult) : simulationHistoryOf :=
  let ran := running answers in
  {| sh_StepSeconds := stepSeconds span;
     sh_Containers := map_imap (λ name c,
       Some (foldl (λ h res, <[resource_name (cr_name res) := resourceHistoryOf ran name c res]> h) ∅ chartResources))
       (rg_Containers r);
     sh_OOMKills := OOMKills r |}.

(** ** The usage signal of the detail page *)

Record usageSignalSettings := { us_Percentile : Z; us_Window : string; us_KeepRequest : bool }.

Record usageSignal := {
  sig_Policy : string;
  sig_StepSeconds : Z;
  sig_CPU : usageSignalSettings;
  sig_Memory : usageSignalSettings;
  sig_ExcludeInitContainers : bool;
  sig_Containers : gmap string (gmap string (list TimeValue));
}.

Definition usageSignalSettingsOf (rc : ResourceConfig) : usageSignalSettings :=
  {| us_Percentile := default 0 (Percentile (rc_Requests rc)); us_Window := Window rc;
     us_KeepRequest := KeepRequest (rc_Requests rc) |}.

(** [spec] is what the right-sizing of the governing Policy reads as. [None] is
    the panic of a history that is missing. *)
Definition readHistory {HF : HistoryFetcher} (spec : result RightSizingSpec) (id : Inventory.Identity) (r : TimeRange)
    (step : duration) : option (result (option usageSignal * list OOMKill)) :=
  match spec with
  | Err e => Some (Err e)
  | Ok spec =>
      let span := chartSpan r step in
      match ReadRange spec id span with
      | None => None
      | Some (Err e) => Some (Err e)
      | Some (Ok read) =>
          let kills := OOMKills read in
          if String.eqb (id_Policy id) "" then Some (Ok (None, kills))
          else
            let resources := WithDefaults (rs_ResourcesConfigs spec) in
            Some (Ok (Some
              {| sig_Policy := id_Policy id; sig_StepSeconds := stepSeconds span;
                 sig_CPU := usageSignalSettingsOf (CPU resources); sig_Memory := usageSignalSettingsOf (Memory resources);
                 sig_ExcludeInitContainers := ExcludeInitContainers spec;
                 sig_Containers := fmap (λ c : gmap string ResourceRange, rr_Usage <$> c) (rg_Containers read) |}, kills))
      end
  end.

(** *** The page of an identity's metrics *)

(** The zero spec. *)
Definition noRightSizing : RightSizingSpec :=
  let noResource :=
    {| Window := ""; rc_Requests := {| Headroom := None; KeepRequest := false; MaxAllowed := None; MinAllowed := None;
         Percentile := None |};
       rc_Limits := {| EqualsToRequest := false; KeepLimit := false; KeepLimitRequestRatio := false; NoLimit := false;
         RequestsLimitsRatio := None |}; rc_DownsizeThreshold := None |} in
  {| rs_Update := {| Types := {| ut_Deployment := None; ut_StatefulSet := None; ut_DaemonSet := None;
       ut_CronJob := None; ut_Job := None; ut_ArgoRollout := None; ut_Pod := None |};
       Eviction := {| IgnoreAutoscalerSafeToEvictAnnotations := false |} |};
     rs_ResourcesConfigs := {| CPU := noResource; Memory := noResource |};
     rs_AutoscalerCoordination := {| Enabled := false; ReplicaBudgetAnchor := None |};
     ExcludeInitContainers := false; RecommendOnly := false |}.

(** [policies] is what the API server answers of a Policy by name. *)
Definition rightSizing (policies : string → result Policy) (name : string) : result RightSizingSpec :=
  if String.eqb name "" then Ok noRightSizing
  else
    match policies name with
    | Err e => Err (Errorf "reading Policy" [e])
    | Ok policy => Ok (pol_RightSizing policy)
    end.

Record workloadMetrics := {
  wm_resources : option (gmap string containerResources);
  wm_running : runningSeries;
  wm_oomKills : list OOMKill;
  wm_initContainers : list string;
  wm_signal : option usageSignal;
  wm_signalError : option error;
  wm_average : gmap string ContainerTimeSeries;
}.

(** The replica averages; the first that fails is the answer. *)
Fixpoint averages (answers : string → result value) (rs : list chartResource) (out : gmap string ContainerTimeSeries) :
    result (gmap string ContainerTimeSeries) :=
  match rs with
  | [] => Ok out
  | res :: rs =>
      match QueryRangeByLabel (answers (cr_usage res)) "container" with
      | Err e => Err (Errorf "range query" [e])
      | Ok m => averages answers rs (<[resource_name (cr_name res) := m]> out)
      end
  end.

(** What the goroutine of the identity reads: the identity, its signal, its kills
    and why they are missing. [None] is its panic. [id] is what the inventory
    answers of the identity, nothing when it holds none. *)
Definition readIdentity {HF : HistoryFetcher} (key : WorkloadIdentity) (id : result (option Inventory.Identity))
    (policies : string → result Policy) (tr : TimeRange) (step : duration) :
    option (option Inventory.Identity * result (option usageSignal * list OOMKill)) :=
  match id with
  | Err e => Some (None, Err (Errorf "reading the workload identity" [e]))
  | Ok found =>
      let id := default (newIdentity key) found in
      pair (Some id) <$> readHistory (rightSizing policies (id_Policy id)) id tr step
  end.

Definition handleWorkloadMetrics {HF : HistoryFetcher} (key : WorkloadIdentity)
    (id : result (option Inventory.Identity)) (policies : string → result Policy)
    (answers : string → result value) (q : query) (now : time) : reply workloadMetrics :=
  match parseTimeRange q "168h" now with
  | inr (BadParam field) => BadRequest field
  | inl tr =>
      match parseStepParam q (5 * minute) with
      | inr (BadParam field) => BadRequest field
      | inl step =>
          match readIdentity key id policies tr step, averages answers chartResources ∅ with
          | None, _ => Panicked
          | _, Err e => ReadFailed e
          | Some (found, h), Ok average =>
              Answered
                {| wm_resources := found ≫= containerResourcesOf;
                   wm_running := running answers;
                   wm_oomKills := match h with Ok (_, kills) => kills | Err _ => [] end;
                   wm_initContainers := match found with Some i => initContainerNamesOf i | None => [] end;
                   wm_signal := match h with Ok (s, _) => s | Err _ => None end;
                   wm_signalError := match h with Ok _ => None | Err e => Some e end;
                   wm_average := average |}
          end
      end
  end.
End Charts.

(** ** One usage, two pages *)
Section Agreement.
Context {PL : Platform} {QO : QuantityOps} {KO : KubeOps} {PO : PromOps}.
Implicit Types (r : RangeResult) (res : resourceKind) (p : HistoryPoint).

(** The usage a chart shows of a resource of a container. *)
Definition charted r (n : string) res : list TimeValue :=
  match series r n res with Some rr => rr_Usage rr | None => [] end.

Lemma charted_update r n res f n' res' :
  charted (update r n res f) n' res' =
  if decide (n = n' ∧ res = res') then rr_Usage (f (default noRange (series r n res))) else charted r n' res'.
Proof. unfold charted. rewrite series_update. by case_decide. Qed.

Lemma charted_default r n res : rr_Usage (default noRange (series r n res)) = charted r n res.
Proof. unfold charted. by destruct (series r n res). Qed.

Lemma rr_Usage_add res c req rr :
  rr_Usage (add res c req rr) = rr_Usage rr ++ point (now req) (inputs_usage (inputs req) (c_Name c) res).
Proof. unfold add. by destruct (fst (size res c req)). Qed.

(** The two ranges chart the same usage of every resource whose request is not
    kept. *)
Definition charts_same (cfg : ResourcesConfigs) (read computed : RangeResult) : Prop :=
  ∀ n res, KeepRequest (rc_Requests (config res cfg)) = false → charted read n res = charted computed n res.

Lemma same_step cfg read computed req p c res :
  charts_same cfg read computed →
  charts_same cfg
    (match inputs_usage (hp_Inputs p) (c_Name c) res with
     | Some v =>
         if KeepRequest (rc_Requests (config res cfg)) then read
         else update read (c_Name c) res (λ rr,
           {| rr_Usage := rr_Usage rr ++ point (hp_At p) (Some v); rr_Request := rr_Request rr; rr_Limit := rr_Limit rr |})
     | None => read
     end)
    (update computed (c_Name c) res (add res c (at_point req p))).
Proof.
  intros Hs n res' Hk. rewrite charted_update, rr_Usage_add, charted_default. cbn [inputs now at_point].
  destruct (inputs_usage (hp_Inputs p) (c_Name c) res) as [v|] eqn:Eu.
  - destruct (KeepRequest (rc_Requests (config res cfg))) eqn:Ek.
    + rewrite decide_False; [by apply Hs|]. intros [_ ->]. congruence.
    + rewrite charted_update. cbn [rr_Usage]. rewrite charted_default. case_decide as Hd; [|by apply Hs].
      destruct Hd as [-> ->]. by rewrite Hs.
  - cbn [point]. rewrite app_nil_r. case_decide as Hd; [|by apply Hs]. destruct Hd as [-> ->]. by apply Hs.
Qed.

Lemma same_container cfg read computed req p c :
  charts_same cfg read computed →
  charts_same cfg
    (foldl (λ out res,
      match inputs_usage (hp_Inputs p) (c_Name c) res with
      | Some v =>
          if KeepRequest (rc_Requests (config res cfg)) then out
          else update out (c_Name c) res (λ rr,
            {| rr_Usage := rr_Usage rr ++ point (hp_At p) (Some v); rr_Request := rr_Request rr; rr_Limit := rr_Limit rr |})
      | None => out
      end) read resourceKinds)
    (addBoth req p computed c).
Proof. intros Hs. unfold addBoth, resourceKinds. cbn [foldl]. by do 2 apply same_step. Qed.

Lemma same_point cfg spec id read computed req p :
  charts_same cfg read computed → containers req = sizedContainers spec id (hp_Inputs p) →
  charts_same cfg (readPoint cfg spec id read p) (rangePoint req computed p).
Proof.
  unfold readPoint, rangePoint. fold (addBoth req p). intros Hs ->.
  revert read computed Hs. induction (sizedContainers spec id (hp_Inputs p)) as [|c cs IH]; intros read computed Hs; [done|].
  cbn [foldl]. by apply IH, same_container.
Qed.

Lemma rg_history_fold {A} (f : RangeResult → A → RangeResult) out l :
  (∀ o x, rg_history (f o x) = rg_history o) → rg_history (foldl f out l) = rg_history out.
Proof. intros Hf. revert out. induction l as [|x l IH]; intros out; [done|]. cbn [foldl]. by rewrite IH. Qed.

Lemma readPoint_history cfg spec id out p : rg_history (readPoint cfg spec id out p) = rg_history out.
Proof.
  unfold readPoint. apply rg_history_fold. intros o c. apply rg_history_fold. intros o' res.
  destruct (inputs_usage _ _ _); [|done]. by destruct (KeepRequest _).
Qed.

Lemma rangePoint_history req out p : rg_history (rangePoint req out p) = rg_history out.
Proof. unfold rangePoint. apply rg_history_fold. intros o c. by apply rg_history_fold. Qed.

Lemma sized_known spec (id : Inventory.Identity) w w' :
  Containers id ++ InitContainers id ≠ [] → sizedContainers spec id w = sizedContainers spec id w'.
Proof. unfold sizedContainers. by destruct (Containers id), (InitContainers id). Qed.

Lemma sized_length spec (id : Inventory.Identity) w :
  Containers id ++ InitContainers id ≠ [] → sizedContainers spec id w = ContainersOf spec id.
Proof. unfold sizedContainers. by destruct (Containers id), (InitContainers id). Qed.

Context {AS : Autoscalers} {IF : InputsFetcher} {HF : HistoryFetcher}.

(** The detail page and a Simulation chart one usage: read over the same span,
    what the page reads of an identity is what the Simulation's history is
    computed from, point by point, kills included, and fails as it fails. *)
Theorem charts_agree st at_ spec (id : Inventory.Identity) span a req :
  snd (Assemble st at_ spec [id]) = [a] → as_Request a = Some req → Containers id ++ InitContainers id ≠ [] →
  match ComputeRange req span, ReadRange spec id span with
  | Ok computed, Some (Ok read) =>
      charts_same (WithDefaults (rs_ResourcesConfigs spec)) read computed ∧ OOMKills read = OOMKills computed
  | Err e, Some (Err e') => e = e'
  | Ok _, None => FetchHistory span (resources req) [fetch req] !! Key id = None
  | _, _ => False
  end.
Proof.
  intros Ha Hreq Hne. unfold Assemble in Ha. destruct (readAutoscalers st [id]) as [st' groups]. cbn [snd] in Ha.
  injection Ha as <-. unfold assembleOne in Hreq. cbn [fst snd] in Hreq.
  destruct (default _ _) as [w|e]; [|done]. cbn in Hreq. injection Hreq as <-.
  unfold ComputeRange, ReadRange. cbn [resources fetch ir_Identity]. rewrite (sized_length spec id w Hne).
  destruct (FetchHistory _ _ _ !! Key id) as [[points|e]|]; [|done|done].
  set (req := {| containers := _ |}). unfold computeRange.
  assert (Hs : ∀ read computed, charts_same (WithDefaults (rs_ResourcesConfigs spec)) read computed →
    charts_same (WithDefaults (rs_ResourcesConfigs spec))
      (foldl (readPoint (WithDefaults (rs_ResourcesConfigs spec)) spec id) read points) (foldl (rangePoint req) computed points)).
  { induction points as [|p points IH]; intros read computed Hs; [done|]. cbn [foldl]. apply IH, same_point; [done|].
    unfold req. cbn [containers]. by rewrite (sized_length spec id). }
  split; [by apply Hs|]. unfold OOMKills.
  rewrite !rg_history_fold; [done|intros; apply rangePoint_history|intros; apply readPoint_history].
Qed.
End Agreement.

(** ** At a concrete input *)
Section Sample.
#[local] Existing Instance amd64.
#[local] Existing Instance nano_quantity.
#[local] Existing Instance no_durations.
#[local] Existing Instance simple_kube.
#[local] Existing Instance no_autoscalers.

(** Every identity's inputs are those of the sample request. *)
#[local] Instance known_inputs : InputsFetcher :=
  {| FetchInputs _ _ reqs := list_to_map (map (λ r, (ir_Identity r, Ok (inputs sample_request))) reqs) |}.
#[local] Instance known_history : HistoryFetcher :=
  {| FetchHistory _ _ reqs := list_to_map (map (λ r, (ir_Identity r, Ok sample_points)) reqs) |}.

Definition sample_charted : Inventory.Identity :=
  {| Inventory.Key := sample_key "web"; Members := []; Containers := [sample_container]; InitContainers := [];
     Since := time_zero; id_Policy := "frugal"; Conflicted := false; Recommendation := None |}.

Definition sample_spec : RightSizingSpec :=
  {| rs_Update := rs_Update noRightSizing; rs_ResourcesConfigs := resources sample_request;
     rs_AutoscalerCoordination := rs_AutoscalerCoordination noRightSizing; ExcludeInitContainers := false;
     RecommendOnly := false |}.

Definition sample_span : Span := {| Start := 10 ^ 18; End := 10 ^ 18 + minute; Step := minute |}.

Lemma charts_agree_witness :
  match ReadRange sample_spec sample_charted sample_span with
  | Some (Ok read) => length (charted read "app" memoryResource) = 1%nat
  | _ => False
  end.
Proof.
  destruct (snd (Assemble (AS := no_autoscalers) NewNamespacedSnapshot (10 ^ 18) sample_spec [sample_charted])) as [|a [|]] eqn:Ha; [done| |done].
  destruct (as_Request a) as [req|] eqn:Hreq; [|by injection Ha as <-].
  pose proof (charts_agree (AS := no_autoscalers) NewNamespacedSnapshot (10 ^ 18) sample_spec sample_charted sample_span a req Ha Hreq
    ltac:(done)) as H.
  injection Ha as <-. injection Hreq as <-.
  assert (Hok : match ReadRange sample_spec sample_charted sample_span with Some (Ok _) => true | _ => false end = true) by by_running.
  destruct (ReadRange sample_spec sample_charted sample_span) as [[read|e]|]; [|done|done].
  destruct (ComputeRange _ sample_span) as [computed|e'] eqn:Ec; [|done].
  destruct H as [H _]. rewrite (H "app" memoryResource) by by_running.
  injection Ec as <-. by_running.
Defined.
End Sample.
