(* ===== verification/LiveInputs.v ===== *)
(** * The kills the OOM Pod watcher saw, merged into the inputs
    ([WithLiveOOMs] of [internal/recommender/signal_oom.go], wired in
    [cmd/controller/start.go])

    A fetcher over another: each identity's kills in the watcher's cache are
    merged into what the other read of it. The source of kills is an argument;
    [cacheSource] is the cache of [OomCache], read at an instant. *)

From S2P Require Import Prelude GoLang Quantity PolicyApi Kube Shards Resources Signals Compute Assemble.
From S2P Require Import History OomCache PromInputs.
Local Open Scope Z_scope.

Section LiveInputs.
Context {PL : Platform} {QO : QuantityOps} {PO : PromOps}.

(** [oomwatch.Source]: an identity's kills by container; [None] is a nil record. *)
Context (source : WorkloadIdentity → gmap string (option OOMRecord)).

Definition liveInputs (at_ : time) (id : WorkloadIdentity) (r : result WorkloadInputs) : result WorkloadInputs :=
  match r with Err e => Err e | Ok w => Ok (withLiveOOMs w (source id) at_) end.

Definition liveFetchInputs {IF : InputsFetcher} (at_ : time) (cfg : ResourcesConfigs) (reqs : list InputsRequest) :
    gmap WorkloadIdentity (result WorkloadInputs) :=
  map_imap (λ id r, Some (liveInputs at_ id r)) (FetchInputs at_ cfg reqs).

(** The kills are read once for an identity, and merged at each instant. *)
Definition livePoints (live : gmap string (option OOMRecord)) (h : list HistoryPoint) : list HistoryPoint :=
  map (λ p, {| hp_At := hp_At p; hp_Inputs := withLiveOOMs (hp_Inputs p) live (hp_At p) |}) h.

Definition liveFetchHistory {HF : HistoryFetcher} (span : Span) (cfg : ResourcesConfigs) (reqs : list InputsRequest) :
    gmap WorkloadIdentity (result (list HistoryPoint)) :=
  map_imap (λ id r, Some (match r with Err e => Err e | Ok h => Ok (livePoints (source id) h) end))
    (FetchHistory span cfg reqs).

(** [WithLiveOOMs] *)
Definition WithLiveOOMs (IF : InputsFetcher) : InputsFetcher := {| FetchInputs := liveFetchInputs |}.
Definition WithLiveHistories (HF : HistoryFetcher) : HistoryFetcher := {| FetchHistory := liveFetchHistory |}.

(** The decorated fetcher keeps the promise of the interface. *)
Lemma live_fetcher_laws {IF : InputsFetcher} : FetcherLaws (IF := IF) → FetcherLaws (IF := WithLiveOOMs IF).
Proof.
  intros [Hdom]. constructor. intros at_ cfg reqs id. rewrite <-(Hdom at_ cfg reqs id). cbn [FetchInputs WithLiveOOMs].
  unfold liveFetchInputs. rewrite map_lookup_imap.
  destruct (FetchInputs at_ cfg reqs !! id); cbn [option_bind mbind];
    [split; intros _; eauto|reflexivity].
Qed.
End LiveInputs.

(** What a read of the watcher's cache at [now] answers. *)
Definition cacheSource (c : Cache) (now : time) (id : WorkloadIdentity) : gmap string (option OOMRecord) :=
  Some <$> snd (ByWorkload c now id).

(** ** Facts *)
Section Facts.
Context {PL : Platform} {QO : QuantityOps} {PO : PromOps}.

(** When a recorded kill happened. *)
Definition killedAt (rec : OOMRecord) : time :=
  if time_IsZero (or_TerminatedAt rec) then or_ObservedAt rec else or_TerminatedAt rec.

(** A kill counts as of [at_] that happened by then and was seen within the
    window of it. *)
Definition counts (at_ : time) (rec : OOMRecord) : Prop :=
  time_Sub at_ (or_ObservedAt rec) ≤ LiveOOMWindow ∧ killedAt rec ≤ at_.

#[global] Instance counts_dec at_ rec : Decision (counts at_ rec).
Proof. unfold counts. apply _. Defined.

(** What a kill adds to what the rules read of its container. *)
Definition withKill (mo : option OOM) (rec : OOMRecord) : OOM :=
  let o := default noOOM mo in
  {| Kills := Kills o; PeakBytes := PeakBytes o; HasPeak := HasPeak o;
     LimitBytes := f_max (LimitBytes o) (f_of_Z (or_OOMLimitBytes rec)); LiveAt := killedAt rec;
     KillsInStep := KillsInStep o |}.

Lemma mergeLive_spec at_ mo rec :
  mergeLive at_ mo rec = if decide (counts at_ rec) then Some (withKill mo rec) else mo.
Proof.
  unfold mergeLive. fold (killedAt rec). unfold time_After, counts.
  destruct (Z.ltb_spec LiveOOMWindow (time_Sub at_ (or_ObservedAt rec))); [rewrite decide_False by lia; done|].
  destruct (Z.ltb_spec at_ (killedAt rec)); [rewrite decide_False by lia; done|]. by rewrite decide_True by lia.
Qed.

(** The kills the inputs hold of a container, and nothing else, take the records
    that count. *)
Lemma withLiveOOMs_spec w live at_ n :
  oomOfInputs (withLiveOOMs w live at_) oomName !! n =
    match live !! n with
    | Some (Some rec) => if decide (counts at_ rec) then Some (withKill (oomOfInputs w oomName !! n) rec)
                         else oomOfInputs w oomName !! n
    | _ => oomOfInputs w oomName !! n
    end.
Proof.
  unfold withLiveOOMs. case_decide as He; [by rewrite He, lookup_empty|].
  unfold oomOfInputs at 1, set_values. change (sig_name oomFloor) with oomName. rewrite lookup_insert_eq, lookup_merge.
  unfold mergeLiveAt, diag_None. destruct (live !! n) as [[rec|]|]; destruct (oomOfInputs w oomName !! n); try done;
    by rewrite mergeLive_spec.
Qed.

Lemma withLiveOOMs_others w live at_ name : name ≠ oomName → withLiveOOMs w live at_ !! name = w !! name.
Proof.
  intros Hn. unfold withLiveOOMs, set_values. case_decide; [done|]. by rewrite lookup_insert_ne by (intros E; by apply Hn).
Qed.

(** C23: The controller keeps a kill in the cache as long as it counts. Read through the
    cache, an identity's inputs are those the rules gave of every other signal;
    of its kills, every record the cache holds that is seen within the window
    by the time it is read, and happened by the instant of the inputs, raises its
    container's kill, one seen longer before the instant or of a later kill
    changes nothing, and an identity that could not be read stays failed. *)
Theorem live_kills_counted {IF : InputsFetcher} c now at_ cfg reqs id :
  well_formed c → ttl c = LiveOOMWindow → at_ ≤ now →
  match FetchInputs (InputsFetcher := IF) at_ cfg reqs !! id, liveFetchInputs (cacheSource c now) at_ cfg reqs !! id with
  | Some (Ok w), Some (Ok w') =>
      (∀ name, name ≠ oomName → w' !! name = w !! name) ∧
      ∀ n, let before := oomOfInputs w oomName !! n in
           let after := oomOfInputs w' oomName !! n in
           match entries c !! OOMKey id n with
           | None => after = before
           | Some rec =>
               (time_Sub now (or_ObservedAt rec) ≤ LiveOOMWindow → killedAt rec ≤ at_ → after = Some (withKill before rec)) ∧
               (¬ counts at_ rec → after = before)
           end
  | Some (Err e), Some (Err e') => e' = e
  | None, None => True
  | _, _ => False
  end.
Proof.
  intros Hwf Httl Hat. unfold liveFetchInputs. rewrite map_lookup_imap.
  destruct (FetchInputs at_ cfg reqs !! id) as [[w|e]|]; cbn [option_bind mbind liveInputs]; [|done..]. split.
  { intros name Hn. by apply withLiveOOMs_others. }
  intros n. cbn zeta. rewrite withLiveOOMs_spec. unfold cacheSource. rewrite lookup_fmap.
  generalize (oomOfInputs w oomName !! n). intros before.
  assert (Hr : ∀ r, snd (ByWorkload c now id) !! n = Some r ↔
            entries c !! OOMKey id n = Some r ∧ time_Sub now (or_ObservedAt r) ≤ LiveOOMWindow).
  { intros r. rewrite <-Httl. by apply ByWorkload_fresh. }
  destruct (snd (ByWorkload c now id) !! n) as [r|] eqn:E; cbn [fmap option_fmap option_map].
  - destruct (proj1 (Hr r) eq_refl) as [-> Hf]. split; [|intros Hc; by rewrite decide_False].
    intros _ Hk. rewrite decide_True; [done|]. split; [|done]. unfold time_Sub in *. lia.
  - destruct (entries c !! OOMKey id n) as [r|] eqn:Er; [|done]. split; [|done]. intros Hf _.
    pose proof (proj2 (Hr r) (conj eq_refl Hf)) as H. discriminate H.
Qed.
End Facts.

(** ** At a concrete input *)
Section Sample.
#[local] Existing Instance nano_quantity.
#[local] Existing Instance amd64.
#[local] Existing Instance no_durations.

#[local] Instance sample_fetcher : InputsFetcher :=
  {| FetchInputs _ _ _ := {[ Identity "prod" "Deployment" "web" := Ok ∅ ]} |}.

Definition sample_live : Cache := fst (RecordOOM (NewCache LiveOOMWindow) sample_key (sample_kill 1 100 500)).

Lemma live_kills_counted_witness :
  match liveFetchInputs (cacheSource sample_live 300) 200 sample_resources [] !! Identity "prod" "Deployment" "web" with
  | Some (Ok w) => LimitBytes <$> oomOfInputs w oomName !! "app" = Some (f_of_Z 500)
  | _ => False
  end.
Proof.
  assert (Hwf : well_formed sample_live) by apply RecordOOM_wf, NewCache_wf.
  pose proof (live_kills_counted sample_live 300 200 sample_resources [] (Identity "prod" "Deployment" "web") Hwf eq_refl
    ltac:(lia)) as H.
  cbn [FetchInputs sample_fetcher] in H. rewrite lookup_singleton_eq in H.
  destruct (liveFetchInputs _ _ _ _ !! _) as [[w|]|]; [|done..]. destruct H as [_ H]. specialize (H "app"). cbn zeta in H.
  assert (Hk : entries sample_live !! OOMKey (Identity "prod" "Deployment" "web") "app" = Some (sample_kill 1 100 500))
    by by_running.
  rewrite Hk in H. destruct H as [H _]. rewrite H; [by_running|vm_compute; discriminate|vm_compute; discriminate].
Defined.
End Sample.
