(* ===== verification/Simulate.v ===== *)
(** * Simulations ([simulation_settings.go], [simulate.go], [handlers_simulate.go]
    and [batch_simulate.go], in [internal/dashboard])

    The settings a Simulation runs with, the rules of the Policy CRD an override
    of them is held to, the Simulation of one identity, and that of all a Policy
    governs with its savings. Decoding a merge patch onto the settings is
    [applyPatch], a parameter: it is of a JSON library. So are the answers of
    the API server, the inventory and Prometheus. *)

From Stdlib Require Import Ascii SpecFloat.
From stdpp Require Import sets.
From S2P Require Import Prelude GoLang GoText GoStrings Quantity Kube PolicyApi WlrApi Owners Shards Autoscaler Resources Signals Compute.
From S2P Require Import OomCache LiveInputs Inventory Assemble History Ledger Pass Params Queries Board Charts.
Local Open Scope Z_scope.

#[export] Instance float_eq_dec : EqDecision float64.
Proof. solve_decision. Defined.

Section Simulate.
Context {PL : Platform} {QO : QuantityOps} {KO : KubeOps} {PO : PromOps}.

(** ** Settings *)

Record simulationSettings := {
  ss_ResourcesConfigs : ResourcesConfigs;
  ss_AutoscalerCoordination : AutoscalerCoordination;
  ss_ExcludeInitContainers : bool;
}.

Definition settingsOf (spec : RightSizingSpec) : simulationSettings :=
  {| ss_ResourcesConfigs := rs_ResourcesConfigs spec; ss_AutoscalerCoordination := rs_AutoscalerCoordination spec;
     ss_ExcludeInitContainers := ExcludeInitContainers spec |}.

(** [simulationSettings.rightSizing] *)
Definition rightSizingOf (s : simulationSettings) : RightSizingSpec :=
  {| rs_Update := rs_Update noRightSizing; rs_ResourcesConfigs := ss_ResourcesConfigs s;
     rs_AutoscalerCoordination := ss_AutoscalerCoordination s; ExcludeInitContainers := ss_ExcludeInitContainers s;
     RecommendOnly := false |}.

(** What an error says: its text with the value it is about, so that two say the
    same exactly when their texts are equal. *)
Inductive complaint :=
  | NotWindow (w : string)
  | PercentileOut (p : Z)
  | HeadroomOut (h : Z)
  | MinOverMax
  | KeptCombined
  | RatioUnderOne (r : float64)
  | ManyStrategies
  | PercentOut (p : Z)
  | AnchorOut (a : float64)
  | Says (text : string).

#[export] Instance complaint_eq_dec : EqDecision complaint.
Proof. solve_decision. Defined.

Record settingsError := { se_field : string; se_msg : complaint }.

#[export] Instance settingsError_eq_dec : EqDecision settingsError.
Proof. solve_decision. Defined.

Definition f_one : float64 := f_of_Z 1.

(** One rule: its error when it is broken. *)
Definition broken_if (b : bool) (field : string) (msg : complaint) : list settingsError :=
  if b then [{| se_field := field; se_msg := msg |}] else [].

Definition strategies (l : ResourceLimitsConfig) : nat :=
  length (List.filter id [EqualsToRequest l; KeepLimit l; KeepLimitRequestRatio l; NoLimit l;
    match RequestsLimitsRatio l with Some _ => true | None => false end]).

Definition is_set {A} (o : option A) : bool := match o with Some _ => true | None => false end.

Definition resourceViolations (path : string) (c : ResourceConfig) : list settingsError :=
  let req := rc_Requests c in
  let l := rc_Limits c in
  broken_if (negb (String.eqb (Window c) "") && negb (windowPattern (Window c))) (path +:+ ".window") (NotWindow (Window c)) ++
  match Percentile req with
  | Some p => broken_if ((p <? 1) || (100 <? p)) (path +:+ ".requests.percentile") (PercentileOut p)
  | None => []
  end ++
  match Headroom req with
  | Some h => broken_if ((h <? 0) || (100 <? h)) (path +:+ ".requests.headroom") (HeadroomOut h)
  | None => []
  end ++
  match MinAllowed req, MaxAllowed req with
  | Some mn, Some mx => broken_if (is_gt (Cmp mn mx)) (path +:+ ".requests") MinOverMax
  | _, _ => []
  end ++
  broken_if (KeepRequest req &&
      (is_set (Headroom req) || is_set (Percentile req) || is_set (MinAllowed req) || is_set (MaxAllowed req)))
    (path +:+ ".requests") KeptCombined ++
  match RequestsLimitsRatio l with
  | Some r => broken_if (f_ltb r f_one) (path +:+ ".limits.requestsLimitsRatio") (RatioUnderOne r)
  | None => []
  end ++
  broken_if (1 <? Z.of_nat (strategies l)) (path +:+ ".limits") ManyStrategies ++
  match rc_DownsizeThreshold c with
  | Some d =>
      match Percent d with
      | Some p => broken_if ((p <? 0) || (100 <? p)) (path +:+ ".downsizeThreshold.percent") (PercentOut p)
      | None => []
      end
  | None => []
  end.

Definition violations (s : simulationSettings) : list settingsError :=
  resourceViolations "resourcesConfigs.cpu" (CPU (ss_ResourcesConfigs s)) ++
  resourceViolations "resourcesConfigs.memory" (Memory (ss_ResourcesConfigs s)) ++
  match ReplicaBudgetAnchor (ss_AutoscalerCoordination s) with
  | Some a => broken_if (f_ltb a f_zero || f_gtb a f_one) "autoscalerCoordination.replicaBudgetAnchor" (AnchorOut a)
  | None => []
  end.

(** ** Overrides *)

(** [applyPatch] merges, checks the quantities and decodes. *)
Context (applyPatch : simulationSettings → string → simulationSettings + settingsError).

Definition override (s : simulationSettings) (patch : string) : simulationSettings + settingsError :=
  let p := TrimSpace patch in
  if String.eqb p "" || String.eqb p "null" then inl s
  else if negb (String.prefix "{" p) then inr {| se_field := "override"; se_msg := Says "must be a JSON object" |}
  else
    match applyPatch s patch with
    | inr e => inr e
    | inl out =>
        let admitted := violations s in
        match List.find (λ v, negb (contains v admitted)) (violations out) with
        | Some v => inr v
        | None => inl out
        end
    end.

(** ** One Simulation *)

Record simulateRequest := {
  sq_Namespace : string;
  sq_OwnerKind : string;
  sq_OwnerName : string;
  sq_Window : string;
  sq_Step : string;
  sq_FromTs : Z;
  sq_ToTs : Z;
  sq_Policy : string;
  sq_Override : string;
}.

Definition sq_key (req : simulateRequest) : WorkloadIdentity :=
  Shards.Identity (sq_Namespace req) (sq_OwnerKind req) (sq_OwnerName req).

Record simulationContainerResult := {
  sc_CPURequest : string;
  sc_MemoryRequest : string;
  sc_CPULimit : string;
  sc_MemoryLimit : string;
  sc_CPULimitRemoved : bool;
  sc_MemoryLimitRemoved : bool;
  sc_CPUUsageCores : float64;
  sc_MemoryUsageBytes : float64;
}.

Record simulationResult := {
  sim_Policy : string;
  sim_Effective : simulationSettings;
  sim_Outcome : RecommendationOutcome;
  sim_Containers : gmap string simulationContainerResult;
  sim_Trace : gmap string ContainerTrace;
  sim_InitContainers : list string;
  sim_Resources : option (gmap string containerResources);
  sim_History : result simulationHistoryOf;
}.

(** A quantity's text, empty without one. *)
Definition text_of (q : option Quantity) : string := match q with Some q => QString q | None => "" end.

Definition simulated_container (inputs : WorkloadInputs) (name : string) (rec : ContainerRecommendation) :
    simulationContainerResult :=
  {| sc_CPURequest := text_of (CPURequest rec); sc_MemoryRequest := text_of (MemoryRequest rec);
     sc_CPULimit := text_of (CPULimit rec); sc_MemoryLimit := text_of (MemoryLimit rec);
     sc_CPULimitRemoved := RemoveCPULimit rec; sc_MemoryLimitRemoved := RemoveMemoryLimit rec;
     sc_CPUUsageCores := Usage inputs name cpuResource; sc_MemoryUsageBytes := Usage inputs name memoryResource |}.

Definition simulationContainers (res : Compute.Result) (inputs : WorkloadInputs) : gmap string simulationContainerResult :=
  map_imap (λ name rec, Some (simulated_container inputs name rec)) (Recs res).

(** [None] is a window Prometheus does not parse. *)
Definition simulationRange (req : simulateRequest) (now : time) : option TimeRange :=
  if (0 <? sq_FromTs req) && (0 <? sq_ToTs req)
  then Some {| tr_Start := time_Unix (sq_FromTs req); tr_End := time_Unix (sq_ToTs req) |}
  else TimeRangeFromWindow (ResourceWindow (sq_Window req)) now.

(** What a Simulation fails with. *)
Inductive simError :=
  | InvalidOverride (e : settingsError)
  | BasePolicy (e : error)
  | SimFailed (e : error).

Definition or_text (s def : string) : string := if String.eqb s "" then def else s.

Context {AS : Autoscalers} {IF : InputsFetcher} {HF : HistoryFetcher}.

(** The Simulation under given settings. [None] is a panic of [Assemble]'s, which
    answers every identity. *)
Definition simulate (st : as_state) (at_ : time) (answers : string → result value) (req : simulateRequest)
    (policy : string) (settings : simulationSettings) (id : Inventory.Identity) : option (simulationResult + simError) :=
  match snd (Assemble st at_ (rightSizingOf settings) [id]) with
  | a :: _ =>
      match as_Err a, as_Request a with
      | Some e, _ => Some (inr (SimFailed e))
      | None, None => None
      | None, Some r =>
          let res := Compute r in
          match simulationRange req (Compute.now r), ParseStep (or_text (sq_Step req) "5m") with
          | None, _ => Some (inr (SimFailed (Errorf "resolve chart window" [])))
          | _, None => Some (inr (SimFailed (ErrorNew "step")))
          | Some tr, Some step =>
              let span := chartSpan tr step in
              Some (inl
                {| sim_Policy := policy;
                   sim_Effective :=
                     {| ss_ResourcesConfigs := Compute.resources r;
                        ss_AutoscalerCoordination := ss_AutoscalerCoordination settings;
                        ss_ExcludeInitContainers := ss_ExcludeInitContainers settings |};
                   sim_Outcome := Recorded (r_Outcome res);
                   sim_Containers := simulationContainers res (Compute.inputs r);
                   sim_Trace := Traces res;
                   sim_InitContainers := initContainerNamesOf id;
                   sim_Resources := containerResourcesOf id;
                   sim_History :=
                     match ComputeRange r span with
                     | Err e => Err e
                     | Ok history => Ok (simulationHistory answers span history)
                     end |})
          end
      end
  | [] => None
  end.

(** [id] is what the inventory answers of the identity, nothing when it holds
    none. *)
Definition runSimulation (st : as_state) (at_ : time) (answers : string → result value)
    (policies : string → result Policy) (id : result (option Inventory.Identity)) (req : simulateRequest) :
    option (simulationResult + simError) :=
  match id with
  | Err e => Some (inr (SimFailed (Errorf "reading the workload identity" [e])))
  | Ok found =>
      let id := default (newIdentity (sq_key req)) found in
      let policy := or_text (sq_Policy req) (id_Policy id) in
      match rightSizing policies policy with
      | Err e => Some (inr (BasePolicy e))
      | Ok spec =>
          match override (settingsOf spec) (sq_Override req) with
          | inr e => Some (inr (InvalidOverride e))
          | inl settings => simulate st at_ answers req policy settings id
          end
      end
  end.

(** The request as the handler completes it. *)
Definition completed (req : simulateRequest) : simulateRequest :=
  {| sq_Namespace := sq_Namespace req; sq_OwnerKind := sq_OwnerKind req; sq_OwnerName := sq_OwnerName req;
     sq_Window := or_text (sq_Window req) "168h"; sq_Step := or_text (sq_Step req) "5m";
     sq_FromTs := sq_FromTs req; sq_ToTs := sq_ToTs req; sq_Policy := sq_Policy req; sq_Override := sq_Override req |}.

(** The field a decoded request is refused for. [now] is the handler's own
    reading of the clock. *)
Definition refused (req : simulateRequest) (now : time) : option string :=
  if String.eqb (sq_Namespace req) "" then Some "namespace"
  else if String.eqb (sq_OwnerName req) "" then Some "ownerName"
  else if negb (contains (sq_OwnerKind req) SupportedKinds) then Some "ownerKind"
  else if negb (windowPattern (sq_Window req)) then Some "window"
  else if negb (stepPattern (sq_Step req)) then Some "step"
  else if negb (sq_FromTs req =? 0) || negb (sq_ToTs req =? 0) then
    if (sq_FromTs req =? 0) || (sq_ToTs req =? 0) then Some "fromTs"
    else match validateAbsoluteRange (sq_FromTs req) (sq_ToTs req) now with
         | Some (BadParam field) => Some field
         | None => None
         end
  else None.

Definition handleSimulate (st : as_state) (at_ now : time) (answers : string → result value)
    (policies : string → result Policy) (identity : WorkloadIdentity → result (option Inventory.Identity))
    (req : simulateRequest) : reply simulationResult :=
  let req := completed req in
  match refused req now with
  | Some field => BadRequest field
  | None =>
      match runSimulation st at_ answers policies (identity (sq_key req)) req with
      | None => Panicked
      | Some (inl res) => Answered res
      | Some (inr (InvalidOverride e)) => BadRequest (se_field e)
      | Some (inr (BasePolicy e)) => ReadFailed e
      | Some (inr (SimFailed e)) => ReadFailed e
      end
  end.

(** ** All a Policy governs *)

Record savings := { sv_current : Z; sv_recommended : Z }.

Definition noSavings : savings := {| sv_current := 0; sv_recommended := 0 |}.

Definition f_ten : float64 := f_of_Z 10.

Definition deltaPercent (current recommended : Z) : float64 :=
  if current =? 0 then f_zero
  else f_div (math_Round (f_mul (f_mul (f_div (f_of_Z (wrap64 (recommended - current))) (f_of_Z current)) (f_of_Z 100)) f_ten)) f_ten.

(** [savings.add]: the totals, and how a container's requests are shown. *)
Definition addSavings (s : savings) (current : Quantity) (recommended : option Quantity) :
    savings * (string * string * float64) :=
  let cur := shown current in
  let rec := text_of recommended in
  match recommended with
  | Some q =>
      if String.eqb cur "" || String.eqb rec "" then (s, (cur, rec, f_zero))
      else
        ({| sv_current := wrap64 (sv_current s + MilliValue current);
            sv_recommended := wrap64 (sv_recommended s + MilliValue q) |},
         (cur, rec, deltaPercent (MilliValue current) (MilliValue q)))
  | None => (s, (cur, rec, f_zero))
  end.

Record batchContainerResult := {
  CurrentCPU : string;
  RecommendedCPU : string;
  CPUDeltaPercent : float64;
  CurrentMemory : string;
  RecommendedMemory : string;
  MemDeltaPercent : float64;
}.

Record workloadBatchResult := {
  wb_Key : WorkloadIdentity;
  wb_Containers : gmap string batchContainerResult;
  wb_Outcome : option RecommendationOutcome;
  wb_Error : option error;
}.

Record savingsAggregate := {
  CurrentMillis : Z;
  RecommendedMillis : Z;
  SavingsMillis : Z;
  SavingsPercent : float64;
  CurrentFormatted : string;
  RecommendedFormatted : string;
  SavingsFormatted : string;
}.

Definition formatQuantity (milliValue : Z) (format : string) : string :=
  if String.eqb format "memory" then
    let mib := f_div (f_div (f_of_Z milliValue) (f_of_Z 1000)) (f_of_Z (1024 * 1024)) in
    if SFleb (f_of_Z 1024) mib then FormatFloat_f 1 (f_div mib (f_of_Z 1024)) +:+ " Gi"
    else FormatFloat_f 0 mib +:+ " Mi"
  else if 1000 <=? milliValue then FormatFloat_f 2 (f_div (f_of_Z milliValue) (f_of_Z 1000))
  else Itoa milliValue +:+ "m".

Example format_memory : formatQuantity 1610612736000 "memory" = "1.5 Gi".
Proof. by_running. Qed.
Example format_cpu : formatQuantity 1500 "cpu" = "1.50".
Proof. by_running. Qed.

Definition buildSavingsAggregate (current recommended : Z) (resourceType : string) : savingsAggregate :=
  let savings := wrap64 (current - recommended) in
  {| CurrentMillis := current; RecommendedMillis := recommended; SavingsMillis := savings;
     SavingsPercent :=
       if 0 <? current
       then f_div (math_Round (f_mul (f_mul (f_div (f_of_Z savings) (f_of_Z current)) (f_of_Z 100)) f_ten)) f_ten
       else f_zero;
     CurrentFormatted := formatQuantity current resourceType;
     RecommendedFormatted := formatQuantity recommended resourceType;
     SavingsFormatted := formatQuantity (Z.max savings (wrap64 (- savings))) resourceType |}.

(** One container: shown and tallied, an init container only when recommended. *)
Definition batchContainer (apps : nat) (recs : gmap string ContainerRecommendation)
    (acc : savings * savings * gmap string batchContainerResult) (p : nat * Container) :
    savings * savings * gmap string batchContainerResult :=
  let '(cpu, mem, out) := acc in
  let c := p.2 in
  match recs !! c_Name c with
  | None =>
      if (apps <=? p.1)%nat then acc
      else
        let '(cpu, (curC, recC, dC)) := addSavings cpu (rl_Cpu (Requests (c_Resources c))) None in
        let '(mem, (curM, recM, dM)) := addSavings mem (rl_Memory (Requests (c_Resources c))) None in
        (cpu, mem, <[c_Name c := {| CurrentCPU := curC; RecommendedCPU := recC; CPUDeltaPercent := dC;
                                    CurrentMemory := curM; RecommendedMemory := recM; MemDeltaPercent := dM |}]> out)
  | Some rec =>
      let '(cpu, (curC, recC, dC)) := addSavings cpu (rl_Cpu (Requests (c_Resources c))) (CPURequest rec) in
      let '(mem, (curM, recM, dM)) := addSavings mem (rl_Memory (Requests (c_Resources c))) (MemoryRequest rec) in
      (cpu, mem, <[c_Name c := {| CurrentCPU := curC; RecommendedCPU := recC; CPUDeltaPercent := dC;
                                  CurrentMemory := curM; RecommendedMemory := recM; MemDeltaPercent := dM |}]> out)
  end.

(** One identity. [None] is [Assemble] answering neither. *)
Definition recResult (a : Assembled) : Compute.Result + error :=
  match as_Err a, as_Request a with
  | Some e, _ => inr e
  | None, Some r => inl (Compute r)
  | None, None => inl {| r_Outcome := TooYoung; Recs := ∅; Traces := ∅ |}
  end.

Definition computeRecommendations (st : as_state) (at_ : time) (policy : Policy) (workloads : list Inventory.Identity) :
    list (Compute.Result + error) :=
  map recResult (snd (Assemble st at_ (pol_RightSizing policy) workloads)).

(** The tallies of an identity not recommended are dropped. *)
Definition batchOne (acc : savings * savings * list workloadBatchResult) (p : Inventory.Identity * (Compute.Result + error)) :
    savings * savings * list workloadBatchResult :=
  let '(cpu, mem, out) := acc in
  let '(wl, r) := p in
  match r with
  | inr e =>
      (cpu, mem, out ++ [{| wb_Key := Inventory.Key wl; wb_Containers := ∅; wb_Outcome := None; wb_Error := Some e |}])
  | inl res =>
      let applied := bool_decide (r_Outcome res = Recommended) in
      let '(cpu', mem', cs) :=
        foldl (batchContainer (length (Containers wl)) (Recs res))
          (if applied then cpu else noSavings, if applied then mem else noSavings, ∅)
          (indexed_from 0 (Containers wl ++ InitContainers wl)) in
      (if applied then cpu' else cpu, if applied then mem' else mem,
       out ++ [{| wb_Key := Inventory.Key wl; wb_Containers := cs; wb_Outcome := Some (Recorded (r_Outcome res));
                  wb_Error := None |}])
  end.

Record batchSimulateResponse := {
  bs_PolicyName : string;
  bs_CPU : savingsAggregate;
  bs_Memory : savingsAggregate;
  bs_Workloads : list workloadBatchResult;
}.

(** [policy] and [governed] are what the API server and [governedBy] answer. *)
Definition handlePolicyBatchSimulate (st : as_state) (at_ : time) (policy : result Policy)
    (governed : result (list Inventory.Identity)) : reply batchSimulateResponse :=
  match policy, governed with
  | Err e, _ => ReadFailed e
  | Ok _, Err e => ReadFailed e
  | Ok policy, Ok ids =>
      let workloads := List.filter (λ id, negb (Departed id)) ids in
      let '(cpu, mem, out) :=
        foldl batchOne (noSavings, noSavings, []) (combine workloads (computeRecommendations st at_ policy workloads)) in
      Answered {| bs_PolicyName := pol_Name policy; bs_CPU := buildSavingsAggregate (sv_current cpu) (sv_recommended cpu) "cpu";
                  bs_Memory := buildSavingsAggregate (sv_current mem) (sv_recommended mem) "memory"; bs_Workloads := out |}
  end.
End Simulate.

(** ** The rules of the CRD *)
Section Rules.
Context {PL : Platform} {QO : QuantityOps} {KO : KubeOps} {PO : PromOps}.
Implicit Types (s : simulationSettings) (c : ResourceConfig).

(** What the API server lets through of a resource's settings: the markers on
    [ResourceConfig], its requests, its limits and its downsize threshold. *)
Definition resource_admitted c : bool :=
  (String.eqb (Window c) "" || windowPattern (Window c)) &&
  requests_admitted (rc_Requests c) && limits_admitted (rc_Limits c) &&
  match RequestsLimitsRatio (rc_Limits c) with Some r => negb (f_ltb r f_one) | None => true end &&
  match rc_DownsizeThreshold c with
  | Some d => match Percent d with Some p => (0 <=? p) && (p <=? 100) | None => true end
  | None => true
  end.

Definition settings_admitted s : bool :=
  resource_admitted (CPU (ss_ResourcesConfigs s)) && resource_admitted (Memory (ss_ResourcesConfigs s)) &&
  match ReplicaBudgetAnchor (ss_AutoscalerCoordination s) with
  | Some a => negb (f_ltb a f_zero) && negb (f_gtb a f_one)
  | None => true
  end.

Lemma app_nil_iff {A} (l l' : list A) : l ++ l' = [] ↔ l = [] ∧ l' = [].
Proof. split; [apply app_eq_nil|by intros [-> ->]]. Qed.

(** A rule is kept when its error is not listed. *)
Lemma kept_rule b field msg : broken_if b field msg = [] ↔ negb b = true.
Proof. by destruct b. Qed.

Lemma kept_optional {A} (o : option A) (f : A → bool) field (msg : A → complaint) :
  match o with Some x => broken_if (f x) field (msg x) | None => [] end = [] ↔
  match o with Some x => negb (f x) | None => true end = true.
Proof. destruct o; [apply kept_rule|done]. Qed.

Lemma out_of_range lo hi x : negb ((x <? lo) || (hi <? x)) = (lo <=? x) && (x <=? hi).
Proof. rewrite negb_orb, <-!Z.leb_antisym. done. Qed.

Lemma strategies_one l : limits_admitted l = negb (1 <? Z.of_nat (strategies l)).
Proof.
  unfold limits_admitted, strategies.
  destruct (EqualsToRequest l), (KeepLimit l), (KeepLimitRequestRatio l), (NoLimit l), (RequestsLimitsRatio l); done.
Qed.

Lemma kept_combined (req : ResourceRequestsConfig) :
  negb (KeepRequest req &&
    (is_set (Headroom req) || is_set (Percentile req) || is_set (MinAllowed req) || is_set (MaxAllowed req))) =
  negb (KeepRequest req) ||
    (bool_decide (Headroom req = None) && bool_decide (Percentile req = None) &&
     match MinAllowed req, MaxAllowed req with None, None => true | _, _ => false end).
Proof. by destruct (KeepRequest req), (Headroom req), (Percentile req), (MinAllowed req), (MaxAllowed req). Qed.

Lemma kept_bounds (req : ResourceRequestsConfig) field :
  match MinAllowed req, MaxAllowed req with
  | Some mn, Some mx => broken_if (is_gt (Cmp mn mx)) field MinOverMax
  | _, _ => []
  end = [] ↔
  match MinAllowed req, MaxAllowed req with Some mn, Some mx => negb (is_gt (Cmp mn mx)) | _, _ => true end = true.
Proof. destruct (MinAllowed req), (MaxAllowed req); try done. apply kept_rule. Qed.

Lemma kept_percent (d : option DownsizeThreshold) field :
  match d with
  | Some d => match Percent d with Some p => broken_if ((p <? 0) || (100 <? p)) field (PercentOut p) | None => [] end
  | None => []
  end = [] ↔
  match d with
  | Some d => match Percent d with Some p => (0 <=? p) && (p <=? 100) | None => true end
  | None => true
  end = true.
Proof.
  destruct d as [d|]; [|done]. rewrite kept_optional. destruct (Percent d) as [p|]; [|done].
  by rewrite out_of_range.
Qed.

Lemma resourceViolations_none path c : resourceViolations path c = [] ↔ resource_admitted c = true.
Proof.
  unfold resourceViolations, resource_admitted, requests_admitted. cbv zeta.
  rewrite !app_nil_iff, !kept_optional, kept_bounds, kept_percent, !kept_rule, kept_combined, strategies_one.
  rewrite negb_andb, !negb_involutive, !andb_true_iff.
  assert (Hp : match Percentile (rc_Requests c) with Some p => negb ((p <? 1) || (100 <? p)) | None => true end =
    match Percentile (rc_Requests c) with Some p => (1 <=? p) && (p <=? 100) | None => true end)
    by (destruct (Percentile _); [apply out_of_range|done]).
  assert (Hh : match Headroom (rc_Requests c) with Some h => negb ((h <? 0) || (100 <? h)) | None => true end =
    match Headroom (rc_Requests c) with Some h => (0 <=? h) && (h <=? 100) | None => true end)
    by (destruct (Headroom _); [apply out_of_range|done]).
  rewrite Hp, Hh. tauto.
Qed.

Lemma violations_none s : violations s = [] ↔ settings_admitted s = true.
Proof.
  unfold violations, settings_admitted.
  rewrite !app_nil_iff, !resourceViolations_none, kept_optional, !andb_true_iff.
  destruct (ReplicaBudgetAnchor _); [rewrite negb_orb, andb_true_iff|]; tauto.
Qed.

(** C20: The rules a Simulation's settings are checked by are those of the Policy CRD:
    they break none exactly when the API server would let them through, and an
    override that changes nothing is let through whatever they break. *)
Theorem violations_admission (applyPatch : simulationSettings → string → simulationSettings + settingsError) s :
  (violations s = [] ↔ settings_admitted s = true) ∧
  (∀ patch, String.prefix "{" (TrimSpace patch) = true → applyPatch s patch = inl s → override applyPatch s patch = inl s).
Proof.
  split; [apply violations_none|]. intros patch Hp Ha. unfold override. rewrite Hp, Ha. cbn [negb].
  destruct (_ || _); [done|]. destruct (List.find _ (violations s)) as [v|] eqn:Ef; [|done]. exfalso.
  apply List.find_some in Ef as [Hin%list_elem_of_In Hn]. apply negb_true_iff in Hn. unfold contains in Hn.
  by apply bool_decide_eq_false in Hn.
Qed.

(** An override is let through only with settings that break no rule the Policy's
    own do not break the same way: over settings the API server would let
    through, so are the override's; and no override leaves the Policy's. *)
Theorem override_admitted (applyPatch : simulationSettings → string → simulationSettings + settingsError) s patch out :
  override applyPatch s patch = inl out →
  (∀ v, v ∈ violations out → v ∈ violations s) ∧
  (settings_admitted s = true → settings_admitted out = true) ∧
  (TrimSpace patch = "" ∨ TrimSpace patch = "null" → out = s).
Proof.
  intros H. assert (Hv : ∀ v, v ∈ violations out → v ∈ violations s).
  { unfold override in H. destruct (_ || _); [by injection H as <-|]. destruct (negb _); [done|].
    destruct (applyPatch s patch) as [out'|]; [|done].
    destruct (List.find _ (violations out')) as [|] eqn:Ef; [done|]. injection H as <-.
    intros v Hv%list_elem_of_In. pose proof (List.find_none _ _ Ef v Hv) as Hn.
    apply negb_false_iff in Hn. unfold contains in Hn. by apply bool_decide_eq_true in Hn. }
  split; [done|]. split.
  - rewrite <-!violations_none. intros Hs. destruct (violations out) as [|v vs] eqn:E; [done|].
    exfalso. rewrite Hs in Hv. eapply not_elem_of_nil, (Hv v). by left.
  - unfold override in H. intros [Hp|Hp]; rewrite Hp in H; by injection H as <-.
Qed.
End Rules.

(** ** A Simulation and the controller *)
Section Parity.
Context {PL : Platform} {QO : QuantityOps} {KO : KubeOps} {PO : PromOps} {AS : Autoscalers} {IF : InputsFetcher}
  {HF : HistoryFetcher}.
Context (applyPatch : simulationSettings → string → simulationSettings + settingsError).
Implicit Types (s : simulationSettings) (req : simulateRequest) (id : Inventory.Identity).

(** What is assembled depends on the settings a Simulation keeps, and only with
    their defaults made explicit. *)
Lemma Assemble_settings st at_ spec spec' ids :
  WithDefaults (rs_ResourcesConfigs spec) = WithDefaults (rs_ResourcesConfigs spec') →
  rs_AutoscalerCoordination spec = rs_AutoscalerCoordination spec' →
  ExcludeInitContainers spec = ExcludeInitContainers spec' →
  Assemble st at_ spec ids = Assemble st at_ spec' ids.
Proof.
  intros Hr Hc He. unfold Assemble. destruct (readAutoscalers st ids) as [st' groups]. f_equal.
  assert (Hs : ∀ id w, sizedContainers spec id w = sizedContainers spec' id w)
    by (intros id w; unfold sizedContainers, ContainersOf; by rewrite He).
  assert (Hi : map (inputsRequest spec) ids = map (inputsRequest spec') ids)
    by (apply map_ext; intros id; unfold inputsRequest, ContainersOf; by rewrite He).
  rewrite Hr, Hi. apply map_ext. intros p. unfold assembleOne.
  destruct (default _ _) as [w|e]; [|done]. by rewrite Hr, Hc, Hs.
Qed.

Lemma Assemble_rightSizing st at_ spec ids :
  Assemble st at_ (rightSizingOf (settingsOf spec)) ids = Assemble st at_ spec ids.
Proof. by apply Assemble_settings. Qed.

Lemma Assemble_now st at_ spec id a r :
  snd (Assemble st at_ spec [id]) = [a] → as_Request a = Some r →
  Compute.now r = at_ ∧ Compute.resources r = WithDefaults (rs_ResourcesConfigs spec).
Proof.
  unfold Assemble. destruct (readAutoscalers st [id]) as [st' groups]. cbn [snd]. intros [= <-].
  unfold assembleOne. destruct (default _ _); cbn; [|done]. by intros [= <-].
Qed.

(** Either an error or a request, never neither. *)
Lemma Assemble_one st at_ spec id :
  ∃ a, snd (Assemble st at_ spec [id]) = [a] ∧
    ((∃ e, as_Err a = Some e) ∨ (as_Err a = None ∧ ∃ r, as_Request a = Some r)).
Proof.
  unfold Assemble. destruct (readAutoscalers st [id]) as [st' groups]. cbn [snd]. eexists. split; [done|].
  unfold assembleOne. destruct (default _ _); cbn; eauto.
Qed.

(** Nothing is overridden. *)
Definition plain_request req : Prop := TrimSpace (sq_Override req) = "" ∨ TrimSpace (sq_Override req) = "null".

(** The Policy a Simulation starts from is the governing one. *)
Definition from_governing req id : Prop := sq_Policy req = "" ∨ sq_Policy req = id_Policy id.

(** The controller's fetcher is the dashboard's with the watcher's live kills
    merged in: it reads the same of an identity the watcher holds no kill of. *)
Lemma Assemble_live source st at_ spec id :
  source (Inventory.Key id) = ∅ → Assemble (IF := WithLiveOOMs source IF) st at_ spec [id] = Assemble st at_ spec [id].
Proof.
  intros Hs. unfold Assemble. destruct (readAutoscalers st [id]) as [st' groups]. f_equal. cbn [map indexed_from imap].
  f_equal. unfold assembleOne. cbn [snd FetchInputs WithLiveOOMs]. unfold liveFetchInputs. rewrite map_lookup_imap.
  destruct (FetchInputs _ _ _ !! Inventory.Key id) as [[w|e]|]; [|done|done].
  cbn [mbind option_bind liveInputs].
  by rewrite Hs.
Qed.

(** C17: With no override and the governing Policy, a Simulation is what the
    controller decides of an identity assembled at the same instant from the
    same cluster and Prometheus, when the controller's watcher holds no live OOM
    kill of it: it fails with the error that leaves the controller without
    inputs; else it shows the controller's outcome and, when that is a
    recommendation, its trace and each container's values. *)
Theorem simulation_parity source st at_ answers policies policy id req a tr step :
  id_Policy id ≠ "" → policies (id_Policy id) = Ok policy → from_governing req id → plain_request req →
  simulationRange req at_ = Some tr → ParseStep (or_text (sq_Step req) "5m") = Some step →
  source (Inventory.Key id) = ∅ →
  snd (Assemble (IF := WithLiveOOMs source IF) st at_ (pol_RightSizing policy) [id]) = [a] →
  let v := verdictOf a in
  let run := runSimulation applyPatch st at_ answers policies (Ok (Some id)) req in
  match rec_err v with
  | Some e => run = Some (inr (SimFailed e))
  | None =>
      ∃ res, run = Some (inl res) ∧ sim_Policy res = id_Policy id ∧ sim_Outcome res = rec_outcome v ∧
        (rec_outcome v = OutcomeComputed →
          sim_Trace res = rec_traces v ∧
          ∃ w, rec_inputs v = Some w ∧
            ∀ name, sim_Containers res !! name = simulated_container w name <$> rec_recs v !! name)
  end.
Proof.
  intros Hgov Hpol Hfrom Hplain Htr Hstep Hsrc Ha v run. rewrite Assemble_live in Ha by done. unfold run, runSimulation.
  change (default (newIdentity (sq_key req)) (Some id)) with id. cbv zeta.
  assert (Hor : or_text (sq_Policy req) (id_Policy id) = id_Policy id).
  { unfold or_text. destruct Hfrom as [->| ->]; [done|]. by destruct (String.eqb _ ""). }
  rewrite Hor. unfold rightSizing. rewrite (proj2 (String.eqb_neq _ _) Hgov), Hpol.
  assert (Hov : override applyPatch (settingsOf (pol_RightSizing policy)) (sq_Override req) = inl (settingsOf (pol_RightSizing policy)))
    by (unfold override; by destruct Hplain as [->| ->]).
  rewrite Hov. unfold simulate. rewrite Assemble_rightSizing, Ha. unfold v, verdictOf.
  destruct (Assemble_one st at_ (pol_RightSizing policy) id) as (a' & Ha' & Hcase). rewrite Ha in Ha'. injection Ha' as <-.
  destruct Hcase as [[e He]|(He & r & Hr)]; rewrite He; [by cbn|]. rewrite Hr. cbn [rec_err computeIdentity].
  destruct (Assemble_now _ _ _ _ _ _ Ha Hr) as [-> _]. rewrite Htr, Hstep. eexists. split; [done|]. cbn.
  split; [done|]. split; [done|]. intros Ho.
  assert (Hrec : r_Outcome (Compute r) = Recommended) by (by destruct (r_Outcome (Compute r))).
  rewrite bool_decide_true by done. split; [done|]. eexists. split; [done|]. intros name.
  unfold simulationContainers. rewrite map_lookup_imap. by destruct (Recs (Compute r) !! name).
Qed.

(** A Simulation's effective settings reproduce it: run under them, with every
    default explicit, it answers the same. *)
Theorem effective_reproduces st at_ answers req policy s id res :
  simulate st at_ answers req policy s id = Some (inl res) →
  simulate st at_ answers req policy (sim_Effective res) id = Some (inl res).
Proof.
  intros H. assert (He : sim_Effective res =
    {| ss_ResourcesConfigs := WithDefaults (ss_ResourcesConfigs s);
       ss_AutoscalerCoordination := ss_AutoscalerCoordination s; ss_ExcludeInitContainers := ss_ExcludeInitContainers s |}).
  { unfold simulate in H. destruct (Assemble_one st at_ (rightSizingOf s) id) as (a & Ha & Hcase). rewrite Ha in H.
    destruct Hcase as [[e He]|(He & r & Hr)]; rewrite He in H; [done|]. rewrite Hr in H.
    destruct (Assemble_now _ _ _ _ _ _ Ha Hr) as [_ Hres].
    destruct (simulationRange _ _); [|done]. destruct (ParseStep _); [|done]. injection H as <-. cbn. by rewrite Hres. }
  rewrite He. rewrite <-H. unfold simulate.
  rewrite (Assemble_settings st at_ _ (rightSizingOf s)); [done|apply WithDefaults_idemp|done|done].
Qed.
End Parity.

(** ** The savings of a Policy *)
Section Savings.
Context {PL : Platform} {QO : QuantityOps} {KO : KubeOps} {PO : PromOps} {AS : Autoscalers} {IF : InputsFetcher}.
Implicit Types (s : savings) (ps : list (Quantity * Quantity)).

(** The current and recommended requests of a container that has both. *)
Definition both (current : Quantity) (recommended : option Quantity) : option (Quantity * Quantity) :=
  match recommended with
  | Some q => if String.eqb (shown current) "" || String.eqb (QString q) "" then None else Some (current, q)
  | None => None
  end.

(** The request a recommendation makes of a resource, and the one a container has. *)
Definition recommendedOf (res : resourceKind) (rec : ContainerRecommendation) : option Quantity :=
  match res with cpuResource => CPURequest rec | memoryResource => MemoryRequest rec end.
Definition currentOf (res : resourceKind) (c : Container) : Quantity :=
  match res with
  | cpuResource => rl_Cpu (Requests (c_Resources c))
  | memoryResource => rl_Memory (Requests (c_Resources c))
  end.

Definition both_of (res : resourceKind) (recs : gmap string ContainerRecommendation) (c : Container) :
    option (Quantity * Quantity) := both (currentOf res c) (recs !! c_Name c ≫= recommendedOf res).

(** What counts towards a resource's savings: of the identities recommended, the
    containers that have both. *)
Definition saved (res : resourceKind) (p : Inventory.Identity * (Compute.Result + error)) : list (Quantity * Quantity) :=
  match p.2 with
  | inl r =>
      if bool_decide (r_Outcome r = Recommended)
      then omap (both_of res (Recs r)) (Containers p.1 ++ InitContainers p.1) else []
  | inr _ => []
  end.

Definition total (f : Quantity * Quantity → Quantity) ps : Z := foldr (λ p n, MilliValue (f p) + n) 0 ps.

Definition plus s ps : savings :=
  {| sv_current := wrap64 (sv_current s + total fst ps); sv_recommended := wrap64 (sv_recommended s + total snd ps) |}.

(** A tally is an [int64]. *)
Definition int64s s : Prop := int64_range (sv_current s) ∧ int64_range (sv_recommended s).

Lemma wrap64_sub a b : wrap64 (wrap64 a - wrap64 b) = wrap64 (a - b).
Proof.
  unfold wrap64, wrap. f_equal. set (h := 2 ^ (64 - 1)). set (m := 2 ^ 64).
  replace ((a + h) mod m - h - ((b + h) mod m - h) + h) with ((a + h) mod m - ((b + h) mod m - h)) by lia.
  rewrite Zminus_mod_idemp_l. replace (a + h - ((b + h) mod m - h)) with (a + h + h - (b + h) mod m) by lia.
  rewrite Zminus_mod_idemp_r. f_equal. lia.
Qed.

Lemma total_app f ps ps' : total f (ps ++ ps') = total f ps + total f ps'.
Proof. induction ps as [|p ps IH]; [done|]. cbn [app]. unfold total in *. cbn [foldr]. lia. Qed.

Lemma plus_nil s : int64s s → plus s [] = s.
Proof. intros [H1 H2]. destruct s. unfold plus, total. cbn [foldr sv_current sv_recommended] in *. by rewrite !Z.add_0_r, !wrap64_id. Qed.

Lemma plus_app s ps ps' : plus (plus s ps) ps' = plus s (ps ++ ps').
Proof. unfold plus. cbn [sv_current sv_recommended]. by rewrite !wrap64_add_l, !total_app, !Z.add_assoc. Qed.

Lemma plus_int64s s ps : int64s (plus s ps).
Proof. split; apply wrap64_range. Qed.

Lemma addSavings_plus s current recommended :
  int64s s → fst (addSavings s current recommended) = plus s (option_list (both current recommended)).
Proof.
  intros Hs. unfold addSavings, both. destruct recommended as [q|]; [|by rewrite plus_nil]. cbn [text_of].
  destruct (_ || _); [by rewrite plus_nil|]. unfold plus, total. cbn. by rewrite !Z.add_0_r.
Qed.

Lemma batchContainer_tallies apps recs cpu mem out p :
  int64s cpu → int64s mem →
  fst (batchContainer apps recs (cpu, mem, out) p) =
  (plus cpu (option_list (both_of cpuResource recs p.2)), plus mem (option_list (both_of memoryResource recs p.2))).
Proof.
  intros Hc Hm. unfold batchContainer, both_of, currentOf. destruct (recs !! c_Name p.2) as [rec|]; cbn [mbind option_bind].
  - pose proof (addSavings_plus cpu (rl_Cpu (Requests (c_Resources p.2))) (CPURequest rec) Hc) as H1.
    pose proof (addSavings_plus mem (rl_Memory (Requests (c_Resources p.2))) (MemoryRequest rec) Hm) as H2.
    destruct (addSavings cpu _ _) as [c' [[? ?] ?]], (addSavings mem _ _) as [m' [[? ?] ?]]. cbn in *. by rewrite H1, H2.
  - destruct (_ <=? _)%nat; cbn; by rewrite !plus_nil.
Qed.

Lemma batchContainers_tallies apps recs cs i cpu mem out :
  int64s cpu → int64s mem →
  fst (foldl (batchContainer apps recs) (cpu, mem, out) (indexed_from i cs)) =
  (plus cpu (omap (both_of cpuResource recs) cs), plus mem (omap (both_of memoryResource recs) cs)).
Proof.
  unfold indexed_from. revert i cpu mem out. induction cs as [|c cs IH]; intros i cpu mem out Hc Hm.
  { cbn. by rewrite !plus_nil. }
  rewrite imap_cons. cbn [foldl]. rewrite Nat.add_0_r.
  pose proof (batchContainer_tallies apps recs cpu mem out (i, c) Hc Hm) as Hstep.
  destruct (batchContainer apps recs (cpu, mem, out) (i, c)) as [[cpu' mem'] out']. cbn [fst snd] in Hstep.
  injection Hstep as -> ->.
  rewrite (imap_ext _ (λ j x, ((S i + j)%nat, x))) by (intros; cbn; f_equal; lia).
  rewrite IH by apply plus_int64s. rewrite !plus_app.
  assert (Ho : ∀ res, omap (both_of res recs) (c :: cs) = option_list (both_of res recs c) ++ omap (both_of res recs) cs)
    by (intros res; cbn; by destruct (both_of res recs c)).
  by rewrite !Ho.
Qed.

Lemma batchOne_tallies cpu mem out p :
  int64s cpu → int64s mem →
  fst (batchOne (cpu, mem, out) p) = (plus cpu (saved cpuResource p), plus mem (saved memoryResource p)).
Proof.
  intros Hc Hm. unfold batchOne, saved. destruct p as [wl [r|e]]; cbn [fst snd]; [|by rewrite !plus_nil].
  case_bool_decide as Hr.
  - pose proof (batchContainers_tallies (length (Containers wl)) (Recs r) (Containers wl ++ InitContainers wl) 0 cpu mem ∅ Hc Hm) as H.
    destruct (foldl _ _ _) as [[cpu' mem'] cs]. cbn [fst] in *. done.
  - destruct (foldl _ _ _) as [[cpu' mem'] cs]. cbn [fst]. by rewrite !plus_nil.
Qed.

Lemma batch_tallies l cpu mem out :
  int64s cpu → int64s mem →
  fst (foldl batchOne (cpu, mem, out) l) =
  (plus cpu (concat (map (saved cpuResource) l)), plus mem (concat (map (saved memoryResource) l))).
Proof.
  revert cpu mem out. induction l as [|p l IH]; intros cpu mem out Hc Hm.
  { cbn. by rewrite !plus_nil. }
  cbn [foldl map concat]. pose proof (batchOne_tallies cpu mem out p Hc Hm) as H.
  destruct (batchOne (cpu, mem, out) p) as [[cpu' mem'] out']. cbn [fst] in H. injection H as -> ->.
  rewrite IH by apply plus_int64s. by rewrite !plus_app.
Qed.

(** A Policy's savings are of the containers that run with a request and are
    recommended one, of the identities the controller recommends: the totals
    are the sums of both, in millis, and the saving their difference, as a
    machine word holds them. *)
Theorem batch_savings st at_ policy ids :
  let workloads := List.filter (λ id, negb (Departed id)) ids in
  let results := combine workloads (computeRecommendations st at_ policy workloads) in
  let cpu := concat (map (saved cpuResource) results) in
  let mem := concat (map (saved memoryResource) results) in
  ∃ resp, handlePolicyBatchSimulate st at_ (Ok policy) (Ok ids) = Answered resp ∧
    CurrentMillis (bs_CPU resp) = wrap64 (total fst cpu) ∧ RecommendedMillis (bs_CPU resp) = wrap64 (total snd cpu) ∧
    SavingsMillis (bs_CPU resp) = wrap64 (total fst cpu - total snd cpu) ∧
    CurrentMillis (bs_Memory resp) = wrap64 (total fst mem) ∧ RecommendedMillis (bs_Memory resp) = wrap64 (total snd mem) ∧
    SavingsMillis (bs_Memory resp) = wrap64 (total fst mem - total snd mem).
Proof.
  intros workloads results cpu mem. unfold handlePolicyBatchSimulate. fold workloads. fold results.
  assert (H0 : int64s noSavings) by done.
  pose proof (batch_tallies results noSavings noSavings [] H0 H0) as Ht. fold cpu mem in Ht.
  destruct (foldl batchOne _ results) as [[c m] out]. cbn [fst] in Ht. injection Ht as -> ->.
  eexists. split; [done|].
  cbn [bs_CPU bs_Memory buildSavingsAggregate CurrentMillis RecommendedMillis SavingsMillis plus sv_current sv_recommended noSavings].
  by rewrite !Z.add_0_l, !wrap64_sub.
Qed.
End Savings.

(** ** At concrete inputs *)
Section Sample.
#[local] Existing Instance amd64.
#[local] Existing Instance nano_quantity.
#[local] Existing Instance simple_kube.
#[local] Instance minutes_only : PromOps :=
  {| ParseDuration s := if String.eqb s "5m" then Some (5 * minute) else if String.eqb s "168h" then Some (168 * hour) else None |}.
#[local] Instance sample_autoscalers : Autoscalers := snapshot_autoscalers Autoscaler.sample_cluster.
#[local] Instance sample_inputs : InputsFetcher :=
  {| FetchInputs _ _ reqs := list_to_map (map (λ r, (ir_Identity r, Ok (Compute.inputs sample_request))) reqs) |}.
#[local] Instance sample_history : HistoryFetcher :=
  {| FetchHistory _ _ reqs := list_to_map (map (λ r, (ir_Identity r, Ok sample_points)) reqs) |}.

Definition frugal : Policy :=
  {| pol_Name := "frugal"; pol_UID := "uid"; pol_ResourceVersion := "1";
     pol_Selector := {| Namespaces := []; sel_LabelSelector := None |}; pol_RightSizing := sample_spec |}.

Definition sample_policies (name : string) : result Policy :=
  if String.eqb name "frugal" then Ok frugal else Err (ErrorNew "not found").

(** A patch that is a headroom in full: ["{80}"] asks for 80. *)
Definition sample_patch (s : simulationSettings) (patch : string) : simulationSettings + settingsError :=
  let h := if String.eqb patch "{80}" then 80 else 800 in
  let rc := CPU (ss_ResourcesConfigs s) in
  let req := rc_Requests rc in
  inl {| ss_ResourcesConfigs :=
           {| CPU := {| Window := Window rc;
                        rc_Requests := {| Headroom := Some h; KeepRequest := KeepRequest req; MaxAllowed := MaxAllowed req;
                                          MinAllowed := MinAllowed req; Percentile := Percentile req |};
                        rc_Limits := rc_Limits rc; rc_DownsizeThreshold := rc_DownsizeThreshold rc |};
              Memory := Memory (ss_ResourcesConfigs s) |};
         ss_AutoscalerCoordination := ss_AutoscalerCoordination s;
         ss_ExcludeInitContainers := ss_ExcludeInitContainers s |}.

Definition simulating (patch : string) (from to_ : Z) : simulateRequest :=
  {| sq_Namespace := "prod"; sq_OwnerKind := "Deployment"; sq_OwnerName := "web"; sq_Window := "168h"; sq_Step := "";
     sq_FromTs := from; sq_ToTs := to_; sq_Policy := ""; sq_Override := patch |}.

Example override_refused :
  override sample_patch (settingsOf sample_spec) "{800}" =
  inr {| se_field := "resourcesConfigs.cpu.requests.headroom"; se_msg := HeadroomOut 800 |}.
Proof. by_running. Qed.

(** A range of dates before 1970 passes the handler's checks and is not charted:
    the window is. *)
Example early_range_ignored :
  refused (completed (simulating "" (- 100) 50)) (10 ^ 18 + unixToZero * second) = None ∧
  simulationRange (completed (simulating "" (- 100) 50)) (10 ^ 18) =
    Some {| tr_Start := 10 ^ 18 - 168 * hour; tr_End := 10 ^ 18 |}.
Proof. split; by_running. Qed.

Lemma override_admitted_witness :
  match override sample_patch (settingsOf sample_spec) "{80}" with
  | inl out => settings_admitted out = true
  | inr _ => False
  end.
Proof.
  assert (Hok : match override sample_patch (settingsOf sample_spec) "{80}" with inl _ => true | inr _ => false end = true)
    by by_running.
  destruct (override sample_patch (settingsOf sample_spec) "{80}") as [out|e] eqn:E; [|done].
  destruct (override_admitted sample_patch _ _ _ E) as (_ & H & _). apply H. by_running.
Defined.

(** The watcher saw a kill of the identity, long before: it has left its cache. *)
Lemma simulation_parity_witness :
  match runSimulation (AS := sample_autoscalers) sample_patch NewNamespacedSnapshot (10 ^ 18) (λ _, Ok Text) sample_policies (Ok (Some sample_charted))
    (simulating "" 0 0) with
  | Some (inl res) => sim_Outcome res = OutcomeComputed
  | _ => False
  end.
Proof.
  set (source := cacheSource sample_live (10 ^ 18)).
  assert (Hs : source (Inventory.Key sample_charted) = ∅) by (vm_compute; reflexivity).
  destruct (snd (Assemble (AS := sample_autoscalers) (IF := WithLiveOOMs source sample_inputs) NewNamespacedSnapshot (10 ^ 18)
    sample_spec [sample_charted])) as [|a [|]] eqn:Ha; [done| |done].
  pose proof (simulation_parity (AS := sample_autoscalers) sample_patch source NewNamespacedSnapshot (10 ^ 18) (λ _, Ok Text) sample_policies frugal
    sample_charted (simulating "" 0 0) a {| tr_Start := 10 ^ 18 - 168 * hour; tr_End := 10 ^ 18 |} (5 * minute)
    ltac:(done) ltac:(done) ltac:(by left) ltac:(by left) ltac:(by_running) ltac:(by_running) Hs Ha) as H.
  rewrite Assemble_live in Ha by done. injection Ha as <-.
  cbv zeta in H.
  match type of H with context [rec_err ?v] => assert (Hv : rec_err v = None) by by_running; rewrite Hv in H end.
  destruct H as (res & -> & _ & -> & _). by_running.
Defined.

Lemma effective_reproduces_witness :
  match simulate (AS := sample_autoscalers) NewNamespacedSnapshot (10 ^ 18) (λ _, Ok Text) (simulating "" 0 0) "frugal" (settingsOf sample_spec) sample_charted with
  | Some (inl res) =>
      simulate (AS := sample_autoscalers) NewNamespacedSnapshot (10 ^ 18) (λ _, Ok Text) (simulating "" 0 0) "frugal" (sim_Effective res) sample_charted =
      Some (inl res)
  | _ => False
  end.
Proof.
  assert (Hok : match simulate (AS := sample_autoscalers) NewNamespacedSnapshot (10 ^ 18) (λ _, Ok Text) (simulating "" 0 0) "frugal" (settingsOf sample_spec) sample_charted with
    Some (inl _) => true | _ => false end = true) by by_running.
  destruct (simulate _ _ _ _ _ (settingsOf sample_spec) _) as [[res|e]|] eqn:E; [|done|done].
  by apply effective_reproduces in E.
Defined.
End Sample.
