(* ===== verification/HistoryInputs.v ===== *)
(** * Histories read from Prometheus ([FetchHistory] of
    [internal/recommender/prom_inputs.go])

    The range reads of the inputs: the shards, the retries and the failures are
    those of [PromInputs]; each point of a series goes to the instant of the
    span nearest to it. The texts of queries are in [PromQL]. *)

From S2P Require Import Prelude GoLang Quantity PolicyApi Kube Shards Resources Signals Compute Assemble.
From S2P Require Import History PromInputs.
Local Open Scope Z_scope.

Section HistoryInputs.
Context {PL : Platform} {QO : QuantityOps} {PO : PromOps} {PR : Prom}.

(** The client's range reads: a signal's own query, and its history query. *)
Class PromRange : Type := {
  QueryShardRange : p_state → signal → bool → ResourcesConfigs → Shard → Span → p_state * result (list ShardSeries);
}.

Context {RR : PromRange}.

(** Only the kills have a history query. *)
Definition hasHistoryQuery (s : signal) : bool := String.eqb (sig_name s) oomName.

(** The series of a signal: its own, then those of its history query. *)
Definition readRange (cfg : ResourcesConfigs) (span : Span) (s : signal) (st : p_state) (shard : Shard) :
    p_state * result (list ShardSeries) :=
  match QueryShardRange st s false cfg shard span with
  | (st, Err e) => (st, Err e)
  | (st, Ok series) =>
      if hasHistoryQuery s then
        match QueryShardRange st s true cfg shard span with
        | (st, Err e) => (st, Err e)
        | (st, Ok more) => (st, Ok (series ++ more))
        end
      else (st, Ok series)
  end.

(** One point, at its nearest instant; dropped outside the span. *)
Definition addPoint (span : Span) (sr : ShardSeries) (byInstant : list (list ShardSample)) (pt : TimeValue) :
    list (list ShardSample) :=
  let '(i, ok) := History.index span (tv_Timestamp pt) in
  if ok then
    alter (λ xs, xs ++ [{| ss_Identity := sr_Identity sr; ss_Container := sr_Container sr; ss_Metric := sr_Metric sr;
                           ss_Value := tv_Value pt |}]) (Z.to_nat i) byInstant
  else byInstant.

(** The samples of an identity at each instant. *)
Definition samplesAt (span : Span) (series : list ShardSeries) (id : WorkloadIdentity) : list (list ShardSample) :=
  foldl (λ by_, λ sr, foldl (addPoint span sr) by_ (sr_Points sr))
    (replicate (Z.to_nat (instants span)) [])
    (List.filter (λ sr, bool_decide (sr_Identity sr = id)) series).

(** A point of the span indexes the instants within them: Go panics on another. *)
Definition placed (span : Span) (pt : TimeValue) : bool :=
  let '(i, ok) := History.index span (tv_Timestamp pt) in negb ok || ((0 <=? i) && (i <? instants span)).

(** A shard's answer sets the signal's values of each of its identities, at every
    instant. [None] is a panic. *)
Definition applySeries (span : Span) (s : signal) (shard : Shard) (series : list ShardSeries)
    (histories : option (gmap WorkloadIdentity (list WorkloadInputs))) : option (gmap WorkloadIdentity (list WorkloadInputs)) :=
  match histories with
  | None => None
  | Some m =>
      if forallb (λ sr, forallb (placed span) (sr_Points sr)) series then
        Some (foldl (λ m id, alter (λ ws, zip_with (λ w xs, set_values w s (collect s xs)) ws (samplesAt span series id)) id m)
                m (Identities shard))
      else None
  end.

Definition startHistories (span : Span) (reqs : list InputsRequest) : gmap WorkloadIdentity (list WorkloadInputs) :=
  foldl (λ m r, <[ir_Identity r := replicate (Z.to_nat (instants span)) emptyInputs]> m) ∅ reqs.

Definition historyOf (span : Span) (ws : list WorkloadInputs) : list HistoryPoint :=
  imap (λ i w, {| hp_At := instant span (Z.of_nat i); hp_Inputs := w |}) ws.

(** [PromInputs.FetchHistory], with the client after it; [None] is a panic. *)
Definition PromFetchHistory (maxSamples : Z) (st : p_state) (span : Span) (cfg : ResourcesConfigs)
    (reqs : list InputsRequest) : p_state * option (gmap WorkloadIdentity (result (list HistoryPoint))) :=
  let r := fetchSignals cfg reqs (instants span) maxSamples (readRange cfg span) (applySeries span) st
             (Some (startHistories span reqs)) in
  (sg_state _ r,
   match sg_applied _ r with
   | Some m =>
       Some (map_imap (λ id ws, match sg_failed _ r !! id with Some e => Some (Err e) | None => Some (Ok (historyOf span ws)) end) m)
   | None => None
   end).

(** ** Facts *)

(** The instant of a span a time is nearest to. *)
Definition nearest (span : Span) (i : Z) (t : time) : Prop :=
  Start span + i * Step span - Step span / 2 ≤ t < Start span + i * Step span + (Step span - Step span / 2).

#[global] Instance nearest_dec span i t : Decision (nearest span i t).
Proof. unfold nearest. apply _. Defined.

(** The samples an instant gets of an identity: the points of its series that are
    nearest to it, in the order answered. *)
Definition seriesNear (span : Span) (i : Z) (sr : ShardSeries) : list ShardSample :=
  map (λ pt, {| ss_Identity := sr_Identity sr; ss_Container := sr_Container sr; ss_Metric := sr_Metric sr; ss_Value := tv_Value pt |})
    (List.filter (λ pt, bool_decide (nearest span i (tv_Timestamp pt))) (sr_Points sr)).

Definition samplesNear (span : Span) (i : Z) (series : list ShardSeries) (id : WorkloadIdentity) : list ShardSample :=
  concat (map (seriesNear span i) (List.filter (λ sr, bool_decide (sr_Identity sr = id)) series)).

(** No point lies centuries after the start: a range read answers points of its
    range. *)
Definition dated (span : Span) (series : list ShardSeries) : Prop :=
  ∀ sr pt, sr ∈ series → pt ∈ sr_Points sr → tv_Timestamp pt - Start span ≤ 2 ^ 62.

Lemma index_regular span n t :
  regular span n → t - Start span ≤ 2 ^ 62 →
  match History.index span t with
  | (i, true) => 0 ≤ i ≤ n ∧ nearest span i t
  | (_, false) => ∀ i, 0 ≤ i ≤ n → ¬ nearest span i t
  end.
Proof.
  intros Hreg Ht. pose proof (index_nearest span n t Hreg Ht) as H. pose proof (regular_instants _ _ Hreg) as Hn.
  destruct (Hreg) as (Hp & Hn0 & He & _). pose proof (regular_instant span n) as Hi.
  destruct (History.index span t) as [i []]; destruct H as [Hok Hin].
  - destruct (Hin eq_refl) as [Hr Hnear]. split; [lia|]. unfold nearest. rewrite <-Hi by (done || lia). done.
  - symmetry in Hok. apply bool_decide_eq_false in Hok. intros i' Hr Hnear. apply Hok. unfold nearest in Hnear.
    rewrite He. pose proof (Z.div_mod (Step span) 2 ltac:(lia)). nia.
Qed.

Lemma nearest_unique span i j t : 0 < Step span → nearest span i t → nearest span j t → i = j.
Proof. unfold nearest. intros. nia. Qed.

Lemma placed_regular span n series :
  regular span n → dated span series → forallb (λ sr, forallb (placed span) (sr_Points sr)) series = true.
Proof.
  intros Hreg Hd. apply forallb_forall. intros sr Hsr%list_elem_of_In. apply forallb_forall. intros pt Hpt%list_elem_of_In.
  unfold placed. pose proof (index_regular span n (tv_Timestamp pt) Hreg (Hd sr pt Hsr Hpt)) as H.
  destruct (History.index span (tv_Timestamp pt)) as [i []]; [|done]. rewrite (regular_instants _ _ Hreg).
  destruct H as [Hi _]. cbn [negb orb]. apply andb_true_iff. split; [apply Z.leb_le|apply Z.ltb_lt]; lia.
Qed.

Lemma addPoint_lookup span n sr by_ pt (i : nat) xs :
  regular span n → tv_Timestamp pt - Start span ≤ 2 ^ 62 → by_ !! i = Some xs → Z.of_nat i ≤ n →
  addPoint span sr by_ pt !! i = Some (xs ++ map (λ pt, {| ss_Identity := sr_Identity sr; ss_Container := sr_Container sr;
      ss_Metric := sr_Metric sr; ss_Value := tv_Value pt |})
    (if decide (nearest span (Z.of_nat i) (tv_Timestamp pt)) then [pt] else [])).
Proof.
  intros Hreg Ht Hi Hn. unfold addPoint. pose proof (index_regular span n (tv_Timestamp pt) Hreg Ht) as H.
  destruct (History.index span (tv_Timestamp pt)) as [j []].
  - destruct H as [Hj Hnear]. destruct (decide (Z.to_nat j = i)) as [<-|Hne].
    + rewrite Z2Nat.id in * by lia. rewrite decide_True by done. by rewrite list_lookup_alter_eq, Hi.
    + rewrite list_lookup_alter_ne by done. rewrite decide_False; [cbn [map]; by rewrite app_nil_r|].
      intros Hne'. destruct Hreg as [Hp _]. pose proof (nearest_unique _ _ _ _ Hp Hnear Hne'). lia.
  - rewrite decide_False by (apply H; lia). cbn [map]. by rewrite app_nil_r, Hi.
Qed.

Lemma samplesAt_lookup span n series id (i : nat) :
  regular span n → dated span series → Z.of_nat i ≤ n →
  samplesAt span series id !! i = Some (samplesNear span (Z.of_nat i) series id).
Proof.
  intros Hreg Hd Hi. unfold samplesAt, samplesNear.
  assert (Hd' : dated span (List.filter (λ sr, bool_decide (sr_Identity sr = id)) series)).
  { intros sr pt Hsr Hpt. apply elem_of_List_filter in Hsr. destruct Hsr as [_ Hsr]. by apply (Hd sr pt). }
  revert Hd'. generalize (List.filter (λ sr, bool_decide (sr_Identity sr = id)) series). intros srs Hd'.
  assert (H0 : replicate (Z.to_nat (instants span)) ([] : list ShardSample) !! i = Some []).
  { apply lookup_replicate_2. rewrite (regular_instants _ _ Hreg). lia. }
  rewrite <-(app_nil_l (concat _)). revert H0.
  generalize (replicate (Z.to_nat (instants span)) ([] : list ShardSample)). generalize ([] : list ShardSample).
  intros xs l. revert l xs.
  induction srs as [|sr srs IH]; intros l xs Hl; cbn [foldl map concat]; [by rewrite app_nil_r|].
  rewrite (app_assoc xs). apply IH; [intros sr' pt' Hin; apply Hd'; by right|].
  assert (Hpts : ∀ pt, pt ∈ sr_Points sr → tv_Timestamp pt - Start span ≤ 2 ^ 62) by (intros pt; apply Hd'; by left).
  clear IH Hd'. unfold seriesNear. revert l xs Hl Hpts.
  induction (sr_Points sr) as [|pt pts IH]; intros l xs Hl Hpts; cbn [foldl List.filter map]; [by rewrite app_nil_r|].
  pose proof (addPoint_lookup span n sr l pt i xs Hreg (Hpts pt ltac:(by left)) Hl Hi) as Hadd.
  rewrite (IH _ _ Hadd) by (intros; apply Hpts; by right). rewrite <-app_assoc. do 2 f_equal.
  by case_bool_decide; case_decide.
Qed.

Lemma samplesAt_length span series id : length (samplesAt span series id) = Z.to_nat (instants span).
Proof.
  unfold samplesAt. generalize (List.filter (λ sr, bool_decide (sr_Identity sr = id)) series). intros srs.
  rewrite <-(length_replicate (Z.to_nat (instants span)) ([] : list ShardSample)) at 2.
  generalize (replicate (Z.to_nat (instants span)) ([] : list ShardSample)).
  induction srs as [|sr srs IH]; intros l; [done|]. cbn [foldl]. rewrite IH. clear IH.
  revert l. induction (sr_Points sr) as [|pt pts IH]; intros l; [done|]. cbn [foldl]. rewrite IH.
  unfold addPoint. destruct (History.index _ _) as [j []]; [apply length_alter|done].
Qed.

(** The inputs kept of an identity at an instant. *)
Definition lookAt (i : nat) (b : option (gmap WorkloadIdentity (list WorkloadInputs))) (id : WorkloadIdentity) :
    option WorkloadInputs := m ← b; ws ← m !! id; ws !! i.

Lemma applySeries_lookAt span n s shard series b id (i : nat) :
  regular span n → dated span series → Z.of_nat i ≤ n →
  lookAt i (applySeries span s shard series b) id =
    if decide (id ∈ Identities shard)
    then (λ w, set_values w s (collect s (samplesNear span (Z.of_nat i) series id))) <$> lookAt i b id
    else lookAt i b id.
Proof.
  intros Hreg Hd Hi. unfold applySeries. destruct b as [m|]; [|by case_decide].
  rewrite (placed_regular _ _ _ Hreg Hd). unfold lookAt. cbn [mbind option_bind].
  generalize (Identities shard). intros l. revert m. induction l as [|j l IH]; intros m; cbn [foldl].
  { by rewrite decide_False by apply not_elem_of_nil. }
  rewrite IH. clear IH. rewrite lookup_alter. destruct (decide (j = id)) as [->|Hne].
  - rewrite (decide_True (P := id ∈ id :: l)) by by left.
    assert (Hz : ((λ ws, zip_with (λ w xs, set_values w s (collect s xs)) ws (samplesAt span series id)) <$> m !! id)
        ≫= (λ ws, ws !! i) =
      (λ w, set_values w s (collect s (samplesNear span (Z.of_nat i) series id))) <$> (m !! id ≫= (λ ws, ws !! i))).
    { destruct (m !! id) as [ws|]; [|done]. cbn. rewrite lookup_zip_with, (samplesAt_lookup _ _ _ _ _ Hreg Hd Hi).
      by destruct (ws !! i). }
    rewrite Hz. destruct (decide (id ∈ l)); [|done]. rewrite <-option_fmap_compose.
    destruct (m !! id ≫= _); [|done]. cbn. unfold set_values. by rewrite insert_insert_eq.
  - destruct (decide (id ∈ l)) as [Hl|Hl].
    + by rewrite decide_True by by right.
    + rewrite decide_False; [done|]. by intros [->|?]%elem_of_cons.
Qed.

(** One inputs per instant, for the identities asked for and no other. *)
Definition shaped (span : Span) (reqs : list InputsRequest) (b : option (gmap WorkloadIdentity (list WorkloadInputs))) : Prop :=
  ∃ m, b = Some m ∧
  ∀ id, if decide (id ∈ map ir_Identity reqs)
        then ∃ ws, m !! id = Some ws ∧ length ws = Z.to_nat (instants span)
        else m !! id = None.

Lemma applySeries_shaped span n reqs s shard series b :
  regular span n → dated span series → shaped span reqs b → shaped span reqs (applySeries span s shard series b).
Proof.
  intros Hreg Hd (m & -> & Hm). unfold applySeries. rewrite (placed_regular _ _ _ Hreg Hd). eexists. split; [done|].
  revert m Hm. induction (Identities shard) as [|i ids IH]; intros m Hm; [done|]. cbn [foldl].
  apply IH. intros id. specialize (Hm id). rewrite lookup_alter. destruct (decide (i = id)) as [->|]; [|done].
  destruct (decide (id ∈ map ir_Identity reqs)); [|by rewrite Hm].
  destruct Hm as (ws & -> & Hlen). cbn. eexists. split; [done|].
  rewrite length_zip_with, samplesAt_length, Hlen. lia.
Qed.

Lemma startHistories_lookup span reqs id :
  startHistories span reqs !! id =
  if decide (id ∈ map ir_Identity reqs) then Some (replicate (Z.to_nat (instants span)) emptyInputs) else None.
Proof.
  unfold startHistories.
  assert (H : ∀ l (m : gmap WorkloadIdentity (list WorkloadInputs)),
    foldl (λ m r, <[ir_Identity r := replicate (Z.to_nat (instants span)) emptyInputs]> m) m l !! id =
    if decide (id ∈ map ir_Identity l) then Some (replicate (Z.to_nat (instants span)) emptyInputs) else m !! id).
  { induction l as [|r l IH]; intros m; cbn [foldl map]; [by rewrite decide_False by apply not_elem_of_nil|].
    rewrite IH, lookup_insert. destruct (decide (id ∈ map ir_Identity l)) as [Hin|Hnin].
    - by rewrite decide_True by by right.
    - destruct (decide (ir_Identity r = id)) as [->|]; [by rewrite decide_True by by left|].
      rewrite decide_False; [done|]. by intros [?|?]%elem_of_cons. }
  by rewrite H.
Qed.

Lemma startHistories_shaped span reqs : shaped span reqs (Some (startHistories span reqs)).
Proof.
  eexists. split; [done|]. intros id. rewrite startHistories_lookup. case_decide; [|done].
  eexists. split; [done|]. apply length_replicate.
Qed.

(** The client answers the points of the range it is asked. *)
Definition answers_range (cfg : ResourcesConfigs) (span : Span) : Prop :=
  ∀ st s h shard st' series, QueryShardRange st s h cfg shard span = (st', Ok series) → dated span series.

Lemma readRange_dated cfg span s st st' shard series :
  answers_range cfg span → readRange cfg span s st shard = (st', Ok series) → dated span series.
Proof.
  intros Ha. unfold readRange. destruct (QueryShardRange st s false cfg shard span) as [st1 [own|e]] eqn:E1; [|done].
  destruct (hasHistoryQuery s); [|intros [= <- <-]; by eapply Ha].
  destruct (QueryShardRange st1 s true cfg shard span) as [st2 [more|e]] eqn:E2; [|done]. intros [= <- <-].
  intros sr pt [Hin|Hin]%elem_of_app; [by apply (Ha _ _ _ _ _ _ E1)|by apply (Ha _ _ _ _ _ _ E2)].
Qed.

(** C30: A history read over a span of whole steps does not panic, and holds what
    was read. Every identity asked for, and no other, is answered with one
    inputs at each instant of the span, dated at it, or with an error a required
    signal failed with. At an instant each signal's values are of the
    identity's own points nearest to that instant, in an answer of the client
    to the signal's queries, the history query's after its own; or none, with
    the reasons [FetchInputs_settles] gives. *)
Theorem FetchHistory_shaped n maxSamples st span cfg reqs id :
  regular span n → answers_range cfg span →
  ∃ m, snd (PromFetchHistory maxSamples st span cfg reqs) = Some m ∧
  match m !! id with
  | Some (Ok points) =>
      id ∈ map ir_Identity reqs ∧ Z.of_nat (length points) = n + 1 ∧
      ∀ i p, points !! i = Some p →
        hp_At p = Start span + Z.of_nat i * Step span ∧
        ∀ s, s ∈ signals →
          read_values (readRange cfg span) (samplesNear span (Z.of_nat i)) s id (hp_Inputs p) ∨
          hp_Inputs p !! sig_name s = Some (collect s []) ∧
          (malformed id = true ∨ required s = false ∧ ∃ e, failsAlone (readRange cfg span s) id e)
  | Some (Err e) =>
      id ∈ map ir_Identity reqs ∧ ∃ s, s ∈ signals ∧ requiredFailure (readRange cfg span) s id e
  | None => id ∉ map ir_Identity reqs
  end.
Proof.
  intros Hreg Hans. set (r := fetchSignals cfg reqs (instants span) maxSamples (readRange cfg span) (applySeries span) st
    (Some (startHistories span reqs))).
  destruct (Hreg) as (Hp & Hn0 & _). pose proof (regular_instants _ _ Hreg) as Hn.
  assert (Hsettled : ∀ i : nat, Z.of_nat i ≤ n →
    covers (lookAt i) reqs (sg_applied _ r) ∧
    (∀ id w, lookAt i (sg_applied _ r) id = Some w → ∀ s, s ∈ signals →
       settled (readRange cfg span) (samplesNear span (Z.of_nat i)) s (sg_failed _ r) id w) ∧
    (∀ id e, sg_failed _ r !! id = Some e → ∃ s, s ∈ signals ∧ requiredFailure (readRange cfg span) s id e)).
  { intros i Hi. apply (fetchSignals_settled (readRange cfg span) (applySeries span) (samplesNear span (Z.of_nat i)) (lookAt i)).
    - intros s st1 st2 shard a b id' Hq. eapply applySeries_lookAt; [done| |done]. by eapply readRange_dated.
    - intros id'. unfold lookAt. cbn. rewrite startHistories_lookup. case_decide; cbn; [|by split; [intros []|]].
      rewrite lookup_replicate_2 by lia. done.
    - intros id' w. unfold lookAt. cbn. rewrite startHistories_lookup. case_decide; cbn; [|done].
      by intros [-> _]%lookup_replicate. }
  assert (Hshape : shaped span reqs (sg_applied _ r)).
  { apply fetchSignals_keeps; [|apply startHistories_shaped].
    intros s st1 st2 shard a b Hq. eapply applySeries_shaped; [done|]. by eapply readRange_dated. }
  destruct Hshape as (m & Hm & Hsh). unfold PromFetchHistory. cbn [snd]. fold r. rewrite Hm.
  eexists. split; [done|]. rewrite map_lookup_imap. specialize (Hsh id).
  destruct (decide (id ∈ map ir_Identity reqs)) as [Hin|Hnin]; [|by rewrite Hsh].
  destruct Hsh as (ws & Hws & Hlen). rewrite Hws. cbn [mbind option_bind].
  destruct (sg_failed _ r !! id) as [e|] eqn:E.
  { split; [done|]. destruct (Hsettled 0%nat ltac:(lia)) as (_ & _ & H). by apply H. }
  split; [done|]. unfold historyOf. rewrite length_imap. split; [lia|].
  intros i p Hi. rewrite list_lookup_imap in Hi. destruct (ws !! i) as [w|] eqn:Hw; [|done]. injection Hi as <-.
  assert (Hin' : Z.of_nat i ≤ n) by (apply lookup_lt_Some in Hw; lia). cbn [hp_At hp_Inputs].
  split; [apply (regular_instant span n); [done|lia]|]. intros s Hs.
  destruct (Hsettled i Hin') as (_ & Hset & _).
  assert (Hl : lookAt i (sg_applied _ r) id = Some w) by (unfold lookAt; rewrite Hm; cbn; by rewrite Hws).
  destruct (Hset id w Hl s Hs) as [?|[? Hwhy]]; [by left|]. right. split; [done|].
  destruct Hwhy as [?|[? Hreq]]; [by left|]. right. destruct (required s); [|by split].
  destruct (Hreq eq_refl) as [? He]. by rewrite E in He.
Qed.
End HistoryInputs.

(** ** At a concrete input *)
Section Sample.
#[local] Existing Instance amd64.
#[local] Existing Instance nano_quantity.
#[local] Existing Instance no_durations.

(** A client that answers one point of memory usage, 29 seconds past the first
    minute, no CPU, and fails the kills. *)
#[local] Instance sample_client : Prom :=
  {| p_state := unit; QueryShard st _ _ _ _ := (st, Ok []); cancelled _ := false |}.
#[local] Instance sample_ranges : PromRange (PR := sample_client) :=
  {| QueryShardRange st s _ _ shard _ :=
       (st, if String.eqb (sig_name s) ResourceMemory
            then Ok [{| sr_Identity := Identity "prod" "Deployment" "web"; sr_Container := "app"; sr_Metric := "";
                        sr_Points := [{| tv_Timestamp := 89; tv_Value := f_of_Z 7 |}] |}]
            else if String.eqb (sig_name s) ResourceCPU then Ok [] else Err (ErrorNew "timeout")) |}.

Definition sample_minutes : Span := {| Start := 0; End := 600; Step := 60 |}.

Lemma FetchHistory_shaped_witness :
  match snd (PromFetchHistory (PR := sample_client) 25000 tt sample_minutes sample_resources [sample_inputs_request]) with
  | Some m =>
      match m !! Identity "prod" "Deployment" "web" with
      | Some (Ok points) => Z.of_nat (length points) = 11
      | _ => False
      end
  | None => False
  end.
Proof.
  destruct (FetchHistory_shaped (PR := sample_client) 10 25000 tt sample_minutes sample_resources [sample_inputs_request]
    (Identity "prod" "Deployment" "web")) as (m & Hm & H).
  - unfold regular, int64_max. cbn. lia.
  - intros st s h shard st' series Hq sr pt Hsr Hpt. unfold QueryShardRange, sample_ranges in Hq.
    destruct (String.eqb (sig_name s) ResourceMemory).
    + injection Hq as _ <-. apply list_elem_of_singleton in Hsr as ->. apply list_elem_of_singleton in Hpt as ->. cbn. lia.
    + destruct (String.eqb (sig_name s) ResourceCPU); [|discriminate Hq]. injection Hq as _ <-. by apply not_elem_of_nil in Hsr.
  - assert (Hok : match snd (PromFetchHistory (PR := sample_client) 25000 tt sample_minutes sample_resources [sample_inputs_request]) with
      | Some m => match m !! Identity "prod" "Deployment" "web" with Some (Ok _) => true | _ => false end
      | None => false end = true) by by_running.
    rewrite Hm in Hok |- *. destruct (m !! _) as [[points|e]|]; [|discriminate Hok..].
    destruct H as (_ & H & _). exact H.
Defined.

(** The point is of the second instant alone, the nearest. *)
Example nearest_instant :
  (λ m, (λ r, match r with Ok points => map (λ p, Usage (hp_Inputs p) "app" memoryResource) (take 3 points) | Err _ => [] end)
     <$> m !! Identity "prod" "Deployment" "web")
    <$> snd (PromFetchHistory (PR := sample_client) 25000 tt sample_minutes sample_resources [sample_inputs_request]) =
  Some (Some [f_zero; f_of_Z 7; f_zero]).
Proof. by_running. Qed.
End Sample.
