(* ===== verification/HttpLayer.v ===== *)
(** * Serving over HTTP
    ([envelope.go] and [middleware.go] of [internal/httpx], [middleware.go] and
    [envelope.go] of [internal/dashboard])

    The envelope of a response, its request ID, the origins a browser may read it
    from, and its compression. A [writer] is what the handlers see of
    [net/http]'s response: headers that are sent with the first status that is
    not informational, then a body. [gzipResponseWriter] is a machine over it. *)

From Stdlib Require Import Ascii.
From S2P Require Import Prelude GoLang GoStrings.
Local Open Scope Z_scope.

(** ** Headers *)

Abbreviation header := (gmap string (list string)).

(** [http.Header]: [Get] is the first value, empty for none. *)
Definition header_Get (h : header) (k : string) : string := default "" (h !! k ≫= head).
Definition header_Set (h : header) (k v : string) : header := <[k := [v]]> h.
Definition header_Add (h : header) (k v : string) : header := <[k := default [] (h !! k) ++ [v]]> h.

(** ** The response of [net/http] *)

(** What is written to the body: as the handler wrote it, compressed, or the
    trailer that ends a compressed body. *)
Inductive chunk := Written (b : string) | Zipped (b : string) | ZipEnd.

Record writer := {
  w_header : header;
  w_sent : option (Z * header);
  w_body : list chunk;
}.

Definition newWriter (h : header) : writer := {| w_header := h; w_sent := None; w_body := [] |}.

Definition informational (status : Z) : bool := (100 <=? status) && (status <? 200).

(** An informational status sends nothing that lasts, 101 apart; the first other
    one sends the headers as they stand, and the rest are ignored. *)
Definition WriteHeader (w : writer) (status : Z) : writer :=
  if informational status && negb (status =? 101) then w
  else
    match w_sent w with
    | Some _ => w
    | None => {| w_header := w_header w; w_sent := Some (status, w_header w); w_body := w_body w |}
    end.

(** The statuses whose body is refused. *)
Definition bodyAllowed (status : Z) : bool := negb (informational status || (status =? 204) || (status =? 304)).

(** A body without a status is a 200. *)
Definition Write (w : writer) (c : chunk) : writer :=
  let w := WriteHeader w 200 in
  if match w_sent w with Some (status, _) => bodyAllowed status | None => true end
  then {| w_header := w_header w; w_sent := w_sent w; w_body := w_body w ++ [c] |}
  else w.

Definition with_header (w : writer) (h : header) : writer :=
  {| w_header := h; w_sent := w_sent w; w_body := w_body w |}.

(** ** The envelope *)

Definition ErrorCodeForStatus (status : Z) : string :=
  if status =? 400 then "BAD_REQUEST"
  else if status =? 404 then "NOT_FOUND"
  else if status =? 405 then "METHOD_NOT_ALLOWED"
  else if status =? 503 then "SERVICE_UNAVAILABLE"
  else "INTERNAL".

Definition RequestIDHeader : string := "X-Request-Id".

(** What is encoded: the data, or the error, with the request's ID. *)
Inductive body (A : Type) :=
  | Data (a : A) (requestID : string)
  | APIError (code message field requestID : string).
#[global] Arguments Data {A}.
#[global] Arguments APIError {A}.

(** [encode] is the JSON encoder. *)
Definition writeBody {A} (encode : body A → string) (w : writer) (status : Z) (b : string → body A) : writer :=
  let rid := header_Get (w_header w) RequestIDHeader in
  let w := with_header w (header_Set (w_header w) "Content-Type" "application/json") in
  Write (WriteHeader w status) (Written (encode (b rid))).

Definition WriteJSON {A} (encode : body A → string) (w : writer) (status : Z) (data : A) : writer :=
  writeBody encode w status (Data data).

Definition WriteFieldError {A} (encode : body A → string) (w : writer) (status : Z) (msg field : string) : writer :=
  writeBody encode w status (APIError (ErrorCodeForStatus status) msg field).

Definition WriteError {A} (encode : body A → string) (w : writer) (status : Z) (msg : string) : writer :=
  WriteFieldError encode w status msg "".

(** [writeK8sGetError]: the status of a failed read of the API server. *)
Definition k8sGetStatus (e : error) : Z := if errors_Is e "NotFound" then 404 else 500.

(** ** Middleware *)

(** [routeLabel]; [labelRoute] is nil for no labeler. *)
Definition routeLabel {R} (r : R) (labelRoute : option (R → string)) : string :=
  match labelRoute with
  | Some f => if String.eqb (f r) "" then "unknown" else f r
  | None => "unknown"
  end.

(** [DefaultRouteLabeler] of the pattern a request matched. *)
Definition DefaultRouteLabeler (pattern : string) : string := if String.eqb pattern "" then "unknown" else pattern.

(** [WithRequestID]: [generated] is what [NewRequestID] answers. The ID is the
    context's too. *)
Definition withRequestID (requested generated : string) (w : writer) : writer * string :=
  let rid := if String.eqb requested "" then generated else requested in
  (with_header w (header_Set (w_header w) RequestIDHeader rid), rid).

(** How a handler ends: it returns, panics, or drops the connection. *)
Inductive outcome := Returned (w : writer) | Panics (w : writer) | Aborted (w : writer).

(** [WithRecovery], with the panics counted under the route's label. *)
Definition withRecovery {A} (encode : body A → string) (label : string) (o : outcome) (panics : gmap string Z) :
    outcome * gmap string Z :=
  match o with
  | Panics w => (Returned (WriteError encode w 500 "internal error"), <[label := default 0 (panics !! label) + 1]> panics)
  | o => (o, panics)
  end.

(** ** Cross-origin requests *)

(** The origin allowed, empty for none. *)
Definition allowedOrigin (CORSOrigins : list string) (reqOrigin : string) : string :=
  if bool_decide (CORSOrigins = []) then ""
  else if bool_decide (CORSOrigins = ["*"]) then "*"
  else default "" (List.find (λ o, String.eqb o reqOrigin) CORSOrigins).

Definition corsHeaders (CORSOrigins : list string) (reqOrigin : string) (h : header) : header :=
  let origin := allowedOrigin CORSOrigins reqOrigin in
  let h := if negb (String.eqb reqOrigin "") && negb (bool_decide (CORSOrigins = []))
           then header_Add h "Vary" "Origin" else h in
  if String.eqb origin "" then h
  else
    header_Set (header_Set (header_Set (header_Set h "Access-Control-Allow-Origin" origin)
      "Access-Control-Allow-Methods" "GET, POST, OPTIONS") "Access-Control-Allow-Headers" "Content-Type, X-Request-Id")
      "Access-Control-Expose-Headers" "X-Request-Id".

(** [withCORS]: an OPTIONS request stops here. *)
Definition withCORS (CORSOrigins : list string) (method reqOrigin : string) (next : writer → outcome) (w : writer) : outcome :=
  let w := with_header w (corsHeaders CORSOrigins reqOrigin (w_header w)) in
  if String.eqb method "OPTIONS" then Returned (WriteHeader w 204) else next w.

(** ** Compression *)

Definition passthroughStatus (status : Z) : bool := (status =? 204) || (status =? 304) || informational status.

Definition alreadyCompressedType (ct : string) : bool :=
  let ct := ToLower ct in
  let ct := match Cut ";" ct with (before, Some _) => TrimSpace before | (before, None) => before end in
  if String.prefix "image/" ct then negb (String.eqb ct "image/svg+xml")
  else String.prefix "video/" ct || String.prefix "audio/" ct ||
       contains ct ["application/zip"; "application/gzip"; "application/x-gzip"; "application/x-brotli";
                    "application/x-7z-compressed"].

Record gzipResponseWriter := {
  gz_w : writer;
  wroteHeader : bool;
  passthrough : bool;
}.

Definition gzWriteHeader (g : gzipResponseWriter) (status : Z) : gzipResponseWriter :=
  let h := w_header (gz_w g) in
  let pass h := {| gz_w := WriteHeader (with_header (gz_w g) h) status; wroteHeader := true; passthrough := true |} in
  if passthroughStatus status then pass (delete "Content-Encoding" h)
  else if String.eqb (header_Get h "Content-Length") "0" then pass h
  else if negb (String.eqb (header_Get h "Content-Encoding") "") || alreadyCompressedType (header_Get h "Content-Type")
  then pass h
  else
    let h := header_Set h "Content-Encoding" "gzip" in
    let h := header_Add h "Vary" "Accept-Encoding" in
    let h := delete "Content-Length" h in
    {| gz_w := WriteHeader (with_header (gz_w g) h) status; wroteHeader := true; passthrough := passthrough g |}.

Definition gzWrite (g : gzipResponseWriter) (b : string) : gzipResponseWriter :=
  let g := if wroteHeader g then g else gzWriteHeader g 200 in
  {| gz_w := Write (gz_w g) (if passthrough g then Written b else Zipped b); wroteHeader := wroteHeader g;
     passthrough := passthrough g |}.

(** What a handler does with its writer. A flush writes what the compressor
    holds: its frame when nothing is written. *)
Inductive action := SetHeader (k v : string) | SendStatus (status : Z) | SendBody (b : string) | SendFlush.

Definition gzAct (g : gzipResponseWriter) (a : action) : gzipResponseWriter :=
  match a with
  | SetHeader k v =>
      {| gz_w := with_header (gz_w g) (header_Set (w_header (gz_w g)) k v); wroteHeader := wroteHeader g;
         passthrough := passthrough g |}
  | SendStatus status => gzWriteHeader g status
  | SendBody b => gzWrite g b
  | SendFlush =>
      if passthrough g then {| gz_w := WriteHeader (gz_w g) 200; wroteHeader := wroteHeader g; passthrough := passthrough g |}
      else {| gz_w := Write (gz_w g) (Zipped ""); wroteHeader := wroteHeader g; passthrough := passthrough g |}
  end.

(** [withGzip] over what a handler does, its deferred [Close] included. *)
Definition withGzip (acceptEncoding : string) (actions : list action) (w : writer) : writer :=
  if negb (containsText acceptEncoding "gzip") then
    foldl (λ w a, match a with
                  | SetHeader k v => with_header w (header_Set (w_header w) k v)
                  | SendStatus status => WriteHeader w status
                  | SendBody b => Write w (Written b)
                  | SendFlush => WriteHeader w 200
                  end) w actions
  else
    let g := foldl gzAct {| gz_w := w; wroteHeader := false; passthrough := false |} actions in
    if wroteHeader g && negb (passthrough g) then Write (gz_w g) ZipEnd else gz_w g.

(** ** What a browser may read *)

Lemma header_Get_Set h k v : header_Get (header_Set h k v) k = v.
Proof. unfold header_Get, header_Set. by rewrite lookup_insert_eq. Qed.

Lemma header_Get_Set_ne h k k' v : k ≠ k' → header_Get (header_Set h k v) k' = header_Get h k'.
Proof. intros Hk. unfold header_Get, header_Set. by rewrite lookup_insert_ne. Qed.

Lemma header_Get_Add_ne h k k' v : k ≠ k' → header_Get (header_Add h k v) k' = header_Get h k'.
Proof. intros Hk. unfold header_Get, header_Add. by rewrite lookup_insert_ne. Qed.

Lemma allowedOrigin_listed Os o :
  allowedOrigin Os o = "" ∨ (Os = ["*"] ∧ allowedOrigin Os o = "*") ∨ (allowedOrigin Os o = o ∧ o ∈ Os).
Proof.
  assert (Hfind : default "" (List.find (λ o', String.eqb o' o) Os) = "" ∨
    (default "" (List.find (λ o', String.eqb o' o) Os) = o ∧ o ∈ Os)).
  { destruct (List.find _ Os) as [o'|] eqn:E; [|by left].
    apply List.find_some in E as [Hin ->%String.eqb_eq]. right. split; [done|by apply list_elem_of_In]. }
  unfold allowedOrigin. case_bool_decide; [by left|]. case_bool_decide; [by right; left|].
  destruct Hfind as [?|?]; [by left|by right; right].
Qed.

(** A response is readable across origins only where it was allowed to be: by any
    origin when all are, else by the very origin that asked, a listed one, and
    then no shared cache may answer another origin with it. *)
Theorem cors_allowlisted Os reqOrigin (h : header) :
  header_Get h "Access-Control-Allow-Origin" = "" →
  let h' := corsHeaders Os reqOrigin h in
  let a := header_Get h' "Access-Control-Allow-Origin" in
  a ≠ "" →
  (Os = ["*"] ∧ a = "*") ∨ (a = reqOrigin ∧ reqOrigin ∈ Os ∧ "Origin" ∈ default [] (h' !! "Vary")).
Proof.
  intros H0 h' a Ha. unfold a, h', corsHeaders in *. clear a h'.
  set (h1 := if _ && _ then header_Add h "Vary" "Origin" else h) in *.
  assert (H1 : header_Get h1 "Access-Control-Allow-Origin" = "").
  { unfold h1. destruct (_ && _); [by rewrite header_Get_Add_ne|done]. }
  destruct (String.eqb_spec (allowedOrigin Os reqOrigin) "") as [He|He]; [by rewrite H1 in Ha|].
  rewrite !header_Get_Set_ne, header_Get_Set in Ha |- * by done.
  destruct (allowedOrigin_listed Os reqOrigin) as [?|[[-> ->]|[Hr Hin]]]; [done|by left|]. right.
  split_and!; [done|done|]. unfold header_Set. rewrite !lookup_insert_ne by done. unfold h1.
  rewrite (proj2 (String.eqb_neq reqOrigin "")) by congruence.
  rewrite bool_decide_false by (intros ->; by apply elem_of_nil in Hin). cbn [negb andb].
  unfold header_Add. rewrite lookup_insert_eq. cbn. apply elem_of_app. right. by left.
Qed.

(** ** A compressed response is framed as one *)

(** A handler sends its headers, then one status or its body, then the rest of
    its body: one final status, and no flush before it. *)
Definition sends (a : action) : Prop :=
  match a with SendStatus status => informational status = false | SendBody _ => True | _ => False end.
Definition continues (a : action) : Prop := match a with SendStatus _ => False | _ => True end.
Definition status_of (first : action) : Z := match first with SendStatus status => status | _ => 200 end.

Definition setting_headers (headers : list (string * string)) : list action := map (λ p, SetHeader p.1 p.2) headers.
Definition headers_set (headers : list (string * string)) (h : header) : header :=
  foldl (λ h p, header_Set h p.1 p.2) h headers.

(** What a handler writes of the body, in order, and the bytes of that. *)
Definition body_of (a : action) : list string := match a with SendBody b => [b] | _ => [] end.
Definition bodies (actions : list action) : list string := concat (map body_of actions).
Definition bytes_of (bs : list string) : string := foldr String.append "" bs.

(** A response of these headers is compressed: it is not announced empty, nor
    compressed already, nor of a compressed type. *)
Definition compressible (h : header) : Prop :=
  header_Get h "Content-Length" ≠ "0" ∧ header_Get h "Content-Encoding" = "" ∧
  alreadyCompressedType (header_Get h "Content-Type") = false.

#[global] Instance compressible_dec h : Decision (compressible h).
Proof. unfold compressible. apply _. Defined.

(** [sent] announces a compressed body, of the handler's headers [h]. *)
Definition announces_gzip (h sent : header) : Prop :=
  sent !! "Content-Encoding" = Some ["gzip"] ∧ sent !! "Content-Length" = None ∧
  "Accept-Encoding" ∈ default [] (sent !! "Vary") ∧
  ∀ k, k ≠ "Content-Encoding" → k ≠ "Content-Length" → k ≠ "Vary" → sent !! k = h !! k.

(** The body [b] is the compressed form of what was written: the bytes of [ws],
    then the trailer. *)
Definition compressed_body (b : list chunk) (ws : list string) : Prop :=
  ∃ bs, b = map Zipped bs ++ [ZipEnd] ∧ bytes_of bs = bytes_of ws.

(** The response of a handler with the headers [h], the status and the body
    [ws], to a client that accepts compression or not. *)
Definition framed (accepts : bool) (h : header) (status : Z) (ws : list string) (sent : header) (b : list chunk) : Prop :=
  if accepts then
    if passthroughStatus status then sent = delete "Content-Encoding" h ∧ b = []
    else if decide (compressible h) then announces_gzip h sent ∧ compressed_body b ws
    else sent = h ∧ b = map Written ws
  else sent = h ∧ b = map Written (if passthroughStatus status then [] else ws).

(** The machine once a status is sent, compressing or passing through. *)
Definition zipping (g : gzipResponseWriter) (status : Z) (sent : header) (ws : list string) : Prop :=
  wroteHeader g = true ∧ passthrough g = false ∧ w_sent (gz_w g) = Some (status, sent) ∧
  passthroughStatus status = false ∧ ∃ bs, w_body (gz_w g) = map Zipped bs ∧ bytes_of bs = bytes_of ws.
Definition passing (g : gzipResponseWriter) (status : Z) (sent : header) (ws : list string) : Prop :=
  wroteHeader g = true ∧ passthrough g = true ∧ w_sent (gz_w g) = Some (status, sent) ∧
  w_body (gz_w g) = map Written (if passthroughStatus status then [] else ws).

Lemma bytes_of_app l l' : bytes_of (l ++ l') = bytes_of l +:+ bytes_of l'.
Proof. induction l as [|b l IH]; [done|]. cbn. unfold bytes_of in IH. by rewrite IH, append_assoc. Qed.

Lemma WriteHeader_sent w status s : w_sent w = Some s → WriteHeader w status = w.
Proof. intros H. unfold WriteHeader. destruct (_ && _); [done|]. by rewrite H. Qed.

Lemma Write_sent w c status h :
  w_sent w = Some (status, h) →
  Write w c = if bodyAllowed status then {| w_header := w_header w; w_sent := w_sent w; w_body := w_body w ++ [c] |} else w.
Proof. intros H. unfold Write. by rewrite (WriteHeader_sent _ _ _ H), H. Qed.

Lemma bodyAllowed_passthrough status : bodyAllowed status = negb (passthroughStatus status).
Proof. unfold bodyAllowed, passthroughStatus. by destruct (informational status), (status =? 204), (status =? 304). Qed.

Lemma gzAct_zipping g status sent ws a :
  continues a → zipping g status sent ws → zipping (gzAct g a) status sent (ws ++ body_of a).
Proof.
  intros Hc (Hw & Hp & Hs & Hst & bs & Hb & Hbytes).
  assert (Hwrite : ∀ b, w_sent (Write (gz_w g) (Zipped b)) = Some (status, sent) ∧
    w_body (Write (gz_w g) (Zipped b)) = map Zipped (bs ++ [b])).
  { intros b. rewrite (Write_sent _ _ _ _ Hs), bodyAllowed_passthrough, Hst. cbn. by rewrite Hb, map_app. }
  destruct a; [|done| |]; cbn [gzAct body_of].
  - rewrite app_nil_r. split_and!; [done..|]. by exists bs.
  - unfold gzWrite. rewrite Hw, Hp. destruct (Hwrite b). split_and!; [done..|]. exists (bs ++ [b]).
    split; [done|]. by rewrite !bytes_of_app, Hbytes.
  - rewrite Hp, app_nil_r. destruct (Hwrite ""). split_and!; [done..|]. exists (bs ++ [""]).
    split; [done|]. rewrite bytes_of_app. cbn. by rewrite append_nil_r.
Qed.

Lemma gzAct_passing g status sent ws a :
  continues a → passing g status sent ws → passing (gzAct g a) status sent (ws ++ body_of a).
Proof.
  intros Hc (Hw & Hp & Hs & Hb). destruct a; [|done| |]; cbn [gzAct body_of]; rewrite ?app_nil_r.
  - by split_and!.
  - unfold gzWrite. rewrite Hw, Hp, (Write_sent _ _ _ _ Hs), bodyAllowed_passthrough. split_and!; [done|done| |]; cbn [gz_w];
      destruct (passthroughStatus status) eqn:E; cbn [negb w_sent w_body]; rewrite ?E; try done.
    by rewrite Hb, map_app.
  - rewrite Hp. split_and!; [done|done| |]; cbn [gz_w]; by rewrite (WriteHeader_sent _ _ _ Hs).
Qed.

Lemma rest_keeps rest g status sent ws (P : gzipResponseWriter → Z → header → list string → Prop) :
  (∀ g status sent ws a, continues a → P g status sent ws → P (gzAct g a) status sent (ws ++ body_of a)) →
  Forall continues rest → P g status sent ws → P (foldl gzAct g rest) status sent (ws ++ bodies rest).
Proof.
  intros HP Hrest. revert g ws. induction Hrest as [|a rest Ha _ IH]; intros g ws Hg; cbn [foldl].
  - unfold bodies. cbn. by rewrite app_nil_r.
  - unfold bodies in *. cbn [map concat]. rewrite app_assoc. by apply IH, HP.
Qed.

(** The first final status decides whether the body is compressed. *)
Lemma gzWriteHeader_first g status :
  wroteHeader g = false → passthrough g = false → w_sent (gz_w g) = None → w_body (gz_w g) = [] → informational status = false →
  let h := w_header (gz_w g) in
  if passthroughStatus status then passing (gzWriteHeader g status) status (delete "Content-Encoding" h) []
  else if decide (compressible h) then ∃ sent, announces_gzip h sent ∧ zipping (gzWriteHeader g status) status sent []
  else passing (gzWriteHeader g status) status h [].
Proof.
  intros Hw Hp Hs Hb Hi h. unfold gzWriteHeader. fold h.
  assert (Hpass : ∀ h', passing {| gz_w := WriteHeader (with_header (gz_w g) h') status; wroteHeader := true; passthrough := true |}
    status h' []).
  { intros h'. unfold WriteHeader. cbn. rewrite Hi. cbn. rewrite Hs. split_and!; [done..|]. cbn. rewrite Hb.
    by destruct (passthroughStatus status). }
  destruct (passthroughStatus status) eqn:Eps; [apply Hpass|].
  destruct (String.eqb_spec (header_Get h "Content-Length") "0") as [Hl|Hl].
  { rewrite decide_False by (unfold compressible; tauto). apply Hpass. }
  destruct (String.eqb_spec (header_Get h "Content-Encoding") "") as [He|He]; cbn [negb orb];
    [|rewrite decide_False by (unfold compressible; tauto); apply Hpass].
  destruct (alreadyCompressedType _) eqn:Ha; [rewrite decide_False by (intros (_ & _ & ?); congruence); apply Hpass|].
  rewrite decide_True by done. eexists. split; cycle 1.
  - unfold WriteHeader. cbn. rewrite Hi. cbn. rewrite Hs, Hp. split_and!; [done|done|done|done|]. exists []. cbn. by rewrite Hb.
  - unfold announces_gzip, header_Add, header_Set. split_and!.
    + rewrite lookup_delete_ne, lookup_insert_ne by done. apply lookup_insert_eq.
    + apply lookup_delete_eq.
    + rewrite lookup_delete_ne, lookup_insert_eq by done. cbn. apply elem_of_app. right. by left.
    + intros k H1 H2 H3. by rewrite lookup_delete_ne, !lookup_insert_ne by done.
Qed.

Lemma gzAct_first g first :
  wroteHeader g = false → passthrough g = false → w_sent (gz_w g) = None → w_body (gz_w g) = [] → sends first →
  let h := w_header (gz_w g) in
  if passthroughStatus (status_of first) then
    passing (gzAct g first) (status_of first) (delete "Content-Encoding" h) (body_of first)
  else if decide (compressible h) then
    ∃ sent, announces_gzip h sent ∧ zipping (gzAct g first) (status_of first) sent (body_of first)
  else passing (gzAct g first) (status_of first) h (body_of first).
Proof.
  intros Hw Hp Hs Hb Hf h. destruct first as [|status|b|]; [done| | |done]; cbn [status_of body_of].
  { by apply gzWriteHeader_first. }
  pose proof (gzWriteHeader_first g 200 Hw Hp Hs Hb eq_refl) as H. cbn zeta in H. fold h in H.
  cbn [passthroughStatus]. change (passthroughStatus 200) with false in *. cbn iota in H |- *.
  assert (Hact : gzAct g (SendBody b) = gzAct (gzWriteHeader g 200) (SendBody b)).
  { cbn [gzAct]. unfold gzWrite. rewrite Hw.
    assert (wroteHeader (gzWriteHeader g 200) = true) as E by (destruct (decide _); [by destruct H as (? & _ & ? & _)|apply H]).
    rewrite E. by f_equal. }
  rewrite Hact. destruct (decide (compressible h)).
  - destruct H as (sent & Ha & Hz). exists sent. split; [done|]. by apply (gzAct_zipping _ _ _ [] (SendBody b)).
  - by apply (gzAct_passing _ _ _ [] (SendBody b)).
Qed.

Lemma headers_first headers g :
  foldl gzAct g (setting_headers headers) =
  {| gz_w := with_header (gz_w g) (headers_set headers (w_header (gz_w g))); wroteHeader := wroteHeader g; passthrough := passthrough g |}.
Proof.
  revert g. induction headers as [|p headers IH]; intros g; [by destruct g as [[] ? ?]|].
  cbn [setting_headers map foldl]. unfold setting_headers in IH. rewrite IH. done.
Qed.

(** Without compression what the handler does is done. *)
Definition plainAct (w : writer) (a : action) : writer :=
  match a with
  | SetHeader k v => with_header w (header_Set (w_header w) k v)
  | SendStatus status => WriteHeader w status
  | SendBody b => Write w (Written b)
  | SendFlush => WriteHeader w 200
  end.

Lemma plain_headers headers w :
  foldl plainAct w (setting_headers headers) = with_header w (headers_set headers (w_header w)).
Proof.
  revert w. induction headers as [|p headers IH]; intros w; [by destruct w|].
  cbn [setting_headers map foldl]. unfold setting_headers in IH. rewrite IH. done.
Qed.

Definition plainly (w : writer) (status : Z) (sent : header) (ws : list string) : Prop :=
  w_sent w = Some (status, sent) ∧ w_body w = map Written (if passthroughStatus status then [] else ws).

Lemma plain_rest rest w status sent ws :
  Forall continues rest → plainly w status sent ws → plainly (foldl plainAct w rest) status sent (ws ++ bodies rest).
Proof.
  intros Hrest. revert w ws. induction Hrest as [|a rest Ha _ IH]; intros w ws Hw; cbn [foldl].
  { unfold bodies. cbn. by rewrite app_nil_r. }
  unfold bodies in *. cbn [map concat]. rewrite app_assoc. apply IH. clear IH. destruct Hw as [Hs Hb].
  destruct a; [|done| |]; cbn [plainAct body_of]; rewrite ?app_nil_r; [done| |by rewrite (WriteHeader_sent _ _ _ Hs)].
  rewrite (Write_sent _ _ _ _ Hs), bodyAllowed_passthrough. split; destruct (passthroughStatus status) eqn:E; cbn [negb w_sent w_body];
    rewrite ?E; try done. by rewrite Hb, map_app.
Qed.

Lemma plain_first w first :
  w_sent w = None → w_body w = [] → sends first → plainly (plainAct w first) (status_of first) (w_header w) (body_of first).
Proof.
  intros Hs Hb Hf. destruct first as [|status|b|]; [done| | |done]; cbn [plainAct status_of body_of].
  - unfold WriteHeader. cbn in Hf. rewrite Hf, Hs. cbn [andb]. split; [done|]. cbn [w_body]. rewrite Hb. by destruct (passthroughStatus _).
  - unfold Write, WriteHeader. rewrite Hs. split; [done|]. cbn. by rewrite Hb.
Qed.

(** C32: The response of a handler that sends its headers, one final status and
    its body is framed as its headers announce it. To a client that accepts
    compression it is compressed unless the status carries no body or the
    headers say it is empty or compressed already: compressed, the headers
    announce that, with no length, and the body is what the handler wrote, byte
    for byte and in order, then the compressor's trailer; passed through, the
    headers are the handler's and the body just what it wrote, none after a
    status that carries none. To another client all is the handler's. *)
Theorem gzip_framed acceptEncoding headers first rest h :
  sends first → Forall continues rest →
  let actions := setting_headers headers ++ first :: rest in
  let w := withGzip acceptEncoding actions (newWriter h) in
  ∃ sent, w_sent w = Some (status_of first, sent) ∧
    framed (containsText acceptEncoding "gzip") (headers_set headers h) (status_of first) (bodies (first :: rest)) sent (w_body w).
Proof.
  intros Hfirst Hrest actions w. unfold w, withGzip, framed, actions. fold plainAct.
  destruct (containsText acceptEncoding "gzip"); cbn [negb]; rewrite foldl_app; cbn [foldl].
  2:{ rewrite plain_headers. set (w0 := with_header _ _).
    destruct (plain_rest rest _ _ _ _ Hrest (plain_first w0 first eq_refl eq_refl Hfirst)) as [Hs Hb].
    eexists. split_and!; [exact Hs|done|exact Hb]. }
  rewrite headers_first. cbn [gz_w newWriter w_header wroteHeader passthrough].
  set (g := {| gz_w := _; wroteHeader := _; passthrough := _ |}). set (h' := headers_set headers h).
  pose proof (gzAct_first g first eq_refl eq_refl eq_refl eq_refl Hfirst) as H. cbn zeta in H.
  change (w_header (gz_w g)) with h' in H. unfold bodies in *. cbn [map concat]. fold (bodies rest) in *.
  destruct (passthroughStatus (status_of first)) eqn:Ep; [|destruct (decide (compressible h'))].
  - apply (rest_keeps rest _ _ _ _ passing gzAct_passing Hrest) in H as (Hw & Hp & Hs & Hb).
    rewrite Hw, Hp. cbn [andb negb]. rewrite Ep in Hb. eauto.
  - destruct H as (sent & Ha & H). apply (rest_keeps rest _ _ _ _ zipping gzAct_zipping Hrest) in H as (Hw & Hp & Hs & Hst & bs & Hb & Hby).
    rewrite Hw, Hp. cbn [andb negb]. rewrite (Write_sent _ _ _ _ Hs), bodyAllowed_passthrough, Hst. cbn [negb w_sent w_body].
    exists sent. split_and!; [done|done|]. exists bs. by rewrite Hb.
  - apply (rest_keeps rest _ _ _ _ passing gzAct_passing Hrest) in H as (Hw & Hp & Hs & Hb).
    rewrite Hw, Hp. cbn [andb negb]. rewrite Ep in Hb. eauto.
Qed.

(** ** At concrete inputs *)

Lemma cors_allowlisted_witness :
  "Origin" ∈ default [] (corsHeaders ["https://a"; "https://b"] "https://b" ∅ !! "Vary").
Proof.
  destruct (cors_allowlisted ["https://a"; "https://b"] "https://b" ∅) as [[H _]|(_ & _ & H)]; [done|done|done|exact H].
Defined.

Lemma gzip_framed_witness :
  let w := withGzip "br, gzip" [SetHeader "Content-Type" "application/json"; SendStatus 200; SendBody "{"; SendFlush; SendBody "}"]
    (newWriter ∅) in
  ∃ sent, w_sent w = Some (200, sent) ∧ sent !! "Content-Encoding" = Some ["gzip"] ∧ compressed_body (w_body w) ["{"; "}"].
Proof.
  destruct (gzip_framed "br, gzip" [("Content-Type", "application/json")] (SendStatus 200) [SendBody "{"; SendFlush; SendBody "}"] ∅)
    as (sent & Hs & Hf); [done|by repeat constructor|].
  exists sent. split; [exact Hs|]. unfold framed in Hf. destruct (decide (compressible _)) as [_|Hn].
  - destruct Hf as [[He _] Hb]. split; [exact He|exact Hb].
  - exfalso. apply Hn. split_and!; by vm_compute.
Defined.

(** An informational status leaves the writer passing through: the body of the
    final status is announced as compressed and is not. *)
Example early_hints_mislabelled :
  let w := withGzip "gzip" [SendStatus 103; SendStatus 200; SendBody "{}"] (newWriter ∅) in
  (w_sent w ≫= λ s, s.2 !! "Content-Encoding") = Some ["gzip"] ∧ w_body w = [Written "{}"].
Proof. split; by_running. Qed.
