(* ===== verification/Detail.v ===== *)
(** * The pages of an identity and of the Policies
    ([handlers_workload_detail.go], [activity.go], [trend.go]
    and [handlers_policies.go], in [internal/dashboard])

    What the detail page shows of an identity and of its stored recommendation,
    the events about it, the cluster's activity and trend, and the list of the
    Policies. What the API server and Prometheus answer are arguments. *)

From stdpp Require Import sets.
From S2P Require Import Prelude GoLang GoText Rfc3339 Quantity Kube PolicyApi WlrApi Owners Shards Signals Compute.
From S2P Require Import Inventory Params Queries Board Overview Charts Simulate.
Local Open Scope Z_scope.

(** ** Events *)

(** [corev1.Event] *)
Record Event := {
  ev_Series : option time;
  ev_LastTimestamp : time;
  ev_EventTime : time;
  ev_FirstTimestamp : time;
  ev_CreationTimestamp : time;
  ev_Namespace : string;
  ev_Kind : string;
  ev_Name : string;
  ev_Reason : string;
  ev_Message : string;
}.

Definition eventTimestamp (e : Event) : time :=
  let rest :=
    if negb (time_IsZero (ev_LastTimestamp e)) then ev_LastTimestamp e
    else if negb (time_IsZero (ev_EventTime e)) then ev_EventTime e
    else if negb (time_IsZero (ev_FirstTimestamp e)) then ev_FirstTimestamp e
    else ev_CreationTimestamp e in
  match ev_Series e with
  | Some t => if time_IsZero t then rest else t
  | None => rest
  end.

(** [Time.UnixNano] *)
Definition UnixNano (t : time) : Z := wrap64 (t - unixToZero * second).

Record activityItem := {
  ai_Timestamp : string;
  ai_Namespace : string;
  ai_Kind : string;
  ai_Name : string;
  ai_Reason : string;
  ai_Message : string;
}.

Definition activityOf (e : Event) : activityItem :=
  {| ai_Timestamp := FormatRFC3339 (eventTimestamp e); ai_Namespace := ev_Namespace e; ai_Kind := ev_Kind e;
     ai_Name := ev_Name e; ai_Reason := ev_Reason e; ai_Message := ev_Message e |}.

Definition activityLimitDefault : Z := 20.
Definition activityLimitMax : Z := 100.

Definition parseActivityLimit (s : string) : parsed Z :=
  if String.eqb s "" then inl activityLimitDefault
  else
    match Atoi s with
    | Some n => if (n <? 1) || (activityLimitMax <? n) then inr (BadParam "limit") else inl n
    | None => inr (BadParam "limit")
    end.

(** Newest first, as their texts compare. *)
Definition newestItem (a b : activityItem) : comparison := String.compare (ai_Timestamp b) (ai_Timestamp a).

(** [events] is what the API server answers, at most five hundred. *)
Definition handleSummaryActivity (events : result (list Event)) (q : query) : reply (list activityItem) :=
  match parseActivityLimit (q "limit") with
  | inr (BadParam field) => BadRequest field
  | inl limit =>
      match events with
      | Err e => ReadFailed e
      | Ok events => Answered (take (Z.to_nat limit) (sort_by newestItem (map activityOf events)))
      end
  end.

Section Detail.
Context {PL : Platform} {QO : QuantityOps} {KO : KubeOps} {PO : PromOps}.

(** ** One identity *)

(** The names an identity's events are about. *)
Definition eventNames (id : Inventory.Identity) : gset string :=
  match Members id with
  | [] => {[id_OwnerName (Inventory.Key id)]}
  | ms => list_to_set (map m_Name ms)
  end.

Definition newestEvent (a b : Event) : comparison := UnixNano (eventTimestamp b) ?= UnixNano (eventTimestamp a).

Definition isAbout (id : Inventory.Identity) (e : Event) : bool :=
  String.eqb (ev_Kind e) (id_OwnerKind (Inventory.Key id)) && bool_decide (ev_Name e ∈ eventNames id).

(** [events] is what the API server answers, nothing when it fails. The limit is
    positive. *)
Definition recentSustainEvents (events : list Event) (id : Inventory.Identity) (limit : nat) : list activityItem :=
  map activityOf (take limit (List.filter (isAbout id) (sort_by newestEvent events))).

Record storedRecommendation := {
  sr_Outcome : RecommendationOutcome;
  sr_ObservedAt : string;
  sr_Containers : gmap string simulationContainerResult;
  sr_Trace : gmap string ContainerTrace;
}.

Definition stored_container (rec : ContainerRecommendation) : simulationContainerResult :=
  {| sc_CPURequest := text_of (CPURequest rec); sc_MemoryRequest := text_of (MemoryRequest rec);
     sc_CPULimit := text_of (CPULimit rec); sc_MemoryLimit := text_of (MemoryLimit rec);
     sc_CPULimitRemoved := RemoveCPULimit rec; sc_MemoryLimitRemoved := RemoveMemoryLimit rec;
     sc_CPUUsageCores := f_zero; sc_MemoryUsageBytes := f_zero |}.

Definition storedRecommendationOf (wlr : option WorkloadRecommendation) : option storedRecommendation :=
  match wlr with
  | None => None
  | Some wlr =>
      let st := wlr_Status wlr in
      Some {| sr_Outcome := wlr_Outcome st;
              sr_ObservedAt := if time_IsZero (ObservedAt st) then "" else FormatRFC3339 (ObservedAt st);
              sr_Containers := stored_container <$> wlr_Containers st;
              sr_Trace := wlr_Trace st |}
  end.

(** [governingPolicy]: none, too, for a Policy that cannot be read. *)
Definition governingPolicy (policies : string → result Policy) (id : Inventory.Identity) : option Policy :=
  if String.eqb (id_Policy id) "" then None
  else match policies (id_Policy id) with Ok policy => Some policy | Err _ => None end.

Record workloadDetailResponse := {
  wd_Automated : bool;
  wd_PolicyName : string;
  wd_ConflictingPolicies : list string;
  wd_Departed : bool;
  wd_UpdateMode : option UpdateMode;
  wd_RiskState : riskState;
  wd_StalePods : Z;
  wd_TotalPods : Z;
  wd_OOM24h : Z;
  wd_Blocked : option blockedSignal;
  wd_RecentEvents : list activityItem;
  wd_CoordinationFactors : option coordinationFactors;
  wd_Recommendation : option storedRecommendation;
}.

(** [identity], of the kinds the inventory holds: what [Take] answers of its
    namespace and kind. *)
Definition identity (snap : result Snapshot) (key : WorkloadIdentity) : result (option Inventory.Identity) :=
  if negb (contains (id_OwnerKind key) SupportedKinds) then Ok None
  else match snap with Err e => Err e | Ok snap => Ok (Lookup snap key) end.

Definition detailOf (st : identityStatus) (policies : string → result Policy) (events : list Event)
    (kind : string) : workloadDetailResponse :=
  let id := st_id st in
  {| wd_Automated := negb (String.eqb (id_Policy id) ""); wd_PolicyName := id_Policy id;
     wd_ConflictingPolicies := conflictingPolicies id; wd_Departed := Departed id;
     wd_UpdateMode := governingPolicy policies id ≫= λ p, ModeForKind (Types (rs_Update (pol_RightSizing p))) kind;
     wd_RiskState := st_risk st; wd_StalePods := ih_StalePods (st_health st); wd_TotalPods := ih_TotalPods (st_health st);
     wd_OOM24h := ih_OOM24h (st_health st); wd_Blocked := ih_Blocked (st_health st);
     wd_RecentEvents := recentSustainEvents events id 10; wd_CoordinationFactors := st_coordination st;
     wd_Recommendation := storedRecommendationOf (Recommendation id) |}.

(** [None] in a reply's place is an identity there is none of. *)
Definition handleWorkloadDetail (health : list WorkloadIdentity → healths * option error) (snap : result Snapshot)
    (policies : string → result Policy) (events : list Event) (key : WorkloadIdentity) :
    option (reply workloadDetailResponse) :=
  match identity snap key with
  | Err e => Some (ReadFailed e)
  | Ok None => None
  | Ok (Some id) =>
      match fst (board health [id]) with
      | st :: _ => Some (Answered (detailOf st policies events (id_OwnerKind key)))
      | [] => Some Panicked
      end
  end.

(** ** The Policies *)

Record policyRollups := {
  pr_workloadCount : gmap string float64;
  pr_cpuSavingsCores : gmap string float64;
  pr_memSavingsBytes : gmap string float64;
  pr_blockedCount : gmap string float64;
}.

(** A rollup that cannot be read is empty. *)
Definition fetchPolicyRollups (wl cpu mem blocked : result value) : policyRollups :=
  {| pr_workloadCount := (byPolicy wl).1; pr_cpuSavingsCores := (byPolicy cpu).1; pr_memSavingsBytes := (byPolicy mem).1;
     pr_blockedCount := (byPolicy blocked).1 |}.

Record policyListItem := {
  pli_Name : string;
  pli_Namespaces : list string;
  pli_Update : UpdateTypes;
  pli_WorkloadCount : Z;
  pli_CPUSavingsCores : float64;
  pli_MemSavingsBytes : float64;
  pli_BlockedCount : Z;
}.

(** The conditions and the creation time, which the model of a Policy leaves out,
    are copied as they are. *)
Definition policyListItemFor (p : Policy) (rollups : policyRollups) : policyListItem :=
  let of_ (m : gmap string float64) := default f_zero (m !! pol_Name p) in
  {| pli_Name := pol_Name p; pli_Namespaces := Namespaces (pol_Selector p); pli_Update := Types (rs_Update (pol_RightSizing p));
     pli_WorkloadCount := int64_of_float (of_ (pr_workloadCount rollups));
     pli_CPUSavingsCores := of_ (pr_cpuSavingsCores rollups); pli_MemSavingsBytes := of_ (pr_memSavingsBytes rollups);
     pli_BlockedCount := int64_of_float (of_ (pr_blockedCount rollups)) |}.

Definition handlePolicies (policies : result (list Policy)) (wl cpu mem blocked : result value) : reply (list policyListItem) :=
  match policies with
  | Err e => ReadFailed e
  | Ok ps => Answered (map (λ p, policyListItemFor p (fetchPolicyRollups wl cpu mem blocked)) ps)
  end.

(** A series that cannot be read is empty. *)
Definition seriesOrEmpty (answer : result value) : list TimeValue :=
  match QueryRange answer with Ok v => v | Err _ => [] end.

Definition handlePolicyDetail (policy : result Policy) (q : query) (now : time) (cpuSeries memSeries : result value)
    (wl cpu mem blocked : result value) : reply (policyListItem * list TimeValue * list TimeValue) :=
  match policy with
  | Err e => ReadFailed e
  | Ok p =>
      match parseTimeRange q "30d" now with
      | inr (BadParam field) => BadRequest field
      | inl _ =>
          match parseStepParam q hour with
          | inr (BadParam field) => BadRequest field
          | inl _ => Answered (policyListItemFor p (fetchPolicyRollups wl cpu mem blocked), seriesOrEmpty cpuSeries, seriesOrEmpty memSeries)
          end
      end
  end.

(** ** The trend *)

(** The answers of the six queries, the CPU's and then the memory's: usage,
    request, original request. *)
Definition handleSummaryTrend (answers : list (result value)) (q : query) (now : time) : reply (list (list TimeValue)) :=
  match parseTimeRange q "30d" now with
  | inr (BadParam field) => BadRequest field
  | inl _ =>
      match parseStepParam q hour with
      | inr (BadParam field) => BadRequest field
      | inl _ =>
          let failed := List.filter (λ a, match QueryRange a with Err _ => true | Ok _ => false end) answers in
          if bool_decide (length failed = 6%nat) then ReadFailed (ErrorNew "prometheus unavailable: all trend queries failed")
          else Answered (map seriesOrEmpty answers)
      end
  end.

(** ** What the page shows *)

#[export] Instance newestEvent_pre : PreCmp newestEvent.
Proof. exact (cmp_desc_pre (λ a b, UnixNano (eventTimestamp a) ?= UnixNano (eventTimestamp b))
  (cmp_on_pre (λ e, UnixNano (eventTimestamp e)) _ _)). Qed.

Lemma StronglySorted_filter {A} (R : A → A → Prop) (f : A → bool) l : StronglySorted R l → StronglySorted R (List.filter f l).
Proof.
  induction 1 as [|x l Hl IH Hx]; cbn; [constructor|]. destruct (f x); [|done]. constructor; [done|].
  apply Forall_forall. intros y [_ Hy]%elem_of_List_filter. rewrite Forall_forall in Hx. by apply Hx.
Qed.

(** What a sorted list's head leaves out comes after it. *)
Lemma sorted_take {A} (R : A → A → Prop) n l x y :
  StronglySorted R l → x ∈ take n l → y ∈ drop n l → R x y.
Proof.
  intros Hs. revert n. induction Hs as [|z l Hl IH Hz]; intros n Hx Hy; [by rewrite take_nil in Hx; apply elem_of_nil in Hx|].
  destruct n as [|n]; [by apply elem_of_nil in Hx|]. cbn [take drop] in Hx, Hy.
  apply elem_of_cons in Hx as [->|Hx]; [|by apply (IH n)].
  rewrite Forall_forall in Hz. apply Hz. rewrite <-(take_drop n l). apply elem_of_app. by right.
Qed.

(** The detail page, the list and the Overview are of one board: the page shows
    the Risk state and the pods the list's row of the identity shows; and its
    events are the newest about the identity, ten at most. *)
Theorem detail_agrees health snap policies events key id resp :
  identity snap key = Ok (Some id) → handleWorkloadDetail health snap policies events key = Some (Answered resp) →
  (∃ st, fst (board health [id]) = [st] ∧ wd_RiskState resp = w_RiskState (rowFor st) ∧
     wd_StalePods resp = w_StalePods (rowFor st) ∧ wd_TotalPods resp = w_TotalPods (rowFor st) ∧
     wd_Automated resp = aw_Automated (summaryFor st) ∧ wd_Departed resp = w_Departed (rowFor st)) ∧
  ∃ shown, wd_RecentEvents resp = map activityOf shown ∧ (length shown ≤ 10)%nat ∧
    (∀ e, e ∈ shown → e ∈ events ∧ isAbout id e = true) ∧
    (∀ e e', e ∈ shown → e' ∈ events → isAbout id e' = true → e' ∉ shown →
       UnixNano (eventTimestamp e') ≤ UnixNano (eventTimestamp e)).
Proof.
  intros Hid H. unfold handleWorkloadDetail in H. rewrite Hid in H. unfold board in *.
  destruct (health (map Inventory.Key [id])) as [h err]. cbn [map fst] in *. injection H as <-. split.
  { exists (statusOf h id). by split_and!. }
  cbn [wd_RecentEvents detailOf st_id statusOf]. unfold recentSustainEvents.
  set (own := List.filter (isAbout id) (sort_by newestEvent events)).
  assert (Hown : ∀ e, e ∈ own ↔ isAbout id e = true ∧ e ∈ events)
    by (intros e; unfold own; by rewrite elem_of_List_filter, elem_of_sort_by).
  assert (Hs : StronglySorted (cmp_le newestEvent) own) by (apply StronglySorted_filter, sort_by_sorted; apply _).
  exists (take 10 own). split; [done|]. split; [rewrite length_take; lia|]. split.
  - intros e He. assert (He' : e ∈ own) by (rewrite <-(take_drop 10 own); apply elem_of_app; by left).
    by apply Hown in He' as [? ?].
  - intros e e' He He' Ha Hn.
    assert (Hd : e' ∈ drop 10 own).
    { assert (Ho : e' ∈ own) by (by apply Hown). rewrite <-(take_drop 10 own) in Ho. by apply elem_of_app in Ho as [?|?]. }
    pose proof (sorted_take _ _ _ _ _ Hs He Hd) as Hle. unfold cmp_le, newestEvent in Hle.
    destruct (Z.compare_spec (UnixNano (eventTimestamp e')) (UnixNano (eventTimestamp e))); [lia|lia|done].
Qed.
End Detail.

(** ** At a concrete input *)
Section Sample.
#[local] Existing Instance amd64.
#[local] Existing Instance nano_quantity.
#[local] Existing Instance simple_kube.

Definition sample_event (name : string) (at_ : time) : Event :=
  {| ev_Series := None; ev_LastTimestamp := time_zero; ev_EventTime := unixToZero * second + at_; ev_FirstTimestamp := time_zero;
     ev_CreationTimestamp := time_zero; ev_Namespace := "prod"; ev_Kind := "Deployment"; ev_Name := name;
     ev_Reason := "Patched"; ev_Message := "" |}.

Lemma detail_agrees_witness :
  match handleWorkloadDetail (forIdentities sample_reads) (Ok {| Identities := sample_ids; TakenAt := 0 |}) (λ _, Err CtxErr)
    [sample_event "web" 1; sample_event "db" 3; sample_event "web" 2] (sample_key "web") with
  | Some (Answered resp) => wd_RiskState resp = riskBlocked
  | _ => False
  end.
Proof.
  destruct (handleWorkloadDetail (forIdentities sample_reads) (Ok {| Identities := sample_ids; TakenAt := 0 |}) (λ _, Err CtxErr)
    [sample_event "web" 1; sample_event "db" 3; sample_event "web" 2] (sample_key "web")) as [[resp| | |]|] eqn:E; try done.
  destruct (detail_agrees _ _ _ _ _ (sample_one "web" "frugal" false) _ ltac:(by_running) E) as [(st & Hst & -> & _) _].
  injection Hst as <-. by_running.
Defined.
End Sample.
