(* ===== verification/Settings.v ===== *)
(** * Configuration and certificates
    ([internal/config/config.go] and [internal/webhook/cert.go])

    How the lists and the headers given at start are read, what the controller's
    settings are refused for, and the webhook's certificate, reloaded while it
    serves. What the settings library holds of a key is [settings], and what the
    files of a certificate hold is an argument of each refresh. *)

From Stdlib Require Import Ascii.
From S2P Require Import Prelude GoLang GoStrings.
Local Open Scope Z_scope.

(** ** Settings *)
Section Settings.

(** A value the library holds: a text, as the environment gives every value, or a
    list. *)
Inductive setting := TextOf (s : string) | ListOf (l : list string).

Record settings := {
  get : string → setting;
  getString : string → string;
  getInt : string → Z;
  getBool : string → bool;
  getDuration : string → duration;
}.

Context (viper : settings).

(** [getStringSlice]: a text is split at its commas. *)
Definition getStringSlice (key : string) : list string :=
  match get viper key with
  | ListOf l => l
  | TextOf raw => List.filter (λ p, negb (String.eqb p "")) (map TrimSpace (Split "," raw))
  end.

(** One header; [None] is why none is: no [=], or an empty name. *)
Definition parseHeader (entry : string) : option (string * string) :=
  match Cut "=" entry with
  | (_, None) => None
  | (name, Some value) =>
      let name := TrimSpace name in
      if String.eqb name "" then None else Some (name, TrimSpace value)
  end.

Fixpoint parseEntries (entries : list string) (out : gmap string string) : result (gmap string string) :=
  match entries with
  | [] => Ok out
  | entry :: entries =>
      match parseHeader entry with
      | None => Err (ErrorNew ("invalid prometheus header " +:+ entry))
      | Some (name, value) => parseEntries entries (<[name := value]> out)
      end
  end.

Definition parseHeaders (entries : list string) : result (gmap string string) := parseEntries entries ∅.

Record TLSConfig := {
  CAFile : string;
  CertFile : string;
  KeyFile : string;
  ServerName : string;
  InsecureSkipVerify : bool;
}.

Record TransportConfig := {
  BearerToken : string;
  BearerTokenFile : string;
  BasicAuthUsername : string;
  BasicAuthPassword : string;
  BasicAuthPasswordFile : string;
  Headers : gmap string string;
  TLS : TLSConfig;
}.

Record PrometheusConnection := { Address : string; Transport : TransportConfig }.

Definition loadPrometheusConnection : result PrometheusConnection :=
  match parseHeaders (getStringSlice "prometheus-headers") with
  | Err e => Err (Errorf "invalid --prometheus-headers" [e])
  | Ok headers =>
      Ok {| Address := getString viper "prometheus-address";
            Transport :=
              {| BearerToken := getString viper "prometheus-bearer-token";
                 BearerTokenFile := getString viper "prometheus-bearer-token-file";
                 BasicAuthUsername := getString viper "prometheus-basic-auth-username";
                 BasicAuthPassword := getString viper "prometheus-basic-auth-password";
                 BasicAuthPasswordFile := getString viper "prometheus-basic-auth-password-file";
                 Headers := headers;
                 TLS := {| CAFile := getString viper "prometheus-tls-ca-file";
                           CertFile := getString viper "prometheus-tls-cert-file";
                           KeyFile := getString viper "prometheus-tls-key-file";
                           ServerName := getString viper "prometheus-tls-server-name";
                           InsecureSkipVerify := getBool viper "prometheus-tls-insecure-skip-verify" |} |} |}
  end.

Record ClusterScope := { cs_RecommendOnly : bool; ExcludedNamespaces : list string }.

Definition loadClusterScope : ClusterScope :=
  {| cs_RecommendOnly := getBool viper "recommend-only"; ExcludedNamespaces := getStringSlice "excluded-namespaces" |}.

Record ControllerConfig := {
  cc_ClusterScope : ClusterScope;
  cc_Prometheus : PrometheusConnection;
  MetricsBindAddress : string;
  HealthProbeBindAddress : string;
  LeaderElect : bool;
  LeaderElectionID : string;
  cc_LogLevel : string;
  ReconcileInterval : duration;
  WorkloadConcurrencyLimit : Z;
  PolicyConcurrencyLimit : Z;
  PrometheusMaxInflight : Z;
  RecycleReplacementTimeout : duration;
  RecommendationRetention : duration;
  QueryShardMaxSamples : Z;
}.

Definition LoadControllerConfig : result ControllerConfig :=
  match loadPrometheusConnection with
  | Err e => Err e
  | Ok prometheus =>
      if getDuration viper "reconcile-interval" <=? 0 then Err (ErrorNew "invalid --reconcile-interval")
      else if getDuration viper "recommendation-retention" <=? 0 then Err (ErrorNew "invalid --recommendation-retention")
      else
        Ok {| cc_ClusterScope := loadClusterScope; cc_Prometheus := prometheus;
              MetricsBindAddress := getString viper "metrics-bind-address";
              HealthProbeBindAddress := getString viper "health-probe-bind-address";
              LeaderElect := getBool viper "leader-elect"; LeaderElectionID := getString viper "leader-election-id";
              cc_LogLevel := getString viper "log-level"; ReconcileInterval := getDuration viper "reconcile-interval";
              WorkloadConcurrencyLimit := getInt viper "workload-concurrency-limit";
              PolicyConcurrencyLimit := getInt viper "policy-concurrency-limit";
              PrometheusMaxInflight := getInt viper "prometheus-max-inflight";
              RecycleReplacementTimeout := getDuration viper "recycle-replacement-timeout";
              RecommendationRetention := getDuration viper "recommendation-retention";
              QueryShardMaxSamples := getInt viper "query-shard-max-samples" |}
  end.

Record WebhookConfig := {
  wh_ClusterScope : ClusterScope;
  TLSCertFile : string;
  TLSKeyFile : string;
  Port : Z;
  wh_LogLevel : string;
}.

Definition LoadWebhookConfig : WebhookConfig :=
  {| wh_ClusterScope := loadClusterScope; TLSCertFile := getString viper "webhook.tls-cert-file";
     TLSKeyFile := getString viper "webhook.tls-key-file"; Port := getInt viper "webhook.port";
     wh_LogLevel := getString viper "webhook.log-level" |}.

Record DashboardConfig := {
  dc_ClusterScope : ClusterScope;
  dc_Prometheus : PrometheusConnection;
  BindAddress : string;
  dc_LogLevel : string;
  CORSAllowedOrigins : list string;
}.

Definition LoadDashboardConfig : result DashboardConfig :=
  match loadPrometheusConnection with
  | Err e => Err e
  | Ok prometheus =>
      Ok {| dc_ClusterScope := loadClusterScope; dc_Prometheus := prometheus;
            BindAddress := getString viper "dashboard.bind-address"; dc_LogLevel := getString viper "dashboard.log-level";
            CORSAllowedOrigins := getStringSlice "dashboard.cors-allowed-origins" |}
  end.

(** *** What is loaded *)

(** The header an entry gives, the last of a name. *)
Lemma parseEntries_spec entries out headers :
  parseEntries entries out = Ok headers →
  (∀ e, e ∈ entries → is_Some (parseHeader e)) ∧
  ∀ name, headers !! name =
    match last (List.filter (λ p, String.eqb p.1 name) (omap parseHeader entries)) with
    | Some p => Some p.2
    | None => out !! name
    end.
Proof.
  revert out. induction entries as [|e entries IH]; intros out; cbn [parseEntries].
  { intros [= <-]. split; [by intros ? ?%elem_of_nil|done]. }
  destruct (parseHeader e) as [[n v]|] eqn:E; [|done]. intros [H1 H2]%IH. split.
  - intros e' [->|He']%elem_of_cons; [by rewrite E|by apply H1].
  - intros name. rewrite H2.
    assert (Ho : omap parseHeader (e :: entries) = (n, v) :: omap parseHeader entries) by (cbn; by rewrite E).
    rewrite Ho. cbn [List.filter fst]. destruct (String.eqb_spec n name) as [->|Hn].
    + rewrite last_cons. destruct (last _) as [p|]; [done|]. by rewrite lookup_insert_eq.
    + destruct (last _) as [p|]; [done|]. by rewrite lookup_insert_ne.
Qed.

(** Every component is started with every header it was given, or not at all:
    each entry names a header, and the value of a name is all of its last
    entry after the first [=]; and the controller only with a positive interval
    and a positive retention. *)
Theorem config_complete cfg :
  LoadControllerConfig = Ok cfg →
  0 < ReconcileInterval cfg ∧ 0 < RecommendationRetention cfg ∧
  let entries := getStringSlice "prometheus-headers" in
  let headers := Headers (Transport (cc_Prometheus cfg)) in
  (∀ e, e ∈ entries → ∃ before after, e = before +:+ "=" +:+ after ∧ whole "=" before ∧
     TrimSpace before ≠ "" ∧ is_Some (headers !! TrimSpace before)) ∧
  (∀ name v, headers !! name = Some v ↔
     ∃ p, last (List.filter (λ p, String.eqb p.1 name) (omap parseHeader entries)) = Some p ∧ v = p.2).
Proof.
  unfold LoadControllerConfig, loadPrometheusConnection. intros H.
  destruct (parseHeaders _) as [headers|e] eqn:Eh; [|done].
  destruct (Z.leb_spec (getDuration viper "reconcile-interval") 0); [done|].
  destruct (Z.leb_spec (getDuration viper "recommendation-retention") 0); [done|]. injection H as <-. cbn.
  split; [done|]. split; [done|]. apply parseEntries_spec in Eh as [Hall Hlook].
  split.
  - intros e He. destruct (Hall e He) as [[n v] Hp]. unfold parseHeader in Hp.
    pose proof (Cut_before "=" e) as Hw. destruct (Cut "=" e) as [before [after|]] eqn:Ec; [|done].
    destruct (String.eqb_spec (TrimSpace before) ""); [done|]. injection Hp as Hn Hv.
    exists before, after. split_and!; [by apply Cut_join|done|done|]. rewrite Hlook.
    destruct (last _) as [p|] eqn:El; [by eexists|]. exfalso. apply last_None in El.
    assert (Hin : (n, v) ∈ List.filter (λ p, String.eqb p.1 (TrimSpace before))
      (omap parseHeader (getStringSlice "prometheus-headers"))).
    { apply elem_of_List_filter. split; [cbn; rewrite <-Hn; apply String.eqb_refl|].
      apply list_elem_of_omap. exists e. split; [done|]. unfold parseHeader. rewrite Ec.
      destruct (String.eqb_spec (TrimSpace before) ""); [done|]. by rewrite Hn, Hv. }
    rewrite El in Hin. by apply elem_of_nil in Hin.
  - intros name v. rewrite Hlook, lookup_empty. destruct (last _) as [p|]; [|by split; [|intros (? & ? & _)]].
    split; [intros [= <-]; by eexists|]. by intros (p' & [= <-] & ->).
Qed.
End Settings.

(** ** Certificates *)
Section Certificates.
Context {Pair : Type}.

(** What the files hold when they are read: when the certificate ends, or why it
    cannot be read, and the pair they make. *)
Record certFiles := { notAfter : result time; keyPair : result Pair }.

Record CertExpiry := {
  keyFile : bool;
  expires : time;
  gauge : option time;
  cert : option Pair;
}.

(** [NewCertExpiry], its gauge not yet set. *)
Definition NewCertExpiry (withKey : bool) : CertExpiry :=
  {| keyFile := withKey; expires := time_zero; gauge := None; cert := None |}.

Definition Refresh (c : CertExpiry) (files : certFiles) : CertExpiry * option error :=
  match notAfter files with
  | Err e => (c, Some e)
  | Ok exp =>
      let observed cert := {| keyFile := keyFile c; expires := exp; gauge := Some exp; cert := cert |} in
      if keyFile c then
        match keyPair files with
        | Err e => (c, Some e)
        | Ok kp => (observed (Some kp), None)
        end
      else (observed (cert c), None)
  end.

Definition GetCertificate (c : CertExpiry) : result Pair :=
  match cert c with
  | Some kp => Ok kp
  | None => Err (ErrorNew "webhook TLS certificate not yet loaded")
  end.

(** [Run]: a refresh at each tick, whatever the last one answered. *)
Definition Run (c : CertExpiry) (ticks : list certFiles) : CertExpiry := foldl (λ c f, fst (Refresh c f)) c ticks.

Lemma Refresh_key c f : keyFile (fst (Refresh c f)) = keyFile c.
Proof. unfold Refresh. destruct (notAfter f); [|done]. destruct (keyFile c) eqn:E; [|done]. destruct (keyPair f); [done|by cbn]. Qed.

Definition readable (f : certFiles) : Prop := ∃ exp kp, notAfter f = Ok exp ∧ keyPair f = Ok kp.

(** Every handshake is served the last pair that could be read, whatever failed
    since, and the expiry reported is that pair's; before one is read, no
    handshake is. *)
Theorem certificate_last_good ticks :
  let c := Run (NewCertExpiry true) ticks in
  (∀ before f after exp kp, ticks = before ++ f :: after → notAfter f = Ok exp → keyPair f = Ok kp →
     (∀ f', f' ∈ after → ¬ readable f') →
     GetCertificate c = Ok kp ∧ expires c = exp ∧ gauge c = Some exp) ∧
  ((∀ f, f ∈ ticks → ¬ readable f) → ∃ e, GetCertificate c = Err e).
Proof.
  assert (Hkey : ∀ ticks c, keyFile (Run c ticks) = keyFile c).
  { induction ticks0 as [|f fs IH]; intros c; [done|]. cbn. rewrite IH. apply Refresh_key. }
  assert (Hskip : ∀ fs c, keyFile c = true → (∀ f', f' ∈ fs → ¬ readable f') → Run c fs = c).
  { induction fs as [|f fs IH]; intros c Hk Hfs; [done|]. cbn [Run foldl]. fold (Run (fst (Refresh c f)) fs).
    assert (Hr : fst (Refresh c f) = c).
    { unfold Refresh. destruct (notAfter f) as [exp|] eqn:En; [|done]. rewrite Hk.
      destruct (keyPair f) as [kp|] eqn:Ep; [|done]. exfalso. apply (Hfs f); [by left|]. by exists exp, kp. }
    rewrite Hr. apply IH; [done|]. intros f' Hf'. apply Hfs. by right. }
  intros c. split.
  - intros before f after exp kp -> Hn Hp Hafter. unfold c, Run. rewrite foldl_app. cbn [foldl].
    fold (Run (NewCertExpiry true) before). set (c0 := Run (NewCertExpiry true) before).
    assert (Hk : keyFile c0 = true) by (unfold c0; by rewrite Hkey).
    assert (Hr : fst (Refresh c0 f) = {| keyFile := true; expires := exp; gauge := Some exp; cert := Some kp |})
      by (unfold Refresh; by rewrite Hn, Hk, Hp).
    rewrite Hr. fold (Run {| keyFile := true; expires := exp; gauge := Some exp; cert := Some kp |} after).
    rewrite Hskip by done. done.
  - intros Hnone. unfold c. rewrite Hskip by done. by eexists.
Qed.
End Certificates.

(** ** At a concrete input *)

Definition sample_settings : settings :=
  {| get key := if String.eqb key "prometheus-headers" then TextOf "X-Scope-OrgID = a=b, X-Team=c" else ListOf [];
     getString _ := ""; getInt _ := 5; getBool _ := false; getDuration _ := minute |}.

Example sample_entries : getStringSlice sample_settings "prometheus-headers" = ["X-Scope-OrgID = a=b"; "X-Team=c"].
Proof. by_running. Qed.

Lemma config_complete_witness :
  match LoadControllerConfig sample_settings with
  | Ok cfg => 0 < ReconcileInterval cfg ∧ Headers (Transport (cc_Prometheus cfg)) !! "X-Scope-OrgID" = Some "a=b"
  | Err _ => False
  end.
Proof.
  destruct (LoadControllerConfig sample_settings) as [cfg|] eqn:E; [|done].
  destruct (config_complete sample_settings cfg E) as (H & _ & _ & Hl). split; [done|]. apply Hl.
  exists ("X-Scope-OrgID", "a=b"). split; [by_running|done].
Defined.
