(* ===== verification/Transport.v ===== *)
(** * The transport to Prometheus ([internal/prometheus/transport.go])

    Which configurations are refused at start, and what each request carries:
    the static headers and the credential, a file's read anew each time. What a
    file holds, the validity of a header's name and value and the building of a
    TLS transport are arguments. *)

From Stdlib Require Import Ascii.
From S2P Require Import Prelude GoLang GoStrings HttpLayer Settings.
Local Open Scope Z_scope.

(** ** Standard encodings *)

(** [http.CanonicalHeaderKey] of a token: a capital at its start and after each
    hyphen, the rest small. *)
Fixpoint canonical (upper : bool) (s : string) : string :=
  match s with
  | EmptyString => EmptyString
  | String c s' =>
      let n := N_of_ascii c in
      let c' := if upper && (97 <=? n)%N && (n <=? 122)%N then ascii_of_N (n - 32)
                else if negb upper && (65 <=? n)%N && (n <=? 90)%N then ascii_of_N (n + 32) else c in
      String c' (canonical (Ascii.eqb c "-") s')
  end.
Definition CanonicalHeaderKey (s : string) : string := canonical true s.

(** Base 64, as [Request.SetBasicAuth] encodes. *)
Definition b64 (n : N) : ascii :=
  nth (N.to_nat n) (String.list_ascii_of_string "ABCDEFGHIJKLMNOPQRSTUVWXYZabcdefghijklmnopqrstuvwxyz0123456789+/") "="%char.
Fixpoint base64 (l : list ascii) : string :=
  match l with
  | a :: b :: c :: l =>
      let n := (N_of_ascii a * 65536 + N_of_ascii b * 256 + N_of_ascii c)%N in
      String (b64 (n / 262144)) (String (b64 (n / 4096 mod 64)) (String (b64 (n / 64 mod 64)) (String (b64 (n mod 64)) (base64 l))))
  | [a; b] =>
      let n := (N_of_ascii a * 65536 + N_of_ascii b * 256)%N in
      String (b64 (n / 262144)) (String (b64 (n / 4096 mod 64)) (String (b64 (n / 64 mod 64)) "="))
  | [a] =>
      let n := (N_of_ascii a * 65536)%N in
      String (b64 (n / 262144)) (String (b64 (n / 4096 mod 64)) "==")
  | [] => ""
  end.

Example base64_three : base64 (String.list_ascii_of_string "user:secret") = "dXNlcjpzZWNyZXQ=".
Proof. by_running. Qed.

Example canonical_key : CanonicalHeaderKey "x-scope-orgID" = "X-Scope-Orgid".
Proof. by_running. Qed.

Definition basicAuth (user password : string) : string :=
  "Basic " +:+ base64 (String.list_ascii_of_string (user +:+ ":" +:+ password)).

(** ** The configuration *)

Definition given (s : string) : bool := negb (String.eqb s "").

Definition hasTLS (t : TLSConfig) : bool :=
  given (CAFile t) || given (CertFile t) || given (KeyFile t) || given (ServerName t) || InsecureSkipVerify t.

Definition isZero (t : TransportConfig) : bool :=
  negb (given (BearerToken t)) && negb (given (BearerTokenFile t)) && negb (given (BasicAuthUsername t)) &&
  negb (given (BasicAuthPassword t)) && negb (given (BasicAuthPasswordFile t)) &&
  bool_decide (Headers t = ∅) && negb (hasTLS (TLS t)).

Definition authHeader : string := "Authorization".

Section Transport.
Context (ValidHeaderFieldName ValidHeaderFieldValue : string → bool).

(** One header of [validate]. *)
Definition headerRefusal (auth : bool) (p : string * string) : option error :=
  if String.eqb (TrimSpace p.1) "" then Some (ErrorNew "empty header name")
  else if negb (ValidHeaderFieldName p.1) then Some (ErrorNew "invalid header name")
  else if negb (ValidHeaderFieldValue p.2) then Some (ErrorNew "invalid header value")
  else if String.eqb (CanonicalHeaderKey p.1) authHeader && auth then Some (ErrorNew "header conflicts with the configured auth")
  else None.

(** The first refusal of the headers; Go reads them in any order. *)
Definition headersRefusal (auth : bool) (headers : gmap string string) : option error :=
  head (omap (headerRefusal auth) (map_to_list headers)).

Definition validate (t : TransportConfig) : option error :=
  if given (BearerToken t) && given (BearerTokenFile t) then Some (ErrorNew "bearer token and bearer token file are mutually exclusive")
  else if given (BasicAuthPassword t) && given (BasicAuthPasswordFile t)
  then Some (ErrorNew "basic auth password and password file are mutually exclusive")
  else
    let bearer := given (BearerToken t) || given (BearerTokenFile t) in
    let basic := given (BasicAuthUsername t) in
    if bearer && basic then Some (ErrorNew "bearer token and basic auth are mutually exclusive")
    else if negb basic && (given (BasicAuthPassword t) || given (BasicAuthPasswordFile t))
    then Some (ErrorNew "basic auth password set without a username")
    else
      match headersRefusal (bearer || basic) (Headers t) with
      | Some e => Some e
      | None =>
          if negb (Bool.eqb (negb (given (CertFile (TLS t)))) (negb (given (KeyFile (TLS t)))))
          then Some (ErrorNew "tls cert file and key file must be set together")
          else None
      end.

(** ** What a request carries *)

(** What the files hold when they are read. *)
Abbreviation files := (string → result string).

Definition readSecretFile (fs : files) (path : string) : result string :=
  match fs path with Err e => Err e | Ok b => Ok (TrimSpace b) end.

(** [Header.Set] *)
Definition setHeader (h : header) (name v : string) : header := header_Set h (CanonicalHeaderKey name) v.

(** The headers are set in the map's order, any. *)
Definition setHeaders (headers : gmap string string) (h : header) : header :=
  foldl (λ h p, setHeader h p.1 p.2) h (map_to_list headers).

(** [authRoundTripper.RoundTrip]: the headers of the request sent, a copy. *)
Definition RoundTrip (cfg : TransportConfig) (fs : files) (req : header) : result header :=
  let h := setHeaders (Headers cfg) req in
  if given (BearerToken cfg) then Ok (setHeader h authHeader ("Bearer " +:+ BearerToken cfg))
  else if given (BearerTokenFile cfg) then
    match readSecretFile fs (BearerTokenFile cfg) with
    | Err e => Err (Errorf "reading prometheus bearer token file" [e])
    | Ok token => Ok (setHeader h authHeader ("Bearer " +:+ token))
    end
  else if given (BasicAuthUsername cfg) then
    if given (BasicAuthPasswordFile cfg) then
      match readSecretFile fs (BasicAuthPasswordFile cfg) with
      | Err e => Err (Errorf "reading prometheus basic auth password file" [e])
      | Ok p => Ok (setHeader h authHeader (basicAuth (BasicAuthUsername cfg) p))
      end
    else Ok (setHeader h authHeader (basicAuth (BasicAuthUsername cfg) (BasicAuthPassword cfg)))
  else Ok h.

(** [newTransportRoundTripper]: the configuration of the transport, none for a
    configuration that asks for nothing. [tls] is what building the TLS transport
    answers. *)
Definition newTransportRoundTripper (tls : TLSConfig → option error) (fs : files) (cfg : TransportConfig) :
    result (option TransportConfig) :=
  if isZero cfg then Ok None
  else
    match validate cfg with
    | Some e => Err (Errorf "invalid prometheus transport config" [e])
    | None =>
        let readable path := if given path then match readSecretFile fs path with Err e => Some e | Ok _ => None end else None in
        match readable (BearerTokenFile cfg) with
        | Some e => Err (Errorf "reading prometheus bearer token file" [e])
        | None =>
            match readable (BasicAuthPasswordFile cfg) with
            | Some e => Err (Errorf "reading prometheus basic auth password file" [e])
            | None =>
                match (if hasTLS (TLS cfg) then tls (TLS cfg) else None) with
                | Some e => Err e
                | None => Ok (Some cfg)
                end
            end
        end
    end.

(** ** What is sent is what was configured *)

Lemma setHeaders_lookup (ps : list (string * string)) (h : header) k :
  foldl (λ h p, setHeader h p.1 p.2) h ps !! k =
  match last (List.filter (λ p, String.eqb (CanonicalHeaderKey p.1) k) ps) with
  | Some p => Some [p.2]
  | None => h !! k
  end.
Proof.
  revert h. induction ps as [|p ps IH]; intros h; [done|]. cbn [foldl List.filter]. rewrite IH.
  destruct (String.eqb_spec (CanonicalHeaderKey p.1) k) as [<-|Hk].
  - rewrite last_cons. destruct (last _); [done|]. unfold setHeader, header_Set. by rewrite lookup_insert_eq.
  - destruct (last _); [done|]. unfold setHeader, header_Set. by rewrite lookup_insert_ne.
Qed.

Lemma headersRefusal_none auth headers name v :
  headersRefusal auth headers = None → headers !! name = Some v →
  ValidHeaderFieldName name = true ∧ ValidHeaderFieldValue v = true ∧ (auth = true → CanonicalHeaderKey name ≠ authHeader).
Proof.
  unfold headersRefusal. intros Hn Hin.
  assert (Hr : headerRefusal auth (name, v) = None).
  { destruct (headerRefusal auth (name, v)) as [e|] eqn:E; [|done]. exfalso.
    assert (He : e ∈ omap (headerRefusal auth) (map_to_list headers)).
    { apply list_elem_of_omap. exists (name, v). split; [by apply elem_of_map_to_list|done]. }
    destruct (omap _ _); [by apply elem_of_nil in He|done]. }
  unfold headerRefusal in Hr. cbn [fst snd] in Hr. destruct (String.eqb _ ""); [done|].
  destruct (ValidHeaderFieldName name); [|done]. destruct (ValidHeaderFieldValue v); [|done]. cbn [negb] in Hr.
  split_and!; [done|done|]. intros ->. rewrite andb_true_r in Hr. by destruct (String.eqb_spec (CanonicalHeaderKey name) authHeader).
Qed.

(** The credential a configuration names, as the files hold it. *)
Definition credential (cfg : TransportConfig) (fs : files) : option (result string) :=
  if given (BearerToken cfg) then Some (Ok ("Bearer " +:+ BearerToken cfg))
  else if given (BearerTokenFile cfg) then
    Some (match fs (BearerTokenFile cfg) with Err e => Err e | Ok b => Ok ("Bearer " +:+ TrimSpace b) end)
  else if given (BasicAuthUsername cfg) then
    if given (BasicAuthPasswordFile cfg) then
      Some (match fs (BasicAuthPasswordFile cfg) with
            | Err e => Err e | Ok b => Ok (basicAuth (BasicAuthUsername cfg) (TrimSpace b)) end)
    else Some (Ok (basicAuth (BasicAuthUsername cfg) (BasicAuthPassword cfg)))
  else None.

Definition auth_configured (cfg : TransportConfig) : bool :=
  given (BearerToken cfg) || given (BearerTokenFile cfg) || given (BasicAuthUsername cfg).

Lemma credential_configured cfg fs : is_Some (credential cfg fs) ↔ auth_configured cfg = true.
Proof.
  unfold credential, auth_configured.
  destruct (given (BearerToken cfg)), (given (BearerTokenFile cfg)), (given (BasicAuthUsername cfg)), (given (BasicAuthPasswordFile cfg)); cbn;
    (split; [by intros []|by intros]) || (split; [done|by eexists]) || idtac; by eauto.
Qed.

Lemma RoundTrip_spec cfg fs req :
  RoundTrip cfg fs req =
  match credential cfg fs with
  | None => Ok (setHeaders (Headers cfg) req)
  | Some (Ok c) => Ok (setHeader (setHeaders (Headers cfg) req) authHeader c)
  | Some (Err e) =>
      Err (Errorf (if given (BearerTokenFile cfg) then "reading prometheus bearer token file"
                   else "reading prometheus basic auth password file") [e])
  end.
Proof.
  unfold RoundTrip, credential, readSecretFile. destruct (given (BearerToken cfg)); [done|].
  destruct (given (BearerTokenFile cfg)); [by destruct (fs _)|].
  destruct (given (BasicAuthUsername cfg)); [|done]. destruct (given (BasicAuthPasswordFile cfg)); [by destruct (fs _)|done].
Qed.

(** A transport that was let through sends on every request exactly what was
    configured: the one credential, as its file holds it now, never one of the
    static headers in its place, and every static header; it fails only when
    that file cannot be read. *)
Theorem transport_sends tls fs0 fs cfg cfg' req :
  newTransportRoundTripper tls fs0 cfg = Ok (Some cfg') →
  match credential cfg fs with
  | Some (Err e) => ∃ msg, RoundTrip cfg' fs req = Err (Errorf msg [e])
  | c =>
      ∃ sent, RoundTrip cfg' fs req = Ok sent ∧
        (∀ v, c = Some (Ok v) → sent !! authHeader = Some [v]) ∧
        (∀ name v, Headers cfg !! name = Some v →
           (∀ name', is_Some (Headers cfg !! name') → CanonicalHeaderKey name' = CanonicalHeaderKey name → name' = name) →
           sent !! CanonicalHeaderKey name = Some [v])
  end.
Proof.
  intros H. unfold newTransportRoundTripper in H. destruct (isZero cfg); [done|].
  destruct (validate cfg) as [e|] eqn:Ev; [done|]. cbv zeta in H.
  destruct (if given (BearerTokenFile cfg) then _ else _); [done|].
  destruct (if given (BasicAuthPasswordFile cfg) then _ else _); [done|].
  destruct (if hasTLS (TLS cfg) then _ else _); [done|]. injection H as <-.
  assert (Hv : headersRefusal (auth_configured cfg) (Headers cfg) = None).
  { unfold validate in Ev. destruct (given (BearerToken cfg) && given (BearerTokenFile cfg)); [done|].
    destruct (given (BasicAuthPassword cfg) && given (BasicAuthPasswordFile cfg)); [done|]. cbv zeta in Ev.
    destruct ((given (BearerToken cfg) || given (BearerTokenFile cfg)) && given (BasicAuthUsername cfg)); [done|].
    destruct (negb (given (BasicAuthUsername cfg)) && _); [done|]. unfold auth_configured.
    destruct (headersRefusal _ (Headers cfg)); [done|done]. }
  assert (Hset : ∀ name v, Headers cfg !! name = Some v →
    (∀ name', is_Some (Headers cfg !! name') → CanonicalHeaderKey name' = CanonicalHeaderKey name → name' = name) →
    setHeaders (Headers cfg) req !! CanonicalHeaderKey name = Some [v]).
  { intros name v Hn Hinj. unfold setHeaders. rewrite setHeaders_lookup.
    destruct (last _) as [p|] eqn:El.
    - assert (Hp : p ∈ List.filter (λ p, String.eqb (CanonicalHeaderKey p.1) (CanonicalHeaderKey name)) (map_to_list (Headers cfg)))
        by (by apply last_Some_elem_of).
      apply elem_of_List_filter in Hp as [Hk%String.eqb_eq Hp]. destruct p as [n' v']. apply elem_of_map_to_list in Hp.
      cbn in Hk. rewrite (Hinj n') in Hp by (done || by eexists). by rewrite Hn in Hp; injection Hp as <-.
    - exfalso. apply last_None in El. apply elem_of_map_to_list in Hn as Hin.
      assert (Hf : (name, v) ∈ List.filter (λ p, String.eqb (CanonicalHeaderKey p.1) (CanonicalHeaderKey name)) (map_to_list (Headers cfg))).
      { apply elem_of_List_filter. split; [apply String.eqb_refl|done]. }
      rewrite El in Hf. by apply elem_of_nil in Hf. }
  rewrite RoundTrip_spec. pose proof (credential_configured cfg fs) as Hc.
  destruct (credential cfg fs) as [[c|e]|]; [|by eexists|].
  - eexists. split; [done|]. split; [intros v [= <-]; apply lookup_insert_eq|].
    intros name v Hn Hinj. unfold setHeader, header_Set. rewrite lookup_insert_ne; [by apply Hset|].
    intros Heq. destruct (headersRefusal_none _ _ name v Hv Hn) as (_ & _ & Hne). apply Hne; [by apply Hc|]. done.
  - eexists. split; [done|]. split; [done|]. intros name v Hn Hinj. by apply Hset.
Qed.
End Transport.

(** ** At a concrete input *)

Definition sample_transport : TransportConfig :=
  {| BearerToken := ""; BearerTokenFile := "/token"; BasicAuthUsername := ""; BasicAuthPassword := "";
     BasicAuthPasswordFile := ""; Headers := {["x-scope-orgid" := "tenant-a"]};
     TLS := {| CAFile := ""; CertFile := ""; KeyFile := ""; ServerName := ""; InsecureSkipVerify := false |} |}.

Lemma transport_sends_witness :
  match RoundTrip sample_transport (λ _, Ok "rotated ") ∅ with
  | Ok sent => sent !! "Authorization" = Some ["Bearer rotated"] ∧ sent !! "X-Scope-Orgid" = Some ["tenant-a"]
  | Err _ => False
  end.
Proof.
  destruct (transport_sends (λ _, true) (λ _, true) (λ _, None) (λ _, Ok "first") (λ _, Ok "rotated ") sample_transport
    sample_transport ∅) as (sent & -> & H1 & H2); [by_running|].
  split; [by apply H1|]. apply (H2 "x-scope-orgid" "tenant-a"); [done|].
  intros name' [v Hv] _. change (({["x-scope-orgid" := "tenant-a"]} : gmap string string) !! name' = Some v) in Hv.
  by apply lookup_singleton_Some in Hv as [<- _].
Defined.
