(* ===== verification/CachedClient.v ===== *)
(** * The webhook's cached client ([internal/k8s/client.go])

    How the informers of the kinds an admission reads are registered, started
    and stopped, within the one deadline the kinds share. What the cache answers
    to each attempt, how long attempts and waits take and when the context of
    the startup is done are arguments; [IsNoMatchError] is the library's. *)

From S2P Require Import Prelude GoLang Owners.
Local Open Scope Z_scope.

Definition crdWaitTimeout : duration := 2 * minute.
Definition crdWaitInterval : duration := 2 * second.

Definition cachedKinds : list string := ["Policy"; "WorkloadRecommendation"; "Namespace"].

(** The Go type of a kind, as [%T] writes it. *)
Definition typeOf (kind : string) : string :=
  if String.eqb kind "Namespace" then "*v1.Namespace" else "*v1alpha1." +:+ kind.

Definition OwnerChainDisableFor : list string :=
  ["ReplicaSet"; "Job"; "Deployment"; "StatefulSet"; "DaemonSet"; "CronJob"; "Rollout"].

Section Client.
Context (IsNoMatchError : error → bool).

(** One attempt to register an informer: what the cache answers and how long it
    takes, and, were a wait to follow, how much later than the interval its timer
    fires, or the error of the context that ends it. *)
Record attempt := {
  at_error : option error;
  at_took : N;
  at_late : N;
  at_ctx : option error;
}.

(** Where a startup is: the clock, and the attempts made so far. *)
Record progress := { pg_now : time; pg_attempts : nat }.

(** [registerInformerWithRetry]: no result when [fuel] attempts were not enough. *)
Fixpoint registerInformerWithRetry (fuel : nat) (world : nat → attempt) (kind : string) (deadline : time)
    (interval : duration) (p : progress) : option (progress * option error) :=
  match fuel with
  | O => None
  | S fuel =>
      let a := world (pg_attempts p) in
      let now := time_Add (pg_now p) (Z.of_N (at_took a)) in
      let p' := {| pg_now := now; pg_attempts := S (pg_attempts p) |} in
      match at_error a with
      | None => Some (p', None)
      | Some e =>
          if negb (IsNoMatchError e) then Some (p', Some (Errorf ("registering informer for " +:+ typeOf kind) [e]))
          else if time_After now deadline then
            Some (p', Some (Errorf ("registering informer for " +:+ typeOf kind +:+ ": custom resource definition still not served (is the CRD installed?)") [e]))
          else
            match at_ctx a with
            | Some ce => Some (p', Some (Errorf ("registering informer for " +:+ typeOf kind) [ce]))
            | None =>
                registerInformerWithRetry fuel world kind deadline interval
                  {| pg_now := time_Add now (interval + Z.of_N (at_late a)); pg_attempts := S (pg_attempts p) |}
            end
      end
  end.

(** What a startup does to the cache. *)
Inductive cacheAction := Registered (kind : string) | StartCache | StopCache.

#[global] Instance cacheAction_eq : EqDecision cacheAction.
Proof. solve_decision. Defined.

(** The loop of [NewCached] over the kinds: what was registered, and the first
    failure. *)
Fixpoint registerAll (fuel : nat) (world : nat → attempt) (deadline : time) (interval : duration)
    (kinds : list string) (p : progress) : option (progress * list cacheAction * option error) :=
  match kinds with
  | [] => Some (p, [], None)
  | kind :: kinds =>
      match registerInformerWithRetry fuel world kind deadline interval p with
      | None => None
      | Some (p, Some e) => Some (p, [], Some e)
      | Some (p, None) =>
          match registerAll fuel world deadline interval kinds p with
          | None => None
          | Some (p, acts, err) => Some (p, Registered kind :: acts, err)
          end
      end
  end.

(** What the libraries answer a startup: [cache.New], the attempts,
    [WaitForCacheSync] with the error of [startCtx] after it, [client.New]. *)
Record startup := {
  su_cache : option error;
  su_now : time;
  su_attempts : nat → attempt;
  su_synced : bool;
  su_ctxErr : option error;
  su_client : option error;
}.

(** The client made: the kinds it reads past the cache. *)
Record cachedClient := { cl_disableFor : list string }.

(** [NewCached]: what was done to the cache, and the client or why there is none.
    The deferred stop is of a cache that was started. *)
Definition NewCached (fuel : nat) (su : startup) : option (progress * list cacheAction * result cachedClient) :=
  let p := {| pg_now := su_now su; pg_attempts := 0 |} in
  match su_cache su with
  | Some e => Some (p, [], Err (Errorf "building informer cache" [e]))
  | None =>
      match registerAll fuel (su_attempts su) (time_Add (su_now su) crdWaitTimeout) crdWaitInterval cachedKinds p with
      | None => None
      | Some (p, acts, Some e) =>
          Some (p, acts, Err (Errorf "waiting up to 2m0s for custom resource definitions to be served" [e]))
      | Some (p, acts, None) =>
          let failed e := Some (p, acts ++ [StartCache; StopCache], Err e) in
          if negb (su_synced su) then
            failed (match su_ctxErr su with
                    | Some e => Errorf "informer cache failed to sync" [e]
                    | None => ErrorNew "informer cache failed to sync"
                    end)
          else
            match su_client su with
            | Some e => failed (Errorf "building cache-backed client" [e])
            | None => Some (p, acts ++ [StartCache], Ok {| cl_disableFor := OwnerChainDisableFor |})
            end
      end
  end.

(** ** How long a startup waits *)

(** How many waits may still begin before the deadline. *)
Definition waits (deadline : time) (interval : duration) (now : time) : nat :=
  Z.to_nat ((deadline - now) / interval + 1).

Lemma waits_mono deadline interval now now' :
  0 < interval → now ≤ now' → (waits deadline interval now' ≤ waits deadline interval now)%nat.
Proof.
  intros Hi Hn. unfold waits. pose proof (Z.div_le_mono (deadline - now') (deadline - now) interval). lia.
Qed.

Lemma waits_after deadline interval now now' :
  0 < interval → now ≤ deadline → now + interval ≤ now' →
  (S (waits deadline interval now') ≤ waits deadline interval now)%nat.
Proof.
  intros Hi Hd Hn. pose proof (waits_mono deadline interval (now + interval) now' Hi Hn) as Hm.
  assert (Hw : waits deadline interval now = S (waits deadline interval (now + interval))); [|lia].
  unfold waits. replace (deadline - now) with (deadline - (now + interval) + 1 * interval) by lia.
  rewrite Z.div_add by lia. pose proof (Z.div_le_mono (- interval) (deadline - (now + interval)) interval).
  rewrite Z.div_opp_l_z in * by (try apply Z.mod_same; lia). rewrite Z.div_same in * by lia. lia.
Qed.

(** A kind is given up or registered within the waits left. *)
Lemma register_returns world kind deadline interval :
  0 < interval → ∀ fuel p, (waits deadline interval (pg_now p) < fuel)%nat →
  ∃ p' err, registerInformerWithRetry fuel world kind deadline interval p = Some (p', err) ∧
    pg_now p ≤ pg_now p' ∧
    (pg_attempts p' + waits deadline interval (pg_now p') ≤ S (pg_attempts p) + waits deadline interval (pg_now p))%nat.
Proof.
  intros Hi. induction fuel as [|fuel IH]; intros p Hf; [lia|]. cbn [registerInformerWithRetry].
  set (a := world (pg_attempts p)). set (now := time_Add (pg_now p) (Z.of_N (at_took a))).
  assert (Hnow : pg_now p ≤ now) by (unfold now, time_Add; lia).
  pose proof (waits_mono deadline interval _ _ Hi Hnow) as Hw.
  assert (Hend : ∀ err : option error, ∃ p' err', Some ({| pg_now := now; pg_attempts := S (pg_attempts p) |}, err) = Some (p', err') ∧
    pg_now p ≤ pg_now p' ∧
    (pg_attempts p' + waits deadline interval (pg_now p') ≤ S (pg_attempts p) + waits deadline interval (pg_now p))%nat).
  { intros err. do 2 eexists. split; [done|]. cbn [pg_now pg_attempts]. lia. }
  destruct (at_error a) as [e|]; [|apply Hend]. destruct (IsNoMatchError e); [|apply Hend]. cbn [negb].
  destruct (time_After now deadline) eqn:Ha; [apply Hend|]. destruct (at_ctx a); [apply Hend|].
  unfold time_After in Ha. bool_props.
  set (later := time_Add now (interval + Z.of_N (at_late a))).
  assert (Hl : now + interval ≤ later) by (unfold later, time_Add; lia).
  pose proof (waits_after deadline interval now later Hi ltac:(lia) Hl) as Hs.
  destruct (IH {| pg_now := later; pg_attempts := S (pg_attempts p) |}) as (p' & err & E & Hp & Hc); [cbn [pg_now]; lia|].
  exists p', err. split; [exact E|]. cbn [pg_now pg_attempts] in *. lia.
Qed.

(** All the kinds share the waits. *)
Lemma registerAll_returns world deadline interval fuel :
  0 < interval → ∀ kinds p, (waits deadline interval (pg_now p) < fuel)%nat →
  ∃ p' acts err, registerAll fuel world deadline interval kinds p = Some (p', acts, err) ∧
    (pg_attempts p' + waits deadline interval (pg_now p') ≤
       pg_attempts p + length kinds + waits deadline interval (pg_now p))%nat.
Proof.
  intros Hi. induction kinds as [|kind kinds IH]; intros p Hf.
  { do 3 eexists. split; [done|]. cbn. lia. }
  cbn [registerAll length].
  destruct (register_returns world kind deadline interval Hi fuel p Hf) as (p1 & err & E & Hp & Hc). rewrite E.
  destruct err as [e|]; [do 3 eexists; split; [done|]; lia|].
  pose proof (waits_mono deadline interval _ _ Hi Hp).
  destruct (IH p1) as (p2 & acts & err & E2 & Hc2); [lia|]. rewrite E2. do 3 eexists. split; [done|]. lia.
Qed.

Lemma registerAll_registered world deadline interval fuel kinds p p' acts err :
  registerAll fuel world deadline interval kinds p = Some (p', acts, err) →
  (err = None → acts = map Registered kinds) ∧ Forall (λ a, ∃ kind, a = Registered kind) acts.
Proof.
  revert p acts. induction kinds as [|kind kinds IH]; intros p acts; cbn [registerAll]; [by intros [= <- <- <-]|].
  destruct (registerInformerWithRetry _ _ _ _ _ _) as [[p1 [e|]]|]; [by intros [= <- <- <-]| |done].
  destruct (registerAll _ _ _ _ _ _) as [[[p2 acts'] err']|] eqn:E; [|done]. intros [= <- <- <-].
  destruct (IH p1 acts' E) as [Ha Hf]. split; [intros He; cbn; by rewrite (Ha He)|]. constructor; [by eexists|done].
Qed.

(** ** A signal during the startup *)

(** Once the context is done, no kind is waited for. *)
Lemma register_cancelled world kind deadline interval k :
  (∀ m, (k ≤ m)%nat → at_ctx (world m) ≠ None) →
  ∀ fuel p p' err, registerInformerWithRetry fuel world kind deadline interval p = Some (p', err) →
  (pg_attempts p' ≤ S (Nat.max k (pg_attempts p)))%nat.
Proof.
  intros Hctx. induction fuel as [|fuel IH]; intros p p' err; [done|]. cbn [registerInformerWithRetry].
  destruct (at_error _) as [e|]; [|intros [= <- <-]; cbn; lia].
  destruct (negb _); [intros [= <- <-]; cbn; lia|]. destruct (time_After _ _); [intros [= <- <-]; cbn; lia|].
  destruct (at_ctx _) eqn:Ec; [intros [= <- <-]; cbn; lia|]. intros E. apply IH in E. cbn [pg_attempts] in E.
  destruct (decide (k ≤ pg_attempts p)%nat) as [Hk|Hk]; [|lia]. by destruct (Hctx _ Hk).
Qed.

Lemma registerAll_cancelled world deadline interval fuel k :
  (∀ m, (k ≤ m)%nat → at_ctx (world m) ≠ None) →
  ∀ kinds p p' acts err, registerAll fuel world deadline interval kinds p = Some (p', acts, err) →
  (pg_attempts p' ≤ Nat.max k (pg_attempts p) + length kinds)%nat.
Proof.
  intros Hctx. induction kinds as [|kind kinds IH]; intros p p' acts err; cbn [registerAll length]; [intros [= <- <- <-]; lia|].
  destruct (registerInformerWithRetry _ _ _ _ _ _) as [[p1 [e|]]|] eqn:E; [| |done];
    pose proof (register_cancelled _ _ _ _ k Hctx _ _ _ _ E) as Hk; [intros [= <- <- <-]; lia|].
  destruct (registerAll _ _ _ _ _ _) as [[[p2 acts'] err']|] eqn:E2; [|done]. intros [= <- <- <-].
  apply IH in E2. lia.
Qed.

(** ** What a startup comes to *)

(** Whether a cache was left running. *)
Definition cacheRuns (acts : list cacheAction) : bool :=
  foldl (λ runs a, match a with StartCache => true | StopCache => false | Registered _ => runs end) false acts.

Lemma registered_never_runs acts : Forall (λ a, ∃ kind, a = Registered kind) acts → cacheRuns acts = false.
Proof. induction 1 as [|a acts [kind ->] _ IH]; [done|exact IH]. Qed.

(** Where a client reads a kind: an informer registered before the cache was
    started, the API server, or an informer its first read would have to fill. *)
Inductive source := Prewarmed | Direct | OnFirstRead.

Definition readsFrom (c : cachedClient) (acts : list cacheAction) (kind : string) : source :=
  if bool_decide (kind ∈ cl_disableFor c) then Direct
  else if bool_decide (Registered kind ∈ acts) then Prewarmed else OnFirstRead.

Definition startupFuel : nat := 62.

Lemma startupFuel_enough now :
  (waits (time_Add now crdWaitTimeout) crdWaitInterval now < startupFuel)%nat.
Proof.
  unfold waits, time_Add. replace (now + crdWaitTimeout - now) with crdWaitTimeout by lia. vm_compute. lia.
Qed.

Lemma waits_start now : waits (time_Add now crdWaitTimeout) crdWaitInterval now = 61%nat.
Proof. unfold waits, time_Add. replace (now + crdWaitTimeout - now) with crdWaitTimeout by lia. reflexivity. Qed.

(** The kinds whose owner objects are read are exactly those read past the cache. *)
Lemma owner_chain_disabled kind : kind ∈ OwnerChainDisableFor ↔ is_Some (ownerKinds !! kind).
Proof.
  rewrite <-elem_of_dom. unfold ownerKinds. rewrite dom_list_to_map. unfold OwnerChainDisableFor.
  rewrite elem_of_list_to_set. cbn [fmap list_fmap fst]. rewrite !list_elem_of_In. cbn. tauto.
Qed.

Lemma cached_not_disabled kind : kind ∈ cachedKinds → kind ∉ OwnerChainDisableFor.
Proof.
  unfold cachedKinds. rewrite list_elem_of_In. cbn. intros H.
  repeat destruct H as [<-|H]; [..|done]; apply (bool_decide_unpack _); vm_compute; exact I.
Qed.

Lemma registered_kinds kind : Registered kind ∈ map Registered cachedKinds ++ [StartCache] ↔ kind ∈ cachedKinds.
Proof.
  rewrite elem_of_app, list_elem_of_singleton, list_elem_of_In, in_map_iff, list_elem_of_In. split.
  - by intros [(k & [= <-] & Hk)|].
  - intros Hk. left. by exists kind.
Qed.

Lemma NewCached_returns su : is_Some (NewCached startupFuel su).
Proof.
  unfold NewCached. destruct (su_cache su) as [e|]; [by eexists|].
  destruct (registerAll_returns (su_attempts su) (time_Add (su_now su) crdWaitTimeout) crdWaitInterval startupFuel
              ltac:(done) cachedKinds {| pg_now := su_now su; pg_attempts := 0 |} (startupFuel_enough _)) as (p & acts & err & -> & _).
  destruct err as [e|]; [by eexists|]. destruct (negb (su_synced su)); [by eexists|]. by destruct (su_client su); eexists.
Qed.

(** C40: A startup ends: the kinds share one deadline, so at most sixty-four attempts
    are made in all, and none but the kinds left are tried once a signal has ended
    its context. It answers a client only over a synced cache whose three
    informers were registered before it was started, which reads the owner kinds
    from the API server and fills none at an admission; and a startup that fails
    leaves no cache running. *)
Theorem startup_settles su :
  ∃ p acts r, NewCached startupFuel su = Some (p, acts, r) ∧
  (pg_attempts p ≤ 64)%nat ∧
  (∀ k, (∀ m, (k ≤ m)%nat → at_ctx (su_attempts su m) ≠ None) → (pg_attempts p ≤ k + 3)%nat) ∧
  match r with
  | Err _ => cacheRuns acts = false
  | Ok c =>
      su_synced su = true ∧ acts = map Registered cachedKinds ++ [StartCache] ∧
      (∀ kind, is_Some (ownerKinds !! kind) ↔ readsFrom c acts kind = Direct) ∧
      (∀ kind, kind ∈ cachedKinds ↔ readsFrom c acts kind = Prewarmed)
  end.
Proof.
  unfold NewCached. destruct (su_cache su) as [e|].
  { do 3 eexists. split; [done|]. cbn. split_and!; [lia|lia|done]. }
  set (p0 := {| pg_now := su_now su; pg_attempts := 0 |}).
  destruct (registerAll_returns (su_attempts su) (time_Add (su_now su) crdWaitTimeout) crdWaitInterval startupFuel
              ltac:(done) cachedKinds p0 (startupFuel_enough _)) as (p & acts & err & E & Hc).
  rewrite E. destruct (registerAll_registered _ _ _ _ _ _ _ _ _ E) as [Hacts Hreg].
  assert (Hn : (pg_attempts p ≤ 64)%nat).
  { cbn [pg_attempts pg_now p0] in Hc. rewrite waits_start in Hc. change (length cachedKinds) with 3%nat in Hc. lia. }
  assert (Hk : ∀ k, (∀ m, (k ≤ m)%nat → at_ctx (su_attempts su m) ≠ None) → (pg_attempts p ≤ k + 3)%nat).
  { intros k Hctx. pose proof (registerAll_cancelled _ _ _ _ k Hctx _ _ _ _ _ E) as H.
    cbn [pg_attempts p0] in H. change (length cachedKinds) with 3%nat in H. lia. }
  assert (Hstop : cacheRuns (acts ++ [StartCache; StopCache]) = false) by (unfold cacheRuns; by rewrite foldl_app).
  destruct err as [e|]; [do 3 eexists; split; [done|]; split_and!; [done|done|by apply registered_never_runs]|].
  destruct (su_synced su); cbn [negb]; [|do 3 eexists; split; [done|]; split_and!; [done|done|exact Hstop]].
  destruct (su_client su); do 3 eexists; (split; [done|]); split_and!; [done|done|exact Hstop|done|done|done|by rewrite Hacts| |];
    rewrite (Hacts eq_refl).
  - intros kind. rewrite <-owner_chain_disabled. unfold readsFrom. cbn [cl_disableFor].
    case_bool_decide; [done|]. by case_bool_decide.
  - intros kind. unfold readsFrom. cbn [cl_disableFor]. pose proof (cached_not_disabled kind) as Hnd.
    case_bool_decide as Hd; [split; [by intros Hin; destruct (Hnd Hin)|done]|].
    case_bool_decide as Hr; rewrite registered_kinds in Hr; done.
Qed.
End Client.

(** A fresh install whose definitions are never served gives up at the sixty-second
    attempt. *)
Definition sample_noMatch : error → bool := λ e, errors_Is e "NoMatch".
Definition sample_startup : startup :=
  {| su_cache := None; su_now := 0;
     su_attempts _ := {| at_error := Some (Sentinel "NoMatch"); at_took := 0; at_late := 0; at_ctx := None |};
     su_synced := true; su_ctxErr := None; su_client := None |}.

Example startup_gives_up :
  match NewCached sample_noMatch startupFuel sample_startup with
  | Some (p, acts, Err _) => pg_now p = 122 * second ∧ pg_attempts p = 62%nat ∧ acts = []
  | _ => False
  end.
Proof. vm_compute. auto. Qed.
