(* ===== verification/Serve.v ===== *)
(** * Serving and stopping ([internal/httpx/server.go], [cmd/webhook/serve.go])

    An HTTP server that runs until its listener fails or its context is done, and
    the webhook's process around it: the cache and the certificate it needs before
    it listens, and what it stops, in which order, when it ends. A goroutine's
    blocking points are constructors, and a run interleaves them with requests,
    stub writes, a signal at any time, and the clock, which does not pass a timer
    the main goroutine waits on. *)

From stdpp Require Import sets.
From S2P Require Import Prelude GoLang Quantity Kube WlrApi WlrRead WlrWrite Lru Webhook Stub CachedClient Settings.
Local Open Scope Z_scope.

(** ** The server *)

Record Server := {
  Addr : string;
  ReadHeaderTimeout : duration;
  ReadTimeout : duration;
  WriteTimeout : duration;
  IdleTimeout : duration;
}.

Definition NewServer (addr : string) : Server :=
  {| Addr := addr; ReadHeaderTimeout := 5 * second; ReadTimeout := 15 * second; WriteTimeout := 15 * second;
     IdleTimeout := 60 * second |}.

Definition ErrServerClosed : string := "http: Server closed".

(** Where [ListenAndServeWithShutdown] is: in its [select], in [srv.Shutdown], or
    returned. *)
Inductive waiting := Selecting | ShuttingDown (deadline : time) | Finished (err : option error).

(** [sg_done] is when the context was cancelled; [sg_active] counts the requests
    being served. *)
Record serving := {
  sg_now : time;
  sg_done : option time;
  sg_listening : bool;
  sg_errCh : option error;
  sg_active : nat;
  sg_at : waiting;
}.

Definition ListenAndServeWithShutdown (now : time) (done : option time) : serving :=
  {| sg_now := now; sg_done := done; sg_listening := true; sg_errCh := None; sg_active := 0; sg_at := Selecting |}.

Definition cancel (s : serving) : serving :=
  {| sg_now := sg_now s; sg_done := Some (sg_now s); sg_listening := sg_listening s; sg_errCh := sg_errCh s;
     sg_active := sg_active s; sg_at := sg_at s |}.

Definition active (s : serving) (n : nat) : serving :=
  {| sg_now := sg_now s; sg_done := sg_done s; sg_listening := sg_listening s; sg_errCh := sg_errCh s;
     sg_active := n; sg_at := sg_at s |}.

Definition elapse (s : serving) (d : duration) : serving :=
  {| sg_now := time_Add (sg_now s) d; sg_done := sg_done s; sg_listening := sg_listening s; sg_errCh := sg_errCh s;
     sg_active := sg_active s; sg_at := sg_at s |}.

(** The goroutine's [listen()] returns: what it sends. *)
Definition listenReturns (s : serving) (err : option error) : serving :=
  {| sg_now := sg_now s; sg_done := sg_done s; sg_listening := false;
     sg_errCh := match err with
                 | Some e => if errors_Is e ErrServerClosed then sg_errCh s else Some e
                 | None => sg_errCh s
                 end;
     sg_active := sg_active s; sg_at := sg_at s |}.

(** [srv.Shutdown] closes the listeners, then waits. *)
Definition beginShutdown (s : serving) (shutdownTimeout : duration) : serving :=
  {| sg_now := sg_now s; sg_done := sg_done s; sg_listening := false; sg_errCh := sg_errCh s;
     sg_active := sg_active s; sg_at := ShuttingDown (time_Add (sg_now s) shutdownTimeout) |}.

Definition finish (s : serving) (err : option error) : serving :=
  {| sg_now := sg_now s; sg_done := sg_done s; sg_listening := sg_listening s; sg_errCh := sg_errCh s;
     sg_active := sg_active s; sg_at := Finished err |}.

(** What can happen, the clock apart. [Shutdown] answers once no request is
    served, with the error of closing the listeners, or when its context ends. *)
Inductive serving_move (shutdownTimeout : duration) : serving → serving → Prop :=
  | sv_cancel s : sg_done s = None → serving_move shutdownTimeout s (cancel s)
  | sv_accept s : sg_listening s = true → serving_move shutdownTimeout s (active s (S (sg_active s)))
  | sv_answer s n : sg_active s = S n → serving_move shutdownTimeout s (active s n)
  | sv_listen s err : sg_listening s = true → serving_move shutdownTimeout s (listenReturns s err)
  | sv_failed s e : sg_at s = Selecting → sg_errCh s = Some e → serving_move shutdownTimeout s (finish s (Some e))
  | sv_done s t : sg_at s = Selecting → sg_done s = Some t →
      serving_move shutdownTimeout s (beginShutdown s shutdownTimeout)
  | sv_drained s dl lnerr : sg_at s = ShuttingDown dl → sg_active s = 0%nat →
      serving_move shutdownTimeout s (finish s lnerr)
  | sv_timeout s dl : sg_at s = ShuttingDown dl → dl ≤ sg_now s →
      serving_move shutdownTimeout s (finish s (Some CtxErr)).

(** The instant the goroutine in [ListenAndServeWithShutdown] goes on by. *)
Definition serving_due (s : serving) : option time :=
  match sg_at s with
  | Selecting => match sg_errCh s, sg_done s with None, None => None | _, _ => Some (sg_now s) end
  | ShuttingDown dl => Some dl
  | Finished _ => None
  end.

(** Begun at [t0], and where it has come to. *)
Record serving_ok (shutdownTimeout : duration) (t0 : time) (s : serving) : Prop := {
  sk_start : t0 ≤ sg_now s;
  sk_done : ∀ t, sg_done s = Some t → t ≤ sg_now s;
  sk_sent : ∀ e, sg_errCh s = Some e → sg_listening s = false;
  sk_at : match sg_at s with
          | Selecting => ∀ t, sg_done s = Some t → sg_now s = Z.max t t0
          | ShuttingDown dl => sg_listening s = false ∧
              ∃ t, sg_done s = Some t ∧ dl = Z.max t t0 + shutdownTimeout ∧ sg_now s ≤ dl
          | Finished err => sg_listening s = false ∧ (err = None → sg_active s = 0%nat ∧ sg_done s ≠ None)
          end;
}.

Lemma listen_ok T now done :
  (∀ t, done = Some t → t ≤ now) → serving_ok T now (ListenAndServeWithShutdown now done).
Proof. intros Hd. split; cbn; [lia|done|done|]. intros t Ht. pose proof (Hd t Ht). lia. Qed.

Lemma serving_move_ok T t0 s s' : 0 < T → serving_ok T t0 s → serving_move T s s' → serving_ok T t0 s'.
Proof.
  intros HT [H0 Hd Hs Hat] Hm.
  destruct Hm as [s Hn|s Hl|s n Ha|s err Hl|s e Hse He|s t Hse Hdn|s dl lnerr Hsh Ha|s dl Hsh Hdl];
    (split; [exact H0|try exact Hd|try exact Hs|]); cbn.
  - intros t [= <-]. lia.
  - destruct (sg_at s) as [|dl|err]; cbn.
    + intros t [= <-]. lia.
    + destruct Hat as (_ & t & Ht & _). congruence.
    + destruct Hat as [Hl Hf]. split; [done|]. intros ->. by split; [apply Hf|].
  - destruct (sg_at s); [exact Hat|destruct Hat; congruence|destruct Hat; congruence].
  - destruct (sg_at s) as [|dl|err]; [exact Hat|exact Hat|]. destruct Hat as [Hl Hf]. split; [done|].
    intros Hn. destruct (Hf Hn). congruence.
  - done.
  - destruct (sg_at s) as [|dl|err']; [exact Hat|by destruct Hat|by destruct Hat].
  - split; [by eapply Hs|done].
  - done.
  - rewrite Hse in Hat. split; [done|]. exists t. rewrite (Hat t Hdn). unfold time_Add. split_and!; [done|lia|lia].
  - rewrite Hsh in Hat. destruct Hat as (Hl & t & Ht & _). split; [done|]. intros _. by rewrite Ht.
  - rewrite Hsh in Hat. by destruct Hat.
Qed.

Lemma serving_move_keeps T s s' :
  serving_move T s s' → sg_now s' = sg_now s ∧ (∀ t, sg_done s' = Some t → sg_done s = Some t ∨ t = sg_now s).
Proof. by intros []; (split; [done|]); cbn; intros t' Ht'; (left; exact Ht') || (right; congruence). Qed.

Lemma elapse_ok T t0 s d :
  0 ≤ d → (∀ t, serving_due s = Some t → sg_now s + d ≤ t) → serving_ok T t0 s → serving_ok T t0 (elapse s d).
Proof.
  intros Hd Hdue [H0 Hdn Hs Hat]. unfold serving_due in Hdue.
  split; cbn; [unfold time_Add; lia|intros t Ht; specialize (Hdn t Ht); unfold time_Add; lia|exact Hs|].
  unfold time_Add. destruct (sg_at s) as [|dl|err]; [| |exact Hat].
  - intros t Ht. rewrite Ht in Hdue. rewrite <-(Hat t Ht).
    assert (sg_now s + d ≤ sg_now s); [|lia]. apply Hdue. by destruct (sg_errCh s).
  - destruct Hat as (Hl & t & Ht & -> & _). split; [done|]. exists t. split_and!; [done..|by apply Hdue].
Qed.

(** ** The webhook's process *)
Section Webhook.
Context {QO : QuantityOps} {KO : KubeOps} {HA : Hashing} {Pair : Type}.

(** What the start of [serve] is answered: by the cluster, by the context of the
    signal after a failed start, by the file system, by the registry of metrics,
    and what the certificate's files hold. *)
Record environment := {
  en_startup : startup;
  en_ctxErr : option error;
  en_stat : string → option error;
  en_register : option error;
  en_files : certFiles (Pair := Pair);
}.

(** How the start ends: the process exits, or it listens with a client and, if
    its gauge could be registered, a watcher of its certificate. *)
Inductive beginning := Exits (err : option error) | Listens (client : cachedClient) (watcher : option (CertExpiry (Pair := Pair))).

(** [os.Stat] of no name fails, whatever the file system holds. *)
Definition os_Stat (stat : string → option error) (path : string) : option error :=
  if String.eqb path "" then Some (ErrorNew "stat : no such file or directory") else stat path.

(** [serve], up to its listener. *)
Definition serve_start (IsNoMatchError : error → bool) (cfg : WebhookConfig) (en : environment) : option beginning :=
  match NewCached IsNoMatchError startupFuel (en_startup en) with
  | None => None
  | Some (_, _, Err err) => Some (Exits (match en_ctxErr en with Some _ => None | None => Some err end))
  | Some (_, _, Ok client) =>
      match os_Stat (en_stat en) (TLSCertFile cfg) with
      | Some e => Some (Exits (Some (Errorf ("tls cert file " +:+ TLSCertFile cfg) [e])))
      | None =>
          match os_Stat (en_stat en) (TLSKeyFile cfg) with
          | Some e => Some (Exits (Some (Errorf ("tls key file " +:+ TLSKeyFile cfg) [e])))
          | None =>
              match en_register en with
              | Some _ => Some (Listens client None)
              | None =>
                  let '(watcher, err) := Refresh (NewCertExpiry (negb (String.eqb (TLSKeyFile cfg) ""))) (en_files en) in
                  match err with
                  | Some e => Some (Exits (Some (Errorf "initial TLS cert load" [e])))
                  | None => Some (Listens client (Some watcher))
                  end
              end
          end
      end
  end.

(** The key pair a handshake is served: the watcher's, or that of the files when
    there is none, as they were when the listener was opened. *)
Definition handshake (watcher : option (CertExpiry (Pair := Pair))) (listened : certFiles (Pair := Pair)) (ticks : list certFiles) :
    result Pair :=
  match watcher with
  | Some c => GetCertificate (Run c ticks)
  | None => keyPair listened
  end.

Definition stubDrainTimeout : duration := 2 * second.
Definition shutdownTimeout : duration := 10 * second.

(** Where [serve] is once it listens. *)
Inductive serveAt := Serving | DrainingStubs (deadline : time) (err : option error) | Exited (err : option error).

(** [pc_deps] holds while the context of the cache and of the certificate watcher
    is not cancelled, [pc_gaveUp] once the wait for the stub writes was given up. *)
Record process := {
  pc_http : serving;
  pc_stubs : stubs;
  pc_at : serveAt;
  pc_deps : bool;
  pc_gaveUp : bool;
}.

Definition serve_listen (now : time) (done : option time) (claims : LRU) : process :=
  {| pc_http := ListenAndServeWithShutdown now done; pc_stubs := newStubs claims; pc_at := Serving; pc_deps := true;
     pc_gaveUp := false |}.

Definition with_http (p : process) (s : serving) : process :=
  {| pc_http := s; pc_stubs := pc_stubs p; pc_at := pc_at p; pc_deps := pc_deps p; pc_gaveUp := pc_gaveUp p |}.

Definition with_stubs (p : process) (s : stubs) : process :=
  {| pc_http := pc_http p; pc_stubs := s; pc_at := pc_at p; pc_deps := pc_deps p; pc_gaveUp := pc_gaveUp p |}.

(** [handler.Shutdown], begun. *)
Definition beginDrain (p : process) (err : option error) : process :=
  {| pc_http := pc_http p; pc_stubs := Shutdown (pc_stubs p);
     pc_at := DrainingStubs (time_Add (sg_now (pc_http p)) stubDrainTimeout) err; pc_deps := pc_deps p;
     pc_gaveUp := pc_gaveUp p |}.

(** [stopDeps] and the return. *)
Definition exit (p : process) (err : option error) (gaveUp : bool) : process :=
  {| pc_http := pc_http p; pc_stubs := pc_stubs p; pc_at := Exited err; pc_deps := false; pc_gaveUp := gaveUp |}.

Definition process_due (p : process) : option time :=
  match pc_at p with
  | Serving => match sg_at (pc_http p) with Finished _ => Some (sg_now (pc_http p)) | _ => serving_due (pc_http p) end
  | DrainingStubs dl _ => Some dl
  | Exited _ => None
  end.

(** A request being served may ask for a stub; what it asks for may be refused. *)
Inductive process_step : process → process → Prop :=
  | ps_http p s : (∀ err, pc_at p ≠ Exited err) → serving_move shutdownTimeout (pc_http p) s → process_step p (with_http p s)
  | ps_clock p d : (∀ err, pc_at p ≠ Exited err) → 0 < d →
      (∀ t, process_due p = Some t → sg_now (pc_http p) + d ≤ t) → process_step p (with_http p (elapse (pc_http p) d))
  | ps_admission p i r : (∀ err, pc_at p ≠ Exited err) → sg_active (pc_http p) ≠ 0%nat → sb_workers (pc_stubs p) !! i = None →
      process_step p (with_stubs p (requestRecommendation (pc_stubs p) (sg_now (pc_http p)) i r))
  | ps_worker p s : (∀ err, pc_at p ≠ Exited err) → worker_step (pc_stubs p) s → process_step p (with_stubs p s)
  | ps_drain p err : pc_at p = Serving → sg_at (pc_http p) = Finished err → process_step p (beginDrain p err)
  | ps_drained p dl err : pc_at p = DrainingStubs dl err → sb_wg (pc_stubs p) = 0 → process_step p (exit p err (pc_gaveUp p))
  | ps_gave_up p dl err : pc_at p = DrainingStubs dl err → dl ≤ sg_now (pc_http p) → process_step p (exit p err true).

Inductive process_runs (p0 : process) : process → Prop :=
  | pr_refl : process_runs p0 p0
  | pr_step p p' : process_runs p0 p → process_step p p' → process_runs p0 p'.

(** The end of the time a signal at [t] leaves. *)
Definition grace (t0 t : time) : time := Z.max t t0 + shutdownTimeout.

Record process_ok (t0 : time) (p : process) : Prop := {
  po_http : serving_ok shutdownTimeout t0 (pc_http p);
  po_stubs : stubs_ok (pc_stubs p);
  po_at : match pc_at p with
          | Serving => pc_deps p = true ∧ pc_gaveUp p = false ∧
              ∀ t, sg_done (pc_http p) = Some t → sg_now (pc_http p) ≤ grace t0 t
          | DrainingStubs dl err => pc_deps p = true ∧ pc_gaveUp p = false ∧ sg_at (pc_http p) = Finished err ∧
              sg_now (pc_http p) ≤ dl ≤ sg_now (pc_http p) + stubDrainTimeout ∧
              ∀ t, sg_done (pc_http p) = Some t → dl ≤ grace t0 t + stubDrainTimeout
          | Exited err => pc_deps p = false ∧ sg_at (pc_http p) = Finished err ∧
              (pc_gaveUp p = false → sb_workers (pc_stubs p) = ∅) ∧
              ∀ t, sg_done (pc_http p) = Some t → sg_now (pc_http p) ≤ grace t0 t + stubDrainTimeout
          end;
}.

Lemma finished_stays T s s' err : sg_at s = Finished err → serving_move T s s' → sg_at s' = Finished err.
Proof. intros Hf Hm. destruct Hm; cbn; congruence. Qed.

Lemma serving_bound t0 s t :
  serving_ok shutdownTimeout t0 s → (∀ err, sg_at s ≠ Finished err) → sg_done s = Some t → sg_now s ≤ grace t0 t.
Proof.
  intros [_ _ _ Hat] Hf Ht. unfold grace. destruct (sg_at s) as [|dl|err]; [| |by destruct (Hf err)].
  - rewrite (Hat t Ht). unfold shutdownTimeout, second. lia.
  - destruct Hat as (_ & t' & Ht' & -> & Hn). congruence.
Qed.

Lemma drained_empty s : stubs_ok s → sb_wg s = 0 → sb_workers s = ∅.
Proof. intros Hok H0. rewrite (so_wg _ Hok) in H0. apply map_size_empty_inv. lia. Qed.

Lemma http_step_ok t0 p s :
  process_ok t0 p → (∀ err, pc_at p ≠ Exited err) → serving_move shutdownTimeout (pc_http p) s → process_ok t0 (with_http p s).
Proof.
  intros [Hh Hst Hat] Hr Hm. pose proof (serving_move_ok shutdownTimeout t0 _ _ eq_refl Hh Hm) as Hh'.
  destruct (serving_move_keeps _ _ _ Hm) as [Hnow Hdone]. pose proof (sk_start _ _ _ Hh) as H0.
  assert (Hg : ∀ t, t = sg_now (pc_http p) → sg_now (pc_http p) ≤ grace t0 t).
  { intros t ->. unfold grace, shutdownTimeout, second. lia. }
  split; [exact Hh'|exact Hst|]. cbn. destruct (pc_at p) as [|dl err|err]; cbn; [| |by destruct (Hr err)].
  - destruct Hat as (? & ? & Hb). split_and!; [done..|]. intros t Ht. rewrite Hnow. destruct (Hdone t Ht); [by apply Hb|by apply Hg].
  - destruct Hat as (? & ? & Hf & Hd & Hb). rewrite Hnow. split_and!; [done|done|by eapply finished_stays|lia|lia|].
    intros t Ht. destruct (Hdone t Ht) as [|E]; [by apply Hb|]. specialize (Hg t E). lia.
Qed.

Lemma clock_step_ok t0 p d :
  process_ok t0 p → (∀ err, pc_at p ≠ Exited err) → 0 < d → (∀ t, process_due p = Some t → sg_now (pc_http p) + d ≤ t) →
  process_ok t0 (with_http p (elapse (pc_http p) d)).
Proof.
  intros [Hh Hst Hat] Hr Hd Hdue.
  assert (Hs : ∀ t, serving_due (pc_http p) = Some t → sg_now (pc_http p) + d ≤ t).
  { intros t Ht. unfold process_due in Hdue. destruct (pc_at p) as [|dl err|err]; [| |by destruct (Hr err)].
    - apply Hdue. unfold serving_due in *. by destruct (sg_at (pc_http p)).
    - destruct Hat as (_ & _ & Hf & _). unfold serving_due in Ht. by rewrite Hf in Ht. }
  pose proof (elapse_ok _ _ _ d ltac:(lia) Hs Hh) as Hh'. split; [exact Hh'|exact Hst|]. cbn.
  unfold process_due in Hdue. destruct (pc_at p) as [|dl err|err]; [| |by destruct (Hr err)].
  - destruct Hat as (? & ? & Hb). split_and!; [done..|]. intros t Ht.
    destruct (sg_at (pc_http p)) as [| |err] eqn:Ea; [| |specialize (Hdue _ eq_refl); lia];
      (apply (serving_bound t0 (elapse (pc_http p) d)); [exact Hh'|cbn; by rewrite Ea|exact Ht]).
  - destruct Hat as (? & ? & Hf & Hd' & Hb). specialize (Hdue _ eq_refl). unfold time_Add. split_and!; [done..|lia|lia|exact Hb].
Qed.

Lemma process_step_ok t0 p p' : process_ok t0 p → process_step p p' → process_ok t0 p'.
Proof.
  intros Hok Hstep. destruct Hstep as [p s Hr Hm|p d Hr Hd Hdue|p i r Hr Ha Hi|p s Hr Hw|p err Ha Hf|p dl err Ha H0|p dl err Ha Hn].
  - by apply http_step_ok.
  - by apply clock_step_ok.
  - destruct Hok as [Hh Hst Hat]. split; [done|by apply request_ok|]. cbn. destruct (pc_at p); [done..|by destruct (Hr err)].
  - destruct Hok as [Hh Hst Hat]. split; [done|by eapply worker_step_ok|]. cbn. destruct (pc_at p); [done..|by destruct (Hr err)].
  - destruct Hok as [Hh Hst Hat]. rewrite Ha in Hat. destruct Hat as (? & ? & Hb).
    split; [done|by eapply stub_step_ok, s_shutdown|]. cbn. unfold time_Add. split_and!; [done..|unfold stubDrainTimeout, second; lia|lia|].
    intros t Ht. specialize (Hb t Ht). lia.
  - destruct Hok as [Hh Hst Hat]. rewrite Ha in Hat. destruct Hat as (? & ? & Hf & Hd & Hb).
    split; [done|done|]. cbn. split_and!; [done|done|intros _; by apply drained_empty|]. intros t Ht. specialize (Hb t Ht). lia.
  - destruct Hok as [Hh Hst Hat]. rewrite Ha in Hat. destruct Hat as (? & ? & Hf & Hd & Hb).
    split; [done|done|]. cbn. split_and!; [done|done|done|]. intros t Ht. specialize (Hb t Ht). lia.
Qed.

Lemma process_runs_ok now done claims p :
  newStubClaims = Some claims → (∀ t, done = Some t → t ≤ now) → process_runs (serve_listen now done claims) p → process_ok now p.
Proof.
  intros Hl Hd. induction 1 as [|p p' _ IH Hst]; [|by eapply process_step_ok].
  split; cbn; [by apply listen_ok|by apply newStubs_ok|]. split_and!; [done..|]. intros t _. unfold grace, shutdownTimeout, second. lia.
Qed.

(** *** The end is always reached *)

Lemma process_runs_trans p0 p p' : process_runs p0 p → process_runs p p' → process_runs p0 p'.
Proof. intros H0. induction 1; [done|by eapply pr_step]. Qed.

Definition exits (p : process) : Prop := ∃ p' err, process_runs p p' ∧ pc_at p' = Exited err.

Lemma exits_step p p' : process_step p p' → exits p' → exits p.
Proof.
  intros Hs (p2 & err & Hr & He). exists p2, err. split; [|done].
  eapply process_runs_trans; [eapply pr_step; [apply pr_refl|exact Hs]|exact Hr].
Qed.

Lemma drain_exits p dl err : pc_at p = DrainingStubs dl err → exits p.
Proof.
  intros Ha. assert (Hnow : ∀ p, pc_at p = DrainingStubs dl err → dl ≤ sg_now (pc_http p) → exits p).
  { intros q Hq Hd. apply (exits_step q (exit q err true)); [by eapply ps_gave_up|]. do 2 eexists. split; [apply pr_refl|done]. }
  destruct (decide (dl ≤ sg_now (pc_http p))) as [|Hlt]; [by apply Hnow|].
  eapply exits_step; [apply (ps_clock p (dl - sg_now (pc_http p)))|apply Hnow; [exact Ha|cbn; unfold time_Add; lia]].
  - congruence.
  - lia.
  - unfold process_due. rewrite Ha. intros t [= <-]. lia.
Qed.

Lemma finished_exits p err : pc_at p = Serving → sg_at (pc_http p) = Finished err → exits p.
Proof. intros Ha Hf. eapply exits_step; [by apply ps_drain|by eapply drain_exits]. Qed.

Lemma shutting_exits p dl : pc_at p = Serving → sg_at (pc_http p) = ShuttingDown dl → exits p.
Proof.
  intros Ha Hs. assert (Hnow : ∀ p, pc_at p = Serving → sg_at (pc_http p) = ShuttingDown dl → dl ≤ sg_now (pc_http p) → exits p).
  { intros q Hq Hsq Hd. eapply exits_step; [apply ps_http; [congruence|by eapply sv_timeout]|by eapply finished_exits]. }
  destruct (decide (dl ≤ sg_now (pc_http p))) as [|Hlt]; [by apply Hnow|].
  eapply exits_step; [apply (ps_clock p (dl - sg_now (pc_http p)))|apply Hnow; [done|done|cbn; unfold time_Add; lia]].
  - congruence.
  - lia.
  - unfold process_due, serving_due. rewrite Ha, Hs. intros t [= <-]. lia.
Qed.

Lemma signalled_exits p t : sg_done (pc_http p) = Some t → exits p.
Proof.
  intros Hd. destruct (pc_at p) as [|dl err|err] eqn:Ha; [|by eapply drain_exits|by exists p, err; split; [apply pr_refl|]].
  destruct (sg_at (pc_http p)) as [|dl|err] eqn:Hs; [|by eapply shutting_exits|by eapply finished_exits].
  eapply exits_step; [apply ps_http; [congruence|by eapply sv_done]|by eapply shutting_exits].
Qed.

(** C25: However requests, stub writes, a failing listener and a signal interleave, the
    informer cache and the certificate watcher run until the process exits, which
    is once nothing listens and every stub write has ended or was given up; it
    exits without error only with every request answered. After a signal it
    has exited within twelve seconds, and can always come to. *)
Theorem webhook_stops now done claims p :
  newStubClaims = Some claims → (∀ t, done = Some t → t ≤ now) → process_runs (serve_listen now done claims) p →
  (pc_deps p = true ↔ ∀ err, pc_at p ≠ Exited err) ∧
  (∀ err, pc_at p = Exited err →
     sg_listening (pc_http p) = false ∧ (pc_gaveUp p = false → sb_workers (pc_stubs p) = ∅) ∧
     (err = None → sg_active (pc_http p) = 0%nat ∧ sg_done (pc_http p) ≠ None)) ∧
  (∀ t, sg_done (pc_http p) = Some t → sg_now (pc_http p) ≤ Z.max t now + 12 * second ∧ exits p).
Proof.
  intros Hl Hd Hr. destruct (process_runs_ok _ _ _ _ Hl Hd Hr) as [[_ _ _ Hh] _ Hat]. split_and!.
  - destruct (pc_at p) as [|dl err|err]; destruct Hat as (-> & _); split; try done. intros H. by destruct (H err).
  - intros err He. rewrite He in Hat. destruct Hat as (_ & Hf & Hw & _). rewrite Hf in Hh. destruct Hh as [? Hh].
    split_and!; [done|done|done].
  - intros t Ht. split; [|by eapply signalled_exits]. unfold grace, shutdownTimeout, stubDrainTimeout, second in *.
    destruct (pc_at p) as [|dl err|err].
    + destruct Hat as (_ & _ & Hb). specialize (Hb t Ht). lia.
    + destruct Hat as (_ & _ & _ & Hn & Hb). specialize (Hb t Ht). lia.
    + destruct Hat as (_ & _ & _ & Hb). specialize (Hb t Ht). lia.
Qed.

(** *** The start *)

Lemma Refresh_keeps_pair (c : CertExpiry (Pair := Pair)) f : is_Some (cert c) → is_Some (cert (fst (Refresh c f))).
Proof. intros Hc. unfold Refresh. by split_cases. Qed.

Lemma Run_keeps_pair ticks (c : CertExpiry (Pair := Pair)) : is_Some (cert c) → is_Some (cert (Run c ticks)).
Proof. revert c. induction ticks as [|f ticks IH]; intros c Hc; [done|]. apply IH, Refresh_keeps_pair, Hc. Qed.

(** A start ends. A signal while the cache fills is not a failure; without one the
    process says why it could not start; and when it listens, every handshake its
    watcher answers is served a pair, whatever the files hold later. *)
Theorem start_ready IsNoMatchError cfg en :
  match serve_start IsNoMatchError cfg en with
  | None => False
  | Some (Exits None) => en_ctxErr en ≠ None
  | Some (Exits (Some _)) => True
  | Some (Listens client watcher) =>
      TLSCertFile cfg ≠ "" ∧ TLSKeyFile cfg ≠ "" ∧
      en_stat en (TLSCertFile cfg) = None ∧ en_stat en (TLSKeyFile cfg) = None ∧
      ∀ c ticks, watcher = Some c → ∃ kp, ∀ listened, handshake watcher listened ticks = Ok kp
  end.
Proof.
  unfold serve_start, os_Stat. destruct (NewCached_returns IsNoMatchError (en_startup en)) as [[[p acts] r] ->].
  destruct r as [client|err]; [|by destruct (en_ctxErr en)].
  destruct (String.eqb_spec (TLSCertFile cfg) ""); [done|]. destruct (en_stat en (TLSCertFile cfg)) eqn:?; [done|].
  destruct (String.eqb_spec (TLSKeyFile cfg) ""); [done|]. destruct (en_stat en (TLSKeyFile cfg)) eqn:?; [done|].
  destruct (en_register en); [by split_and!|]. destruct (Refresh _ _) as [w err] eqn:E. destruct err as [e|]; [done|].
  split_and!; [done..|]. intros c ticks [= <-]. cbn [handshake].
  assert (Hw : is_Some (cert w)) by (unfold Refresh in E; cbn in E; split_cases; by eexists).
  destruct (Run_keeps_pair ticks w Hw) as [kp Hkp]. exists kp. intros _. unfold GetCertificate. by rewrite Hkp.
Qed.
End Webhook.

(** ** At a concrete run *)
Section Sample.
#[local] Existing Instance nano_quantity.
#[local] Existing Instance simple_kube.
#[local] Existing Instance plain_hashing.

#[local] Abbreviation claims0 := {| l_maxEntries := stubRequestDedupMaxEntries; l_ttl := stubRequestDedupTTL; order := [];
  heap := ∅; l_entries := ∅; next := 0 |}.

(** A request asks for a stub; two seconds in, a signal; the request is answered,
    and the stub write is still queued two seconds later. *)
Definition sample_requested : process :=
  let p := serve_listen 0 None claims0 in
  let p := with_http p (active (pc_http p) 1) in
  with_stubs p (requestRecommendation (pc_stubs p) 0 0 (sample_stub "web")).

Definition sample_signalled : process :=
  let p := with_http sample_requested (elapse (pc_http sample_requested) (2 * second)) in
  let p := with_http p (cancel (pc_http p)) in
  let p := with_http p (beginShutdown (pc_http p) shutdownTimeout) in
  with_http p (active (pc_http p) 0).

Definition sample_exited : process :=
  let p := with_http sample_signalled (finish (pc_http sample_signalled) None) in
  let p := beginDrain p None in
  exit (with_http p (elapse (pc_http p) (2 * second))) None true.

Lemma sample_requested_run : process_runs (serve_listen 0 None claims0) sample_requested.
Proof.
  unfold sample_requested. eapply pr_step; [eapply pr_step; [apply pr_refl|]|].
  - apply ps_http; [done|by apply sv_accept].
  - apply ps_admission; [done..|by_running].
Qed.

Lemma sample_signalled_run : process_runs (serve_listen 0 None claims0) sample_signalled.
Proof.
  unfold sample_signalled. eapply pr_step; [eapply pr_step; [eapply pr_step; [eapply pr_step; [exact sample_requested_run|]|]|]|].
  - apply (ps_clock sample_requested (2 * second)); [done|reflexivity|]. unfold process_due, sample_requested. cbn. done.
  - apply ps_http; [done|by apply sv_cancel].
  - apply ps_http; [done|by eapply sv_done].
  - apply ps_http; [done|by apply sv_answer].
Qed.

Lemma sample_exited_run : process_runs (serve_listen 0 None claims0) sample_exited.
Proof.
  unfold sample_exited. eapply pr_step; [eapply pr_step; [eapply pr_step; [eapply pr_step; [exact sample_signalled_run|]|]|]|].
  - apply ps_http; [done|by eapply sv_drained].
  - by apply ps_drain.
  - apply (ps_clock (beginDrain (with_http sample_signalled (finish (pc_http sample_signalled) None)) None) (2 * second)).
    + done.
    + reflexivity.
    + intros t [= <-]. done.
  - by eapply ps_gave_up.
Qed.

Lemma webhook_stops_witness :
  pc_at sample_exited = Exited None ∧ sg_active (pc_http sample_exited) = 0%nat ∧
  sg_now (pc_http sample_exited) ≤ 2 * second + 12 * second.
Proof.
  assert (Hd : ∀ t : time, None = Some t → t ≤ 0) by done.
  destruct (webhook_stops 0 None claims0 sample_exited eq_refl Hd sample_exited_run) as (_ & He & Ht).
  split; [reflexivity|]. split; [by apply (He None eq_refl)|]. by apply (Ht (2 * second)).
Defined.
End Sample.
