(* ===== verification/Flags.v ===== *)
(** * The flags of the commands ([internal/config/config.go])

    What each command binds: a key of the settings library, the flag it is read
    from, and the value it has when nothing sets it. The library is outside the
    repository: [settings] is what it answers, and [ViperLaws] what it documents
    of a bound key. *)

From Stdlib Require Import Ascii.
From S2P Require Import Prelude GoLang GoStrings WlrRead Settings.
Local Open Scope Z_scope.

(** ** What is bound *)

Inductive flagValue := VString (s : string) | VBool (b : bool) | VInt (z : Z) | VDuration (d : duration) | VList (v : setting).

Record binding := { b_key : string; b_flag : string; b_default : flagValue }.

Definition bindString (key flagName def : string) : binding :=
  {| b_key := key; b_flag := flagName; b_default := VString def |}.
Definition bindBool (key flagName : string) (def : bool) : binding :=
  {| b_key := key; b_flag := flagName; b_default := VBool def |}.
Definition bindInt (key flagName : string) (def : Z) : binding :=
  {| b_key := key; b_flag := flagName; b_default := VInt def |}.
Definition bindDuration (key flagName : string) (def : duration) : binding :=
  {| b_key := key; b_flag := flagName; b_default := VDuration def |}.
(** The default is nil. *)
Definition bindStringSlice (key flagName : string) : binding :=
  {| b_key := key; b_flag := flagName; b_default := VList (ListOf []) |}.
Definition bindStringArray (key flagName : string) : binding :=
  {| b_key := key; b_flag := flagName; b_default := VList (ListOf []) |}.

Definition bindPrometheusTransportFlags : list binding := [
  bindString "prometheus-bearer-token" "prometheus-bearer-token" "";
  bindString "prometheus-bearer-token-file" "prometheus-bearer-token-file" "";
  bindString "prometheus-basic-auth-username" "prometheus-basic-auth-username" "";
  bindString "prometheus-basic-auth-password" "prometheus-basic-auth-password" "";
  bindString "prometheus-basic-auth-password-file" "prometheus-basic-auth-password-file" "";
  bindStringArray "prometheus-headers" "prometheus-headers";
  bindString "prometheus-tls-ca-file" "prometheus-tls-ca-file" "";
  bindString "prometheus-tls-cert-file" "prometheus-tls-cert-file" "";
  bindString "prometheus-tls-key-file" "prometheus-tls-key-file" "";
  bindString "prometheus-tls-server-name" "prometheus-tls-server-name" "";
  bindBool "prometheus-tls-insecure-skip-verify" "prometheus-tls-insecure-skip-verify" false
].

(** The flag of the configuration file is bound to no key. *)
Definition configFlag : string := "config".

Definition BindGlobalFlags : list binding := [
  bindBool "recommend-only" "recommend-only" false;
  bindStringSlice "excluded-namespaces" "excluded-namespaces";
  bindString "prometheus-address" "prometheus-address" "http://localhost:9090"
] ++ bindPrometheusTransportFlags.

Definition DefaultQueryShardMaxSamples : Z := 10000000.

Definition BindControllerFlags : list binding := [
  bindString "metrics-bind-address" "metrics-bind-address" ":8080";
  bindString "health-probe-bind-address" "health-probe-bind-address" ":8081";
  bindBool "leader-elect" "leader-elect" false;
  bindString "leader-election-id" "leader-election-id" "k8s-sustain-leader-election";
  bindString "log-level" "log-level" "info";
  bindDuration "reconcile-interval" "reconcile-interval" (5 * minute);
  bindInt "workload-concurrency-limit" "workload-concurrency-limit" 5;
  bindInt "policy-concurrency-limit" "policy-concurrency-limit" 10;
  bindInt "prometheus-max-inflight" "prometheus-max-inflight" 8;
  bindDuration "recycle-replacement-timeout" "recycle-replacement-timeout" (5 * minute);
  bindDuration "recommendation-retention" "recommendation-retention" DefaultRetention;
  bindInt "query-shard-max-samples" "query-shard-max-samples" DefaultQueryShardMaxSamples
].

Definition BindWebhookFlags : list binding := [
  bindString "webhook.tls-cert-file" "tls-cert-file" "/tls/tls.crt";
  bindString "webhook.tls-key-file" "tls-key-file" "/tls/tls.key";
  bindInt "webhook.port" "port" 9443;
  bindString "webhook.log-level" "log-level" "info"
].

Definition BindDashboardFlags : list binding := [
  bindString "dashboard.bind-address" "bind-address" ":8090";
  bindString "dashboard.log-level" "log-level" "info";
  bindStringSlice "dashboard.cors-allowed-origins" "cors-allowed-origins"
].

(** The commands register their flags when the program starts, whichever runs. *)
Definition allBindings : list binding :=
  BindGlobalFlags ++ BindControllerFlags ++ BindWebhookFlags ++ BindDashboardFlags.

(** *** The environment *)

(** [strings.NewReplacer] of one-character texts. *)
Fixpoint replaceKey (key : string) : string :=
  match key with
  | EmptyString => EmptyString
  | String c s => String (if (c =? ".")%char || (c =? "-")%char then "_"%char else c) (replaceKey s)
  end.

Fixpoint ToUpper (s : string) : string :=
  match s with
  | EmptyString => EmptyString
  | String c s' =>
      let n := N_of_ascii c in
      String (if (97 <=? n)%N && (n <=? 122)%N then ascii_of_N (n - 32) else c) (ToUpper s')
  end.

(** The variable a key is read from: the prefix and the replacer [InitViper] sets. *)
Definition envName (key : string) : string := ToUpper ("K8SSUSTAIN" +:+ "_" +:+ replaceKey key).

Example env_dashboard : envName "dashboard.bind-address" = "K8SSUSTAIN_DASHBOARD_BIND_ADDRESS".
Proof. reflexivity. Qed.

(** ** What the library answers *)

(** A bound key, read at the type it is bound at. *)
Definition reads (v : settings) (b : binding) : flagValue :=
  match b_default b with
  | VString _ => VString (getString v (b_key b))
  | VBool _ => VBool (getBool v (b_key b))
  | VInt _ => VInt (getInt v (b_key b))
  | VDuration _ => VDuration (getDuration v (b_key b))
  | VList _ => VList (get v (b_key b))
  end.

(** What sets a key: a flag given, by its key, or a variable of the environment. *)
Record given := { gv_flags : gmap string flagValue; gv_env : gmap string string }.

(** A flag that was given is read before the environment, which is read before
    the flag's default. The environment gives texts. *)
Class ViperLaws (bs : list binding) (g : given) (v : settings) : Prop := {
  flag_first b val : b ∈ bs → gv_flags g !! b_key b = Some val → reads v b = val;
  env_second b raw : b ∈ bs → gv_flags g !! b_key b = None → gv_env g !! envName (b_key b) = Some raw →
    match b_default b with
    | VString _ => reads v b = VString raw
    | VList _ => reads v b = VList (TextOf raw)
    | _ => True
    end;
  default_last b : b ∈ bs → gv_flags g !! b_key b = None → gv_env g !! envName (b_key b) = None → reads v b = b_default b;
}.

(** ** What a command loads *)

(** Two answers of the library that agree on what a command binds: what it reads
    of each key is equal. *)
Definition agree (bs : list binding) (v v' : settings) : Prop := Forall (λ b, reads v b = reads v' b) bs.

Lemma agree_app bs bs' v v' : agree (bs ++ bs') v v' ↔ agree bs v v' ∧ agree bs' v v'.
Proof. apply Forall_app. Qed.

(** An equation for each key of a list of bindings. *)
Ltac read_equations H :=
  repeat (let E := fresh "E" in apply Forall_cons in H as [E H]; unfold reads in E; cbn in E; injection E as E).

Ltac by_equations := repeat match goal with E : _ = _ |- _ => try rewrite E; clear E end; reflexivity.

Lemma scope_bound v v' :
  agree BindGlobalFlags v v' →
  loadClusterScope v = loadClusterScope v' ∧ loadPrometheusConnection v = loadPrometheusConnection v'.
Proof.
  intros H. unfold BindGlobalFlags, bindPrometheusTransportFlags in H. cbn [app] in H. read_equations H.
  unfold loadClusterScope, loadPrometheusConnection, getStringSlice. split; by_equations.
Qed.

(** Every setting a command loads is one it, or the root command, binds, read at
    the type it is bound at: two answers of the library that agree on those load
    the same configuration. *)
Theorem loads_what_is_bound v v' :
  agree BindGlobalFlags v v' →
  (agree BindControllerFlags v v' → LoadControllerConfig v = LoadControllerConfig v') ∧
  (agree BindWebhookFlags v v' → LoadWebhookConfig v = LoadWebhookConfig v') ∧
  (agree BindDashboardFlags v v' → LoadDashboardConfig v = LoadDashboardConfig v').
Proof.
  intros H. destruct (scope_bound v v' H) as [Hs Hp]. split_and!; intros Hc.
  - unfold BindControllerFlags in Hc. read_equations Hc. unfold LoadControllerConfig. by_equations.
  - unfold BindWebhookFlags in Hc. read_equations Hc. unfold LoadWebhookConfig. by_equations.
  - unfold BindDashboardFlags in Hc. read_equations Hc. unfold LoadDashboardConfig, getStringSlice. by_equations.
Qed.

(** The commands share one process and one registry of keys: no key is bound
    twice, no two keys are read from one variable, and no command defines a flag
    twice, the root's persistent flags counted in. *)
Theorem bindings_distinct :
  NoDup (map b_key allBindings) ∧ NoDup (map (λ b, envName (b_key b)) allBindings) ∧
  ∀ command, command ∈ [BindControllerFlags; BindWebhookFlags; BindDashboardFlags] →
    NoDup (configFlag :: map b_flag (BindGlobalFlags ++ command)).
Proof.
  split_and!; [by_evaluation|by_evaluation|]. intros command. rewrite list_elem_of_In. cbn.
  intros H. repeat destruct H as [<-|H]; [..|done]; by_evaluation.
Qed.

Lemma nothing_given bs v : ViperLaws bs {| gv_flags := ∅; gv_env := ∅ |} v → Forall (λ b, reads v b = b_default b) bs.
Proof. intros [_ _ Hd]. apply Forall_forall. intros b Hb. by apply Hd. Qed.

Lemma given_app bs bs' g v : ViperLaws (bs ++ bs') g v → ViperLaws bs g v ∧ ViperLaws bs' g v.
Proof.
  intros [H1 H2 H3]. split; constructor; intros b *; intros Hb; first [apply H1|apply H2|apply H3]; rewrite elem_of_app; auto.
Qed.

(** Started with nothing given, every command loads its configuration: the
    controller's passes its own checks, with the defaults the flags name. *)
Theorem defaults_load v :
  ViperLaws allBindings {| gv_flags := ∅; gv_env := ∅ |} v →
  (∃ cfg, LoadControllerConfig v = Ok cfg ∧ ReconcileInterval cfg = 5 * minute ∧
     RecommendationRetention cfg = DefaultRetention ∧ QueryShardMaxSamples cfg = DefaultQueryShardMaxSamples ∧
     PrometheusMaxInflight cfg = 8 ∧ LeaderElect cfg = false ∧
     cc_ClusterScope cfg = {| cs_RecommendOnly := false; ExcludedNamespaces := [] |} ∧
     Headers (Transport (cc_Prometheus cfg)) = ∅) ∧
  LoadWebhookConfig v =
    {| wh_ClusterScope := {| cs_RecommendOnly := false; ExcludedNamespaces := [] |};
       TLSCertFile := "/tls/tls.crt"; TLSKeyFile := "/tls/tls.key"; Port := 9443; wh_LogLevel := "info" |} ∧
  ∃ cfg, LoadDashboardConfig v = Ok cfg ∧ BindAddress cfg = ":8090" ∧ CORSAllowedOrigins cfg = [] ∧
    Address (dc_Prometheus cfg) = "http://localhost:9090".
Proof.
  intros H%nothing_given. unfold allBindings in H. rewrite !Forall_app in H. destruct H as (Hg & Hc & Hw & Hd).
  unfold BindGlobalFlags, bindPrometheusTransportFlags in Hg. cbn [app] in Hg. read_equations Hg.
  unfold BindControllerFlags in Hc. read_equations Hc. unfold BindWebhookFlags in Hw. read_equations Hw.
  unfold BindDashboardFlags in Hd. read_equations Hd.
  unfold LoadControllerConfig, LoadWebhookConfig, LoadDashboardConfig, loadPrometheusConnection, loadClusterScope, getStringSlice.
  split_and!.
  - repeat match goal with E : _ = _ |- _ => try rewrite E; clear E end. eexists. split; [reflexivity|]. by split_and!.
  - by_equations.
  - repeat match goal with E : _ = _ |- _ => try rewrite E; clear E end. eexists. split; [reflexivity|]. by split_and!.
Qed.

(** The namespaces excluded are one list, whichever command reads them: of a
    variable, the texts between its commas, trimmed, the empty ones left out. *)
Theorem excluded_from_environment g v raw :
  ViperLaws allBindings g v → gv_flags g !! "excluded-namespaces" = None →
  gv_env g !! "K8SSUSTAIN_EXCLUDED_NAMESPACES" = Some raw →
  let excluded := List.filter (λ p, negb (String.eqb p "")) (map TrimSpace (Split "," raw)) in
  ExcludedNamespaces (wh_ClusterScope (LoadWebhookConfig v)) = excluded ∧
  (∀ cfg, LoadControllerConfig v = Ok cfg → ExcludedNamespaces (cc_ClusterScope cfg) = excluded) ∧
  (∀ cfg, LoadDashboardConfig v = Ok cfg → ExcludedNamespaces (dc_ClusterScope cfg) = excluded).
Proof.
  intros HL Hf He excluded.
  assert (Hs : ExcludedNamespaces (loadClusterScope v) = excluded).
  { pose proof (env_second (bindStringSlice "excluded-namespaces" "excluded-namespaces") raw) as H.
    cbn in H. assert (Hg : get v "excluded-namespaces" = TextOf raw); [|cbn; unfold getStringSlice; by rewrite Hg].
    cut (VList (get v "excluded-namespaces") = VList (TextOf raw)); [by intros [=]|].
    apply H; [by right; left|exact Hf|exact He]. }
  split_and!; [exact Hs| |]; intros cfg; unfold LoadControllerConfig, LoadDashboardConfig;
    split_cases; intros [= <-]; exact Hs.
Qed.

(** ** At a concrete input *)

(** The library with nothing given. *)
Definition find_binding (key : string) : option flagValue :=
  b_default <$> List.find (λ b, String.eqb (b_key b) key) allBindings.

Definition default_settings (env : gmap string string) : settings :=
  {| get key := match env !! envName key with
                | Some raw => TextOf raw
                | None => match find_binding key with Some (VList l) => l | _ => ListOf [] end
                end;
     getString key := match env !! envName key with
                      | Some raw => raw
                      | None => match find_binding key with Some (VString s) => s | _ => "" end
                      end;
     getInt key := match find_binding key with Some (VInt z) => z | _ => 0 end;
     getBool key := match find_binding key with Some (VBool b) => b | _ => false end;
     getDuration key := match find_binding key with Some (VDuration d) => d | _ => 0 end |}.

Lemma find_own b : b ∈ allBindings → find_binding (b_key b) = Some (b_default b).
Proof.
  rewrite list_elem_of_In. unfold allBindings, BindGlobalFlags, bindPrometheusTransportFlags, BindControllerFlags, BindWebhookFlags,
    BindDashboardFlags. cbn [app List.In]. intros H. repeat destruct H as [<-|H]; [..|done]; reflexivity.
Qed.

Lemma default_settings_laws env : ViperLaws allBindings {| gv_flags := ∅; gv_env := env |} (default_settings env).
Proof.
  constructor; cbn [gv_flags gv_env].
  - intros b val _. by rewrite lookup_empty.
  - intros b raw Hb _ He. unfold reads. destruct (b_default b); try done; cbn; by rewrite He.
  - intros b Hb _ He. unfold reads. pose proof (find_own b Hb) as Hf.
    destruct (b_default b) eqn:E; cbn -[find_binding envName]; rewrite ?He, Hf; done.
Qed.

Lemma loads_what_is_bound_witness :
  LoadWebhookConfig (default_settings ∅) = LoadWebhookConfig (default_settings {[ "HOME" := "/root" ]}).
Proof.
  apply (loads_what_is_bound (default_settings ∅) (default_settings {[ "HOME" := "/root" ]})).
  - unfold agree. repeat (constructor; [by_running|]). constructor.
  - unfold agree. repeat (constructor; [by_running|]). constructor.
Defined.

Lemma defaults_load_witness : Port (LoadWebhookConfig (default_settings ∅)) = 9443.
Proof. destruct (defaults_load _ (default_settings_laws ∅)) as (_ & E & _). rewrite E. reflexivity. Defined.

Lemma excluded_from_environment_witness :
  ExcludedNamespaces (wh_ClusterScope (LoadWebhookConfig
    (default_settings {[ "K8SSUSTAIN_EXCLUDED_NAMESPACES" := "kube-system, ,monitoring" ]}))) = ["kube-system"; "monitoring"].
Proof.
  apply (excluded_from_environment _ _ "kube-system, ,monitoring"
    (default_settings_laws {[ "K8SSUSTAIN_EXCLUDED_NAMESPACES" := "kube-system, ,monitoring" ]})); reflexivity.
Defined.
