(* ===== verification/PromClient.v ===== *)
(** * Building the Prometheus client and running a query through it
    ([client.go] and [transport.go] of [internal/prometheus])

    The options of a client, the round tripper they come to, and the TLS settings
    of its transport; then one query from the breaker's answer to its outcome, as
    a sequence of the steps of [Client]. The certificates a text holds, the pair
    two files make, and the library's default round tripper are arguments. *)

From S2P Require Import Prelude GoLang GoStrings Quantity Kube Shards HttpLayer Settings Transport Client Queries.
Local Open Scope Z_scope.

(** ** The transport *)
Section Transport.
Context {Cert Pair Custom : Type}.

(** What the host answers: its own trusted certificates, the files, the
    certificates in a PEM text, and the pair of a certificate and a key file, as
    the files are when it is asked. *)
Record host := {
  ho_SystemCertPool : result (option (list Cert));
  ho_files : string → result string;
  ho_certsIn : string → list Cert;
  ho_pair : string → string → result Pair;
}.

(** [tls.Config]; [GetClientCertificate] is a function of the host at the
    handshake. *)
Record tlsConfig := {
  tc_ServerName : string;
  tc_InsecureSkipVerify : bool;
  tc_RootCAs : option (list Cert);
  tc_GetClientCertificate : option (host → result Pair);
}.

Definition loadKeyPair (h : host) (certFile keyFile : string) : result Pair :=
  match ho_pair h certFile keyFile with
  | Err e => Err (Errorf "loading prometheus TLS key pair" [e])
  | Ok p => Ok p
  end.

(** The pool the CA file is appended to: a copy of the host's, an empty one when
    the host has none. *)
Definition caPool (h : host) : list Cert :=
  match ho_SystemCertPool h with Ok (Some pool) => pool | _ => [] end.

(** [pool.AppendCertsFromPEM]: the pool, unless the text holds no certificate. *)
Definition AppendCertsFromPEM (h : host) (pool : list Cert) (pem : string) : option (list Cert) :=
  match ho_certsIn h pem with [] => None | certs => Some (pool ++ certs) end.

Definition rootCAs (h : host) (cfg : TLSConfig) : result (option (list Cert)) :=
  if given (CAFile cfg) then
    match ho_files h (CAFile cfg) with
    | Err e => Err (Errorf "reading prometheus TLS CA file" [e])
    | Ok pem =>
        match AppendCertsFromPEM h (caPool h) pem with
        | None => Err (ErrorNew "prometheus TLS CA file contains no valid PEM certificate")
        | Some pool => Ok (Some pool)
        end
    end
  else Ok None.

Definition buildTLSConfig (h : host) (cfg : TLSConfig) : result tlsConfig :=
  match rootCAs h cfg with
  | Err e => Err e
  | Ok roots =>
      let out client :=
        {| tc_ServerName := ServerName cfg; tc_InsecureSkipVerify := InsecureSkipVerify cfg; tc_RootCAs := roots;
           tc_GetClientCertificate := client |} in
      if given (CertFile cfg) then
        match loadKeyPair h (CertFile cfg) (KeyFile cfg) with
        | Err e => Err e
        | Ok _ => Ok (out (Some (λ h, loadKeyPair h (CertFile cfg) (KeyFile cfg))))
        end
      else Ok (out None)
  end.

(** The transport a request goes through: the library's default, a clone of it
    with TLS settings, the layer of headers and credentials over either, or
    the caller's own. *)
Inductive roundTripper :=
  | DefaultTransport
  | ClonedTransport (tls : tlsConfig)
  | AuthTransport (base : roundTripper) (cfg : TransportConfig)
  | CustomTransport (rt : Custom).

(** [isTransport]: the library's default is an [*http.Transport]. *)
Definition baseRoundTripper (isTransport : bool) (h : host) (cfg : TransportConfig) : result roundTripper :=
  if negb (hasTLS (TLS cfg)) then Ok DefaultTransport
  else if negb isTransport then Err (ErrorNew "cannot apply TLS settings: api.DefaultRoundTripper is not *http.Transport")
  else
    match buildTLSConfig h (TLS cfg) with
    | Err e => Err e
    | Ok tls => Ok (ClonedTransport tls)
    end.

(** The error of building the base, as [newTransportRoundTripper] returns it. *)
Definition baseError (isTransport : bool) (h : host) (cfg : TransportConfig) : option error :=
  match baseRoundTripper isTransport h cfg with Err e => Some e | Ok _ => None end.

(** ** The client *)

Record promClient := {
  pm_breaker : breaker;
  pm_queryTimeout : duration;
  pm_queueTimeout : duration;
  pm_sem : option nat;
  pm_transport : TransportConfig;
  pm_transportSet : bool;
  pm_roundTripper : option Custom;
}.

Definition noTransport : TransportConfig :=
  {| BearerToken := ""; BearerTokenFile := ""; BasicAuthUsername := ""; BasicAuthPassword := "";
     BasicAuthPasswordFile := ""; Headers := ∅;
     TLS := {| CAFile := ""; CertFile := ""; KeyFile := ""; ServerName := ""; InsecureSkipVerify := false |} |}.

Definition defaultBreakerMaxFailures : Z := 5.
Definition defaultBreakerCooldown : duration := 30 * second.
Definition defaultQueryTimeout : duration := 30 * second.
Definition defaultQueueTimeout : duration := 2 * minute.

Definition ClientOption : Type := promClient → promClient.

Definition WithQueryTimeout (d : duration) : ClientOption := λ c,
  if 0 <? d then
    {| pm_breaker := pm_breaker c; pm_queryTimeout := d; pm_queueTimeout := pm_queueTimeout c; pm_sem := pm_sem c;
       pm_transport := pm_transport c; pm_transportSet := pm_transportSet c; pm_roundTripper := pm_roundTripper c |}
  else c.

Definition WithMaxInflight (n : Z) : ClientOption := λ c,
  if 0 <? n then
    {| pm_breaker := pm_breaker c; pm_queryTimeout := pm_queryTimeout c; pm_queueTimeout := pm_queueTimeout c;
       pm_sem := Some (Z.to_nat n); pm_transport := pm_transport c; pm_transportSet := pm_transportSet c;
       pm_roundTripper := pm_roundTripper c |}
  else c.

Definition WithQueueTimeout (d : duration) : ClientOption := λ c,
  if 0 <? d then
    {| pm_breaker := pm_breaker c; pm_queryTimeout := pm_queryTimeout c; pm_queueTimeout := d; pm_sem := pm_sem c;
       pm_transport := pm_transport c; pm_transportSet := pm_transportSet c; pm_roundTripper := pm_roundTripper c |}
  else c.

Definition WithTransportConfig (cfg : TransportConfig) : ClientOption := λ c,
  {| pm_breaker := pm_breaker c; pm_queryTimeout := pm_queryTimeout c; pm_queueTimeout := pm_queueTimeout c;
     pm_sem := pm_sem c; pm_transport := cfg; pm_transportSet := true; pm_roundTripper := pm_roundTripper c |}.

(** [rt] may be nil. *)
Definition WithRoundTripper (rt : option Custom) : ClientOption := λ c,
  {| pm_breaker := pm_breaker c; pm_queryTimeout := pm_queryTimeout c; pm_queueTimeout := pm_queueTimeout c;
     pm_sem := pm_sem c; pm_transport := pm_transport c; pm_transportSet := pm_transportSet c; pm_roundTripper := rt |}.

(** [resolveRoundTripper]; none leaves the library its default. *)
Definition resolveRoundTripper (ValidHeaderFieldName ValidHeaderFieldValue : string → bool) (isTransport : bool) (h : host)
    (c : promClient) : result (option roundTripper) :=
  match pm_roundTripper c with
  | Some rt =>
      if pm_transportSet c
      then Err (ErrorNew "invalid prometheus transport config: WithRoundTripper and WithTransportConfig are mutually exclusive")
      else Ok (Some (CustomTransport rt))
  | None =>
      match newTransportRoundTripper ValidHeaderFieldName ValidHeaderFieldValue
              (λ _, baseError isTransport h (pm_transport c)) (ho_files h) (pm_transport c) with
      | Err e => Err e
      | Ok None => Ok None
      | Ok (Some cfg) =>
          match baseRoundTripper isTransport h cfg with
          | Err e => Err e
          | Ok base => Ok (Some (AuthTransport base cfg))
          end
      end
  end.

(** [New]: the options in order, then the round tripper; [NewClient] is the
    library's answer to the address. *)
Definition New (ValidHeaderFieldName ValidHeaderFieldValue : string → bool) (isTransport : bool) (h : host)
    (NewClient : string → option error) (addr : string) (opts : list ClientOption) : result (promClient * option roundTripper) :=
  let cli := foldl (λ c (opt : ClientOption), opt c)
    {| pm_breaker := newBreaker defaultBreakerMaxFailures defaultBreakerCooldown; pm_queryTimeout := defaultQueryTimeout;
       pm_queueTimeout := defaultQueueTimeout; pm_sem := None; pm_transport := noTransport; pm_transportSet := false;
       pm_roundTripper := None |} opts in
  match resolveRoundTripper ValidHeaderFieldName ValidHeaderFieldValue isTransport h cli with
  | Err e => Err (Errorf "creating prometheus client" [e])
  | Ok rt =>
      match NewClient addr with
      | Some e => Err (Errorf "creating prometheus client" [e])
      | None => Ok (cli, rt)
      end
  end.
End Transport.

(** *** What is built *)
Section Built.
Context {Cert Pair Custom : Type}.
Implicit Types (h : host (Cert := Cert) (Pair := Pair)).

(** The TLS settings a transport was built with are those configured: the CA file
    adds to what the host trusts, and every handshake presents the pair the files
    hold by then. *)
Definition tls_as_configured h (cfg : TLSConfig) (t : tlsConfig (Cert := Cert) (Pair := Pair)) : Prop :=
  tc_ServerName t = ServerName cfg ∧ tc_InsecureSkipVerify t = InsecureSkipVerify cfg ∧
  match tc_RootCAs t with
  | None => CAFile cfg = ""
  | Some pool => CAFile cfg ≠ "" ∧ ∃ pem, ho_files h (CAFile cfg) = Ok pem ∧ ho_certsIn h pem ≠ [] ∧
      ∀ c, c ∈ pool ↔ c ∈ ho_certsIn h pem ∨ ∃ system, ho_SystemCertPool h = Ok (Some system) ∧ c ∈ system
  end ∧
  match tc_GetClientCertificate t with
  | None => CertFile cfg = ""
  | Some handshake => CertFile cfg ≠ "" ∧ (∃ kp, ho_pair h (CertFile cfg) (KeyFile cfg) = Ok kp) ∧
      ∀ later kp, ho_pair later (CertFile cfg) (KeyFile cfg) = Ok kp ↔ handshake later = Ok kp
  end.

Lemma given_true s : given s = true ↔ s ≠ "".
Proof. unfold given. destruct (String.eqb_spec s ""); naive_solver. Qed.

Lemma given_false s : given s = false ↔ s = "".
Proof. unfold given. destruct (String.eqb_spec s ""); naive_solver. Qed.

Lemma loadKeyPair_ok h cert key kp : loadKeyPair h cert key = Ok kp ↔ ho_pair h cert key = Ok kp.
Proof. unfold loadKeyPair. by destruct (ho_pair h cert key). Qed.

Lemma rootCAs_spec h cfg roots :
  rootCAs h cfg = Ok roots →
  match roots with
  | None => CAFile cfg = ""
  | Some pool => CAFile cfg ≠ "" ∧ ∃ pem, ho_files h (CAFile cfg) = Ok pem ∧ ho_certsIn h pem ≠ [] ∧
      ∀ c, c ∈ pool ↔ c ∈ ho_certsIn h pem ∨ ∃ system, ho_SystemCertPool h = Ok (Some system) ∧ c ∈ system
  end.
Proof.
  unfold rootCAs. destruct (given (CAFile cfg)) eqn:E; [|intros [= <-]; by apply given_false].
  destruct (ho_files h (CAFile cfg)) as [pem|]; [|done]. unfold AppendCertsFromPEM.
  destruct (ho_certsIn h pem) as [|c0 cs] eqn:Ec; [done|]. intros [= <-]. split; [by apply given_true|].
  exists pem. rewrite Ec. split_and!; [done..|]. intros c. rewrite elem_of_app. unfold caPool.
  destruct (ho_SystemCertPool h) as [[system|]|e]; [naive_solver|..]; (split; [intros [?%elem_of_nil|?]; [done|auto]|naive_solver]).
Qed.

Lemma buildTLSConfig_spec h cfg t : buildTLSConfig h cfg = Ok t → tls_as_configured h cfg t.
Proof.
  unfold buildTLSConfig. destruct (rootCAs h cfg) as [roots|] eqn:Er; [|done]. apply rootCAs_spec in Er.
  destruct (given (CertFile cfg)) eqn:Ec.
  - destruct (loadKeyPair h _ _) as [kp|] eqn:Ek; [|done]. intros [= <-]. split_and!; [done..|]. cbn.
    split_and!; [by apply given_true|exists kp; by apply loadKeyPair_ok|]. intros later kp'. by rewrite loadKeyPair_ok.
  - intros [= <-]. split_and!; [done..|]. by apply given_false.
Qed.

(** A client is built with the one transport its options name, or not at all:
    the caller's round tripper with no configuration beside it; the library's
    default for a configuration that asks for nothing; otherwise a layer that sends
    that configuration, over the default untouched, or a clone of it with
    exactly the TLS settings given. *)
Theorem transport_resolved vn vv isTransport h NewClient addr opts cli rt :
  New (Custom := Custom) vn vv isTransport h NewClient addr opts = Ok (cli, rt) →
  NewClient addr = None ∧
  match pm_roundTripper cli with
  | Some own => pm_transportSet cli = false ∧ rt = Some (CustomTransport own)
  | None =>
      let cfg := pm_transport cli in
      if isZero cfg then rt = None
      else validate vn vv cfg = None ∧
        ∃ base, rt = Some (AuthTransport base cfg) ∧
          if hasTLS (TLS cfg) then ∃ t, base = ClonedTransport t ∧ tls_as_configured h (TLS cfg) t
          else base = DefaultTransport
  end.
Proof.
  unfold New. generalize (foldl (λ c (opt : ClientOption), opt c) {| pm_breaker := newBreaker defaultBreakerMaxFailures defaultBreakerCooldown;
    pm_queryTimeout := defaultQueryTimeout; pm_queueTimeout := defaultQueueTimeout; pm_sem := None;
    pm_transport := noTransport; pm_transportSet := false; pm_roundTripper := @None Custom |} opts).
  intros c. cbn zeta. unfold resolveRoundTripper. destruct (pm_roundTripper c) as [own|] eqn:Eo.
  { destruct (pm_transportSet c) eqn:Es; [done|]. destruct (NewClient addr); [done|]. intros [= <- <-]. by rewrite Eo, Es. }
  unfold newTransportRoundTripper. destruct (isZero (pm_transport c)) eqn:Ez.
  { destruct (NewClient addr); [done|]. intros [= <- <-]. by rewrite Eo, Ez. }
  destruct (validate vn vv (pm_transport c)) eqn:Ev; [done|]. cbv zeta.
  destruct (if given (BearerTokenFile (pm_transport c)) then _ else _); [done|].
  destruct (if given (BasicAuthPasswordFile (pm_transport c)) then _ else _); [done|].
  destruct (if hasTLS (TLS (pm_transport c)) then _ else _); [done|].
  destruct (baseRoundTripper isTransport h (pm_transport c)) as [base|] eqn:Eb; [|done].
  destruct (NewClient addr); [done|]. intros [= <- <-]. rewrite Eo, Ez. split; [done|]. split; [done|].
  exists base. split; [done|]. unfold baseRoundTripper in Eb. destruct (hasTLS (TLS (pm_transport c))); cbn [negb] in Eb; [|congruence].
  destruct isTransport; cbn [negb] in Eb; [|done]. destruct (buildTLSConfig h _) as [t|] eqn:Et; [|done].
  injection Eb as <-. exists t. split; [done|]. by apply buildTLSConfig_spec.
Qed.
End Built.

(** ** One query *)

Definition ErrInflightQueueAborted : string := "prometheus: aborted while queued for an in-flight slot".

(** What a query meets: the clock where it is read, the error of the context that
    ends its wait for a slot, if one does, and what the API answers. *)
Record encounter (A : Type) := {
  en_now : time;
  en_now' : time;
  en_slot : option error;
  en_acquired : time;
  en_answer : result A;
  en_failed : time;
  en_ctx : option cause;
}.
#[global] Arguments en_now {A}. #[global] Arguments en_now' {A}. #[global] Arguments en_slot {A}.
#[global] Arguments en_acquired {A}. #[global] Arguments en_answer {A}. #[global] Arguments en_failed {A}.
#[global] Arguments en_ctx {A}.

(** [execInstant] and [runRange] once the wait for a slot is over. *)
Definition runQuery {A} (c : client) (id : nat) (q : encounter A) : client * result A :=
  match queries c !! id with
  | Some Running =>
      match en_answer q with
      | Err e => (finish c id (Some (en_failed q, en_ctx q)), Err e)
      | Ok v => (finish c id None, Ok v)
      end
  | _ => (c, Err (Sentinel ErrCircuitOpen))
  end.

(** [execInstant], and [execRange] with [runRange] up to the reading of its
    answer: the breaker, the slot, the API, the outcome recorded, and the slot
    given back. *)
Definition execQuery {A} (c : client) (id : nat) (q : encounter A) : client * result A :=
  let c := start c id (en_now q) (en_now' q) in
  match queries c !! id with
  | Some (Queued probe) =>
      match inflight c, en_slot q with
      | Some _, Some e =>
          (at_query c (cl_breaker c) (taken c) id Aborted, Err (Errorf "" [Sentinel ErrInflightQueueAborted; e]))
      | _, _ => runQuery (acquire c id probe (en_acquired q)) id q
      end
  | _ => (c, Err (Sentinel ErrCircuitOpen))
  end.

Definition execRange (c : client) (id : nat) (q : encounter value) : client * result (list (strmap * list TimeValue)) :=
  let '(c, answer) := execQuery c id q in (c, matrixOf answer).

(** [Ping] through the client. *)
Definition PingClient (c : client) (id : nat) (q : encounter value) : client * option error :=
  let '(c, answer) := execQuery c id q in (c, Ping answer).

Lemma allow_failures b now now' : failures (fst (allow b now now')) = failures b.
Proof. unfold allow. by split_cases. Qed.

(** From a slot on, with the breaker [b] after [allow]. *)
Lemma runQuery_reports {A} c c1 id probe (q : encounter A) :
  runs c c1 → taken c1 = taken c → queries c1 !! id = Some (Queued probe) → free c1 = true →
  failures (cl_breaker c1) = failures (cl_breaker c) →
  let '(c', answer) := runQuery (acquire c1 id probe (en_acquired q)) id q in
  runs c c' ∧ taken c' = taken c ∧
  match queries c' !! id with
  | Some Rejected => answer = Err (Sentinel ErrCircuitOpen) ∧ failures (cl_breaker c') = failures (cl_breaker c)
  | Some Answered => (∃ v, en_answer q = Ok v ∧ answer = Ok v) ∧ cl_breaker c' = success (cl_breaker c1)
  | Some Failed => (∃ e, en_answer q = Err e ∧ answer = Err e) ∧
      cl_breaker c' = recordQueryFailure (cl_breaker c1) (en_failed q) (en_ctx q)
  | _ => False
  end.
Proof.
  intros Hr1 Ht Hq1 Hfr Hb. set (c2 := acquire c1 id probe (en_acquired q)).
  assert (Hr2 : runs c c2) by (eapply runs_step; [exact Hr1|by apply s_acquire]).
  assert (Hfin : ∀ o, queries c2 !! id = Some Running → runs c (finish c2 id o)).
  { intros o Ho. eapply runs_step; [exact Hr2|by apply s_finish]. }
  assert (Hend : ∀ n, queries c2 !! id = Some Running → released c2 = n → n = taken c → cl_breaker c2 = cl_breaker c1 →
    let '(c', answer) := runQuery c2 id q in
    runs c c' ∧ taken c' = taken c ∧
    match queries c' !! id with
    | Some Answered => (∃ v, en_answer q = Ok v ∧ answer = Ok v) ∧ cl_breaker c' = success (cl_breaker c1)
    | Some Failed => (∃ e, en_answer q = Err e ∧ answer = Err e) ∧
        cl_breaker c' = recordQueryFailure (cl_breaker c1) (en_failed q) (en_ctx q)
    | _ => False
    end).
  { intros n Hq2 Hrel Hn Hbr. unfold runQuery. rewrite Hq2. destruct (en_answer q) as [v|e]; (split; [by apply Hfin|]);
      unfold finish; cbn [queries at_query taken cl_breaker]; rewrite lookup_insert_eq, Hrel, Hbr; eauto. }
  unfold c2, acquire in *. destruct (inflight c1) as [n|] eqn:Ei.
  - destruct (negb probe && isOpen (cl_breaker c1) (en_acquired q)).
    + unfold runQuery. cbn [queries at_query]. rewrite lookup_insert_eq. cbn [queries at_query]. rewrite ?lookup_insert_eq. by split_and!.
    + specialize (Hend (taken c1)). destruct (runQuery _ id q) as [c' answer].
      destruct Hend as (? & ? & H); [apply lookup_insert_eq|unfold released; cbn; by rewrite Ei|done|done|].
      split_and!; [done..|]. by destruct (queries c' !! id) as [[]|].
  - specialize (Hend (taken c1)). destruct (runQuery _ id q) as [c' answer].
    destruct Hend as (? & ? & H); [apply lookup_insert_eq|unfold released; cbn; by rewrite Ei|done|done|].
    split_and!; [done..|]. by destruct (queries c' !! id) as [[]|].
Qed.

(** C35: A query follows the steps of the client from its breaker to its end, gives its
    slot back, and answers its caller by where it ended: the open breaker's error,
    told apart by its callers, or that of the queue, when it never reached
    Prometheus, and then the count of failures is as it was; otherwise what
    Prometheus answered, recorded as a success or as the failure it was. *)
Theorem query_reports {A} c id (q : encounter A) :
  queries c !! id = None → (en_slot q = None → free c = true) →
  let '(c', answer) := execQuery c id q in
  runs c c' ∧ taken c' = taken c ∧
  match queries c' !! id with
  | Some Rejected => answer = Err (Sentinel ErrCircuitOpen) ∧ failures (cl_breaker c') = failures (cl_breaker c)
  | Some Aborted => (∃ e, en_slot q = Some e ∧ answer = Err (Errorf "" [Sentinel ErrInflightQueueAborted; e])) ∧
      failures (cl_breaker c') = failures (cl_breaker c)
  | Some Answered => (∃ v, en_answer q = Ok v ∧ answer = Ok v) ∧
      cl_breaker c' = success (fst (allow (cl_breaker c) (en_now q) (en_now' q)))
  | Some Failed => (∃ e, en_answer q = Err e ∧ answer = Err e) ∧
      cl_breaker c' = recordQueryFailure (fst (allow (cl_breaker c) (en_now q) (en_now' q))) (en_failed q) (en_ctx q)
  | _ => False
  end.
Proof.
  intros Hn Hfree. unfold execQuery.
  assert (Hs : client_step c (start c id (en_now q) (en_now' q))) by (by apply s_start).
  pose proof (allow_failures (cl_breaker c) (en_now q) (en_now' q)) as Hf.
  revert Hs. unfold start. destruct (allow (cl_breaker c) (en_now q) (en_now' q)) as [b a]. cbn [fst] in *. intros Hs.
  set (c1 := at_query c b (taken c) id _) in *. assert (Hr1 : runs c c1) by (eapply runs_step; [apply runs_new|exact Hs]).
  assert (Hq1 : queries c1 !! id = Some (if al_allowed a then Queued (al_probe a) else Rejected)) by apply lookup_insert_eq.
  rewrite Hq1. destruct (al_allowed a); [|by rewrite Hq1].
  assert (Hrun : free c = true → let '(c', answer) := runQuery (acquire c1 id (al_probe a) (en_acquired q)) id q in _)
    by (intros Hfr; exact (runQuery_reports c c1 id (al_probe a) q Hr1 eq_refl Hq1 Hfr Hf)).
  change (inflight c1) with (inflight c). destruct (inflight c) as [n|] eqn:Ei; [destruct (en_slot q) as [e|]|].
  - split; [eapply runs_step; [exact Hr1|eapply s_abort; [exact Hq1|by eexists]]|]. split; [done|].
    cbn [queries at_query]. rewrite lookup_insert_eq. eauto.
  - specialize (Hrun (Hfree eq_refl)). destruct (runQuery _ id q) as [c' answer].
    destruct Hrun as (? & ? & H). split_and!; [done..|]. by destruct (queries c' !! id) as [[]|].
  - assert (Hfr : free c = true) by (unfold free; by rewrite Ei). specialize (Hrun Hfr).
    destruct (runQuery _ id q) as [c' answer]. destruct Hrun as (? & ? & H). split_and!; [done..|].
    by destruct (queries c' !! id) as [[]|].
Qed.

(** ** At a concrete input *)

(** A query queued behind a full semaphore until its context ends. *)
Definition sample_encounter : encounter Z :=
  {| en_now := 1; en_now' := 1; en_slot := Some CtxErr; en_acquired := 2; en_answer := Ok 0; en_failed := 3; en_ctx := None |}.

Lemma query_reports_witness :
  errors_Is (match snd (execQuery (newClient (newBreaker 5 (30 * second)) (Some 1%nat)) 7 sample_encounter) with
             | Err e => e | Ok _ => CtxErr end) ErrInflightQueueAborted = true.
Proof.
  pose proof (query_reports (newClient (newBreaker 5 (30 * second)) (Some 1%nat)) 7 sample_encounter eq_refl ltac:(done)) as H.
  destruct (execQuery _ 7 _) as [c' answer] eqn:E. destruct H as (_ & _ & H).
  assert (Hq : queries c' !! 7%nat = Some Aborted) by (injection E as <- <-; by_running).
  rewrite Hq in H. destruct H as [(e & He & ->) _]. reflexivity.
Defined.

Definition sample_host : host (Cert := string) (Pair := string) :=
  {| ho_SystemCertPool := Ok (Some ["public root"]); ho_files _ := Ok "pem"; ho_certsIn _ := ["internal root"];
     ho_pair _ _ := Err CtxErr |}.

Definition sample_tls : TransportConfig :=
  {| BearerToken := "t"; BearerTokenFile := ""; BasicAuthUsername := ""; BasicAuthPassword := "";
     BasicAuthPasswordFile := ""; Headers := ∅;
     TLS := {| CAFile := "/ca"; CertFile := ""; KeyFile := ""; ServerName := "prom"; InsecureSkipVerify := false |} |}.

Lemma transport_resolved_witness :
  match New (Custom := unit) (λ _, true) (λ _, true) true sample_host (λ _, None) "http://prom" [WithTransportConfig sample_tls] with
  | Ok (_, Some (AuthTransport (ClonedTransport t) _)) =>
      match tc_RootCAs t with Some pool => "public root" ∈ pool ∧ "internal root" ∈ pool | None => False end
  | _ => False
  end.
Proof.
  destruct (New _ _ _ _ _ _ _) as [[cli rt]|] eqn:E; [|done].
  destruct (transport_resolved _ _ _ _ _ _ _ _ _ E) as [_ H]. vm_compute in E. injection E as <- <-. cbn in H.
  destruct H as (_ & base & [= <-] & t & [= <-] & _ & _ & (_ & pem & _ & _ & Hp) & _). cbn.
  split; apply Hp; [right; exists ["public root"]; by split; [|left]|by left; left].
Defined.
