(* ===== verification/Start.v ===== *)
(** * Starting the controller ([cmd/controller/start.go], [SetupWithManager] of
    [internal/controller/policy_controller.go])

    What the controller is made of from its settings and from what the cluster,
    the Prometheus client and the manager answer: which version of the API
    server it resizes in place on, how long kills are kept and counted, and the
    settings its reconciler and its watcher run with. Then the dashboard
    ([cmd/dashboard/dashboard.go]). *)

From Stdlib Require Import Ascii.
From S2P Require Import Prelude GoLang GoText GoStrings Quantity Kube PolicyApi WlrApi Shards Resources Signals Compute Assemble.
From S2P Require Import Serve Governance WlrRead Patcher Reconciler History OomCache PromInputs LiveInputs Settings Flags.
Local Open Scope Z_scope.

(** ** The version of the API server *)

(** [strings.TrimRight] with a cutset of one character *)
Fixpoint TrimRight (s : string) (c : ascii) : string :=
  match s with
  | EmptyString => EmptyString
  | String d s' =>
      match TrimRight s' c with
      | EmptyString => if (d =? c)%char then EmptyString else String d EmptyString
      | t => String d t
      end
  end.

(** [detectInPlaceSupport]: the major and minor version the API server answers. *)
Definition detectInPlaceSupport (version : result (string * string)) : bool :=
  match version with
  | Err _ => false
  | Ok (Major, Minor) =>
      match Atoi Major, Atoi (TrimRight Minor "+") with
      | Some major, Some minor => (1 <? major) || ((major =? 1) && (33 <=? minor))
      | _, _ => false
      end
  end.

Lemma digit_of_char d : 0 ≤ d < 10 → digit (digit_char d) = Some d.
Proof.
  intros Hd. unfold digit, digit_char. rewrite N_ascii_embedding by lia. rewrite Z2N.id by lia.
  destruct (Z.leb_spec 48 (48 + d)); [|lia]. destruct (Z.leb_spec (48 + d) 57); [|lia]. cbn. f_equal. lia.
Qed.

Lemma parse_string_of_digits l acc :
  Forall (λ d, 0 ≤ d < 10) l → parse_digits acc (string_of_digits l) = Some (foldl (λ a d, 10 * a + d) acc l).
Proof.
  intros Hl. revert acc. induction Hl as [|d l Hd _ IH]; intros acc; [done|].
  unfold string_of_digits. cbn [foldr parse_digits]. rewrite digit_of_char by done. apply IH.
Qed.

Lemma digits_nonempty n : decimal_digits n ≠ [].
Proof.
  assert (Hne : ∀ fuel n acc, acc ≠ [] ∨ (0 < fuel)%nat → digits_fuel fuel n acc ≠ []).
  { induction fuel as [|fuel IH]; intros m acc Hf; [destruct Hf; [done|lia]|]. cbn [digits_fuel].
    destruct (m <? 10); [done|]. apply IH. by left. }
  apply Hne. right. lia.
Qed.

(** A number that fits a machine word is read back from its text. *)
Lemma Atoi_Itoa n : 0 ≤ n < 2 ^ 63 → Atoi (Itoa n) = Some n.
Proof.
  intros Hn. unfold Itoa. destruct (Z.ltb_spec n 0); [lia|].
  destruct (decimal_digits_value n ltac:(lia)) as [Hv Hd]. pose proof (digits_nonempty n) as Hne.
  destruct (decimal_digits n) as [|d l]; [done|]. clear Hne.
  assert (Hp : parse_unsigned (string_of_digits (d :: l)) = Some n).
  { unfold string_of_digits. cbn [foldr parse_unsigned].
    change (String (digit_char d) (foldr (λ d s, String (digit_char d) s) "" l)) with (string_of_digits (d :: l)).
    rewrite parse_string_of_digits by done. by f_equal. }
  unfold Atoi, ParseInt. unfold string_of_digits in *. cbn [foldr] in *.
  assert (H0 : 0 ≤ d < 10) by (by apply Forall_cons in Hd as [? _]).
  assert (Hc : N_of_ascii (digit_char d) = Z.to_N (48 + d)) by (apply N_ascii_embedding; lia). rewrite Hc.
  destruct (N.eqb_spec (Z.to_N (48 + d)) 45); [lia|]. destruct (N.eqb_spec (Z.to_N (48 + d)) 43); [lia|].
  rewrite Hp. destruct (Z.leb_spec (- 2 ^ (64 - 1)) n); [|lia]. destruct (Z.leb_spec n (2 ^ (64 - 1) - 1)); [done|lia].
Qed.

(** *** Trimming *)

Fixpoint repeated (c : ascii) (n : nat) : string := match n with O => "" | S n => String c (repeated c n) end.

Lemma TrimRight_repeated c n : TrimRight (repeated c n) c = "".
Proof. induction n as [|n IH]; [done|]. cbn. rewrite IH. by rewrite Ascii.eqb_refl. Qed.

Lemma TrimRight_app s c n :
  Forall (λ d, d ≠ c) (String.list_ascii_of_string s) → TrimRight (s +:+ repeated c n) c = s.
Proof.
  induction s as [|d s IH]; [intros _; apply TrimRight_repeated|]. cbn [String.list_ascii_of_string].
  intros [Hd Hs]%Forall_cons. change (String d s +:+ repeated c n) with (String d (s +:+ repeated c n)). cbn [TrimRight].
  rewrite (IH Hs). destruct s; [|done]. by destruct (Ascii.eqb_spec d c).
Qed.

Lemma string_of_digits_chars l :
  Forall (λ d, 0 ≤ d < 10) l → Forall (λ c, c ≠ "+"%char) (String.list_ascii_of_string (string_of_digits l)).
Proof.
  induction 1 as [|d l Hd _ IH]; [constructor|]. unfold string_of_digits. cbn [foldr String.list_ascii_of_string].
  constructor; [|exact IH]. intros E. apply (f_equal N_of_ascii) in E. unfold digit_char in E.
  rewrite N_ascii_embedding in E by lia. change (N_of_ascii "+"%char) with 43%N in E. lia.
Qed.

(** Pods are resized in place exactly on version 1.33 and later, whatever pluses a
    provider ends the minor version with; never on a version that could not be
    read or parsed. *)
Theorem in_place_exact major minor n :
  0 ≤ major < 2 ^ 63 → 0 ≤ minor < 2 ^ 63 →
  (detectInPlaceSupport (Ok (Itoa major, Itoa minor +:+ repeated "+" n)) = true ↔ 1 < major ∨ major = 1 ∧ 33 ≤ minor) ∧
  ∀ v, (∀ M m, v = Ok (M, m) → Atoi M = None ∨ Atoi (TrimRight m "+") = None) → detectInPlaceSupport v = false.
Proof.
  intros HM Hm. split.
  - unfold detectInPlaceSupport. rewrite Atoi_Itoa by done. rewrite TrimRight_app.
    + rewrite Atoi_Itoa by done. rewrite orb_true_iff, andb_true_iff, Z.ltb_lt, Z.eqb_eq, Z.leb_le. done.
    + unfold Itoa. destruct (Z.ltb_spec minor 0); [lia|]. apply string_of_digits_chars. by apply decimal_digits_value.
  - intros [[M m]|e] Hv; [|done]. unfold detectInPlaceSupport. destruct (Hv M m eq_refl) as [->| ->]; [done|].
    by destruct (Atoi M).
Qed.

(** ** The controller *)

(** [SetupWithManager]: the reconciler as it runs, unless the manager refuses its
    reaper or its controller. *)
Definition SetupWithManager (reaper complete : option error) (inPlace : bool) (recycleReplacementTimeout : duration)
    (r : controller) : result controller :=
  let patcherOpts := if 0 <? recycleReplacementTimeout then [WithReadyTimeout recycleReplacementTimeout] else [] in
  let r := applyTuningDefaults
    {| ct_patcher := NewPatcher inPlace patcherOpts; ct_RecommendOnly := ct_RecommendOnly r;
       ct_ReconcileInterval := ct_ReconcileInterval r; ct_Retention := ct_Retention r; ct_hasInputs := ct_hasInputs r;
       ct_hasTriggers := ct_hasTriggers r; ct_WorkloadConcurrencyLimit := ct_WorkloadConcurrencyLimit r;
       ct_PolicyConcurrencyLimit := ct_PolicyConcurrencyLimit r |} in
  match reaper with
  | Some e => Err e
  | None => match complete with Some e => Err e | None => Ok r end
  end.

(** What the calls of [runStart] are answered, in the order they are made: the
    Prometheus client, the version of the API server, the manager, the runnables
    and controllers added to it, its checks, and how its run ends. *)
Record answers := {
  an_prom : option error;
  an_version : result (string * string);
  an_manager : option error;
  an_sweeper : option error;
  an_watcher : option error;
  an_reaper : option error;
  an_controller : option error;
  an_healthz : option error;
  an_readyz : option error;
  an_run : option error;
}.

Section Wired.
Context {PL : Platform} {QO : QuantityOps} {KO : KubeOps} {PO : PromOps} {PR : Prom}.

(** What a controller that is run is made of. *)
Record started := {
  sd_reconciler : controller;
  sd_cache : Cache;
  sd_maxSamples : Z;
  sd_policies : PolicyLister;
  sd_watcherPolicies : PolicyLister;
  sd_watcherWindow : duration;
}.

(** Zero means the default budget. *)
Definition shardMaxSamples (configured : Z) : Z := if configured <=? 0 then DefaultQueryShardMaxSamples else configured.

(** The reconciler [runStart] sets up. *)
Definition newReconciler (cfg : ControllerConfig) : controller :=
  {| ct_patcher := NewPatcher false []; ct_RecommendOnly := cs_RecommendOnly (cc_ClusterScope cfg);
     ct_ReconcileInterval := Settings.ReconcileInterval cfg; ct_Retention := RecommendationRetention cfg; ct_hasInputs := true;
     ct_hasTriggers := true; ct_WorkloadConcurrencyLimit := WorkloadConcurrencyLimit cfg;
     ct_PolicyConcurrencyLimit := PolicyConcurrencyLimit cfg |}.

(** The first error of the calls made before the reconciler is set up. *)
Definition beforeSetup (an : answers) : option error :=
  match an_prom an with
  | Some e => Some e
  | None =>
      match an_manager an with
      | Some e => Some e
      | None => match an_sweeper an with Some e => Some e | None => an_watcher an end
      end
  end.

(** [runStart]: what was run, if anything, and the error it ends with. *)
Definition runStart (v : settings) (an : answers) : option started * option error :=
  match LoadControllerConfig v with
  | Err e => (None, Some e)
  | Ok cfg =>
      match beforeSetup an with
      | Some e => (None, Some e)
      | None =>
          let excluded := ExcludedNamespaces (cc_ClusterScope cfg) in
          match SetupWithManager (an_reaper an) (an_controller an) (detectInPlaceSupport (an_version an))
                  (RecycleReplacementTimeout cfg) (newReconciler cfg) with
          | Err e => (None, Some e)
          | Ok r =>
              match (match an_healthz an with Some e => Some e | None => an_readyz an end) with
              | Some e => (None, Some e)
              | None =>
                  (Some {| sd_reconciler := r; sd_cache := NewCache LiveOOMWindow;
                           sd_maxSamples := shardMaxSamples (QueryShardMaxSamples cfg);
                           sd_policies := NewPolicyLister excluded; sd_watcherPolicies := NewPolicyLister excluded;
                           sd_watcherWindow := LiveOOMWindow |}, an_run an)
              end
          end
      end
  end.

(** What a started controller reads its inputs through. *)
Definition inputsOf (sd : started) (c : Cache) (now : time) (st : p_state) : InputsFetcher :=
  WithLiveOOMs (cacheSource c now) (prom_fetcher (sd_maxSamples sd) st).

(** A controller that was not run says why; one that was has what its parts need
    of their settings: positive lifetimes to stamp a Recommendation with, at least
    one worker, patience that ends, a sample budget, one window for the kills
    that are kept, counted and retried, the same excluded namespaces as its watcher
    and as the webhook, in place only where the API server serves it; and it reads
    its inputs through a fetcher that answers exactly the identities asked for. *)
Theorem controller_wired v an :
  match runStart v an with
  | (None, err) => err ≠ None
  | (Some sd, _) =>
      let r := sd_reconciler sd in
      0 < ct_ReconcileInterval r ∧ 0 < ct_Retention r ∧ ct_hasInputs r = true ∧
      1 ≤ ct_WorkloadConcurrencyLimit r ∧ 1 ≤ ct_PolicyConcurrencyLimit r ∧
      0 < readyTimeout (ct_patcher r) ∧ 0 < readyPollInterval (ct_patcher r) ∧
      p_inPlace (ct_patcher r) = detectInPlaceSupport (an_version an) ∧
      0 < sd_maxSamples sd ∧ ttl (sd_cache sd) = LiveOOMWindow ∧ sd_watcherWindow sd = LiveOOMWindow ∧
      sd_watcherPolicies sd = sd_policies sd ∧
      sd_policies sd = NewPolicyLister (ExcludedNamespaces (wh_ClusterScope (LoadWebhookConfig v))) ∧
      ct_RecommendOnly r = cs_RecommendOnly (wh_ClusterScope (LoadWebhookConfig v)) ∧
      ∀ c now st, FetcherLaws (IF := inputsOf sd c now st)
  end.
Proof.
  unfold runStart. destruct (LoadControllerConfig v) as [cfg|e] eqn:Ec; [|done].
  destruct (beforeSetup an); [done|]. destruct (SetupWithManager _ _ _ _ _) as [r|e] eqn:Er; [|done].
  destruct (match an_healthz an with Some e => Some e | None => an_readyz an end); [done|]. cbn zeta.
  destruct (config_complete v cfg Ec) as (Hi & Hr & _).
  assert (Hscope : cc_ClusterScope cfg = loadClusterScope v).
  { unfold LoadControllerConfig in Ec. destruct (loadPrometheusConnection v); [|done].
    destruct (_ <=? 0); [done|]. destruct (_ <=? 0); [done|]. by injection Ec as <-. }
  unfold SetupWithManager in Er. cbn zeta in Er. destruct (an_reaper an); [done|]. destruct (an_controller an); [done|].
  injection Er as <-. cbn [sd_reconciler sd_cache sd_maxSamples sd_policies sd_watcherPolicies sd_watcherWindow applyTuningDefaults newReconciler
    ct_ReconcileInterval ct_Retention ct_hasInputs ct_WorkloadConcurrencyLimit ct_PolicyConcurrencyLimit ct_patcher ct_RecommendOnly].
  rewrite Hscope.
  assert (Hp : ∀ d : duration, let p := NewPatcher (detectInPlaceSupport (an_version an)) (if 0 <? d then [WithReadyTimeout d] else []) in
    0 < readyTimeout p ∧ 0 < readyPollInterval p ∧ p_inPlace p = detectInPlaceSupport (an_version an)).
  { intros d. destruct (Z.ltb_spec 0 d) as [Hd|Hd]; cbn; [|done]. unfold WithReadyTimeout. destruct (Z.ltb_spec 0 d); [|lia]. done. }
  destruct (Hp (RecycleReplacementTimeout cfg)) as (Hp1 & Hp2 & Hp3).
  split_and!; try done.
  - destruct (Z.leb_spec (WorkloadConcurrencyLimit cfg) 0); lia.
  - destruct (Z.leb_spec (PolicyConcurrencyLimit cfg) 0); lia.
  - unfold shardMaxSamples. destruct (Z.leb_spec (QueryShardMaxSamples cfg) 0); [done|lia].
  - intros c now st. apply live_fetcher_laws, prom_fetcher_laws.
Qed.
End Wired.

(** ** The dashboard *)
Section Dashboard.
Context {QO : QuantityOps} {KO : KubeOps}.

(** What a dashboard that serves is made of. *)
Record dashboard := {
  db_server : Server;
  db_CORSOrigins : list string;
  db_maxSamples : Z;
  db_policies : PolicyLister;
}.

(** [runDashboard], up to serving; what the ping of Prometheus answers is only
    logged. [prom] and [client] are the answers of the two clients it builds. *)
Definition runDashboard (v : settings) (prom client : option error) : result dashboard :=
  match LoadDashboardConfig v with
  | Err e => Err e
  | Ok cfg =>
      match prom with
      | Some e => Err (Errorf "creating prometheus client" [e])
      | None =>
          match client with
          | Some e => Err (Errorf "creating kubernetes client" [e])
          | None =>
              Ok {| db_server := NewServer (BindAddress cfg); db_CORSOrigins := CORSAllowedOrigins cfg;
                    db_maxSamples := DefaultQueryShardMaxSamples;
                    db_policies := NewPolicyLister (ExcludedNamespaces (dc_ClusterScope cfg)) |}
          end
      end
  end.
End Dashboard.

(** The dashboard decides who governs with the namespaces the controller and the
    webhook exclude, and reads Prometheus within the budget of a controller that was
    given none. *)
Lemma dashboard_wired {PL : Platform} {QO : QuantityOps} {KO : KubeOps} v prom client db an sd err :
  runDashboard v prom client = Ok db → runStart v an = (Some sd, err) →
  db_policies db = sd_policies sd ∧ (getInt v "query-shard-max-samples" ≤ 0 → db_maxSamples db = sd_maxSamples sd).
Proof.
  unfold runDashboard, runStart, LoadDashboardConfig, LoadControllerConfig.
  destruct (loadPrometheusConnection v); [|done]. destruct prom; [done|]. destruct client; [done|]. intros [= <-].
  destruct (_ <=? 0); [done|]. destruct (_ <=? 0); [done|]. destruct (beforeSetup an); [done|].
  destruct (SetupWithManager _ _ _ _ _); [|done]. destruct (match an_healthz an with Some e => Some e | None => an_readyz an end); [done|].
  intros [= <- _]. cbn. split; [done|]. intros Hq. unfold shardMaxSamples. by destruct (Z.leb_spec (getInt v "query-shard-max-samples") 0); [|lia].
Qed.

(** The reconciler's own defaults are those of the flags. *)
Lemma tuning_defaults r :
  ct_WorkloadConcurrencyLimit r = 0 → ct_PolicyConcurrencyLimit r = 0 →
  bindInt "workload-concurrency-limit" "workload-concurrency-limit" (ct_WorkloadConcurrencyLimit (applyTuningDefaults r)) ∈ BindControllerFlags ∧
  bindInt "policy-concurrency-limit" "policy-concurrency-limit" (ct_PolicyConcurrencyLimit (applyTuningDefaults r)) ∈ BindControllerFlags.
Proof. intros Hw Hp. cbn. rewrite Hw, Hp. rewrite !list_elem_of_In. cbn. tauto. Qed.

(** ** At a concrete input *)

Lemma in_place_exact_witness :
  detectInPlaceSupport (Ok ("1", "33+")) = true ∧ detectInPlaceSupport (Ok ("1", "32")) = false.
Proof.
  split.
  - change (detectInPlaceSupport (Ok (Itoa 1, Itoa 33 +:+ repeated "+" 1)) = true).
    apply in_place_exact; [lia|lia|]. right. lia.
  - apply not_true_is_false. intros E.
    change (detectInPlaceSupport (Ok (Itoa 1, Itoa 32 +:+ repeated "+" 0)) = true) in E.
    apply in_place_exact in E; [|lia|lia]. lia.
Defined.
