(* ===== verification/Routes.v ===== *)
(** * The dashboard's routes, pages and kinds
    ([server.go], [ui.go], [handlers_kinds.go] of [internal/dashboard])

    Which handler answers a request, what the pages are served from, and the kinds
    the pages are told of. The patterns are matched as [net/http]'s ServeMux
    matches them: a path is cleaned or redirected to its clean form, its
    segments are matched unescaped, a pattern with a method before one without,
    and the most specific wins, which [routes_exclusive] shows to be the only one of
    the API's. The embedded files are an argument. *)

From Stdlib Require Import Ascii.
From S2P Require Import Prelude GoLang GoStrings Quantity Kube Owners PolicyApi Patcher Apply HttpLayer.
Local Open Scope Z_scope.

(** ** Paths *)

(** The segments kept of a rooted path by [path.Clean], the last first. *)
Fixpoint cleanSegments (acc segs : list string) : list string :=
  match segs with
  | [] => reverse acc
  | s :: segs =>
      if String.eqb s "" || String.eqb s "." then cleanSegments acc segs
      else if String.eqb s ".." then cleanSegments (tail acc) segs
      else cleanSegments (s :: acc) segs
  end.

Definition rooted (segs : list string) : string := "/" +:+ String.concat "/" segs.

Definition endsInSlash (p : string) : bool := match last (Split "/" p) with Some "" => true | _ => false end.

(** [cleanPath] *)
Definition cleanPath (p : string) : string :=
  if String.eqb p "" then "/"
  else
    let np := rooted (cleanSegments [] (Split "/" p)) in
    if endsInSlash p && negb (String.eqb np "/") then np +:+ "/" else np.

Definition hexDigit (c : ascii) : option N :=
  let n := N_of_ascii c in
  if (48 <=? n)%N && (n <=? 57)%N then Some (n - 48)%N
  else if (97 <=? n)%N && (n <=? 102)%N then Some (n - 87)%N
  else if (65 <=? n)%N && (n <=? 70)%N then Some (n - 55)%N
  else None.

(** [url.PathUnescape] *)
Fixpoint PathUnescape (s : string) : option string :=
  match s with
  | EmptyString => Some EmptyString
  | String c s' =>
      if (c =? "%")%char then
        match s' with
        | String a (String b rest) =>
            match hexDigit a, hexDigit b, PathUnescape rest with
            | Some x, Some y, Some t => Some (String (ascii_of_N (16 * x + y)) t)
            | _, _, _ => None
            end
        | _ => None
        end
      else String c <$> PathUnescape s'
  end.

(** A segment as patterns see it: unescaped, if possible. *)
Definition unescaped (s : string) : string := default s (PathUnescape s).

(** The segments of a path after its first slash, and whether a slash ends it. *)
Definition segmentsOf (path : string) : list string * bool :=
  match reverse (tail (Split "/" path)) with
  | "" :: rest => (map unescaped (reverse rest), true)
  | segs => (map unescaped (reverse segs), false)
  end.

(** ** Patterns *)

Inductive route :=
  | Policies
  | PolicyDetail (name : string)
  | PolicyWorkloads (name : string)
  | PolicyBatchSimulate (name : string)
  | Workloads
  | WorkloadDetail (namespace kind name : string)
  | WorkloadMetrics (namespace kind name : string)
  | SimulateRoute
  | Kinds
  | SummaryRoute
  | SummaryTrend
  | SummaryActivity
  | Healthz
  | Readyz
  | MetricsRoute
  | UI.

Inductive segment := Lit (s : string) | Wild.

(** A pattern with a method, the label it has in metrics, and the handler it calls
    with its wildcards' values. *)
Record pattern := {
  pt_method : string;
  pt_segments : list segment;
  pt_label : string;
  pt_route : list string → option route;
}.

Definition fixed (r : route) (values : list string) : option route := match values with [] => Some r | _ => None end.
Definition named (r : string → route) (values : list string) : option route :=
  match values with [name] => Some (r name) | _ => None end.
Definition located (r : string → string → string → route) (values : list string) : option route :=
  match values with [namespace; kind; name] => Some (r namespace kind name) | _ => None end.

Definition GET (label : string) (segs : list segment) (r : list string → option route) : pattern :=
  {| pt_method := "GET"; pt_segments := segs; pt_label := "GET " +:+ label; pt_route := r |}.

(** The registrations of [Handler], the catch-all apart. *)
Definition routes : list pattern := [
  GET "/api/policies" [Lit "api"; Lit "policies"] (fixed Policies);
  GET "/api/policies/{name}" [Lit "api"; Lit "policies"; Wild] (named PolicyDetail);
  GET "/api/policies/{name}/workloads" [Lit "api"; Lit "policies"; Wild; Lit "workloads"] (named PolicyWorkloads);
  GET "/api/policies/{name}/batch-simulate" [Lit "api"; Lit "policies"; Wild; Lit "batch-simulate"] (named PolicyBatchSimulate);
  GET "/api/workloads" [Lit "api"; Lit "workloads"] (fixed Workloads);
  GET "/api/workloads/{namespace}/{kind}/{name}" [Lit "api"; Lit "workloads"; Wild; Wild; Wild] (located WorkloadDetail);
  GET "/api/workloads/{namespace}/{kind}/{name}/metrics" [Lit "api"; Lit "workloads"; Wild; Wild; Wild; Lit "metrics"]
    (located WorkloadMetrics);
  {| pt_method := "POST"; pt_segments := [Lit "api"; Lit "simulate"]; pt_label := "POST /api/simulate";
     pt_route := fixed SimulateRoute |};
  GET "/api/kinds" [Lit "api"; Lit "kinds"] (fixed Kinds);
  GET "/api/summary" [Lit "api"; Lit "summary"] (fixed SummaryRoute);
  GET "/api/summary/trend" [Lit "api"; Lit "summary"; Lit "trend"] (fixed SummaryTrend);
  GET "/api/summary/activity" [Lit "api"; Lit "summary"; Lit "activity"] (fixed SummaryActivity);
  GET "/healthz" [Lit "healthz"] (fixed Healthz);
  GET "/readyz" [Lit "readyz"] (fixed Readyz);
  GET "/metrics" [Lit "metrics"] (fixed MetricsRoute)
].

(** The values of the wildcards, when the segments match. *)
Fixpoint matchSegments (ps : list segment) (segs : list string) : option (list string) :=
  match ps, segs with
  | [], [] => Some []
  | Lit l :: ps, s :: segs => if String.eqb l s then matchSegments ps segs else None
  | Wild :: ps, s :: segs => cons s <$> matchSegments ps segs
  | _, _ => None
  end.

(** GET matches HEAD too. *)
Definition matchMethod (pattern method : string) : bool :=
  String.eqb pattern method || (String.eqb pattern "GET" && String.eqb method "HEAD").

(** A pattern without a slash at its end does not match a path with one. *)
Definition matchPattern (p : pattern) (method path : string) : option (route * string) :=
  let '(segs, trailing) := segmentsOf path in
  if matchMethod (pt_method p) method && negb trailing then
    match matchSegments (pt_segments p) segs with
    | Some values => match pt_route p values with Some r => Some (r, pt_label p) | None => None end
    | None => None
    end
  else None.

(** The handler and the pattern a request matches; the catch-all is of any method
    and path. *)
Definition dispatch (method path : string) : route * string :=
  match omap (λ p, matchPattern p method path) routes with
  | m :: _ => m
  | [] => (UI, "/")
  end.

(** What the mux does with a request, by its escaped path. *)
Inductive muxAnswer := RedirectTo (path : string) | Handled (r : route) (pattern : string).

Definition mux (method path : string) : muxAnswer :=
  let clean := cleanPath path in
  if negb (String.eqb method "CONNECT") && negb (String.eqb clean path) then RedirectTo clean
  else let '(r, pattern) := dispatch method path in Handled r pattern.

(** ** The pages *)

(** The text from its last dot on. *)
Fixpoint lastDot (s : string) : option string :=
  match s with
  | EmptyString => None
  | String c s' => match lastDot s' with Some t => Some t | None => if (c =? ".")%char then Some s else None end
  end.

(** [path.Ext] *)
Definition Ext (p : string) : string := default "" (last (Split "/" p) ≫= lastDot).

(** [fs.ValidPath], of a path that is not the root. *)
Definition ValidPath (p : string) : bool :=
  forallb (λ s, negb (String.eqb s "" || String.eqb s "." || String.eqb s "..")) (Split "/" p).

Inductive page := NotFoundJSON | NotFoundPlain | Index | File (path : string).

Definition TrimPrefix (s prefix : string) : string :=
  if String.prefix prefix s then String.substring (String.length prefix) (String.length s - String.length prefix) s else s.

(** [handleUI] of a request's decoded path. *)
Definition handleUI (exists_ : string → bool) (path : string) : page :=
  if String.prefix "/api/" path || String.eqb path "/api" then NotFoundJSON
  else
    let reqPath := TrimPrefix path "/" in
    let reqPath := if String.eqb reqPath "" then "index.html" else reqPath in
    if ValidPath reqPath && exists_ reqPath then File reqPath
    else if negb (String.eqb (Ext reqPath) "") then NotFoundPlain
    else Index.

(** [handleReadyz], by what the ping of Prometheus answers: the status and what is
    encoded. *)
Definition handleReadyz (ping : option error) : Z * bool :=
  match ping with Some _ => (503, false) | None => (200, true) end.

(** ** The kinds *)

(** The fields of [UpdateTypes] in order, each with its JSON name and what it is
    set to alone: the pointer [ModeForKind] returns tells which it read. *)
Definition updateFields : list (string * UpdateTypes) :=
  let m := Some UpdateModeOnCreate in
  [("deployment", {| ut_Deployment := m; ut_StatefulSet := None; ut_DaemonSet := None; ut_CronJob := None; ut_Job := None;
                     ut_ArgoRollout := None; ut_Pod := None |});
   ("statefulSet", {| ut_Deployment := None; ut_StatefulSet := m; ut_DaemonSet := None; ut_CronJob := None; ut_Job := None;
                      ut_ArgoRollout := None; ut_Pod := None |});
   ("daemonSet", {| ut_Deployment := None; ut_StatefulSet := None; ut_DaemonSet := m; ut_CronJob := None; ut_Job := None;
                    ut_ArgoRollout := None; ut_Pod := None |});
   ("cronJob", {| ut_Deployment := None; ut_StatefulSet := None; ut_DaemonSet := None; ut_CronJob := m; ut_Job := None;
                  ut_ArgoRollout := None; ut_Pod := None |});
   ("job", {| ut_Deployment := None; ut_StatefulSet := None; ut_DaemonSet := None; ut_CronJob := None; ut_Job := m;
              ut_ArgoRollout := None; ut_Pod := None |});
   ("argoRollout", {| ut_Deployment := None; ut_StatefulSet := None; ut_DaemonSet := None; ut_CronJob := None; ut_Job := None;
                      ut_ArgoRollout := m; ut_Pod := None |});
   ("pod", {| ut_Deployment := None; ut_StatefulSet := None; ut_DaemonSet := None; ut_CronJob := None; ut_Job := None;
              ut_ArgoRollout := None; ut_Pod := m |})].

(** [UpdateTypesField] *)
Definition UpdateTypesField (kind : string) : string :=
  default "" (fst <$> List.find (λ p, bool_decide (ModeForKind p.2 kind ≠ None)) updateFields).

Record kindItem := { ki_Name : string; ki_UpdateField : string; ki_InPlaceOnly : bool }.

Section Kinds.
Context {QO : QuantityOps} {KO : KubeOps} {PC : PodClient}.

(** [handleKinds] *)
Definition handleKinds : list kindItem :=
  map (λ name, {| ki_Name := name; ki_UpdateField := UpdateTypesField name; ki_InPlaceOnly := InPlaceOnly name |}) SupportedKinds.
End Kinds.

(** ** Facts *)

(** *** Which request reaches which handler *)

(** The method and the segments of a route of the API. *)
Definition linkOf (r : route) : option (string * list string) :=
  match r with
  | Policies => Some ("GET", ["api"; "policies"])
  | PolicyDetail name => Some ("GET", ["api"; "policies"; name])
  | PolicyWorkloads name => Some ("GET", ["api"; "policies"; name; "workloads"])
  | PolicyBatchSimulate name => Some ("GET", ["api"; "policies"; name; "batch-simulate"])
  | Workloads => Some ("GET", ["api"; "workloads"])
  | WorkloadDetail namespace kind name => Some ("GET", ["api"; "workloads"; namespace; kind; name])
  | WorkloadMetrics namespace kind name => Some ("GET", ["api"; "workloads"; namespace; kind; name; "metrics"])
  | SimulateRoute => Some ("POST", ["api"; "simulate"])
  | Kinds => Some ("GET", ["api"; "kinds"])
  | SummaryRoute => Some ("GET", ["api"; "summary"])
  | SummaryTrend => Some ("GET", ["api"; "summary"; "trend"])
  | SummaryActivity => Some ("GET", ["api"; "summary"; "activity"])
  | Healthz => Some ("GET", ["healthz"])
  | Readyz => Some ("GET", ["readyz"])
  | MetricsRoute => Some ("GET", ["metrics"])
  | UI => None
  end.

(** What the table makes of a method and of segments. *)
Definition matched (method : string) (segs : list string) : list (route * string) :=
  omap (λ p, if matchMethod (pt_method p) method
             then match matchSegments (pt_segments p) segs with
                  | Some values => match pt_route p values with Some r => Some (r, pt_label p) | None => None end
                  | None => None
                  end
             else None) routes.

Lemma omap_pointwise {A B} (f g : A → option B) (l : list A) : (∀ x, f x = g x) → omap f l = omap g l.
Proof. intros H. induction l as [|x l IH]; [done|]. cbn. by rewrite H, IH. Qed.

Lemma omap_none {A B} (f : A → option B) (l : list A) : (∀ x, f x = None) → omap f l = [].
Proof. intros H. induction l as [|x l IH]; [done|]. cbn. by rewrite H. Qed.

Lemma dispatch_matched method path :
  dispatch method path =
    let '(segs, trailing) := segmentsOf path in
    match (if trailing then [] else matched method segs) with m :: _ => m | [] => (UI, "/") end.
Proof.
  unfold dispatch, matched, matchPattern. destruct (segmentsOf path) as [segs []].
  - rewrite omap_none; [done|]. intros p. by rewrite andb_false_r.
  - erewrite omap_pointwise; [reflexivity|]. intros p. by rewrite andb_true_r.
Qed.

(** Every match of the table, of arbitrary segments. *)
Lemma matched_links method segs m :
  m ∈ matched method segs → ∃ meth, linkOf m.1 = Some (meth, segs) ∧ matchMethod meth method = true.
Proof.
  unfold matched. rewrite list_elem_of_omap. intros (p & Hp & Hm).
  destruct (matchMethod (pt_method p) method) eqn:Em; [|done].
  rewrite list_elem_of_In in Hp. cbn in Hp.
  repeat destruct Hp as [<-|Hp]; [..|done]; cbn [pt_segments pt_route pt_label pt_method GET] in Hm, Em;
    repeat (destruct segs as [|? segs]; cbn [matchSegments] in Hm; try done;
            try match type of Hm with context [String.eqb ?l ?s] => destruct (String.eqb_spec l s) as [<-|]; [|done] end);
    cbn in Hm; injection Hm as <-; eexists; (split; [reflexivity|exact Em]).
Qed.

(** The pattern a route is labelled by in metrics. *)
Definition labelOf (r : route) : string :=
  match r with
  | Policies => "GET /api/policies"
  | PolicyDetail _ => "GET /api/policies/{name}"
  | PolicyWorkloads _ => "GET /api/policies/{name}/workloads"
  | PolicyBatchSimulate _ => "GET /api/policies/{name}/batch-simulate"
  | Workloads => "GET /api/workloads"
  | WorkloadDetail _ _ _ => "GET /api/workloads/{namespace}/{kind}/{name}"
  | WorkloadMetrics _ _ _ => "GET /api/workloads/{namespace}/{kind}/{name}/metrics"
  | SimulateRoute => "POST /api/simulate"
  | Kinds => "GET /api/kinds"
  | SummaryRoute => "GET /api/summary"
  | SummaryTrend => "GET /api/summary/trend"
  | SummaryActivity => "GET /api/summary/activity"
  | Healthz => "GET /healthz"
  | Readyz => "GET /readyz"
  | MetricsRoute => "GET /metrics"
  | UI => "/"
  end.

Lemma links_matched r meth segs method :
  linkOf r = Some (meth, segs) → matchMethod meth method = true → matched method segs = [(r, labelOf r)].
Proof.
  intros Hl Hm. unfold matched.
  destruct r; try discriminate; injection Hl as <- <-; cbn -[matchMethod]; rewrite Hm;
    first [reflexivity|by destruct (matchMethod "POST" method)|by destruct (matchMethod "GET" method)].
Qed.

(** The API's patterns never compete: at most one matches a request. *)
Lemma routes_exclusive method segs : (length (matched method segs) ≤ 1)%nat.
Proof.
  destruct (matched method segs) as [|m l] eqn:E; [cbn; lia|].
  destruct (matched_links method segs m) as (meth & Hl & Hm); [rewrite E; by left|].
  rewrite <-E, (links_matched _ _ _ _ Hl Hm). cbn. lia.
Qed.

(** A request reaches a handler of the API exactly when its method is the
    handler's, or HEAD for GET, and its segments are those of the handler's link
    with the values it is called with, no slash after them; it is labelled by
    that pattern, never by its path; and every other request is the pages'. *)
Theorem dispatch_exact method path r :
  (r ≠ UI → (dispatch method path).1 = r ↔
     ∃ meth segs, linkOf r = Some (meth, segs) ∧ matchMethod meth method = true ∧ segmentsOf path = (segs, false)) ∧
  (dispatch method path).2 = labelOf (dispatch method path).1.
Proof.
  rewrite dispatch_matched. destruct (segmentsOf path) as [segs trailing]. split.
  - intros Hr. split.
    + destruct trailing; [by intros <-|]. destruct (matched method segs) as [|m l] eqn:E; [by intros <-|]. intros <-.
      destruct (matched_links method segs m) as (meth & Hl & Hm); [rewrite E; by left|]. eauto.
    + intros (meth & segs' & Hl & Hm & [= <- ->]). by rewrite (links_matched _ _ _ _ Hl Hm).
  - destruct trailing; [done|]. destruct (matched method segs) as [|m l] eqn:E; [done|].
    destruct (matched_links method segs m) as (meth & Hl & Hm); [rewrite E; by left|].
    rewrite (links_matched _ _ _ _ Hl Hm) in E. destruct m as [r' l']. cbn in E |- *. by injection E.
Qed.

(** *** The link of a page reads back *)

(** A segment that is written as it is. *)
Definition plain (s : string) : Prop := whole "/" s ∧ whole "%" s ∧ s ≠ "" ∧ s ≠ "." ∧ s ≠ "..".

Lemma unescaped_plain s : whole "%" s → unescaped s = s.
Proof.
  intros Hs. unfold unescaped. cut (PathUnescape s = Some s); [by intros ->|].
  unfold whole in Hs. induction s as [|c s IH]; [done|]. cbn [PathUnescape Split] in *.
  destruct (Ascii.eqb c "%") eqn:Ec; [by destruct (Split "%" s)|].
  rewrite IH; [done|]. destruct (Split "%" s) as [|q qs] eqn:E; [by apply Split_nonempty in E|]. by injection Hs as -> ->.
Qed.

Lemma Split_rooted segs : segs ≠ [] → Forall (whole "/") segs → Split "/" (rooted segs) = "" :: segs.
Proof.
  intros Hne Hs. unfold rooted. change ("/" +:+ String.concat "/" segs) with (String "/" (String.concat "/" segs)).
  cbn [Split]. rewrite Ascii.eqb_refl. f_equal. clear -Hne Hs. induction Hs as [|s segs Hw Hs IH]; [done|].
  destruct segs as [|s' segs]; [exact Hw|]. rewrite concat_cons by done. change "/" with (String "/" ""). rewrite Split_join by done.
  f_equal. by apply IH.
Qed.

Lemma cleanSegments_plain segs acc : Forall plain segs → cleanSegments acc segs = reverse acc ++ segs.
Proof.
  intros Hs. revert acc. induction Hs as [|s segs (_ & _ & H1 & H2 & H3) _ IH]; intros acc; [by rewrite app_nil_r|].
  cbn [cleanSegments]. destruct (String.eqb_spec s ""); [done|]. destruct (String.eqb_spec s "."); [done|].
  destruct (String.eqb_spec s ".."); [done|]. cbn [orb]. rewrite IH, reverse_cons. by rewrite <-app_assoc.
Qed.

Lemma last_plain segs : segs ≠ [] → Forall plain segs → ∃ s, last segs = Some s ∧ s ≠ "".
Proof.
  intros Hne Hs. destruct (last segs) as [s|] eqn:E; [|by apply last_None in E]. exists s. split; [done|].
  apply last_Some_elem_of in E. by apply (proj1 (Forall_forall _ _) Hs s E).
Qed.

Lemma rooted_plain segs :
  segs ≠ [] → Forall plain segs → cleanPath (rooted segs) = rooted segs ∧ segmentsOf (rooted segs) = (segs, false).
Proof.
  intros Hne Hs. assert (Hw : Forall (whole "/") segs) by (eapply Forall_impl; [exact Hs|]; by intros s []).
  pose proof (Split_rooted segs Hne Hw) as Hsp. destruct (last_plain segs Hne Hs) as (s & Hl & Hs0). split.
  - unfold cleanPath. unfold rooted at 1. change ("/" +:+ String.concat "/" segs =? "")%string with false. cbn match.
    unfold endsInSlash. rewrite Hsp. rewrite last_cons, Hl.
    assert (Hc : cleanSegments [] ("" :: segs) = segs) by (cbn; by rewrite cleanSegments_plain).
    rewrite Hc. by destruct s.
  - unfold segmentsOf. rewrite Hsp. cbn [tail].
    assert (Hu : map unescaped segs = segs).
    { clear -Hs. induction Hs as [|s segs (_ & Hp & _) _ IH]; [done|]. cbn. by rewrite unescaped_plain, IH. }
    destruct (reverse segs) as [|t rest] eqn:Er.
    { apply (f_equal reverse) in Er. by rewrite reverse_involutive in Er. }
    assert (segs = reverse rest ++ [t]) as Hseg by (rewrite <-(reverse_involutive segs), Er; apply reverse_cons).
    assert (t ≠ "") by (rewrite Hseg, last_snoc in Hl; congruence).
    destruct t as [|c t]; [done|]. rewrite <-Er, reverse_involutive, Hu. done.
Qed.

(** The link of a handler, made of names that are written as they are, is answered
    by it with those names. *)
Theorem links_read_back r meth segs :
  linkOf r = Some (meth, segs) → Forall plain segs → mux meth (rooted segs) = Handled r (labelOf r).
Proof.
  intros Hl Hs. assert (Hne : segs ≠ []) by (destruct r; try discriminate; by injection Hl as <- <-).
  destruct (rooted_plain segs Hne Hs) as [Hc Hseg]. unfold mux. rewrite Hc, String.eqb_refl. rewrite andb_false_r.
  destruct (dispatch_exact meth (rooted segs) r) as [Hd Hlab].
  destruct (dispatch meth (rooted segs)) as [r' l]. cbn in *.
  assert (r' = r) as ->.
  { apply Hd; [by intros ->|]. exists meth, segs. split_and!; [done| |done]. unfold matchMethod. by rewrite String.eqb_refl. }
  by rewrite Hlab.
Qed.

(** *** Pages *)

(** What the pages look for: the path without its slash, or the index. *)
Definition requested (path : string) : string :=
  let p := TrimPrefix path "/" in if String.eqb p "" then "index.html" else p.

Lemma lastDot_spec s : match lastDot s with None => whole "." s | Some t => t ≠ "" ∧ ¬ whole "." s end.
Proof.
  unfold whole. induction s as [|c s IH]; [done|]. cbn [lastDot Split].
  destruct (Ascii.eqb c ".") eqn:Ec.
  - assert (Hn : "" :: Split "." s ≠ [String c s]) by (intros [=]). by destruct (lastDot s) as [t|]; [split; [apply IH|]|].
  - pose proof (Split_nonempty "." s) as Hne. destruct (Split "." s) as [|q qs]; [done|]. destruct (lastDot s) as [t|].
    + destruct IH as [Ht Hw]. split; [done|]. intros [= -> ->]. by apply Hw.
    + by injection IH as -> ->.
Qed.

Lemma Ext_empty p s : last (Split "/" p) = Some s → (Ext p = "" ↔ whole "." s).
Proof.
  intros Hl. unfold Ext. rewrite Hl. cbn. pose proof (lastDot_spec s) as H. destruct (lastDot s) as [t|]; cbn; [|done].
  destruct H as [Ht Hw]. naive_solver.
Qed.

(** A request for a page is answered by the file it names, when there is one; the
    shell, exactly when it names none and its last segment has no dot; never
    the shell under [/api], where the answer is the API's error. *)
Theorem pages_served exists_ path s :
  last (Split "/" (requested path)) = Some s →
  let api := String.prefix "/api/" path || String.eqb path "/api" in
  let file := ValidPath (requested path) && exists_ (requested path) in
  (handleUI exists_ path = NotFoundJSON ↔ api = true) ∧
  (handleUI exists_ path = Index ↔ api = false ∧ file = false ∧ whole "." s) ∧
  (handleUI exists_ path = NotFoundPlain ↔ api = false ∧ file = false ∧ ¬ whole "." s) ∧
  (∀ p, handleUI exists_ path = File p ↔ api = false ∧ file = true ∧ p = requested path).
Proof.
  intros Hl api file. pose proof (Ext_empty _ _ Hl) as He. unfold handleUI. fold api. fold (requested path). fold file.
  destruct api; [naive_solver|]. destruct file; [naive_solver|].
  destruct (String.eqb_spec (Ext (requested path)) "") as [E|E]; cbn [negb]; naive_solver.
Qed.

(** A link of the pages to an object whose name has a dot, which the names of
    Policies and of workloads may, is taken for a missing asset. *)
Example dotted_page_missing :
  handleUI (λ p, String.eqb p "index.html") "/policies/team" = Index ∧
  handleUI (λ p, String.eqb p "index.html") "/policies/team.v2" = NotFoundPlain.
Proof. split; reflexivity. Qed.

(** *** Kinds *)

(** The field of a JSON name. *)
Definition fieldNamed (t : UpdateTypes) (name : string) : option UpdateMode :=
  if String.eqb name "deployment" then ut_Deployment t
  else if String.eqb name "statefulSet" then ut_StatefulSet t
  else if String.eqb name "daemonSet" then ut_DaemonSet t
  else if String.eqb name "cronJob" then ut_CronJob t
  else if String.eqb name "job" then ut_Job t
  else if String.eqb name "argoRollout" then ut_ArgoRollout t
  else if String.eqb name "pod" then ut_Pod t
  else None.

(** The pages are told of every kind a Policy can manage, once, with the one field
    of a Policy that manages it, and of no field for any other kind. *)
Theorem kinds_named {QO : QuantityOps} {KO : KubeOps} {PC : PodClient} :
  map ki_Name handleKinds = SupportedKinds ∧ NoDup (map ki_UpdateField handleKinds) ∧
  (∀ k, k ∈ handleKinds → ki_UpdateField k ≠ "" ∧ ∀ t, ModeForKind t (ki_Name k) = fieldNamed t (ki_UpdateField k)) ∧
  ∀ kind, kind ∉ SupportedKinds → UpdateTypesField kind = "" ∧ ∀ t, ModeForKind t kind = None.
Proof.
  split_and!; [reflexivity| | |].
  - assert (E : map ki_UpdateField handleKinds = ["deployment"; "statefulSet"; "daemonSet"; "argoRollout"; "cronJob"; "job"; "pod"])
      by reflexivity. rewrite E. by_evaluation.
  - intros k. rewrite list_elem_of_In. cbn. intros H. repeat destruct H as [<-|H]; [..|done]; (split; [discriminate|reflexivity]).
  - intros kind Hk. unfold SupportedKinds in Hk. rewrite list_elem_of_In in Hk. cbn in Hk.
    assert (Hm : ∀ t, ModeForKind t kind = None).
    { intros t. unfold ModeForKind. repeat match goal with |- context [String.eqb ?a ?b] =>
        destruct (String.eqb_spec a b) as [->|]; [exfalso; tauto|] end. done. }
    split; [|done]. unfold UpdateTypesField. unfold updateFields. cbn [List.find snd]. rewrite !Hm. done.
Qed.

(** ** A request through the middleware *)

(** What a handler does with its writer, and how it ends. *)
Inductive ending := Returning | Panicking | Aborting.
Record handled := { hd_actions : list action; hd_ending : ending }.

Record request := {
  rq_method : string;
  rq_path : string;
  rq_requestID : string;
  rq_origin : string;
  rq_acceptEncoding : string;
}.

(** [statusResponseWriter]: the last status written through it, of what reaches it
    below the compressor, 200 for none. A body that comes first makes the compressor
    write one. *)
Definition recordPlain (code : Z) (a : action) : Z := match a with SendStatus status => status | _ => code end.

Definition recordZipped (st : bool * Z) (a : action) : bool * Z :=
  match a with
  | SendStatus status => (true, status)
  | SendBody _ => if fst st then st else (true, 200)
  | _ => st
  end.

Definition recordedStatus (acceptEncoding : string) (actions : list action) : Z :=
  if containsText acceptEncoding "gzip" then snd (foldl recordZipped (false, 200) actions)
  else foldl recordPlain 200 actions.

(** What the mux calls for a request, and the pattern it sets. *)
Definition routed (handler : route → handled) (redirect : string → handled) (req : request) : handled * string :=
  match mux (rq_method req) (rq_path req) with
  | Handled r pattern => (handler r, pattern)
  | RedirectTo path => (redirect path, snd (dispatch (rq_method req) path))
  end.

(** [Handler]: the request's ID outermost, then the telemetry, the recovery, the
    origins and the compression, around the mux. The answer, what telemetry
    observes of it, and the panics counted. *)
Definition Handler {A} (encode : body A → string) (CORSOrigins : list string) (generated : string) (handler : route → handled)
    (redirect : string → handled) (req : request) (panics : gmap string Z) : outcome * option (string * Z) * gmap string Z :=
  let '(w, _) := withRequestID (rq_requestID req) generated (newWriter ∅) in
  let '(h, pattern) := routed handler redirect req in
  let inner w :=
    let w := withGzip (rq_acceptEncoding req) (hd_actions h) w in
    match hd_ending h with Returning => Returned w | Panicking => Panics w | Aborting => Aborted w end in
  let preflight := String.eqb (rq_method req) "OPTIONS" in
  let label := DefaultRouteLabeler (if preflight then "" else pattern) in
  let o := withCORS CORSOrigins (rq_method req) (rq_origin req) inner w in
  let code := if preflight then 204 else recordedStatus (rq_acceptEncoding req) (hd_actions h) in
  let '(o', panics) := withRecovery encode label o panics in
  (o', match o with Returned _ => Some (label, code) | Panics _ => Some (label, 500) | Aborted _ => None end, panics).

(** *** What is observed *)

(** The labels of metrics. *)
Definition labels : list string := "unknown" :: "/" :: map pt_label routes.

Lemma dispatch_label method path : (dispatch method path).2 ∈ labels.
Proof.
  destruct (dispatch_exact method path UI) as [_ ->]. destruct (dispatch method path).1; cbn [labelOf];
    apply (bool_decide_unpack _); vm_compute; exact I.
Qed.

Lemma DefaultRouteLabeler_label p : p = "" ∨ p ∈ labels → DefaultRouteLabeler p ∈ labels.
Proof. unfold DefaultRouteLabeler. intros [->|Hp]; [by left|]. destruct (String.eqb_spec p ""); [by left|done]. Qed.

(** The status a handler of one status sends is the one recorded. *)
Lemma WriteHeader_first w status :
  w_sent w = None → informational status = false → w_sent (WriteHeader w status) = Some (status, w_header w).
Proof. intros Hs Hi. unfold WriteHeader. rewrite Hi. cbn. by rewrite Hs. Qed.

Lemma Write_keeps w c s : w_sent w = Some s → w_sent (Write w c) = Some s.
Proof. intros Hs. destruct s as [status h]. rewrite (Write_sent _ _ _ _ Hs). by destruct (bodyAllowed status). Qed.

Lemma gzAct_keeps g a s :
  continues a → wroteHeader g = true → w_sent (gz_w g) = Some s →
  wroteHeader (gzAct g a) = true ∧ w_sent (gz_w (gzAct g a)) = Some s.
Proof.
  intros Hc Hw Hs. destruct a; [|done| |]; cbn [gzAct].
  - by split.
  - unfold gzWrite. rewrite Hw. cbn [gz_w wroteHeader]. by split; [|apply Write_keeps].
  - destruct (passthrough g); cbn [gz_w wroteHeader]; (split; [done|]); [by rewrite (WriteHeader_sent _ _ _ Hs)|by apply Write_keeps].
Qed.

Lemma gzWriteHeader_sends g status :
  w_sent (gz_w g) = None → informational status = false →
  wroteHeader (gzWriteHeader g status) = true ∧ ∃ h, w_sent (gz_w (gzWriteHeader g status)) = Some (status, h).
Proof.
  intros Hs Hi. unfold gzWriteHeader.
  repeat match goal with |- context [if ?b then _ else _] => destruct b end; cbn [gz_w wroteHeader];
    (split; [done|]); eexists; by apply WriteHeader_first.
Qed.

Lemma recorded_rest rest st : Forall continues rest → fst st = true → foldl recordZipped st rest = st.
Proof.
  intros Hr. revert st. induction Hr as [|a rest Ha _ IH]; intros st Hst; [done|]. cbn [foldl]. rewrite IH;
    destruct a; try done; cbn; by rewrite Hst.
Qed.

Lemma recorded_plain_rest rest code : Forall continues rest → foldl recordPlain code rest = code.
Proof. intros Hr. revert code. induction Hr as [|a rest Ha _ IH]; intros code; [done|]. cbn [foldl]. rewrite IH. by destruct a. Qed.

Lemma Write_first w c : w_sent w = None → w_sent (Write w c) = Some (200, w_header w).
Proof.
  intros Hs. pose proof (WriteHeader_first w 200 Hs eq_refl) as H. unfold Write. rewrite H. done.
Qed.

(** One action of a handler on the connection's own writer. *)
Definition plainAct (w : writer) (a : action) : writer :=
  match a with
  | SetHeader k v => with_header w (header_Set (w_header w) k v)
  | SendStatus status => WriteHeader w status
  | SendBody b => Write w (Written b)
  | SendFlush => WriteHeader w 200
  end.

Lemma plainAct_keeps w a s : continues a → w_sent w = Some s → w_sent (plainAct w a) = Some s.
Proof. intros Hc Hs. destruct a; [done|done|by apply Write_keeps|]. cbn [plainAct]. by rewrite (WriteHeader_sent _ _ _ Hs). Qed.

Lemma plain_recorded headers first rest w :
  sends first → Forall continues rest → w_sent w = None →
  let actions := map (λ p, SetHeader p.1 p.2) headers ++ first :: rest in
  ∃ h, w_sent (foldl plainAct w actions) = Some (foldl recordPlain 200 actions, h).
Proof.
  intros Hf Hr. revert w. induction headers as [|p headers IH]; intros w Hs; [|cbn; by apply IH].
  cbn [map app foldl]. rewrite recorded_plain_rest by done.
  assert (Hfirst : ∃ h, w_sent (plainAct w first) = Some (recordPlain 200 first, h)).
  { destruct first as [|status|b|]; try done; [eexists; by apply WriteHeader_first|eexists; by apply Write_first]. }
  destruct Hfirst as [h Hh]. exists h. revert Hh. generalize (plainAct w first). clear Hs w.
  induction Hr as [|a rest Ha _ IH]; intros w Hw; [done|]. cbn [foldl]. apply IH. by apply plainAct_keeps.
Qed.

Lemma zipped_recorded headers first rest g :
  sends first → Forall continues rest → w_sent (gz_w g) = None → wroteHeader g = false →
  let actions := map (λ p, SetHeader p.1 p.2) headers ++ first :: rest in
  ∃ h, w_sent (gz_w (foldl gzAct g actions)) = Some (snd (foldl recordZipped (false, 200) actions), h).
Proof.
  intros Hf Hr. revert g. induction headers as [|p headers IH]; intros g Hs Hw; [|cbn; by apply IH].
  cbn [map app foldl]. rewrite recorded_rest by (done || by destruct first).
  assert (Hfirst : ∃ h, wroteHeader (gzAct g first) = true ∧ w_sent (gz_w (gzAct g first)) = Some (snd (recordZipped (false, 200) first), h)).
  { destruct first as [|status|b|]; try done; cbn [gzAct recordZipped snd fst].
    - destruct (gzWriteHeader_sends g status Hs Hf) as [? [h ?]]. by exists h.
    - unfold gzWrite. rewrite Hw. destruct (gzWriteHeader_sends g 200 Hs eq_refl) as [Hw' [h Hh]]. exists h.
      cbn [gz_w wroteHeader]. split; [done|]. by apply Write_keeps. }
  destruct Hfirst as (h & Hw1 & Hh). exists h. revert Hw1 Hh. generalize (gzAct g first). clear Hs Hw g.
  induction Hr as [|a rest Ha _ IH]; intros g Hw Hs; [done|]. cbn [foldl].
  destruct (gzAct_keeps g a _ Ha Hw Hs). by apply IH.
Qed.

(** A handler that sends its headers, one final status and its body. *)
Definition ordinary (actions : list action) : Prop :=
  ∃ headers first rest, actions = setting_headers headers ++ first :: rest ∧ sends first ∧ Forall continues rest.

Lemma recorded_sent acceptEncoding actions w :
  ordinary actions → w_sent w = None →
  ∃ h, w_sent (withGzip acceptEncoding actions w) = Some (recordedStatus acceptEncoding actions, h).
Proof.
  intros (headers & first & rest & -> & Hf & Hr) Hs. unfold withGzip, recordedStatus.
  destruct (containsText acceptEncoding "gzip"); cbn [negb]; [|exact (plain_recorded headers first rest w Hf Hr Hs)].
  destruct (zipped_recorded headers first rest {| gz_w := w; wroteHeader := false; passthrough := false |}) as [h Hh]; [done..|].
  exists h. cbn zeta. destruct (_ && _); [by apply Write_keeps|exact Hh].
Qed.

Lemma headers_unsent acceptEncoding headers w :
  w_sent w = None → w_sent (withGzip acceptEncoding (map (λ p, SetHeader p.1 p.2) headers) w) = None.
Proof.
  intros Hs. unfold withGzip. destruct (negb (containsText acceptEncoding "gzip")).
  - revert w Hs. induction headers as [|p headers IH]; intros w Hs; [done|]. cbn [map foldl]. by apply IH.
  - assert (Hg : ∀ g, w_sent (gz_w g) = None → wroteHeader g = false →
      let g' := foldl gzAct g (map (λ p, SetHeader p.1 p.2) headers) in w_sent (gz_w g') = None ∧ wroteHeader g' = false).
    { induction headers as [|p headers IH]; intros g Hg Hw; [done|]. cbn [map foldl]. by apply IH. }
    destruct (Hg {| gz_w := w; wroteHeader := false; passthrough := false |}) as [H1 H2]; [done..|]. cbn zeta in *. rewrite H2. exact H1.
Qed.

(** Whatever is asked for, telemetry labels it by a pattern of the table, so by
    one of seventeen labels. A request answered as handlers answer, once, is
    observed with the status it was sent; one whose handler panics before it sends
    anything is answered and observed as a 500, and counted; a connection that is
    dropped is not observed. *)
Theorem requests_observed {A} (encode : body A → string) Os generated handler redirect req panics :
  let '(o, observed, panics') := Handler encode Os generated handler redirect req panics in
  let h := fst (routed handler redirect req) in
  (∀ label code, observed = Some (label, code) → label ∈ labels) ∧ length labels = 17%nat ∧
  (rq_method req ≠ "OPTIONS" → ordinary (hd_actions h) → hd_ending h = Returning →
     ∃ w label code sent, o = Returned w ∧ observed = Some (label, code) ∧ w_sent w = Some (code, sent) ∧ panics' = panics) ∧
  (rq_method req ≠ "OPTIONS" → (∃ headers, hd_actions h = map (λ p, SetHeader p.1 p.2) headers) → hd_ending h = Panicking →
     ∃ w label sent, o = Returned w ∧ observed = Some (label, 500) ∧ w_sent w = Some (500, sent) ∧
       panics' = <[label := default 0 (panics !! label) + 1]> panics) ∧
  (rq_method req ≠ "OPTIONS" → hd_ending h = Aborting → observed = None).
Proof.
  unfold Handler, withRequestID.
  assert (Hl : ∀ b : bool, DefaultRouteLabeler (if b then "" else snd (routed handler redirect req)) ∈ labels).
  { intros b. apply DefaultRouteLabeler_label. destruct b; [by left|right]. unfold routed, mux.
    destruct (_ && _); [apply dispatch_label|]. pose proof (dispatch_label (rq_method req) (rq_path req)) as H.
    by destruct (dispatch (rq_method req) (rq_path req)). }
  destruct (routed handler redirect req) as [h pattern]. cbn [fst snd] in *.
  set (label := DefaultRouteLabeler _). assert (Hlab : label ∈ labels) by (unfold label; apply Hl).
  assert (Hany : ∀ c : Z, ∀ l code, Some (label, c) = Some (l, code) → l ∈ labels) by (by intros c l code [= <- _]).
  clearbody label. unfold withCORS.
  destruct (String.eqb_spec (rq_method req) "OPTIONS") as [Ho|Ho].
  { cbn [withRecovery]. split_and!; [apply Hany|done|done..]. }
  set (w0 := with_header _ _). assert (Hw0 : w_sent w0 = None) by done.
  destruct (hd_ending h) eqn:Ee; cbn [withRecovery]; split_and!; try done; try apply Hany.
  - intros _ Hord _. destruct (recorded_sent (rq_acceptEncoding req) _ w0 Hord Hw0) as [sent Hsent].
    by exists (withGzip (rq_acceptEncoding req) (hd_actions h) w0), label, (recordedStatus (rq_acceptEncoding req) (hd_actions h)), sent.
  - intros _ [headers Hh] _. pose proof (headers_unsent (rq_acceptEncoding req) headers w0 Hw0) as Hu. rewrite <-Hh in Hu.
    eexists _, label, _. split_and!; [done|done| |done]. unfold WriteError, WriteFieldError, writeBody.
    apply Write_keeps, WriteHeader_first; [exact Hu|done].
Qed.

(** ** At concrete inputs *)

Lemma links_read_back_witness :
  mux "GET" "/api/workloads/prod/Deployment/web.v2" =
  Handled (WorkloadDetail "prod" "Deployment" "web.v2") "GET /api/workloads/{namespace}/{kind}/{name}".
Proof.
  apply (links_read_back (WorkloadDetail "prod" "Deployment" "web.v2") "GET"
    ["api"; "workloads"; "prod"; "Deployment"; "web.v2"]); [reflexivity|].
  repeat constructor; discriminate.
Defined.

Lemma pages_served_witness : handleUI (λ p, String.eqb p "index.html") "/workloads/prod/Deployment/web" = Index.
Proof.
  apply (pages_served (λ p, String.eqb p "index.html") "/workloads/prod/Deployment/web" "web"); [reflexivity|].
  split_and!; reflexivity.
Defined.
