(* ===== verification/AdmissionHttp.v ===== *)
(** * The webhook over HTTP ([ServeHTTP] and [admit] of [internal/webhook/handler.go],
    the mux and the middleware of [cmd/webhook/serve.go])

    From the bytes of a request to the bytes of its answer: what is read of the
    body, the admission of [Webhook] it asks for, and the response, within the
    request's ID, the telemetry and the recovery. What decoding the first JSON
    value of a text answers, and what encoding a review answers, are arguments,
    as are the answers of [/metrics] and of the library's redirects. *)

From Stdlib Require Import Ascii.
From S2P Require Import Prelude GoLang GoText GoStrings Quantity Kube Governance WlrApi WlrRead WlrWrite Webhook HttpLayer Routes.
Local Open Scope Z_scope.

Definition maxAdmissionBodyBytes : nat := Nat.pow 2 20.
Definition admissionTimeout : duration := 4 * second.
Definition recommendationReadTimeout : duration := 1 * second.
Definition governanceTimeout : duration := admissionTimeout - recommendationReadTimeout.
Definition apiCallTimeout : duration := 2 * second.

(** [http.MaxBytesReader]: what can be read of a body. *)
Definition MaxBytesReader (body : string) : string := String.substring 0 maxAdmissionBodyBytes body.

Section AdmissionHttp.
Context {QO : QuantityOps} {KO : KubeOps}.

(** An [AdmissionReview]: the request's UID, namespace and object, as it was
    sent, and the response with the UID it answers. *)
Record AdmissionRequest := { ar_UID : string; ar_Namespace : string; ar_Raw : string }.

Record AdmissionReview := {
  rv_Kind : string;
  rv_APIVersion : string;
  rv_Request : option AdmissionRequest;
  rv_Response : option (string * AdmissionResponse);
}.

(** What the JSON library answers. *)
Class ReviewJSON := {
  DecodeReview : string → result AdmissionReview;
  UnmarshalPod : string → result Pod;
  EncodeReview : AdmissionReview → result string;
}.

Context {HA : Hashing} {RJ : ReviewJSON} {A : Type}.
Implicit Types (encode : body A → string).

(** [decodePod], before the namespace is set. *)
Definition decodePod (req : AdmissionRequest) : result Pod :=
  if String.eqb (ar_Raw req) "" then Err (ErrorNew "admission request carries no object") else UnmarshalPod (ar_Raw req).

Definition admit_raw (h : Webhook.Handler) (now : time) (panics : bool) (req : AdmissionRequest) : AdmissionResponse * list admit_effect :=
  admit_request h now panics (ar_Namespace req) (decodePod req).

(** [httpx.WriteError], as what it does with the writer. *)
Definition writeError encode (rid : string) (status : Z) (msg : string) : list action :=
  [SetHeader "Content-Type" "application/json"; SendStatus status;
   SendBody (encode (APIError (ErrorCodeForStatus status) msg "" rid))].

(** [Handler.ServeHTTP]: what it does with the writer, and what the admission does
    besides. [rid] is the request's ID. *)
Definition ServeHTTP encode (h : Webhook.Handler) (now : time) (panics : bool) (rid body : string) : list action * list admit_effect :=
  match DecodeReview (MaxBytesReader body) with
  | Err _ => (writeError encode rid 400 "invalid body", [])
  | Ok review =>
      match rv_Request review with
      | None => (writeError encode rid 400 "missing request", [])
      | Some req =>
          let '(resp, effects) := admit_raw h now panics req in
          let review :=
            {| rv_Kind := rv_Kind review; rv_APIVersion := rv_APIVersion review; rv_Request := rv_Request review;
               rv_Response := Some (ar_UID req, resp) |} in
          (SetHeader "Content-Type" "application/json" ::
             match EncodeReview review with Ok text => [SendBody text] | Err _ => [] end, effects)
      end
  end.

(** ** The mux *)

Inductive endpoint := Mutate | WebhookMetrics | WebhookHealthz.

Definition endpoints : list (string * endpoint) :=
  [("mutate", Mutate); ("metrics", WebhookMetrics); ("healthz", WebhookHealthz)].

(** The endpoint of a path and its pattern; the patterns are of any method. *)
Definition webhookDispatch (path : string) : option (endpoint * string) :=
  match segmentsOf path with
  | ([segment], false) => p ← List.find (λ p, String.eqb p.1 segment) endpoints; Some (p.2, "/" +:+ p.1)
  | _ => None
  end.

(** [http.NotFound] *)
Definition NotFound : list action :=
  [SetHeader "Content-Type" "text/plain; charset=utf-8"; SetHeader "X-Content-Type-Options" "nosniff"; SendStatus 404;
   SendBody ("404 page not found" +:+ String (ascii_of_nat 10) "")].

(** The request handed to the mux: what is done with the writer, how it ends, the
    pattern set, and what an admission does besides. *)
Definition webhookMux (metrics redirect : handled) encode (h : Webhook.Handler) (now : time) (panics : bool) (method path rid body : string) :
    handled * string * list admit_effect :=
  let clean := cleanPath path in
  let found := webhookDispatch (if String.eqb method "CONNECT" then path else clean) in
  let pattern := default "" (snd <$> found) in
  if negb (String.eqb method "CONNECT") && negb (String.eqb clean path) then (redirect, pattern, [])
  else
    match found with
    | None => ({| hd_actions := NotFound; hd_ending := Returning |}, pattern, [])
    | Some (Mutate, _) =>
        let '(actions, effects) := ServeHTTP encode h now panics rid body in
        ({| hd_actions := actions; hd_ending := Returning |}, pattern, effects)
    | Some (WebhookMetrics, _) => (metrics, pattern, [])
    | Some (WebhookHealthz, _) => ({| hd_actions := [SendStatus 200]; hd_ending := Returning |}, pattern, [])
    end.

(** The handler [serve] wraps: the request's ID outermost, then the telemetry,
    then the recovery. The answer, what telemetry observes of it, the panics
    counted and what the admission does. *)
Definition webhookHandler (metrics redirect : handled) encode (generated : string) (h : Webhook.Handler) (now : time) (panics : bool)
    (method path requestID body : string) (counted : gmap string Z) :
    outcome * option (string * Z) * gmap string Z * list admit_effect :=
  let '(w, rid) := withRequestID requestID generated (newWriter ∅) in
  let '(h, pattern, effects) := webhookMux metrics redirect encode h now panics method path rid body in
  let label := DefaultRouteLabeler pattern in
  let w := foldl plainAct w (hd_actions h) in
  let o := match hd_ending h with Returning => Returned w | Panicking => Panics w | Aborting => Aborted w end in
  let '(o', counted) := withRecovery encode label o counted in
  (o', match o with
       | Returned _ => Some (label, foldl recordPlain 200 (hd_actions h))
       | Panics _ => Some (label, 500)
       | Aborted _ => None
       end, counted, effects).

(** ** Facts *)

Lemma writeError_writer encode w status msg :
  foldl plainAct w (writeError encode (header_Get (w_header w) RequestIDHeader) status msg) = WriteError encode w status msg.
Proof. reflexivity. Qed.

Lemma dispatch_pattern path e p :
  webhookDispatch path = Some (e, p) → p ∈ ["/mutate"; "/metrics"; "/healthz"].
Proof.
  unfold webhookDispatch. destruct (segmentsOf path) as [[|s [|]] []]; try done.
  unfold endpoints. cbn [List.find fst snd].
  repeat (destruct (String.eqb _ s); [intros [= <- <-]; apply (bool_decide_unpack _); vm_compute; exact I|]). done.
Qed.

Lemma admit_allows h now panics req : Allowed (fst (admit_raw h now panics req)) = true.
Proof. unfold admit_raw, admit_request, admitDecoded. destruct (decodePod req); [|done]. by destruct panics. Qed.

(** C8: Every request is labelled by one of four labels. A request at [/mutate], of
    whatever bytes, is answered once, with the request's ID, as JSON, and counts no
    panic: 400 exactly when no review ends within the megabyte read or it has no
    request; otherwise 200 with that review, the response of its admission in it
    under its own UID, and that response allows the pod, even when the admission
    panics. *)
Theorem admission_answered metrics redirect encode generated h now panics method path requestID body counted :
  let '(o, observed, counted', effects) :=
    webhookHandler metrics redirect encode generated h now panics method path requestID body counted in
  (∀ label code, observed = Some (label, code) → label ∈ ["unknown"; "/mutate"; "/metrics"; "/healthz"]) ∧
  (path = "/mutate" →
     counted' = counted ∧ ∃ w code, o = Returned w ∧ observed = Some ("/mutate", code) ∧
     header_Get (w_header w) RequestIDHeader = (if String.eqb requestID "" then generated else requestID) ∧
     header_Get (w_header w) "Content-Type" = "application/json" ∧
     match DecodeReview (MaxBytesReader body) with
     | Ok {| rv_Kind := kind; rv_APIVersion := version; rv_Request := Some req |} =>
         code = 200 ∧ ∃ resp, Allowed resp = true ∧ (resp, effects) = admit_raw h now panics req ∧
         match EncodeReview {| rv_Kind := kind; rv_APIVersion := version; rv_Request := Some req;
                               rv_Response := Some (ar_UID req, resp) |} with
         | Ok text => w_sent w = Some (200, w_header w) ∧ w_body w = [Written text]
         | Err _ => w_sent w = None ∧ w_body w = []
         end
     | _ => code = 400 ∧ w_sent w = Some (400, w_header w) ∧ effects = []
     end).
Proof.
  unfold webhookHandler, withRequestID. set (rid := if String.eqb requestID "" then generated else requestID).
  destruct (webhookMux _ _ _ _ _ _ _ _ _ _) as [[hd pattern] effects] eqn:Em. cbn zeta.
  assert (Hl : DefaultRouteLabeler pattern ∈ ["unknown"; "/mutate"; "/metrics"; "/healthz"]).
  { assert (Hp : pattern = default "" (snd <$> webhookDispatch (if String.eqb method "CONNECT" then path else cleanPath path))).
    { unfold webhookMux in Em. cbn zeta in Em. destruct (_ && _); [by injection Em as _ <- _|].
      destruct (webhookDispatch _) as [[[] p]|]; try (by injection Em as _ <- _).
      destruct (ServeHTTP _ _ _ _ _ _). by injection Em as _ <- _. }
    destruct (webhookDispatch _) as [[e p]|] eqn:Ed; cbn in Hp; subst pattern; [|by left].
    apply dispatch_pattern in Ed. unfold DefaultRouteLabeler. right. destruct (String.eqb_spec p "") as [->|]; [|done].
    rewrite list_elem_of_In in Ed. cbn in Ed. repeat destruct Ed as [Ed|Ed]; discriminate || done. }
  destruct (withRecovery _ _ _ _) as [o' counted'] eqn:Er. split.
  { intros l c Ho. destruct (hd_ending hd); [injection Ho as <- _|injection Ho as <- _|done]; exact Hl. }
  intros ->. unfold webhookMux in Em. change (cleanPath "/mutate") with "/mutate" in Em.
  rewrite andb_false_r in Em. assert (Hd : (if String.eqb method "CONNECT" then "/mutate" else "/mutate") = "/mutate") by (destruct (String.eqb method "CONNECT"); reflexivity).
  rewrite Hd in Em. change (webhookDispatch "/mutate") with (Some (Mutate, "/mutate")) in Em.
  destruct (ServeHTTP _ _ _ _ _ _) as [actions eff] eqn:Es. cbn in Em. injection Em as <- <- <-.
  cbn [hd_ending hd_actions withRecovery] in *. injection Er as <- <-. split; [done|].
  eexists _, _. split; [done|]. split; [done|]. unfold ServeHTTP in Es.
  destruct (DecodeReview (MaxBytesReader body)) as [[kind version [req|] resp0]|e]; cbn [rv_Request rv_Kind rv_APIVersion] in Es.
  - pose proof (admit_allows h now panics req) as Ha. destruct (admit_raw h now panics req) as [resp fx]. cbn [fst] in Ha.
    injection Es as <- <-. destruct (EncodeReview _) as [text|e] eqn:Ee; cbn; (split_and!; [vm_compute; reflexivity|vm_compute; reflexivity|done|]);
      exists resp; rewrite Ee; by split_and!.
  - injection Es as <- <-. by split_and!; [vm_compute; reflexivity|vm_compute; reflexivity|..].
  - injection Es as <- <-. by split_and!; [vm_compute; reflexivity|vm_compute; reflexivity|..].
Qed.
End AdmissionHttp.

(** ** At a concrete request *)
Section Sample.
#[local] Existing Instance nano_quantity.
#[local] Existing Instance simple_kube.
#[local] Existing Instance plain_hashing.

(** A library that reads one review and its pod. *)
#[local] Instance sample_json : ReviewJSON :=
  {| DecodeReview text := if String.eqb text "review"
       then Ok {| rv_Kind := "AdmissionReview"; rv_APIVersion := "admission.k8s.io/v1";
                  rv_Request := Some {| ar_UID := "u1"; ar_Namespace := "prod"; ar_Raw := "pod" |}; rv_Response := None |}
       else Err (ErrorNew "invalid character");
     UnmarshalPod _ := Ok (sample_bare_pod (pod_Containers Match.sample_pod));
     EncodeReview review := match rv_Response review with
       | Some (uid, resp) => Ok (uid +:+ (if Allowed resp then " allowed " else " denied ") +:+ Itoa (Z.of_nat (length (Patch resp))))
       | None => Err (ErrorNew "no response")
       end |}.

Definition nothing : handled := {| hd_actions := []; hd_ending := Returning |}.

(** The answer to a body posted to [/mutate], and what telemetry observes. *)
Definition sample_answer (body : string) : list chunk * option (string * Z) :=
  match webhookHandler (A := unit) nothing nothing (λ _, "error") "generated" sample_handler hour false "POST" "/mutate" "r1" body ∅ with
  | (Returned w, observed, _, _) => (w_body w, observed)
  | _ => ([], None)
  end.

Example review_answered : sample_answer "review" = ([Written "u1 allowed 2"], Some ("/mutate", 200)).
Proof. by_running. Qed.

Lemma admission_answered_witness : snd (sample_answer "not a review") = Some ("/mutate", 400).
Proof.
  unfold sample_answer.
  pose proof (admission_answered (A := unit) nothing nothing (λ _, "error") "generated" sample_handler hour false "POST" "/mutate" "r1"
    "not a review" ∅) as H.
  destruct (webhookHandler _ _ _ _ _ _ _ _ _ _ _ _) as [[[o observed] counted] effects].
  destruct H as [_ H]. destruct (H eq_refl) as (_ & w & code & -> & -> & _ & _ & Hd).
  assert (E : DecodeReview (MaxBytesReader "not a review") = Err (ErrorNew "invalid character")) by by_running.
  rewrite E in Hd. destruct Hd as [-> _]. reflexivity.
Defined.
End Sample.
